(** * file-list: hierarchically sorted file lists

    A shallow embedding of [file_list.c] / [file_list.h] and the properties
    of its comparators, of the directory traversal and of the two public
    entry points [file_list_create] and [file_list_merge].

    Conventions.
    - A character is an [unsigned char] value, a [Z] in [0, 255].
    - A C string is the list of its bytes before the terminator; the object
      that holds it in memory is [cstr s = s ++ [0]].
    - A [char *] handed to a comparator is modelled by the bytes of the
      object from the pointer to the end of the allocation; a read outside
      the object has no defined result, which is [None].
    - [int], [size_t] and [ssize_t] values are [Z]; [size_t] arithmetic
      that can wrap is written out modulo [SIZE_MAX + 1]. *)

From Stdlib Require Import String Ascii ZArith List Bool Lia Permutation.
Import ListNotations.
Open Scope Z_scope.

Declare Scope opt_scope.
Delimit Scope opt_scope with opt.
Notation "x <- e ;; k" :=
  (match e with Some x => k | None => None end)
  (at level 61, e at next level, right associativity) : opt_scope.
Notation "' p <- e ;; k" :=
  (match e with Some p => k | None => None end)
  (at level 61, p pattern, e at next level, right associativity) : opt_scope.
Open Scope opt_scope.

(** ** Characters and strings *)

Definition DIR_SEPARATOR : Z := 47.

(** The bytes of a Rocq string literal. *)
Definition str (s : string) : list Z :=
  map (fun a => Z.of_nat (nat_of_ascii a)) (list_ascii_of_string s).

(** The object holding a C string: its bytes and the terminator. *)
Definition cstr (s : list Z) : list Z := s ++ [0].

(** <ctype.h> in the C locale. *)
Definition isdigit (c : Z) : bool := (48 <=? c) && (c <=? 57).
Definition tolower (c : Z) : Z := if (65 <=? c) && (c <=? 90) then c + 32 else c.

(** ** String comparisons *)

(** The do-while loop of [strcmp_default]; [c1] and [c2] are the two
    character pointers, [temp_ret] the deferred case tie-break. *)
Fixpoint strcmp_default_loop (temp_ret : Z) (c1 c2 : list Z) {struct c1}
  : option Z :=
  match c1, c2 with
  | x :: c1', y :: c2' =>
      (* c1++; c2++; the loop condition, and the code after the loop *)
      let next (temp_ret : Z) :=
        match c1', c2' with
        | x' :: _, y' :: _ =>
            if negb (x' =? 0) && negb (y' =? 0)
            then strcmp_default_loop temp_ret c1' c2'
            else if x' =? y' then Some temp_ret else Some (x' - y')
        | _, _ => None
        end in
      if negb (x =? y) then
        let lc1 := tolower x in
        let lc2 := tolower y in
        if lc1 =? lc2
        then next (if temp_ret =? 0 then y - x else temp_ret)
        else Some (lc1 - lc2)
      else next temp_ret
  | _, _ => None
  end.

Definition strcmp_default (s1 s2 : list Z) : option Z :=
  strcmp_default_loop 0 s1 s2.

(** The loop that advances [c] while the character after it is a digit: the
    result points at the last digit of the run that [c] is in. *)
Fixpoint digits_end (c : list Z) : option (list Z) :=
  match c with
  | _ :: ((y :: _) as c') => if isdigit y then digits_end c' else Some c
  | _ => None
  end.

(** The loop that advances [p] over zero digits while [p < c]; pointers
    into one object compare by what is left of the object behind them. *)
Fixpoint skip_zeroes (p c : list Z) : list Z :=
  match p with
  | x :: p' =>
      if (x =? 48) && (length c <? length p)%nat then skip_zeroes p' c else p
  | [] => []
  end.

(** Pointer difference [c - p] of two pointers into one object. *)
Definition ptr_diff (c p : list Z) : Z :=
  Z.of_nat (length p) - Z.of_nat (length c).

(** The for loop over the two stripped digit runs, up to [c1] and [c2].
    [Some d] is the value returned from inside the loop, [None] means that
    the loop ran to its end. *)
Fixpoint digits_differ (p1 p2 c1 c2 : list Z) : option Z :=
  match p1, p2 with
  | x :: p1', y :: p2' =>
      if (length c1 <=? length p1)%nat && (length c2 <=? length p2)%nat
      then if negb (x =? y) then Some (x - y) else digits_differ p1' p2' c1 c2
      else None
  | _, _ => None
  end.

(** The do-while loop of [strcmp_natural]. Every round moves [c1] forward,
    so [length c1] rounds are enough: [fuel] only makes the recursion
    structural. *)
Fixpoint strcmp_natural_loop (fuel : nat) (temp_ret : Z) (c1 c2 : list Z)
  : option Z :=
  match fuel with
  | O => None
  | S fuel =>
      match c1, c2 with
      | x :: _, y :: _ =>
          let next (temp_ret : Z) (c1 c2 : list Z) :=
            match tl c1, tl c2 with
            | (x' :: _) as c1', (y' :: _) as c2' =>
                if negb (x' =? 0) && negb (y' =? 0)
                then strcmp_natural_loop fuel temp_ret c1' c2'
                else if x' =? y' then Some temp_ret else Some (x' - y')
            | _, _ => None
            end in
          if isdigit x && isdigit y then
            let z1 := c1 in
            let z2 := c2 in
            e1 <- digits_end c1 ;;
            e2 <- digits_end c2 ;;
            let p1 := skip_zeroes c1 e1 in
            let p2 := skip_zeroes c2 e2 in
            let len1 := ptr_diff e1 p1 in
            let len2 := ptr_diff e2 p2 in
            if negb (len1 =? len2) then Some (len1 - len2)
            else
              match digits_differ p1 p2 e1 e2 with
              | Some d => Some d
              | None =>
                  let len1 := ptr_diff e1 z1 in
                  let len2 := ptr_diff e2 z2 in
                  if negb (len1 =? len2) then Some (len2 - len1)
                  else next temp_ret e1 e2
              end
          else if negb (x =? y) then
            let lc1 := tolower x in
            let lc2 := tolower y in
            if lc1 =? lc2
            then next (if temp_ret =? 0 then y - x else temp_ret) c1 c2
            else Some (lc1 - lc2)
          else next temp_ret c1 c2
      | _, _ => None
      end
  end.

Definition strcmp_natural (s1 s2 : list Z) : option Z :=
  strcmp_natural_loop (length s1) 0 s1 s2.

(** <string.h> [strcmp]: the first differing bytes decide. ISO C fixes the
    sign of the result only; the byte difference is what the usual
    implementations return. *)
Fixpoint strcmp (s1 s2 : list Z) : option Z :=
  match s1, s2 with
  | x :: s1', y :: s2' =>
      if x =? y then (if x =? 0 then Some 0 else strcmp s1' s2')
      else Some (x - y)
  | _, _ => None
  end.

(** ** Callbacks for qsort *)

(** [strrchr(s, c)] as the offset of the last [c] in [s]; [None] is the
    null pointer. *)
Fixpoint strrchr (s : list Z) (c : Z) : option nat :=
  match s with
  | [] => None
  | x :: s' =>
      match strrchr s' c with
      | Some i => Some (S i)
      | None => if x =? c then Some O else None
      end
  end.

(** [qsort_compar]. The separator is overwritten by a terminator while the
    directory parts are compared, so the comparator sees the objects
    [dir 0 base 0]; writing through the null pointer that [strrchr] returns
    for a path without separator has no defined result. *)
Definition qsort_compar (compar_fn : list Z -> list Z -> option Z)
    (path1 path2 : list Z) : option Z :=
  sep1 <- strrchr path1 DIR_SEPARATOR ;;
  sep2 <- strrchr path2 DIR_SEPARATOR ;;
  let base1 := cstr (skipn (S sep1) path1) in
  let base2 := cstr (skipn (S sep2) path2) in
  result <- compar_fn (firstn sep1 path1 ++ 0 :: base1)
                      (firstn sep2 path2 ++ 0 :: base2) ;;
  if result =? 0 then compar_fn base1 base2 else Some result.

Inductive FL_SORT_METHOD : Set :=
| FL_SORT_NONE
| FL_SORT_DEFAULT
| FL_SORT_NATURAL
| FL_SORT_COLLATE
| FL_SORT_ASCII.

(** <stdlib.h> [qsort] over an array of strings. ISO C leaves open the
    algorithm, which pairs of elements it compares (an element with itself
    is not excluded) and the order of elements that compare equal. The model
    is one such algorithm, a stable insertion sort: it compares an element
    only with elements that follow it in the array, and a comparison without
    defined result leaves the sort without one. What is proved of a sorted
    list beyond its being a permutation is proved of this algorithm. *)
Fixpoint qsort_insert (compar : list Z -> list Z -> option Z)
    (x : list Z) (l : list (list Z)) : option (list (list Z)) :=
  match l with
  | [] => Some [x]
  | y :: l' =>
      r <- compar x y ;;
      if r <=? 0 then Some (x :: l)
      else l'' <- qsort_insert compar x l' ;; Some (y :: l'')
  end.

Fixpoint qsort (compar : list Z -> list Z -> option Z)
    (base : list (list Z)) : option (list (list Z)) :=
  match base with
  | [] => Some []
  | x :: base' => s <- qsort compar base' ;; qsort_insert compar x s
  end.

Section Collation.

(** <string.h> [strcoll], which reads the ambient locale. *)
Variable strcoll : list Z -> list Z -> option Z.

Definition qsort_compar_default := qsort_compar strcmp_default.
Definition qsort_compar_natural := qsort_compar strcmp_natural.
Definition qsort_compar_collate := qsort_compar strcoll.
Definition qsort_compar_ascii := qsort_compar strcmp.

Definition get_compar_fn (sort_method : FL_SORT_METHOD)
  : option (list Z -> list Z -> option Z) :=
  match sort_method with
  | FL_SORT_DEFAULT => Some qsort_compar_default
  | FL_SORT_NATURAL => Some qsort_compar_natural
  | FL_SORT_COLLATE => Some qsort_compar_collate
  | FL_SORT_ASCII => Some qsort_compar_ascii
  | FL_SORT_NONE => None
  end.

End Collation.

(** ** Constants of the headers *)

(** <errno.h>, Linux values. *)
Definition E2BIG : Z := 7.
Definition ENOMEM : Z := 12.
Definition EACCES : Z := 13.
Definition ERANGE : Z := 34.

(** <regex.h>, glibc values. *)
Definition REG_EXTENDED : Z := 1.
Definition REG_ICASE : Z := 2.
Definition REG_NOSUB : Z := 8.

(** <dirent.h>. *)
Definition DT_UNKNOWN : Z := 0.
Definition DT_DIR : Z := 4.
Definition DT_LNK : Z := 10.

(** file_list.h: file types. *)
Definition FL_UNKNOWN : Z := 1.
Definition FL_FIFO : Z := 2.
Definition FL_CHR : Z := 4.
Definition FL_DIR : Z := 8.
Definition FL_BLK : Z := 16.
Definition FL_REG : Z := 32.
Definition FL_LNK : Z := 64.
Definition FL_SOCK : Z := 128.

(** file_list.h: flags. *)
Definition FL_FOLLOW_LINKS : Z := 1.
Definition FL_DIR_SEP : Z := 2.
Definition FL_REGEX_CASE : Z := 4.
Definition FL_REGEX_BASIC : Z := 8.
Definition FL_XDEV : Z := 16.

(** [x & m] used as a condition. *)
Definition has (x m : Z) : bool := negb (Z.land x m =? 0).

(** ** The file system as the traversal sees it *)

Record struct_stat : Set := mk_stat { st_dev : Z; st_ino : Z; st_mode : Z }.

Inductive stat_result : Set :=
| stat_fails (e : Z)
| stat_ok (sb : struct_stat).

(** What [opendir] and the [readdir] calls after it return for one
    directory. Every entry carries the answers of [stat] and [lstat] on its
    path, and of [opendir] on it should the traversal descend. *)
Inductive DIR : Set :=
| opendir_fails (e : Z)
| opendir_ok (entries : dirents)
with dirents : Set :=
| end_of_dir
| dirent (d_name : list Z) (d_type : Z) (st lst : stat_result)
         (sub : DIR) (rest : dirents).

(** ** Stat stack *)

Definition STAT_STACK_INITIAL_SIZE : Z := 512.

Record stat_stack : Set := mk_stack {
  size : Z;                      (* the allocated size of the array *)
  array : list struct_stat       (* array[0 .. top], bottom first *)
}.

Definition top (stack : stat_stack) : Z := Z.of_nat (length (array stack)) - 1.

(** ** Traversal state *)

Record state : Set := mk_state {
  file_list : list (list Z);     (* ( *file_list)[0 .. *n_file_list) *)
  n_file_list_max : Z;
  stack : stat_stack;
  errno : Z;
  heap : list bool;              (* the answers to the allocations to come *)
  freed : list (list Z);         (* the strings handed to free, in order *)
  stderr : list (option Z)       (* what the debug writes to come do to errno *)
}.

Definition n_file_list (s : state) : Z := Z.of_nat (length (file_list s)).

Definition set_errno (e : Z) (s : state) : state :=
  mk_state (file_list s) (n_file_list_max s) (stack s) e (heap s) (freed s)
           (stderr s).
Definition set_stack (k : stat_stack) (s : state) : state :=
  mk_state (file_list s) (n_file_list_max s) k (errno s) (heap s) (freed s)
           (stderr s).
Definition set_max (m : Z) (s : state) : state :=
  mk_state (file_list s) m (stack s) (errno s) (heap s) (freed s) (stderr s).
Definition set_list (l : list (list Z)) (s : state) : state :=
  mk_state l (n_file_list_max s) (stack s) (errno s) (heap s) (freed s)
           (stderr s).
Definition free (p : list Z) (s : state) : state :=
  mk_state (file_list s) (n_file_list_max s) (stack s) (errno s) (heap s)
           (freed s ++ [p]) (stderr s).
Definition free_if (p : option (list Z)) (s : state) : state :=
  match p with Some p => free p s | None => s end.

(** One [malloc] or [realloc]: the next answer of the allocator, every
    request succeeding once the listed answers are used up; a refusal sets
    [errno]. *)
Definition alloc (s : state) : bool * state :=
  match heap s with
  | [] => (true, s)
  | true :: h =>
      (true, mk_state (file_list s) (n_file_list_max s) (stack s) (errno s) h
                      (freed s) (stderr s))
  | false :: h =>
      (false, mk_state (file_list s) (n_file_list_max s) (stack s) ENOMEM h
                       (freed s) (stderr s))
  end.

(** The macro DEBUG_PRINTF, which file_list.h switches on by defining
    FL_DEBUG: one [fprintf] to [stderr], its arguments already evaluated.
    What the library knows of it afterwards is [errno], which the call may
    have set (as it does when the write fails) or left; once the listed
    answers are used up every write leaves [errno] alone. *)
Definition DEBUG_PRINTF (s : state) : state :=
  let e := match stderr s with Some e :: _ => e | _ => errno s end in
  mk_state (file_list s) (n_file_list_max s) (stack s) e (heap s) (freed s)
           (tl (stderr s)).

Definition stat_stack_push (s : state) (sb : struct_stat) : bool * state :=
  let k := stack s in
  if top k + 1 =? size k then
    match alloc s with
    | (true, s) => (true, set_stack (mk_stack (size k * 2) (array k ++ [sb])) s)
    | (false, s) => (false, s)
    end
  else (true, set_stack (mk_stack (size k) (array k ++ [sb])) s).

Definition stat_stack_pop (s : state) : state :=
  set_stack (mk_stack (size (stack s)) (removelast (array (stack s)))) s.

(** [is_directory_loop]. The loop runs from 0 to [top] converted to
    [size_t]: on an empty stack it leaves the array. *)
Definition is_directory_loop (k : stat_stack) (sb : struct_stat)
  : option bool :=
  match array k with
  | [] => None
  | entries =>
      Some (existsb (fun e => (st_ino e =? st_ino sb)
                              && (st_dev e =? st_dev sb)) entries)
  end.

(** ** Paths *)

(** The string that [create_path] builds: [dir] and [file], with a directory
    separator between them if [dir] does not end in one. *)
Definition path_of (dir file : list Z) : list Z :=
  if last dir 0 =? DIR_SEPARATOR then dir ++ file
  else dir ++ DIR_SEPARATOR :: file.

(** [create_path]. The outer [None] is the read of [dir[dir_len - 1]] in an
    empty [dir]; the inner one is the null pointer of a refused [malloc]. *)
Definition create_path (s : state) (dir file : list Z)
  : option (option (list Z) * state) :=
  match dir with
  | [] => None
  | _ =>
      match alloc s with
      | (true, s) => Some (Some (path_of dir file), s)
      | (false, s) => Some (None, s)
      end
  end.

(** The for loop of [create_clean_dir]: copy, omitting repeated separators. *)
Fixpoint omit_superfluous (prev_char_is_separator : bool) (directory : list Z)
  : list Z :=
  match directory with
  | [] => []
  | x :: rest =>
      if x =? DIR_SEPARATOR then
        if prev_char_is_separator then omit_superfluous true rest
        else x :: omit_superfluous true rest
      else x :: omit_superfluous false rest
  end.

(** The while loop of [create_clean_dir], on the reversed string: trailing
    separators go, but never the character at position 0. *)
Fixpoint remove_trailing (rev_dir : list Z) : list Z :=
  match rev_dir with
  | x :: ((_ :: _) as rest) =>
      if x =? DIR_SEPARATOR then remove_trailing rest else rev_dir
  | _ => rev_dir
  end.

Definition create_clean_dir (s : state) (directory : option (list Z))
  : option (list Z) * state :=
  match directory with
  | None => (None, s)
  | Some [] => (None, s)
  | Some directory =>
      match alloc s with
      | (false, s) => (None, s)
      | (true, s) =>
          (Some (rev (remove_trailing (rev (omit_superfluous false directory)))),
           s)
      end
  end.

(** How a part of the loop body of [parse_file_tree] ends: with [return r],
    with [continue], or by falling through to the next part. *)
Inductive control (A : Type) : Type :=
| Return (r : Z)
| Continue
| Go (a : A).
Arguments Return {A} r.
Arguments Continue {A}.
Arguments Go {A} a.

(** ** The library, over its external collaborators *)

Section FileList.

(** <regex.h>: [regcomp] answers with a compiled expression or fails;
    [regexec] answers whether a name matches. *)
Variable regex_t : Type.
Variable regcomp : list Z -> Z -> option regex_t.
Variable regexec : regex_t -> list Z -> bool.

(** <string.h> [strcoll]. *)
Variable strcoll : list Z -> list Z -> option Z.

(** The two array sizes that file_list.c defines as 512 and 1048576 and
    allows to be changed, and <stdint.h>'s [SIZE_MAX]. *)
Variable FL_INITIAL_LIST_SIZE : Z.
Variable FL_MAX_LIST_SIZE_defined : Z.
Variable SIZE_MAX : Z.

(** The size of a pointer to [char], in bytes. *)
Variable sizeof_char_ptr : Z.

(** The conditional redefinition that follows the two defines. *)
Definition FL_MAX_LIST_SIZE : Z :=
  if FL_MAX_LIST_SIZE_defined >? SIZE_MAX - 1 then SIZE_MAX - 1
  else FL_MAX_LIST_SIZE_defined.

(** [file_list_add]: the returned value and the state it leaves. The byte
    counts handed to the allocator are taken not to wrap. The new size is
    printed before [realloc] is called. *)
Definition file_list_add (s : state) (path : list Z) : Z * state :=
  if n_file_list s =? n_file_list_max s then
    if n_file_list s =? FL_MAX_LIST_SIZE then (-1, set_errno E2BIG s)
    else
      let new_size := (n_file_list_max s * 2) mod (SIZE_MAX + 1) in
      let new_size := if new_size <? n_file_list s then SIZE_MAX else new_size in
      let s :=
        if new_size >? FL_MAX_LIST_SIZE then set_max FL_MAX_LIST_SIZE s
        else set_max new_size s in
      let s := DEBUG_PRINTF s in
      match alloc s with
      | (false, s) => (-1, s)
      | (true, s) => (0, set_list (file_list s ++ [path]) s)
      end
  else (0, set_list (file_list s ++ [path]) s).

Definition matches_regex (file_name : list Z) (regex : regex_t) : bool :=
  regexec regex file_name.

Section Traversal.

Variable file_type_arr : list Z.
Variable file_ext : option regex_t.
Variable flags : Z.

(** The macro CREATE_CURRENT_PATH. *)
Definition CREATE_CURRENT_PATH (s : state) (current_path : option (list Z))
    (directory d_name : list Z) : option (control (list Z) * state) :=
  match current_path with
  | Some p => Some (Go p, s)
  | None =>
      ' (p, s) <- create_path s directory d_name ;;
      match p with
      | None => Some (Return (-1), s)
      | Some p => Some (Go p, s)
      end
  end.

(** "Get the file's type": [current_path], the stat buffer where [stat] or
    [lstat] filled it, and [current_type]. *)
Definition get_file_type (s : state) (directory d_name : list Z) (d_type : Z)
    (st lst : stat_result)
  : option (control (option (list Z) * option struct_stat * Z) * state) :=
  if (d_type =? DT_DIR) || (d_type =? DT_UNKNOWN)
     || ((d_type =? DT_LNK) && has flags FL_FOLLOW_LINKS)
  then
    ' (p, s) <- CREATE_CURRENT_PATH s None directory d_name ;;
    match p with
    | Return r => Some (Return r, s)
    | Continue => Some (Continue, s)
    | Go current_path =>
        match (if has flags FL_FOLLOW_LINKS then st else lst) with
        | stat_fails e =>
            Some (Continue, free current_path (DEBUG_PRINTF (set_errno e s)))
        | stat_ok sb =>
            Some (Go (Some current_path, Some sb,
                      Z.land (Z.shiftr (st_mode sb) 12) 15), s)
        end
    end
  else Some (Go (None, None, d_type), s).

(** The depth handed to the recursive call. *)
Definition next_depth (directory_depth : Z) : Z :=
  if directory_depth >? 0 then directory_depth - 1 else directory_depth.

(** "Traverse next directory"; [descend] is the recursive call of
    [parse_file_tree] on the entry. A stat buffer that was never filled has
    no defined content. *)
Definition traverse_next_directory
    (descend : list Z -> Z -> state -> option (Z * state))
    (s : state) (directory_depth : Z) (current_path : option (list Z))
    (sb : option struct_stat) (current_type : Z)
  : option (control unit * state) :=
  if negb (directory_depth =? 0) && (current_type =? 4) then
    sb <- sb ;;
    current_path <- current_path ;;
    loop <- is_directory_loop (stack s) sb ;;
    if loop then Some (Continue, free current_path (DEBUG_PRINTF s))
    else
      other_device <-
        (if has flags FL_XDEV then
           bottom <- hd_error (array (stack s)) ;;
           Some (negb (st_dev bottom =? st_dev sb))
         else Some false) ;;
      if other_device then Some (Go tt, DEBUG_PRINTF s)
      else
        match stat_stack_push s sb with
        | (false, s) => Some (Return (-1), free current_path s)
        | (true, s) =>
            ' (r, s) <- descend current_path (next_depth directory_depth) s ;;
            if negb (r =? 0) then Some (Return (-1), free current_path s)
            else Some (Go tt, stat_stack_pop s)
        end
  else Some (Go tt, s).

(** "Add file name to file list". Reading [file_type_arr] outside its 13
    elements has no defined result. *)
Definition add_file_name (s : state) (directory d_name : list Z)
    (current_path : option (list Z)) (current_type : Z)
  : option (control unit * state) :=
  enabled <- nth_error file_type_arr (Z.to_nat current_type) ;;
  if enabled =? 1 then
    if match file_ext with
       | Some regex => negb (matches_regex d_name regex)
       | None => false
       end
    then Some (Continue, free_if current_path s)
    else
      ' (p, s) <- CREATE_CURRENT_PATH s current_path directory d_name ;;
      match p with
      | Return r => Some (Return r, s)
      | Continue => Some (Continue, s)
      | Go current_path =>
          (* If requested, add a trailing directory separator. *)
          let with_separator :=
            if (current_type =? 4) && has flags FL_DIR_SEP then
              match alloc s with
              | (false, s) => (None, free current_path s)
              | (true, s) => (Some (current_path ++ [DIR_SEPARATOR]), s)
              end
            else (Some current_path, s) in
          match with_separator with
          | (None, s) => Some (Return (-1), s)
          | (Some current_path, s) =>
              match file_list_add s current_path with
              | (0, s) => Some (Go tt, s)
              | (_, s) => Some (Return (-1), free current_path s)
              end
          end
      end
  else Some (Go tt, free_if current_path s).

(** "Ignore current and parent directory": the test on the first characters
    of [d_name], whose terminator follows the listed bytes. *)
Definition current_or_parent (d_name : list Z) : bool :=
  match d_name with
  | c0 :: rest =>
      (c0 =? 46)
      && match rest with
         | [] => true
         | c1 :: rest => (c1 =? 46) && match rest with [] => true | _ => false end
         end
  | [] => false
  end.

(** One round of the [readdir] loop on the entry read. *)
Definition loop_body (descend : list Z -> Z -> state -> option (Z * state))
    (d_name : list Z) (d_type : Z) (st lst : stat_result)
    (directory : list Z) (directory_depth : Z) (s : state)
  : option (control unit * state) :=
  if current_or_parent d_name then Some (Continue, s)
  else
    ' (c, s) <- get_file_type s directory d_name d_type st lst ;;
    match c with
    | Return r => Some (Return r, s)
    | Continue => Some (Continue, s)
    | Go (current_path, sb, current_type) =>
        ' (c, s) <-
          traverse_next_directory descend s directory_depth current_path sb
            current_type ;;
        match c with
        | Return r => Some (Return r, s)
        | Continue => Some (Continue, s)
        | Go _ => add_file_name s directory d_name current_path current_type
        end
    end.

(** [parse_file_tree] on the answer of [opendir (directory)], and its
    [readdir] loop. The result is the returned value and the state left;
    [None] stands for a run without defined behaviour. *)
Fixpoint parse_file_tree (dir : DIR) (directory : list Z)
    (directory_depth : Z) (s : state) {struct dir} : option (Z * state) :=
  match dir with
  | opendir_fails e =>
      (* The test reads [errno] after the debug write. *)
      let s := DEBUG_PRINTF (set_errno e s) in
      if negb (errno s =? EACCES) then Some (-1, s) else Some (0, s)
  | opendir_ok entries => readdir_loop entries directory directory_depth s
  end
with readdir_loop (entries : dirents) (directory : list Z)
    (directory_depth : Z) (s : state) {struct entries} : option (Z * state) :=
  match entries with
  | end_of_dir => Some (0, s)
  | dirent d_name d_type st lst sub rest =>
      match
        loop_body (parse_file_tree sub) d_name d_type st lst directory
          directory_depth s
      with
      | None => None
      | Some (Return r, s) => Some (r, s)
      | Some (_, s) => readdir_loop rest directory directory_depth s
      end
  end.

End Traversal.

(** ** Public functions *)

(** What the caller's [char **] is after a call. *)
Inductive list_ptr : Set :=
| null_ptr
| dangling                           (* storage freed, pointer not reset *)
| unterminated (l : list (list Z))   (* live array without terminator *)
| terminated (l : list (list Z)).    (* live array, null pointer after l *)

Record created : Set := mk_created {
  returned : Z;
  list_out : list_ptr;
  errno_out : Z;
  freed_out : list (list Z)
}.

(** The file type lookup array, indexed by the DT_ values of dirent.h. *)
Definition make_file_type_arr (file_type : Z) : list Z :=
  if file_type =? 0 then repeat 1 13%nat
  else
    let on (m : Z) : Z := if has file_type m then 1 else 0 in
    [on FL_UNKNOWN; on FL_FIFO; on FL_CHR; 0; on FL_DIR; 0; on FL_BLK; 0;
     on FL_REG; 0; on FL_LNK; 0; on FL_SOCK].

(** The flags that [file_list_create] hands to [regcomp]. *)
Definition make_regex_flags (flags : Z) : Z :=
  let regex_flags := REG_NOSUB in
  if negb (flags =? 0) then
    let regex_flags :=
      if negb (has flags FL_REGEX_BASIC) then Z.lor regex_flags REG_EXTENDED
      else regex_flags in
    if negb (has flags FL_REGEX_CASE) then Z.lor regex_flags REG_ICASE
    else regex_flags
  else regex_flags.

(** "Compile regular expression": [None] is the failure of [regcomp],
    [Some None] the absence of a pattern. *)
Definition compile_regex (regex_pattern : option (list Z)) (flags : Z)
  : option (option regex_t) :=
  match regex_pattern with
  | Some pattern =>
      match regcomp pattern (make_regex_flags flags) with
      | Some regex => Some (Some regex)
      | None => None
      end
  | None => Some None
  end.

(** [file_list_create]. [dir_stat] and [root] are what [stat (dir)] and
    [opendir] on the cleaned start directory answer; [errno0], [heap0] and
    [stderr0] are [errno], the allocator and the standard error stream at
    the time of the call. *)
Definition file_list_create (file_type : Z) (regex_pattern : option (list Z))
    (dir : option (list Z)) (depth flags : Z) (sort_method : FL_SORT_METHOD)
    (dir_stat : stat_result) (root : DIR) (errno0 : Z) (heap0 : list bool)
    (stderr0 : list (option Z))
  : option created :=
  let s :=
    mk_state [] FL_INITIAL_LIST_SIZE (mk_stack 0 []) errno0 heap0 [] stderr0 in
  (* Allocate initial memory for file list. *)
  match alloc s with
  | (false, s) => Some (mk_created (-1) null_ptr (errno s) (freed s))
  | (true, s) =>
      let file_type_arr := make_file_type_arr file_type in
      (* Compile regular expression. *)
      match compile_regex regex_pattern flags with
      | None => Some (mk_created (-1) dangling (errno s) (freed s))
      | Some regex =>
          (* Strip superfluous directory separators. *)
          match create_clean_dir s dir with
          | (None, s) => Some (mk_created (-1) dangling (errno s) (freed s))
          | (Some start_dir, s) =>
              (* Set up initial stat stack. *)
              match alloc s with
              | (false, s) =>
                  Some (mk_created (-1) dangling (errno s)
                                   (freed (free start_dir s)))
              | (true, s) =>
                  let s := set_stack (mk_stack STAT_STACK_INITIAL_SIZE []) s in
                  match dir_stat with
                  | stat_fails e =>
                      Some (mk_created (-1) dangling e
                                       (freed (free start_dir s)))
                  | stat_ok sb =>
                      let s := snd (stat_stack_push s sb) in
                      (* Populate file list. *)
                      ' (ret, s) <-
                        parse_file_tree file_type_arr regex flags root
                          start_dir depth s ;;
                      let s := free start_dir s in
                      if negb (ret =? 0) && negb (errno s =? E2BIG) then
                        Some (mk_created (-1) null_ptr (errno s)
                                         (freed s ++ file_list s))
                      else
                        (* Trim file list and make it NULL-terminated. *)
                        match alloc s with
                        | (false, s) =>
                            Some (mk_created (-1) (unterminated (file_list s))
                                             (errno s) (freed s))
                        | (true, s) =>
                            (* Sort file list. *)
                            sorted <-
                              match get_compar_fn strcoll sort_method with
                              | Some compar_fn => qsort compar_fn (file_list s)
                              | None => Some (file_list s)
                              end ;;
                            Some (mk_created (n_file_list s)
                                             (terminated sorted) (errno s)
                                             (freed s))
                        end
                  end
              end
          end
      end
  end.

(** [file_list_getsize]: the elements before the terminator. *)
Definition file_list_getsize (file_list : list (list Z)) : Z :=
  Z.of_nat (length file_list).

Record merged : Set := mk_merged {
  merge_returned : Z;
  destination_out : list (list Z);
  source_out : option (list (list Z));   (* [None]: the null pointer *)
  merge_errno : Z
}.

(** [file_list_merge] on two terminated lists. [realloc] is asked for the
    product of the element count and the size of a pointer, reduced as
    [size_t] arithmetic reduces it: a request for zero bytes is left to the
    implementation by ISO C (glibc frees the array and returns the null
    pointer), and an array that holds fewer elements than are written to it
    has no defined result. A size that reaches past the terminator of its
    list makes [memcpy] or the sort read cells that hold no string: no
    defined result either. *)
Definition file_list_merge (destination : list (list Z)) (n_dest : Z)
    (source : list (list Z)) (n_source : Z) (sort_method : FL_SORT_METHOD)
    (errno0 : Z) (realloc_succeeds : bool) : option merged :=
  let n_dest := if n_dest =? 0 then file_list_getsize destination else n_dest in
  let n_source := if n_source =? 0 then file_list_getsize source else n_source in
  let n := (n_dest + n_source) mod (SIZE_MAX + 1) in
  if (n <? n_source) || ((n + 1) mod (SIZE_MAX + 1) =? 0) then
    Some (mk_merged (-1) destination (Some source) ERANGE)
  else
  let bytes := (n + 1) * sizeof_char_ptr in
  if bytes mod (SIZE_MAX + 1) =? 0 then None
  else if negb realloc_succeeds then
    Some (mk_merged (-1) destination (Some source) ENOMEM)
  else if (bytes <=? SIZE_MAX)
          && (n_dest <=? file_list_getsize destination)
          && (n_source <=? file_list_getsize source) then
    let combined :=
      firstn (Z.to_nat n_dest) destination ++ firstn (Z.to_nat n_source) source in
    (* Sort concatenated file list. *)
    sorted <-
      match get_compar_fn strcoll sort_method with
      | Some compar_fn => qsort qsort_compar_default combined
      | None => Some combined
      end ;;
    Some (mk_merged n sorted None errno0)
  else None.

End FileList.

(** * Characterisations, and the sample inputs of the proofs *)

(** ** The orders that the comparators compute *)

Definition is_str (s : list Z) : Prop := Forall (fun c => 0 < c < 256) s.

Fixpoint default_order (temp_ret : Z) (s1 s2 : list Z) : Z :=
  match s1, s2 with
  | [], [] => temp_ret
  | [], y :: _ => 0 - y
  | x :: _, [] => x - 0
  | x :: s1', y :: s2' =>
      if x =? y then default_order temp_ret s1' s2'
      else if tolower x =? tolower y
           then default_order (if temp_ret =? 0 then y - x else temp_ret) s1' s2'
           else tolower x - tolower y
  end.

Definition default_next (temp_ret : Z) (c1' c2' : list Z) : option Z :=
  match c1', c2' with
  | x' :: _, y' :: _ =>
      if negb (x' =? 0) && negb (y' =? 0)
      then strcmp_default_loop temp_ret c1' c2'
      else if x' =? y' then Some temp_ret else Some (x' - y')
  | _, _ => None
  end.

(** Natural: specification-level pieces *)
Fixpoint digit_run (s : list Z) : list Z :=
  match s with
  | x :: s' => if isdigit x then x :: digit_run s' else []
  | [] => []
  end.

Fixpoint after_digits (s : list Z) : list Z :=
  match s with
  | x :: s' => if isdigit x then after_digits s' else s
  | [] => []
  end.

Fixpoint strip_zeroes (run : list Z) : list Z :=
  match run with
  | x :: ((_ :: _) as run') => if x =? 48 then strip_zeroes run' else run
  | _ => run
  end.

Fixpoint first_difference (v1 v2 : list Z) : option Z :=
  match v1, v2 with
  | x :: v1', y :: v2' =>
      if x =? y then first_difference v1' v2' else Some (x - y)
  | _, _ => None
  end.

Definition len (l : list Z) : Z := Z.of_nat (length l).

Definition run_order (run1 run2 : list Z) : Z :=
  let v1 := strip_zeroes run1 in
  let v2 := strip_zeroes run2 in
  if len v1 =? len v2 then
    match first_difference v1 v2 with
    | Some d => d
    | None => len run2 - len run1
    end
  else len v1 - len v2.

Fixpoint natural_order (temp_ret : Z) (s1 s2 : list Z) : Z :=
  match s1, s2 with
  | [], [] => temp_ret
  | [], y :: _ => 0 - y
  | x :: _, [] => x - 0
  | x :: s1', y :: s2' =>
      if isdigit x && isdigit y then
        let d := run_order (digit_run s1) (digit_run s2) in
        if d =? 0 then natural_order temp_ret s1' s2' else d
      else if x =? y then natural_order temp_ret s1' s2'
      else if tolower x =? tolower y
           then natural_order (if temp_ret =? 0 then y - x else temp_ret) s1' s2'
           else tolower x - tolower y
  end.

Definition all_digits (run : list Z) : Prop := Forall (fun c => isdigit c = true) run.

Definition natural_next (fuel : nat) (temp_ret : Z) (c1 c2 : list Z) : option Z :=
  match tl c1, tl c2 with
  | (x' :: _) as c1', (y' :: _) as c2' =>
      if negb (x' =? 0) && negb (y' =? 0)
      then strcmp_natural_loop fuel temp_ret c1' c2'
      else if x' =? y' then Some temp_ret else Some (x' - y')
  | _, _ => None
  end.

Fixpoint bytes_compare (s1 s2 : list Z) : comparison :=
  match s1, s2 with
  | [], [] => Eq
  | [], _ :: _ => Lt
  | _ :: _, [] => Gt
  | x :: s1', y :: s2' =>
      match x ?= y with
      | Eq => bytes_compare s1' s2'
      | c => c
      end
  end.

Fixpoint digits_value_from (acc : Z) (run : list Z) : Z :=
  match run with
  | [] => acc
  | d :: run' => digits_value_from (10 * acc + (d - 48)) run'
  end.

Definition digits_value (run : list Z) : Z := digits_value_from 0 run.

(** [pre] does not end in the middle of a digit run. *)
Definition no_trailing_digit (pre : list Z) : Prop :=
  forall p d, pre = p ++ [d] -> isdigit d = false.

Fixpoint ascii_order (s1 s2 : list Z) : Z :=
  match s1, s2 with
  | [], [] => 0
  | [], y :: _ => 0 - y
  | x :: _, [] => x - 0
  | x :: s1', y :: s2' => if x =? y then ascii_order s1' s2' else x - y
  end.

(** ** Properties of the traversal *)

(** The list of [s'] is the list of [s] and, after it, paths that satisfy [Q]. *)
Definition grows (Q : list Z -> Prop) (s s' : state) : Prop :=
  exists added, file_list s' = file_list s ++ added /\ Forall Q added.

Scheme DIR_mut := Induction for DIR Sort Prop
  with dirents_mut := Induction for dirents Sort Prop.
Combined Scheme DIR_dirents_mut from DIR_mut, dirents_mut.

(** No [opendir] in the tree fails with E2BIG (it is not among the errors of
    [opendir]). *)
Fixpoint opendir_not_E2BIG (dir : DIR) : Prop :=
  match dir with
  | opendir_fails e => e <> E2BIG
  | opendir_ok entries => entries_not_E2BIG entries
  end
with entries_not_E2BIG (entries : dirents) : Prop :=
  match entries with
  | end_of_dir => True
  | dirent _ _ _ _ sub rest => opendir_not_E2BIG sub /\ entries_not_E2BIG rest
  end.

(** Two trees that differ at most in what lies more than [levels] levels
    below their top directory. *)
Fixpoint same_to_level (levels : nat) (dir dir' : DIR) : Prop :=
  match dir, dir' with
  | opendir_fails e, opendir_fails e' => e = e'
  | opendir_ok entries, opendir_ok entries' =>
      same_entries_to_level levels entries entries'
  | _, _ => False
  end
with same_entries_to_level (levels : nat) (entries entries' : dirents) : Prop :=
  match entries, entries' with
  | end_of_dir, end_of_dir => True
  | dirent d_name d_type st lst sub rest,
    dirent d_name' d_type' st' lst' sub' rest' =>
      d_name = d_name' /\ d_type = d_type' /\ st = st' /\ lst = lst'
      /\ match levels with
         | O => True
         | S levels' => same_to_level levels' sub sub'
         end
      /\ same_entries_to_level levels rest rest'
  | _, _ => False
  end.

(** The names that [readdir] returns for a directory. *)
Fixpoint entry_names (entries : dirents) : list (list Z) :=
  match entries with
  | end_of_dir => []
  | dirent d_name _ _ _ _ rest => d_name :: entry_names rest
  end.

(** A directory [S_IFDIR] as [stat] reports it. *)
Definition directory_stat (dev ino : Z) : stat_result :=
  stat_ok (mk_stat dev ino 16384).

(** [n] directories "d" nested in one another, the regular file "f" in the
    innermost; the directories have the inode numbers n, ..., 1. *)
Fixpoint chain (n : nat) : DIR :=
  match n with
  | O =>
      opendir_ok
        (dirent (str "f") 8 (stat_fails 0) (stat_fails 0) (opendir_fails 0)
                end_of_dir)
  | S k =>
      opendir_ok
        (dirent (str "d") 4 (directory_stat 0 (Z.of_nat n))
                (directory_stat 0 (Z.of_nat n)) (chain k) end_of_dir)
  end.

Fixpoint chain_path (dir : list Z) (n : nat) : list Z :=
  match n with
  | O => path_of dir (str "f")
  | S k => chain_path (path_of dir (str "d")) k
  end.

(** A directory of regular files with the given names, as a file system
    that fills [d_type] reports them. *)
Fixpoint regular_files (names : list (list Z)) : dirents :=
  match names with
  | [] => end_of_dir
  | d_name :: rest =>
      dirent d_name 8 (stat_fails 0) (stat_fails 0) (opendir_fails 0)
             (regular_files rest)
  end.

(** The allocator after [n] requests that it grants; [None] if it refuses
    one of them. *)
Fixpoint allocs_succeed (n : nat) (heap : list bool) : option (list bool) :=
  match n with
  | O => Some heap
  | S k =>
      match heap with
      | [] => Some []
      | true :: h => allocs_succeed k h
      | false :: _ => None
      end
  end.

(** The string that [create_clean_dir] builds. *)
Definition clean_dir (directory : list Z) : list Z :=
  rev (remove_trailing (rev (omit_superfluous false directory))).

(** The state in which [file_list_create] starts the traversal. *)
Definition traversal_start (FL_INITIAL_LIST_SIZE : Z) (sb : struct_stat)
    (errno0 : Z) (heap : list bool) (stderr : list (option Z)) : state :=
  mk_state [] FL_INITIAL_LIST_SIZE (mk_stack STAT_STACK_INITIAL_SIZE [sb])
           errno0 heap [] stderr.

(** The bounds on the allocated size that [file_list_add] keeps. *)
Definition list_bounds (FL_MAX : Z) (s : state) : Prop :=
  0 < n_file_list_max s /\ n_file_list s <= n_file_list_max s <= FL_MAX.

(** The comparator that the callback of a sort method hands to
    [qsort_compar]. *)
Definition base_comparator (strcoll : list Z -> list Z -> option Z)
    (sort_method : FL_SORT_METHOD) : option (list Z -> list Z -> option Z) :=
  match sort_method with
  | FL_SORT_NONE => None
  | FL_SORT_DEFAULT => Some strcmp_default
  | FL_SORT_NATURAL => Some strcmp_natural
  | FL_SORT_COLLATE => Some strcoll
  | FL_SORT_ASCII => Some strcmp
  end.

(** A comparator that reads its two strings up to their terminators and
    nothing behind them. *)
Definition reads_strings (compar_fn : list Z -> list Z -> option Z) : Prop :=
  forall s1 s2 r1 r2, is_str s1 -> is_str s2 ->
    compar_fn (s1 ++ 0 :: r1) (s2 ++ 0 :: r2) = compar_fn (cstr s1) (cstr s2).

(** No debug write to come sets [errno] to [e]. *)
Definition never_sets (e : Z) (w : list (option Z)) : Prop :=
  Forall (fun a => a <> Some e) w.

(** [w'] is what is left of the answers [w] after some of them were used. *)
Definition later (w w' : list (option Z)) : Prop := exists k, w' = skipn k w.

(** Two states of the same traversal, [s] under the maximum [FL_MAX] and
    [s'] under the maximum [FL_MAX']: they differ at most in the allocated
    size of the list, and no allocation to come is refused. Either no debug
    write to come changes [errno], or [FL_MAX'] is the smaller maximum and
    the allocated sizes agree up to it, so that the two lists are resized,
    and the resize announced, at the same paths. *)
Definition same_but_max (FL_MAX FL_MAX' : Z) (s s' : state) : Prop :=
  file_list s = file_list s' /\ stack s = stack s' /\ errno s = errno s'
  /\ freed s = freed s' /\ heap s = [] /\ heap s' = []
  /\ stderr s = stderr s'
  /\ (stderr s = []
      \/ (FL_MAX' <= FL_MAX
          /\ (0 < n_file_list_max s
              /\ Z.of_nat (length (file_list s)) <= n_file_list_max s <= FL_MAX)
          /\ n_file_list_max s' = Z.min (n_file_list_max s) FL_MAX')).

(** [s'] is where a traversal stopped with a full list, [s] where the same
    traversal went without the stop: its list goes on from that of [s']. No
    allocation after the stop is refused. *)
Definition stopped_full (FL_MAX : Z) (s s' : state) : Prop :=
  errno s' = E2BIG /\ n_file_list s' = FL_MAX /\ heap s' = []
  /\ exists more, file_list s = file_list s' ++ more.

(** A regular file as a file system that fills [d_type] reports it; it is
    never statted or opened. *)
Definition regular_file (name : string) (rest : dirents) : dirents :=
  dirent (str name) 8 (stat_fails 0) (stat_fails 0) (opendir_fails 0) rest.

(** A directory, or a symbolic link to one when [d_type] is DT_LNK. *)
Definition directory (name : string) (d_type dev ino : Z) (sub : DIR)
    (rest : dirents) : dirents :=
  dirent (str name) d_type (directory_stat dev ino)
         (if d_type =? DT_LNK then stat_ok (mk_stat dev (ino + 1000) 40960)
          else directory_stat dev ino)
         sub rest.

(** The start directory of the samples: device 1, inode 1. *)
Definition top_stat : struct_stat := mk_stat 1 1 16384.

(** top/self is a symbolic link to top itself. *)
Definition tree_with_self_link : DIR :=
  opendir_ok (directory "self" DT_LNK 1 1 (opendir_fails 0) end_of_dir).

(** top holds the file b, the directory sub with the files x and A, and the
    file a. *)
Definition small_tree : DIR :=
  opendir_ok
    (regular_file "b"
       (directory "sub" 4 1 2
          (opendir_ok (regular_file "x" (regular_file "A" end_of_dir)))
          (regular_file "a" end_of_dir))).

(** top holds the file x and the directories p and r, one after the other:
    p holds the file p1 and the directory q with the file q1, r holds the
    file r1 and the directory t with the file t1. *)
Definition forked_tree : DIR :=
  opendir_ok
    (regular_file "x"
       (directory "p" 4 1 2
          (opendir_ok
             (regular_file "p1"
                (directory "q" 4 1 3
                   (opendir_ok (regular_file "q1" end_of_dir)) end_of_dir)))
          (directory "r" 4 1 4
             (opendir_ok
                (regular_file "r1"
                   (directory "t" 4 1 5
                      (opendir_ok (regular_file "t1" end_of_dir)) end_of_dir)))
             end_of_dir))).

(** A [regcomp] that keeps the flags it was handed, and a [regexec] under
    which a name matches exactly when the expression was compiled with
    REG_ICASE. *)
Definition regcomp_flags (pattern : list Z) (regex_flags : Z) : option Z :=
  Some regex_flags.
Definition regexec_icase (regex : Z) (file_name : list Z) : bool :=
  has regex REG_ICASE.

(** A [regcomp] that rejects every pattern. *)
Definition regcomp_rejects (pattern : list Z) (regex_flags : Z) : option unit :=
  None.
Definition regexec_any (regex : unit) (file_name : list Z) : bool := true.
Definition regcomp_any (pattern : list Z) (regex_flags : Z) : option unit :=
  Some tt.

(** ** Further characterisations *)

(** The components of a path: the non-empty runs of characters between
    directory separators, [current] being the run read so far, reversed. *)
Fixpoint components_from (current path : list Z) : list (list Z) :=
  match path with
  | [] => match current with [] => [] | _ => [rev current] end
  | x :: rest =>
      if x =? DIR_SEPARATOR then
        match current with
        | [] => components_from [] rest
        | _ => rev current :: components_from [] rest
        end
      else components_from (x :: current) rest
  end.

Definition components (path : list Z) : list (list Z) := components_from [] path.

(** The type that the loop of [parse_file_tree] finds for an entry: its
    [d_type], or where the loop calls [stat] or [lstat], the type bits of the
    mode; none if that call fails. *)
Definition entry_type (flags d_type : Z) (st lst : stat_result) : option Z :=
  if (d_type =? DT_DIR) || (d_type =? DT_UNKNOWN)
     || ((d_type =? DT_LNK) && has flags FL_FOLLOW_LINKS)
  then
    match (if has flags FL_FOLLOW_LINKS then st else lst) with
    | stat_ok sb => Some (Z.land (Z.shiftr (st_mode sb) 12) 15)
    | stat_fails _ => None
    end
  else Some d_type.

(** Whether the two filters let an entry into the list: its type is enabled
    and its name matches the expression, if there is one. *)
Definition selected (regex_t : Type) (regexec : regex_t -> list Z -> bool)
    (file_type_arr : list Z) (file_ext : option regex_t) (d_name : list Z)
    (current_type : Z) : bool :=
  match nth_error file_type_arr (Z.to_nat current_type) with
  | Some enabled =>
      (enabled =? 1)
      && match file_ext with
         | Some regex => matches_regex regex_t regexec d_name regex
         | None => true
         end
  | None => false
  end.

(** The string under which an entry is listed. *)
Definition listed_path (flags current_type : Z) (path : list Z) : list Z :=
  if (current_type =? 4) && has flags FL_DIR_SEP
  then path ++ [DIR_SEPARATOR] else path.

(** The paths of the entries of a tree that the filters select, the entries
    . and .. and those whose [stat] fails left out; the entries below a
    directory come before the directory itself, as a full traversal lists
    them. *)
Fixpoint selected_paths (regex_t : Type) (regexec : regex_t -> list Z -> bool)
    (file_type_arr : list Z) (file_ext : option regex_t) (flags : Z)
    (dir : DIR) (directory : list Z) : list (list Z) :=
  match dir with
  | opendir_fails _ => []
  | opendir_ok entries =>
      selected_entries regex_t regexec file_type_arr file_ext flags entries
        directory
  end
with selected_entries (regex_t : Type) (regexec : regex_t -> list Z -> bool)
    (file_type_arr : list Z) (file_ext : option regex_t) (flags : Z)
    (entries : dirents) (directory : list Z) : list (list Z) :=
  match entries with
  | end_of_dir => []
  | dirent d_name d_type st lst sub rest =>
      (if current_or_parent d_name then []
       else
         match entry_type flags d_type st lst with
         | None => []
         | Some current_type =>
             (if current_type =? 4
              then selected_paths regex_t regexec file_type_arr file_ext flags
                     sub (path_of directory d_name)
              else [])
             ++ (if selected regex_t regexec file_type_arr file_ext d_name
                      current_type
                 then [listed_path flags current_type
                         (path_of directory d_name)]
                 else [])
         end)
      ++ selected_entries regex_t regexec file_type_arr file_ext flags rest
           directory
  end.

(** The selected paths of a tree, as [selected_paths] lists them, each with
    the level of its entry: 0 for an entry of the start directory, 1 for an
    entry of a directory in the start directory, and so on. *)
Definition below (entry : nat * list Z) : nat * list Z :=
  (S (fst entry), snd entry).

Fixpoint selected_levels (regex_t : Type) (regexec : regex_t -> list Z -> bool)
    (file_type_arr : list Z) (file_ext : option regex_t) (flags : Z)
    (dir : DIR) (directory : list Z) : list (nat * list Z) :=
  match dir with
  | opendir_fails _ => []
  | opendir_ok entries =>
      selected_entries_levels regex_t regexec file_type_arr file_ext flags
        entries directory
  end
with selected_entries_levels (regex_t : Type)
    (regexec : regex_t -> list Z -> bool)
    (file_type_arr : list Z) (file_ext : option regex_t) (flags : Z)
    (entries : dirents) (directory : list Z) : list (nat * list Z) :=
  match entries with
  | end_of_dir => []
  | dirent d_name d_type st lst sub rest =>
      (if current_or_parent d_name then []
       else
         match entry_type flags d_type st lst with
         | None => []
         | Some current_type =>
             (if current_type =? 4
              then map below
                     (selected_levels regex_t regexec file_type_arr file_ext
                        flags sub (path_of directory d_name))
              else [])
             ++ (if selected regex_t regexec file_type_arr file_ext d_name
                      current_type
                 then [(O, listed_path flags current_type
                             (path_of directory d_name))]
                 else [])
         end)
      ++ selected_entries_levels regex_t regexec file_type_arr file_ext flags
           rest directory
  end.

(** The depth rule in the words of the documentation: a negative depth is
    no limit, and a depth of 0 or more lets in the levels up to it, so the
    depth 0 the entries of the start directory alone. *)
Definition within_depth (depth : Z) (entry : nat * list Z) : bool :=
  (depth <? 0) || (Z.of_nat (fst entry) <=? depth).

Definition to_depth (depth : Z) (entries : list (nat * list Z))
  : list (list Z) :=
  map snd (filter (within_depth depth) entries).

(** A tree that a traversal reads in full: no directory in it is one of the
    directories above it ([ancestors], the start directory first), with
    FL_XDEV none is on another device than the start directory, every type
    is an index of the lookup array, and no [opendir] in it fails, or where
    [unreadable] allows it, fails for lack of permission only. *)
Fixpoint plain_tree (file_type_arr : list Z) (flags : Z) (unreadable : bool)
    (ancestors : list struct_stat) (dir : DIR) : Prop :=
  match dir with
  | opendir_fails e => e = EACCES /\ unreadable = true
  | opendir_ok entries =>
      plain_entries file_type_arr flags unreadable ancestors entries
  end
with plain_entries (file_type_arr : list Z) (flags : Z) (unreadable : bool)
    (ancestors : list struct_stat) (entries : dirents) : Prop :=
  match entries with
  | end_of_dir => True
  | dirent d_name d_type st lst sub rest =>
      (current_or_parent d_name = false ->
       forall current_type,
         entry_type flags d_type st lst = Some current_type ->
         nth_error file_type_arr (Z.to_nat current_type) <> None
         /\ (current_type = 4 ->
             forall sb,
               (if has flags FL_FOLLOW_LINKS then st else lst) = stat_ok sb ->
               is_directory_loop (mk_stack 0 ancestors) sb = Some false
               /\ (has flags FL_XDEV = true ->
                   option_map st_dev (hd_error ancestors) = Some (st_dev sb))
               /\ plain_tree file_type_arr flags unreadable
                    (ancestors ++ [sb]) sub))
      /\ plain_entries file_type_arr flags unreadable ancestors rest
  end.

(** [file_list_destroy]: the caller's pointer after the call, and the
    strings handed to [free], in order. Freeing through a pointer whose
    storage is gone, or walking an array without terminator to its end, has
    no defined result. *)
Definition file_list_destroy (file_list : list_ptr)
  : option (list_ptr * list (list Z)) :=
  match file_list with
  | null_ptr => Some (null_ptr, [])
  | terminated l => Some (null_ptr, l)
  | dangling => None
  | unterminated _ => None
  end.

(** The size that [file_list_merge] works with: the one given, or with 0
    the one that [file_list_getsize] counts. *)
Definition merge_size (given : Z) (list : list (list Z)) : Z :=
  if given =? 0 then file_list_getsize list else given.

(** The two parts of the order of [strcmp_default]: the order of the
    strings with case folded, shorter first, and among strings that this
    order leaves equal the first difference in case, reversed. *)
Fixpoint default_primary (s1 s2 : list Z) : Z :=
  match s1, s2 with
  | [], [] => 0
  | [], y :: _ => 0 - y
  | x :: _, [] => x - 0
  | x :: s1', y :: s2' =>
      if tolower x =? tolower y then default_primary s1' s2'
      else tolower x - tolower y
  end.

Fixpoint tie_break (s1 s2 : list Z) : Z :=
  match s1, s2 with
  | x :: s1', y :: s2' => if x =? y then tie_break s1' s2' else y - x
  | _, _ => 0
  end.

(** The first part of the order of [strcmp_natural]. *)
Fixpoint natural_primary (s1 s2 : list Z) : Z :=
  match s1, s2 with
  | [], [] => 0
  | [], y :: _ => 0 - y
  | x :: _, [] => x - 0
  | x :: s1', y :: s2' =>
      if isdigit x && isdigit y then
        let d := run_order (digit_run s1) (digit_run s2) in
        if d =? 0 then natural_primary s1' s2' else d
      else if tolower x =? tolower y then natural_primary s1' s2'
      else tolower x - tolower y
  end.




(** * Proofs *)

(** ** The default comparator *)

Lemma tolower_pos c : 0 < c -> 0 < tolower c.
Proof. unfold tolower; destruct (_ && _); lia. Qed.

Lemma is_str_inv x s : is_str (x :: s) -> 0 < x < 256 /\ is_str s.
Proof. intros H; inversion H; auto. Qed.

Lemma strcmp_default_loop_eq t x c1' y c2' :
  strcmp_default_loop t (x :: c1') (y :: c2') =
  if negb (x =? y) then
    if tolower x =? tolower y
    then default_next (if t =? 0 then y - x else t) c1' c2'
    else Some (tolower x - tolower y)
  else default_next t c1' c2'.
Proof. destruct c1', c2'; reflexivity. Qed.

Lemma default_next_order s1 s2 t r1 r2 :
  is_str s1 -> is_str s2 ->
  (forall a s1' b s2', s1 = a :: s1' -> s2 = b :: s2' ->
     strcmp_default_loop t (s1 ++ 0 :: r1) (s2 ++ 0 :: r2)
     = Some (default_order t s1 s2)) ->
  default_next t (s1 ++ 0 :: r1) (s2 ++ 0 :: r2) = Some (default_order t s1 s2).
Proof.
  intros H1 H2 IH.
  destruct s1 as [|a s1], s2 as [|b s2]; cbn [app default_next default_order].
  - reflexivity.
  - apply is_str_inv in H2 as [Hb _].
    replace (0 =? b) with false by (symmetry; apply Z.eqb_neq; lia).
    reflexivity.
  - apply is_str_inv in H1 as [Ha _].
    replace (a =? 0) with false by (symmetry; apply Z.eqb_neq; lia).
    reflexivity.
  - apply is_str_inv in H1 as [Ha _]. apply is_str_inv in H2 as [Hb _].
    replace (a =? 0) with false by (symmetry; apply Z.eqb_neq; lia).
    replace (b =? 0) with false by (symmetry; apply Z.eqb_neq; lia).
    cbn [negb andb]. apply (IH a s1 b s2); reflexivity.
Qed.

Lemma default_order_cons t x s1 y s2 :
  default_order t (x :: s1) (y :: s2) =
  if x =? y then default_order t s1 s2
  else if tolower x =? tolower y
       then default_order (if t =? 0 then y - x else t) s1 s2
       else tolower x - tolower y.
Proof. reflexivity. Qed.

Lemma strcmp_default_loop_order s1 : forall s2 x y t r1 r2,
  is_str (x :: s1) -> is_str (y :: s2) ->
  strcmp_default_loop t (x :: s1 ++ 0 :: r1) (y :: s2 ++ 0 :: r2)
  = Some (default_order t (x :: s1) (y :: s2)).
Proof.
  induction s1 as [|a s1 IH]; intros s2 x y t r1 r2 H1 H2;
    apply is_str_inv in H1 as [Hx H1]; apply is_str_inv in H2 as [Hy H2];
    rewrite strcmp_default_loop_eq, default_order_cons;
    destruct (x =? y); cbn [negb];
    try (destruct (tolower x =? tolower y); [|reflexivity]);
    apply default_next_order; auto; intros a' s1' b s2' E1 E2; subst;
    try discriminate; injection E1 as -> ->; apply IH; auto.
Qed.

(** ** The natural comparator *)

Lemma digit_run_split s : s = digit_run s ++ after_digits s.
Proof. induction s as [|x s IH]; cbn; [reflexivity|]. destruct (isdigit x); cbn; congruence. Qed.

Lemma digit_run_digits s : all_digits (digit_run s).
Proof. induction s as [|x s IH]; cbn; [constructor|]. destruct (isdigit x) eqn:E; constructor; auto. Qed.

Lemma after_digits_head s x s' : after_digits s = x :: s' -> isdigit x = false.
Proof.
  induction s as [|y s IH]; cbn; [discriminate|].
  destruct (isdigit y) eqn:E; auto. intros [= -> _]; exact E.
Qed.

Lemma after_digits_str s : is_str s -> is_str (after_digits s).
Proof.
  induction 1 as [|x s Hx H IH]; cbn; [constructor|].
  destruct (isdigit x); auto. constructor; auto.
Qed.

Lemma after_digits_length s : (length (after_digits s) <= length s)%nat.
Proof. induction s as [|x s IH]; cbn; [lia|]. destruct (isdigit x); cbn; lia. Qed.

Lemma digits_end_run run : forall x h T,
  all_digits run -> isdigit h = false ->
  digits_end ((x :: run) ++ h :: T) = Some (last (x :: run) 0 :: h :: T).
Proof.
  induction run as [|y run IH]; intros x h T Hr Hh.
  - cbn. rewrite Hh. reflexivity.
  - inversion Hr as [|? ? Hy Hr']; subst.
    change (digits_end ((x :: y :: run) ++ h :: T))
      with (if isdigit y then digits_end ((y :: run) ++ h :: T)
            else Some ((x :: y :: run) ++ h :: T)).
    rewrite Hy, IH by assumption. reflexivity.
Qed.

Lemma skip_zeroes_run run : forall x e T,
  skip_zeroes ((x :: run) ++ T) (e :: T) = strip_zeroes (x :: run) ++ T.
Proof.
  induction run as [|y run IH]; intros x e T.
  - cbn [app skip_zeroes strip_zeroes length].
    replace (S (length T) <? S (length T))%nat with false
      by (symmetry; apply Nat.ltb_ge; lia).
    rewrite andb_false_r. reflexivity.
  - change (skip_zeroes ((x :: y :: run) ++ T) (e :: T))
      with (if (x =? 48) && (length (e :: T) <? length ((x :: y :: run) ++ T))%nat
            then skip_zeroes ((y :: run) ++ T) (e :: T)
            else (x :: y :: run) ++ T).
    replace (length (e :: T) <? length ((x :: y :: run) ++ T))%nat with true
      by (symmetry; apply Nat.ltb_lt; cbn; rewrite length_app; lia).
    rewrite andb_true_r, IH.
    change (strip_zeroes (x :: y :: run))
      with (if x =? 48 then strip_zeroes (y :: run) else x :: y :: run).
    destruct (x =? 48); reflexivity.
Qed.

Lemma digits_differ_run v1 : forall v2 e1 e2 T1 T2,
  length v1 = length v2 ->
  digits_differ (v1 ++ T1) (v2 ++ T2) (e1 :: T1) (e2 :: T2)
  = first_difference v1 v2.
Proof.
  induction v1 as [|x v1 IH]; intros [|y v2] e1 e2 T1 T2 E; try discriminate.
  - cbn [app first_difference]. destruct T1 as [|a T1], T2 as [|b T2]; try reflexivity.
    cbn [digits_differ length].
    replace (S (S (length T1)) <=? S (length T1))%nat with false
      by (symmetry; apply Nat.leb_gt; lia).
    reflexivity.
  - cbn [app digits_differ first_difference].
    replace (length (e1 :: T1) <=? length (x :: v1 ++ T1))%nat with true
      by (symmetry; apply Nat.leb_le; cbn; rewrite length_app; lia).
    replace (length (e2 :: T2) <=? length (y :: v2 ++ T2))%nat with true
      by (symmetry; apply Nat.leb_le; cbn; rewrite length_app; lia).
    cbn [andb]. destruct (x =? y); cbn [negb]; [|reflexivity].
    apply IH. injection E; auto.
Qed.

Lemma strcmp_natural_loop_eq fuel t x c1' y c2' :
  strcmp_natural_loop (S fuel) t (x :: c1') (y :: c2') =
  let c1 := x :: c1' in
  let c2 := y :: c2' in
  if isdigit x && isdigit y then
    e1 <- digits_end c1 ;;
    e2 <- digits_end c2 ;;
    let p1 := skip_zeroes c1 e1 in
    let p2 := skip_zeroes c2 e2 in
    if negb (ptr_diff e1 p1 =? ptr_diff e2 p2)
    then Some (ptr_diff e1 p1 - ptr_diff e2 p2)
    else
      match digits_differ p1 p2 e1 e2 with
      | Some d => Some d
      | None =>
          if negb (ptr_diff e1 c1 =? ptr_diff e2 c2)
          then Some (ptr_diff e2 c2 - ptr_diff e1 c1)
          else natural_next fuel t e1 e2
      end
  else if negb (x =? y) then
    if tolower x =? tolower y
    then natural_next fuel (if t =? 0 then y - x else t) c1 c2
    else Some (tolower x - tolower y)
  else natural_next fuel t c1 c2.
Proof. reflexivity. Qed.

Lemma natural_order_cons t x s1 y s2 :
  natural_order t (x :: s1) (y :: s2) =
  if isdigit x && isdigit y then
    let d := run_order (digit_run (x :: s1)) (digit_run (y :: s2)) in
    if d =? 0 then natural_order t s1 s2 else d
  else if x =? y then natural_order t s1 s2
  else if tolower x =? tolower y
       then natural_order (if t =? 0 then y - x else t) s1 s2
       else tolower x - tolower y.
Proof. reflexivity. Qed.

Lemma first_difference_refl v : first_difference v v = None.
Proof. induction v as [|x v IH]; cbn; [reflexivity|]. rewrite Z.eqb_refl; exact IH. Qed.

Lemma run_order_refl r : run_order r r = 0.
Proof. unfold run_order. rewrite Z.eqb_refl, first_difference_refl. lia. Qed.

Lemma first_difference_nonzero v1 : forall v2 d, first_difference v1 v2 = Some d -> d <> 0.
Proof.
  induction v1 as [|x v1 IH]; intros [|y v2] d; cbn; try discriminate.
  destruct (x =? y) eqn:E; [apply IH|]. intros [= <-]. apply Z.eqb_neq in E. lia.
Qed.

Lemma first_difference_none v1 : forall v2,
  length v1 = length v2 -> first_difference v1 v2 = None -> v1 = v2.
Proof.
  induction v1 as [|x v1 IH]; intros [|y v2] E; cbn; try discriminate; [reflexivity|].
  destruct (x =? y) eqn:Exy; [|discriminate].
  apply Z.eqb_eq in Exy. intros H. f_equal; auto.
Qed.

Lemma strip_zeroes_repeat r :
  r = repeat 48 (length r - length (strip_zeroes r)) ++ strip_zeroes r
  /\ (length (strip_zeroes r) <= length r)%nat.
Proof.
  induction r as [|x r IH]; [cbn; auto|].
  destruct r as [|y r]; [cbn; split; [reflexivity|lia]|].
  change (strip_zeroes (x :: y :: r))
    with (if x =? 48 then strip_zeroes (y :: r) else x :: y :: r).
  destruct (x =? 48) eqn:E.
  - apply Z.eqb_eq in E. subst x. destruct IH as [IH Hl]. split.
    + replace (length (48%Z :: y :: r) - length (strip_zeroes (y :: r)))%nat
        with (S (length (y :: r) - length (strip_zeroes (y :: r)))).
      * cbn [repeat app]. f_equal. exact IH.
      * cbn [length] in *. lia.
    + cbn [length] in *. lia.
  - rewrite Nat.sub_diag. cbn. split; [reflexivity|lia].
Qed.

Lemma run_order_zero r1 r2 : run_order r1 r2 = 0 -> r1 = r2.
Proof.
  unfold run_order, len. destruct (_ =? _) eqn:E.
  - apply Z.eqb_eq in E.
    destruct (first_difference _ _) as [d|] eqn:F.
    + intros ->. exfalso. eapply first_difference_nonzero; eauto.
    + intros L. apply first_difference_none in F; [|lia].
      destruct (strip_zeroes_repeat r1) as [E1 _], (strip_zeroes_repeat r2) as [E2 _].
      etransitivity; [exact E1|]. etransitivity; [|symmetry; exact E2].
      rewrite F. f_equal. f_equal. lia.
  - apply Z.eqb_neq in E. lia.
Qed.

Lemma digit_run_app r : forall T, all_digits r ->
  (forall h T', T = h :: T' -> isdigit h = false) ->
  digit_run (r ++ T) = r /\ after_digits (r ++ T) = T.
Proof.
  induction r as [|x r IH]; intros T Hr HT.
  - destruct T as [|h T']; [split; reflexivity|].
    cbn. rewrite (HT h T' eq_refl). split; reflexivity.
  - inversion Hr as [|? ? Hx Hr']; subst. cbn. rewrite Hx.
    destruct (IH T Hr' HT) as [-> ->]. split; reflexivity.
Qed.

Lemma natural_order_skip_run r : forall t T1 T2, all_digits r ->
  (forall h T', T1 = h :: T' -> isdigit h = false) ->
  (forall h T', T2 = h :: T' -> isdigit h = false) ->
  natural_order t (r ++ T1) (r ++ T2) = natural_order t T1 T2.
Proof.
  induction r as [|x r IH]; intros t T1 T2 Hr H1 H2; [reflexivity|].
  inversion Hr as [|? ? Hx Hr']; subst.
  cbn [app]. rewrite natural_order_cons. rewrite Hx. cbn [andb].
  change (x :: r ++ T1) with ((x :: r) ++ T1).
  change (x :: r ++ T2) with ((x :: r) ++ T2).
  destruct (digit_run_app (x :: r) T1 Hr H1) as [-> _].
  destruct (digit_run_app (x :: r) T2 Hr H2) as [-> _].
  cbv zeta. rewrite run_order_refl. cbn [Z.eqb]. apply IH; auto.
Qed.

Lemma natural_digit_step fuel t x R1 y R2 h1 T1 h2 T2 :
  all_digits (x :: R1) -> all_digits (y :: R2) ->
  isdigit h1 = false -> isdigit h2 = false ->
  strcmp_natural_loop (S fuel) t ((x :: R1) ++ h1 :: T1) ((y :: R2) ++ h2 :: T2)
  = if run_order (x :: R1) (y :: R2) =? 0
    then natural_next fuel t (last (x :: R1) 0 :: h1 :: T1)
                             (last (y :: R2) 0 :: h2 :: T2)
    else Some (run_order (x :: R1) (y :: R2)).
Proof.
  intros D1 D2 Hh1 Hh2.
  assert (Hx : isdigit x = true) by (inversion D1; auto).
  assert (Hy : isdigit y = true) by (inversion D2; auto).
  assert (D1' : all_digits R1) by (inversion D1; auto).
  assert (D2' : all_digits R2) by (inversion D2; auto).
  rewrite <- !app_comm_cons, strcmp_natural_loop_eq. cbv zeta.
  rewrite Hx, Hy. cbn [andb].
  rewrite !app_comm_cons.
  rewrite (digits_end_run R1 x h1 T1 D1' Hh1), (digits_end_run R2 y h2 T2 D2' Hh2).
  rewrite !skip_zeroes_run.
  set (v1 := strip_zeroes (x :: R1)). set (v2 := strip_zeroes (y :: R2)).
  set (l1 := last (x :: R1) 0). set (l2 := last (y :: R2) 0).
  assert (P1 : ptr_diff (l1 :: h1 :: T1) (v1 ++ h1 :: T1) = len v1 - 1)
    by (unfold ptr_diff, len; rewrite length_app; cbn [length]; lia).
  assert (P2 : ptr_diff (l2 :: h2 :: T2) (v2 ++ h2 :: T2) = len v2 - 1)
    by (unfold ptr_diff, len; rewrite length_app; cbn [length]; lia).
  assert (Q1 : ptr_diff (l1 :: h1 :: T1) ((x :: R1) ++ h1 :: T1) = len (x :: R1) - 1)
    by (unfold ptr_diff, len; rewrite length_app; cbn [length]; lia).
  assert (Q2 : ptr_diff (l2 :: h2 :: T2) ((y :: R2) ++ h2 :: T2) = len (y :: R2) - 1)
    by (unfold ptr_diff, len; rewrite length_app; cbn [length]; lia).
  rewrite P1, P2, Q1, Q2.
  unfold run_order. fold v1 v2.
  destruct (len v1 =? len v2) eqn:E.
  - apply Z.eqb_eq in E.
    replace (len v1 - 1 =? len v2 - 1) with true by (symmetry; apply Z.eqb_eq; lia).
    cbn [negb].
    rewrite digits_differ_run by (unfold len in E; lia).
    destruct (first_difference v1 v2) as [d|] eqn:F.
    + apply first_difference_nonzero in F.
      replace (d =? 0) with false by (symmetry; apply Z.eqb_neq; exact F).
      reflexivity.
    + destruct (len (y :: R2) - len (x :: R1) =? 0) eqn:L.
      * apply Z.eqb_eq in L.
        replace (len (x :: R1) - 1 =? len (y :: R2) - 1) with true
          by (symmetry; apply Z.eqb_eq; lia).
        reflexivity.
      * apply Z.eqb_neq in L.
        replace (len (x :: R1) - 1 =? len (y :: R2) - 1) with false
          by (symmetry; apply Z.eqb_neq; lia).
        cbn [negb]. f_equal. lia.
  - apply Z.eqb_neq in E.
    replace (len v1 - 1 =? len v2 - 1) with false by (symmetry; apply Z.eqb_neq; lia).
    cbn [negb].
    replace (len v1 - len v2 =? 0) with false by (symmetry; apply Z.eqb_neq; lia).
    f_equal. lia.
Qed.

Lemma natural_next_order fuel s1 s2 t e1 e2 r1 r2 :
  is_str s1 -> is_str s2 ->
  (forall a s1' b s2', s1 = a :: s1' -> s2 = b :: s2' ->
     strcmp_natural_loop fuel t (s1 ++ 0 :: r1) (s2 ++ 0 :: r2)
     = Some (natural_order t s1 s2)) ->
  natural_next fuel t (e1 :: s1 ++ 0 :: r1) (e2 :: s2 ++ 0 :: r2)
  = Some (natural_order t s1 s2).
Proof.
  intros H1 H2 IH. unfold natural_next. cbn [tl].
  destruct s1 as [|a s1], s2 as [|b s2]; cbn [app natural_order].
  - reflexivity.
  - apply is_str_inv in H2 as [Hb _].
    replace (0 =? b) with false by (symmetry; apply Z.eqb_neq; lia).
    reflexivity.
  - apply is_str_inv in H1 as [Ha _].
    replace (a =? 0) with false by (symmetry; apply Z.eqb_neq; lia).
    reflexivity.
  - apply is_str_inv in H1 as [Ha _]. apply is_str_inv in H2 as [Hb _].
    replace (a =? 0) with false by (symmetry; apply Z.eqb_neq; lia).
    replace (b =? 0) with false by (symmetry; apply Z.eqb_neq; lia).
    cbn [negb andb]. apply (IH a s1 b s2); reflexivity.
Qed.

Lemma tail_after_run s r : is_str s ->
  exists h T, after_digits s ++ 0 :: r = h :: T /\ isdigit h = false.
Proof.
  intros _. destruct (after_digits s) as [|h T] eqn:E.
  - exists 0, r. split; reflexivity.
  - exists h, (T ++ 0 :: r). split; [reflexivity|]. eapply after_digits_head; eauto.
Qed.

Lemma strcmp_natural_loop_order fuel : forall s1 s2 x y t r1 r2,
  is_str (x :: s1) -> is_str (y :: s2) -> (length (x :: s1) <= fuel)%nat ->
  strcmp_natural_loop fuel t (x :: s1 ++ 0 :: r1) (y :: s2 ++ 0 :: r2)
  = Some (natural_order t (x :: s1) (y :: s2)).
Proof.
  induction fuel as [|fuel IH]; intros s1 s2 x y t r1 r2 H1 H2 L;
    [cbn in L; lia|].
  assert (NEXT : forall t' e1 e2 u1 u2, is_str u1 -> is_str u2 ->
            (length u1 <= fuel)%nat ->
            natural_next fuel t' (e1 :: u1 ++ 0 :: r1) (e2 :: u2 ++ 0 :: r2)
            = Some (natural_order t' u1 u2)).
  { intros t' e1 e2 u1 u2 U1 U2 LU. apply natural_next_order; auto.
    intros a u1' b u2' -> ->. rewrite <- !app_comm_cons. apply IH; auto. }
  destruct (isdigit x && isdigit y) eqn:D.
  - apply andb_prop in D as [Dx Dy].
    pose proof (digit_run_split (x :: s1)) as S1.
    pose proof (digit_run_split (y :: s2)) as S2.
    pose proof (digit_run_digits (x :: s1)) as A1.
    pose proof (digit_run_digits (y :: s2)) as A2.
    destruct (tail_after_run (x :: s1) r1 H1) as (h1 & T1 & E1 & Hh1).
    destruct (tail_after_run (y :: s2) r2 H2) as (h2 & T2 & E2 & Hh2).
    rewrite natural_order_cons, Dx, Dy. cbn [andb]. cbv zeta.
    remember (digit_run (x :: s1)) as R1 eqn:ER1.
    remember (digit_run (y :: s2)) as R2 eqn:ER2.
    cbn [digit_run] in ER1, ER2. rewrite Dx in ER1. rewrite Dy in ER2.
    rewrite !app_comm_cons.
    rewrite S1 at 1. rewrite S2 at 1.
    rewrite <- !app_assoc, E1, E2. subst R1 R2.
    rewrite natural_digit_step by auto.
    destruct (run_order _ _ =? 0) eqn:Z0; [|reflexivity].
    apply Z.eqb_eq, run_order_zero in Z0.
    rewrite <- E1, <- E2.
    rewrite NEXT.
    + f_equal. injection Z0 as -> Z0.
      cbn [after_digits] in *. rewrite Dy in *.
      rewrite (digit_run_split s1) at 2. rewrite (digit_run_split s2) at 2.
      rewrite Z0. symmetry. apply natural_order_skip_run.
      * apply digit_run_digits.
      * intros h T'. apply after_digits_head.
      * intros h T'. apply after_digits_head.
    + apply after_digits_str; auto.
    + apply after_digits_str; auto.
    + pose proof (after_digits_length (x :: s1)) as LA.
      cbn [after_digits] in *. rewrite Dx in *.
      pose proof (after_digits_length s1). cbn [length] in L. lia.
  - rewrite strcmp_natural_loop_eq, natural_order_cons. cbv zeta. rewrite D.
    apply is_str_inv in H1 as [Hx H1]. apply is_str_inv in H2 as [Hy H2].
    cbn [length] in L.
    destruct (x =? y); cbn [negb].
    + apply NEXT; auto; lia.
    + destruct (tolower x =? tolower y); [|reflexivity].
      apply NEXT; auto; lia.
Qed.

(** ** Properties of the orders *)

Lemma default_order_zero s1 : forall s2 t,
  is_str s1 -> is_str s2 -> default_order t s1 s2 = 0 -> t = 0 /\ s1 = s2.
Proof.
  induction s1 as [|x s1 IH]; intros [|y s2] t H1 H2.
  - cbn. auto.
  - apply is_str_inv in H2 as [Hy _]. cbn. lia.
  - apply is_str_inv in H1 as [Hx _]. cbn. lia.
  - apply is_str_inv in H1 as [Hx H1]. apply is_str_inv in H2 as [Hy H2].
    rewrite default_order_cons. destruct (x =? y) eqn:E.
    + apply Z.eqb_eq in E. subst y. intros H.
      destruct (IH s2 t H1 H2 H) as [-> ->]. auto.
    + apply Z.eqb_neq in E. destruct (tolower x =? tolower y) eqn:El.
      * intros H. destruct (IH s2 _ H1 H2 H) as [Ht _].
        destruct (t =? 0) eqn:Et; [lia|]. apply Z.eqb_neq in Et. lia.
      * apply Z.eqb_neq in El. lia.
Qed.

Lemma default_order_fold s1 : forall s2 t,
  is_str s1 -> is_str s2 ->
  bytes_compare (map tolower s1) (map tolower s2) <> Eq ->
  (default_order t s1 s2 ?= 0)
  = bytes_compare (map tolower s1) (map tolower s2).
Proof.
  induction s1 as [|x s1 IH]; intros [|y s2] t H1 H2.
  - cbn. congruence.
  - apply is_str_inv in H2 as [Hy _]. cbn. intros _.
    apply Z.compare_lt_iff. lia.
  - apply is_str_inv in H1 as [Hx _]. cbn. intros _.
    apply Z.compare_gt_iff. lia.
  - apply is_str_inv in H1 as [Hx H1]. apply is_str_inv in H2 as [Hy H2].
    rewrite default_order_cons. cbn [map bytes_compare].
    destruct (x =? y) eqn:E.
    + apply Z.eqb_eq in E. subst y. rewrite Z.compare_refl. apply IH; auto.
    + destruct (tolower x =? tolower y) eqn:El.
      * apply Z.eqb_eq in El. rewrite El, Z.compare_refl. apply IH; auto.
      * apply Z.eqb_neq in El. intros _.
        rewrite <- Z.compare_sub.
        destruct (tolower x ?= tolower y) eqn:C; try reflexivity.
        apply Z.compare_eq in C. contradiction.
Qed.

Lemma default_order_prefix p : forall t s1 s2,
  default_order t (p ++ s1) (p ++ s2) = default_order t s1 s2.
Proof.
  induction p as [|x p IH]; intros t s1 s2; [reflexivity|].
  cbn [app]. rewrite default_order_cons, Z.eqb_refl. apply IH.
Qed.

Lemma default_order_tie s1 : forall s2 t,
  map tolower s1 = map tolower s2 -> t <> 0 -> default_order t s1 s2 = t.
Proof.
  induction s1 as [|x s1 IH]; intros [|y s2] t; cbn [map]; try discriminate.
  - reflexivity.
  - intros [= E1 E2] Ht. rewrite default_order_cons.
    destruct (x =? y); [apply IH; auto|].
    rewrite E1, Z.eqb_refl.
    replace (t =? 0) with false by (symmetry; apply Z.eqb_neq; exact Ht).
    apply IH; auto.
Qed.

Lemma default_order_case p a q1 b q2 :
  a <> b -> map tolower (a :: q1) = map tolower (b :: q2) ->
  default_order 0 (p ++ a :: q1) (p ++ b :: q2) = b - a.
Proof.
  intros N [= E1 E2]. rewrite default_order_prefix, default_order_cons.
  replace (a =? b) with false by (symmetry; apply Z.eqb_neq; exact N).
  rewrite E1, Z.eqb_refl. cbn [Z.eqb]. apply default_order_tie; auto. lia.
Qed.

Lemma tolower_variants a b :
  a <> b -> tolower a = tolower b -> (tolower a = a -> b - a = -32)
  /\ (tolower b = b -> b - a = 32).
Proof.
  unfold tolower.
  destruct ((65 <=? a) && (a <=? 90)) eqn:Ea, ((65 <=? b) && (b <=? 90)) eqn:Eb;
    lia.
Qed.

Lemma digits_value_from_acc run : forall acc,
  digits_value_from acc run = acc * 10 ^ len run + digits_value run.
Proof.
  unfold digits_value, len.
  induction run as [|d run IH]; intros acc; cbn [digits_value_from length].
  - cbn. lia.
  - rewrite IH, (IH (10 * 0 + (d - 48))).
    rewrite Nat2Z.inj_succ, Z.pow_succ_r by lia. ring.
Qed.

Lemma isdigit_range d : isdigit d = true -> 48 <= d <= 57.
Proof. unfold isdigit. lia. Qed.

Lemma digits_value_bound run : all_digits run ->
  0 <= digits_value run < 10 ^ len run.
Proof.
  induction 1 as [|d run Hd H IH].
  - cbn. lia.
  - unfold digits_value. cbn [digits_value_from].
    rewrite digits_value_from_acc. apply isdigit_range in Hd.
    unfold len in *. cbn [length]. rewrite Nat2Z.inj_succ, Z.pow_succ_r by lia.
    nia.
Qed.

Lemma digits_value_cons d run :
  digits_value (d :: run) = (d - 48) * 10 ^ len run + digits_value run.
Proof.
  unfold digits_value at 1. cbn [digits_value_from].
  rewrite digits_value_from_acc. ring.
Qed.

Lemma strip_zeroes_value run : digits_value (strip_zeroes run) = digits_value run.
Proof.
  induction run as [|x run IH]; [reflexivity|].
  destruct run as [|y run]; [reflexivity|].
  change (strip_zeroes (x :: y :: run))
    with (if x =? 48 then strip_zeroes (y :: run) else x :: y :: run).
  destruct (x =? 48) eqn:E; [|reflexivity].
  apply Z.eqb_eq in E. subst x. rewrite IH, (digits_value_cons 48). lia.
Qed.

Lemma strip_zeroes_digits run : all_digits run -> all_digits (strip_zeroes run).
Proof.
  induction 1 as [|x run Hx H IH]; [constructor|].
  destruct run as [|y run]; [repeat constructor; auto|].
  change (strip_zeroes (x :: y :: run))
    with (if x =? 48 then strip_zeroes (y :: run) else x :: y :: run).
  destruct (x =? 48); auto. constructor; auto.
Qed.

Lemma strip_zeroes_nonempty run : run <> [] -> strip_zeroes run <> [].
Proof.
  induction run as [|x run IH]; [congruence|]. intros _.
  destruct run as [|y run]; [cbn; congruence|].
  change (strip_zeroes (x :: y :: run))
    with (if x =? 48 then strip_zeroes (y :: run) else x :: y :: run).
  destruct (x =? 48); [apply IH|]; congruence.
Qed.

(** A stripped run of two digits or more starts with a non-zero digit. *)
Lemma strip_zeroes_lower run : all_digits run -> (2 <= length (strip_zeroes run))%nat ->
  10 ^ (len (strip_zeroes run) - 1) <= digits_value (strip_zeroes run).
Proof.
  induction 1 as [|x run Hx H IH]; [cbn; lia|].
  destruct run as [|y run]; [cbn; lia|].
  change (strip_zeroes (x :: y :: run))
    with (if x =? 48 then strip_zeroes (y :: run) else x :: y :: run).
  destruct (x =? 48) eqn:E; [exact IH|]. intros _.
  apply Z.eqb_neq in E. apply isdigit_range in Hx.
  rewrite digits_value_cons.
  pose proof (digits_value_bound (y :: run) H) as B.
  unfold len in *. cbn [length] in *.
  replace (Z.of_nat (S (S (length run))) - 1) with (Z.of_nat (S (length run))) by lia.
  nia.
Qed.

Lemma first_difference_value v1 : forall v2 d,
  all_digits v1 -> all_digits v2 -> length v1 = length v2 ->
  first_difference v1 v2 = Some d ->
  (d < 0 -> digits_value v1 < digits_value v2)
  /\ (0 < d -> digits_value v2 < digits_value v1).
Proof.
  induction v1 as [|x v1 IH]; intros [|y v2] d A1 A2 L; cbn [first_difference];
    try discriminate.
  inversion A1 as [|? ? Hx A1']; inversion A2 as [|? ? Hy A2']; subst.
  injection L as L. rewrite !digits_value_cons.
  assert (len v1 = len v2) as -> by (unfold len; lia).
  pose proof (digits_value_bound v1 A1') as B1.
  pose proof (digits_value_bound v2 A2') as B2.
  assert (len v1 = len v2) as EL by (unfold len; lia). rewrite EL in B1.
  destruct (x =? y) eqn:E.
  - apply Z.eqb_eq in E. subst y. intros F.
    destruct (IH v2 d A1' A2' L F). split; intros; [assert (digits_value v1 < digits_value v2) by auto | assert (digits_value v2 < digits_value v1) by auto]; lia.
  - intros [= <-]. apply Z.eqb_neq in E. split; intros; nia.
Qed.

Lemma first_difference_antisym v1 : forall v2,
  first_difference v2 v1 = option_map Z.opp (first_difference v1 v2).
Proof.
  induction v1 as [|x v1 IH]; intros [|y v2]; try reflexivity.
  cbn [first_difference]. rewrite (Z.eqb_sym y x).
  destruct (x =? y); [apply IH|]. cbn. f_equal. lia.
Qed.

Lemma run_order_antisym r1 r2 : run_order r2 r1 = - run_order r1 r2.
Proof.
  unfold run_order. rewrite (Z.eqb_sym (len (strip_zeroes r2))).
  destruct (_ =? _); [|lia].
  rewrite first_difference_antisym.
  destruct (first_difference _ _); cbn; lia.
Qed.

Lemma run_order_value r1 r2 :
  all_digits r1 -> all_digits r2 -> r1 <> [] -> r2 <> [] ->
  (digits_value r1 < digits_value r2 -> run_order r1 r2 < 0)
  /\ (digits_value r1 = digits_value r2 -> len r2 < len r1 ->
      run_order r1 r2 < 0).
Proof.
  intros A1 A2 N1 N2.
  pose proof (strip_zeroes_digits r1 A1) as V1.
  pose proof (strip_zeroes_digits r2 A2) as V2.
  pose proof (strip_zeroes_nonempty r1 N1) as NV1.
  pose proof (strip_zeroes_nonempty r2 N2) as NV2.
  pose proof (strip_zeroes_lower r1 A1) as Lo1.
  pose proof (digits_value_bound _ V2) as B2.
  rewrite <- (strip_zeroes_value r1), <- (strip_zeroes_value r2).
  unfold run_order.
  set (v1 := strip_zeroes r1) in *. set (v2 := strip_zeroes r2) in *.
  assert (0 < len v1) by (unfold len; destruct v1; [congruence|cbn; lia]).
  assert (0 < len v2) by (unfold len; destruct v2; [congruence|cbn; lia]).
  destruct (len v1 =? len v2) eqn:E.
  - apply Z.eqb_eq in E.
    destruct (first_difference v1 v2) as [d|] eqn:F.
    + pose proof (first_difference_nonzero _ _ _ F).
      destruct (first_difference_value v1 v2 d V1 V2 ltac:(unfold len in E; lia) F).
      split; intros; destruct (Z.lt_trichotomy d 0) as [|[|]]; try lia;
        assert (digits_value v2 < digits_value v1) by auto; lia.
    + apply first_difference_none in F; [|unfold len in E; lia].
      rewrite F. split; intros; lia.
  - apply Z.eqb_neq in E.
    destruct (Z.lt_trichotomy (len v1) (len v2)) as [|[|G]]; [split; intros; lia|lia|].
    assert (digits_value v2 < digits_value v1); [|split; intros; lia].
    assert (2 <= length v1)%nat as L2 by (unfold len in *; lia).
    specialize (Lo1 L2).
    assert (10 ^ len v2 <= 10 ^ (len v1 - 1))
      by (apply Z.pow_le_mono_r; lia).
    lia.
Qed.

Lemma natural_order_zero s1 : forall s2 t,
  is_str s1 -> is_str s2 -> natural_order t s1 s2 = 0 -> t = 0 /\ s1 = s2.
Proof.
  induction s1 as [|x s1 IH]; intros [|y s2] t H1 H2.
  - cbn. auto.
  - apply is_str_inv in H2 as [Hy _]. cbn. lia.
  - apply is_str_inv in H1 as [Hx _]. cbn. lia.
  - apply is_str_inv in H1 as [Hx H1]. apply is_str_inv in H2 as [Hy H2].
    rewrite natural_order_cons. destruct (isdigit x && isdigit y) eqn:D.
    + apply andb_prop in D as [Dx Dy]. cbv zeta.
      destruct (run_order _ _ =? 0) eqn:Z0.
      * apply Z.eqb_eq, run_order_zero in Z0. cbn [digit_run] in Z0.
        rewrite Dx, Dy in Z0. injection Z0 as -> _. intros H.
        destruct (IH s2 t H1 H2 H) as [-> ->]. auto.
      * apply Z.eqb_neq in Z0. intros; contradiction.
    + destruct (x =? y) eqn:E.
      * apply Z.eqb_eq in E. subst y. intros H.
        destruct (IH s2 t H1 H2 H) as [-> ->]. auto.
      * apply Z.eqb_neq in E. destruct (tolower x =? tolower y) eqn:El.
        -- intros H. destruct (IH s2 _ H1 H2 H) as [Ht _].
           destruct (t =? 0) eqn:Et; [lia|]. apply Z.eqb_neq in Et. lia.
        -- apply Z.eqb_neq in El. lia.
Qed.

Lemma isdigit_fold a b :
  tolower a = tolower b ->
  isdigit a = isdigit b /\ (isdigit a = true -> a = b).
Proof.
  unfold tolower, isdigit.
  destruct ((65 <=? a) && (a <=? 90)) eqn:Ea, ((65 <=? b) && (b <=? 90)) eqn:Eb;
    intros E; split; try lia;
    destruct ((48 <=? a) && (a <=? 57)) eqn:Da,
             ((48 <=? b) && (b <=? 57)) eqn:Db; try reflexivity; lia.
Qed.

Lemma digit_run_prefix pre1 : forall pre2 A B,
  map tolower pre1 = map tolower pre2 ->
  pre1 <> [] -> no_trailing_digit pre1 ->
  digit_run (pre1 ++ A) = digit_run (pre2 ++ B).
Proof.
  induction pre1 as [|x pre1 IH]; intros [|y pre2] A B E N T;
    try congruence; try discriminate.
  injection E as Exy E. destruct (isdigit_fold x y Exy) as [D Dx].
  cbn [app digit_run]. rewrite <- D. destruct (isdigit x) eqn:Hx; [|reflexivity].
  rewrite <- (Dx eq_refl). f_equal. destruct pre1 as [|z pre1].
  - rewrite (T [] x eq_refl) in Hx. discriminate.
  - apply IH; [exact E|congruence|]. intros p d Ep. apply (T (x :: p) d).
    rewrite Ep. reflexivity.
Qed.

Lemma natural_order_runs pre1 : forall pre2 t R1 T1 R2 T2,
  map tolower pre1 = map tolower pre2 ->
  no_trailing_digit pre1 ->
  all_digits R1 -> all_digits R2 -> R1 <> [] -> R2 <> [] -> R1 <> R2 ->
  (forall h T', T1 = h :: T' -> isdigit h = false) ->
  (forall h T', T2 = h :: T' -> isdigit h = false) ->
  natural_order t (pre1 ++ R1 ++ T1) (pre2 ++ R2 ++ T2) = run_order R1 R2.
Proof.
  induction pre1 as [|x pre1 IH];
    intros [|y pre2] t R1 T1 R2 T2 E NT A1 A2 N1 N2 NE H1 H2;
    try discriminate.
  - cbn [app]. destruct R1 as [|x R1]; [congruence|].
    destruct R2 as [|y R2]; [congruence|].
    rewrite <- !app_comm_cons, natural_order_cons.
    assert (Dx : isdigit x = true) by (inversion A1; auto).
    assert (Dy : isdigit y = true) by (inversion A2; auto).
    rewrite Dx, Dy. cbn [andb]. cbv zeta. rewrite !app_comm_cons.
    destruct (digit_run_app (x :: R1) T1 A1 H1) as [-> _].
    destruct (digit_run_app (y :: R2) T2 A2 H2) as [-> _].
    destruct (run_order _ _ =? 0) eqn:Z0; [|reflexivity].
    apply Z.eqb_eq, run_order_zero in Z0. contradiction.
  - assert (NT' : no_trailing_digit pre1).
    { intros p d Ep. apply (NT (x :: p) d). rewrite Ep. reflexivity. }
    assert (E' := E). injection E' as Exy E'.
    destruct (isdigit_fold x y Exy) as [D Dx].
    rewrite <- !app_comm_cons, natural_order_cons. rewrite <- D.
    destruct (isdigit x) eqn:Hx; cbn [andb].
    + cbv zeta. rewrite !app_comm_cons.
      rewrite (digit_run_prefix (x :: pre1) (y :: pre2) (R1 ++ T1) (R2 ++ T2))
        by (auto; congruence).
      rewrite run_order_refl. cbn [Z.eqb]. apply IH; auto.
    + rewrite Exy, Z.eqb_refl. destruct (x =? y); apply IH; auto.
Qed.

Lemma natural_order_no_digit s1 : forall s2 t,
  Forall (fun c => isdigit c = false) s1 ->
  natural_order t s1 s2 = default_order t s1 s2.
Proof.
  induction s1 as [|x s1 IH]; intros [|y s2] t H; try reflexivity.
  inversion H as [|? ? Hx H']; subst.
  rewrite natural_order_cons, default_order_cons, Hx. cbn [andb].
  rewrite !IH by assumption. reflexivity.
Qed.

(** ** The comparators on string objects *)

Lemma strcmp_default_order s1 s2 r1 r2 :
  is_str s1 -> is_str s2 -> s1 <> [] -> s2 <> [] ->
  strcmp_default (s1 ++ 0 :: r1) (s2 ++ 0 :: r2) = Some (default_order 0 s1 s2).
Proof.
  intros H1 H2 N1 N2. destruct s1 as [|x s1], s2 as [|y s2]; try congruence.
  apply strcmp_default_loop_order; auto.
Qed.

Lemma strcmp_natural_order s1 s2 r1 r2 :
  is_str s1 -> is_str s2 -> s1 <> [] -> s2 <> [] ->
  strcmp_natural (s1 ++ 0 :: r1) (s2 ++ 0 :: r2) = Some (natural_order 0 s1 s2).
Proof.
  intros H1 H2 N1 N2. destruct s1 as [|x s1], s2 as [|y s2]; try congruence.
  unfold strcmp_natural. rewrite <- !app_comm_cons.
  apply strcmp_natural_loop_order; auto.
  rewrite app_comm_cons, length_app. lia.
Qed.

Lemma strcmp_default_empty s1 s2 r1 r2 :
  is_str s1 -> is_str s2 -> (s1 = [] /\ s2 <> []) \/ (s1 <> [] /\ s2 = []) ->
  exists r, r <> 0 /\ strcmp_default (s1 ++ 0 :: r1) (s2 ++ 0 :: r2) = Some r
            /\ strcmp_default (cstr s1) (cstr s2) = Some r.
Proof.
  intros H1 H2 [[-> N]|[N ->]].
  - destruct s2 as [|y s2]; [congruence|]. apply is_str_inv in H2 as [Hy _].
    exists (tolower 0 - tolower y). pose proof (tolower_pos y ltac:(lia)).
    unfold strcmp_default, cstr. cbn [app]. rewrite !strcmp_default_loop_eq.
    replace (0 =? y) with false by (symmetry; apply Z.eqb_neq; lia).
    replace (tolower 0 =? tolower y) with false
      by (symmetry; apply Z.eqb_neq; cbn; lia).
    cbn [negb]. repeat split. cbn; lia.
  - destruct s1 as [|x s1]; [congruence|]. apply is_str_inv in H1 as [Hx _].
    exists (tolower x - tolower 0). pose proof (tolower_pos x ltac:(lia)).
    unfold strcmp_default, cstr. cbn [app]. rewrite !strcmp_default_loop_eq.
    replace (x =? 0) with false by (symmetry; apply Z.eqb_neq; lia).
    replace (tolower x =? tolower 0) with false
      by (symmetry; apply Z.eqb_neq; cbn; lia).
    cbn [negb]. repeat split. cbn; lia.
Qed.

Lemma strcmp_natural_empty s1 s2 r1 r2 :
  is_str s1 -> is_str s2 -> (s1 = [] /\ s2 <> []) \/ (s1 <> [] /\ s2 = []) ->
  exists r, r <> 0 /\ strcmp_natural (s1 ++ 0 :: r1) (s2 ++ 0 :: r2) = Some r
            /\ strcmp_natural (cstr s1) (cstr s2) = Some r.
Proof.
  intros H1 H2 [[-> N]|[N ->]].
  - destruct s2 as [|y s2]; [congruence|]. apply is_str_inv in H2 as [Hy _].
    exists (tolower 0 - tolower y). pose proof (tolower_pos y ltac:(lia)).
    unfold strcmp_natural, cstr. cbn [app length]. rewrite !strcmp_natural_loop_eq.
    cbv zeta. replace (isdigit 0) with false by reflexivity. cbn [andb].
    replace (0 =? y) with false by (symmetry; apply Z.eqb_neq; lia).
    replace (tolower 0 =? tolower y) with false
      by (symmetry; apply Z.eqb_neq; cbn; lia).
    cbn [negb]. repeat split. cbn; lia.
  - destruct s1 as [|x s1]; [congruence|]. apply is_str_inv in H1 as [Hx _].
    exists (tolower x - tolower 0). pose proof (tolower_pos x ltac:(lia)).
    unfold strcmp_natural, cstr. cbn [app length]. rewrite !strcmp_natural_loop_eq.
    cbv zeta. replace (isdigit 0) with false by reflexivity.
    rewrite andb_false_r.
    replace (x =? 0) with false by (symmetry; apply Z.eqb_neq; lia).
    replace (tolower x =? tolower 0) with false
      by (symmetry; apply Z.eqb_neq; cbn; lia).
    cbn [negb]. repeat split. cbn; lia.
Qed.

Lemma strcmp_order s1 : forall s2 r1 r2, is_str s1 -> is_str s2 ->
  strcmp (s1 ++ 0 :: r1) (s2 ++ 0 :: r2) = Some (ascii_order s1 s2).
Proof.
  induction s1 as [|x s1 IH]; intros [|y s2] r1 r2 H1 H2; cbn [app strcmp ascii_order].
  - reflexivity.
  - apply is_str_inv in H2 as [Hy _].
    replace (0 =? y) with false by (symmetry; apply Z.eqb_neq; lia). reflexivity.
  - apply is_str_inv in H1 as [Hx _].
    replace (x =? 0) with false by (symmetry; apply Z.eqb_neq; lia). reflexivity.
  - apply is_str_inv in H1 as [Hx H1]. apply is_str_inv in H2 as [Hy H2].
    destruct (x =? y); [|reflexivity].
    replace (x =? 0) with false by (symmetry; apply Z.eqb_neq; lia).
    apply IH; auto.
Qed.

Lemma ascii_order_zero s1 : forall s2, is_str s1 -> is_str s2 ->
  ascii_order s1 s2 = 0 -> s1 = s2.
Proof.
  induction s1 as [|x s1 IH]; intros [|y s2] H1 H2; cbn [ascii_order].
  - reflexivity.
  - apply is_str_inv in H2 as [Hy _]. lia.
  - apply is_str_inv in H1 as [Hx _]. lia.
  - apply is_str_inv in H1 as [Hx H1]. apply is_str_inv in H2 as [Hy H2].
    destruct (x =? y) eqn:E.
    + apply Z.eqb_eq in E. subst y. intros H. f_equal. auto.
    + apply Z.eqb_neq in E. lia.
Qed.

(** strrchr at the split *)
Lemma strrchr_none s c : ~ In c s -> strrchr s c = None.
Proof.
  induction s as [|x s IH]; cbn; [reflexivity|]. intros N.
  rewrite IH by tauto.
  replace (x =? c) with false by (symmetry; apply Z.eqb_neq; tauto). reflexivity.
Qed.

Lemma strrchr_split d c b : ~ In c b ->
  strrchr (d ++ c :: b) c = Some (length d).
Proof.
  intros N. induction d as [|x d IH]; cbn [app strrchr length].
  - rewrite strrchr_none by assumption. rewrite Z.eqb_refl. reflexivity.
  - rewrite IH. reflexivity.
Qed.

Lemma strrchr_some s c : In c s -> exists i, strrchr s c = Some i.
Proof.
  induction s as [|x s IH]; cbn; [tauto|]. intros [->|H].
  - destruct (strrchr s c); [eauto|]. rewrite Z.eqb_refl. eauto.
  - destruct (IH H) as [i ->]. eauto.
Qed.

Lemma qsort_compar_split compar_fn d1 b1 d2 b2 :
  ~ In DIR_SEPARATOR b1 -> ~ In DIR_SEPARATOR b2 ->
  qsort_compar compar_fn (d1 ++ DIR_SEPARATOR :: b1) (d2 ++ DIR_SEPARATOR :: b2)
  = (result <- compar_fn (d1 ++ 0 :: cstr b1) (d2 ++ 0 :: cstr b2) ;;
     if result =? 0 then compar_fn (cstr b1) (cstr b2) else Some result).
Proof.
  intros N1 N2. unfold qsort_compar.
  rewrite !strrchr_split by assumption.
  rewrite !firstn_app, !firstn_all, !Nat.sub_diag. cbn [firstn].
  rewrite !app_nil_r.
  replace (skipn (S (length d1)) (d1 ++ DIR_SEPARATOR :: b1)) with b1.
  replace (skipn (S (length d2)) (d2 ++ DIR_SEPARATOR :: b2)) with b2.
  reflexivity.
  - rewrite skipn_app, skipn_all2 by lia.
    replace (S (length d2) - length d2)%nat with 1%nat by lia. reflexivity.
  - rewrite skipn_app, skipn_all2 by lia.
    replace (S (length d1) - length d1)%nat with 1%nat by lia. reflexivity.
Qed.

(** ** The list during the traversal *)

Ltac inv H := inversion H; subst; clear H.

Ltac break_step :=
  match goal with
  | H : Some _ = Some _ |- _ => inv H
  | H : (_, _) = (_, _) |- _ => inv H
  | H : None = Some _ |- _ => discriminate H
  | H : Some _ = None |- _ => discriminate H
  | H : context [match ?x with _ => _ end] |- _ =>
      lazymatch x with
      | context [match _ with _ => _ end] => fail
      | _ => destruct x eqn:?
      end
  end.

Ltac break_all := repeat (break_step; try discriminate).

(** Evaluate, using that no answer of the debug stream is left. *)
Ltac quiet :=
  cbn;
  repeat match goal with
         | H : stderr ?s = [] |- _ => rewrite H
         end;
  cbn.

Lemma grows_refl Q s s' : file_list s' = file_list s -> grows Q s s'.
Proof. intros E. exists []. rewrite app_nil_r. auto. Qed.

Lemma grows_trans Q s1 s2 s3 : grows Q s1 s2 -> grows Q s2 s3 -> grows Q s1 s3.
Proof.
  intros (a1 & E1 & F1) (a2 & E2 & F2). exists (a1 ++ a2).
  rewrite E2, E1, app_assoc. split; [reflexivity|]. apply Forall_app; auto.
Qed.

Lemma grows_weaken (Q Q' : list Z -> Prop) s s' :
  (forall p, Q p -> Q' p) -> grows Q s s' -> grows Q' s s'.
Proof.
  intros W (a & E & F). exists a. split; [exact E|].
  eapply Forall_impl; eauto.
Qed.

Lemma alloc_list s b s' : alloc s = (b, s') -> file_list s' = file_list s.
Proof. unfold alloc. intros H. break_all; reflexivity. Qed.

Lemma alloc_errno s b s' : alloc s = (b, s') ->
  if b then errno s' = errno s else errno s' = ENOMEM.
Proof. unfold alloc. intros H. break_all; reflexivity. Qed.

Lemma alloc_no_failure s : heap s = [] -> alloc s = (true, s).
Proof. unfold alloc. intros ->. reflexivity. Qed.

(** A debug write touches [errno] and the stream, nothing else. *)
Lemma DEBUG_PRINTF_frame s :
  file_list (DEBUG_PRINTF s) = file_list s
  /\ n_file_list_max (DEBUG_PRINTF s) = n_file_list_max s
  /\ stack (DEBUG_PRINTF s) = stack s
  /\ heap (DEBUG_PRINTF s) = heap s
  /\ freed (DEBUG_PRINTF s) = freed s.
Proof. cbn. auto. Qed.

Lemma DEBUG_PRINTF_list s : file_list (DEBUG_PRINTF s) = file_list s.
Proof. apply DEBUG_PRINTF_frame. Qed.

Lemma DEBUG_PRINTF_max s : n_file_list_max (DEBUG_PRINTF s) = n_file_list_max s.
Proof. apply DEBUG_PRINTF_frame. Qed.

Lemma DEBUG_PRINTF_stack s : stack (DEBUG_PRINTF s) = stack s.
Proof. apply DEBUG_PRINTF_frame. Qed.

Lemma DEBUG_PRINTF_heap s : heap (DEBUG_PRINTF s) = heap s.
Proof. apply DEBUG_PRINTF_frame. Qed.

Lemma DEBUG_PRINTF_freed s : freed (DEBUG_PRINTF s) = freed s.
Proof. apply DEBUG_PRINTF_frame. Qed.

Lemma DEBUG_PRINTF_n s : n_file_list (DEBUG_PRINTF s) = n_file_list s.
Proof. unfold n_file_list. rewrite DEBUG_PRINTF_list. reflexivity. Qed.

(** With no answer listed, the write leaves the state as it is. *)
Lemma DEBUG_PRINTF_quiet s : stderr s = [] -> DEBUG_PRINTF s = s.
Proof. unfold DEBUG_PRINTF. intros E. rewrite E. destruct s; cbn in *; subst; reflexivity. Qed.

(** The stream only ever loses answers from its front. *)
Lemma DEBUG_PRINTF_stderr s : stderr s = [] -> stderr (DEBUG_PRINTF s) = [].
Proof. intros E. rewrite DEBUG_PRINTF_quiet; assumption. Qed.

Lemma alloc_stderr s b s' : alloc s = (b, s') -> stderr s' = stderr s.
Proof. unfold alloc. destruct (heap s) as [|[|] h]; intros [= <- <-]; reflexivity. Qed.

Lemma create_path_inv s dir file p s' :
  create_path s dir file = Some (p, s') ->
  dir <> [] /\ file_list s' = file_list s
  /\ match p with
     | Some q => q = path_of dir file /\ errno s' = errno s
     | None => errno s' = ENOMEM
     end.
Proof.
  unfold create_path. intros H. destruct dir as [|x dir]; [discriminate|].
  destruct (alloc s) as [[|] s1] eqn:A; inv H;
    pose proof (alloc_list _ _ _ A); pose proof (alloc_errno _ _ _ A);
    cbn in *; repeat split; auto; congruence.
Qed.

Lemma CREATE_CURRENT_PATH_inv s cp dir file c s' :
  CREATE_CURRENT_PATH s cp dir file = Some (c, s') ->
  file_list s' = file_list s
  /\ match c with
     | Return r => r = -1 /\ errno s' = ENOMEM
     | Continue => False
     | Go q => (cp = Some q /\ s' = s)
               \/ (cp = None /\ dir <> [] /\ q = path_of dir file
                   /\ errno s' = errno s)
     end.
Proof.
  unfold CREATE_CURRENT_PATH. intros H. destruct cp as [q|].
  - inv H. auto.
  - destruct (create_path s dir file) as [[p s1]|] eqn:C; [|discriminate].
    apply create_path_inv in C as (N & L & P).
    destruct p as [q|]; inv H; (split; [assumption|]).
    + right. tauto.
    + auto.
Qed.

Lemma path_of_separator dir file : dir <> [] -> In DIR_SEPARATOR (path_of dir file).
Proof.
  intros N. unfold path_of. destruct (last dir 0 =? DIR_SEPARATOR) eqn:E.
  - apply Z.eqb_eq in E. apply in_or_app. left.
    destruct (exists_last N) as (d' & x & ->). rewrite last_last in E. subst x.
    apply in_or_app. right. left. reflexivity.
  - apply in_or_app. right. left. reflexivity.
Qed.

Lemma path_of_nonempty dir file : dir <> [] -> path_of dir file <> [].
Proof.
  intros N E. pose proof (path_of_separator dir file N) as H. rewrite E in H.
  exact H.
Qed.

Section TraversalFacts.

Variable regex_t : Type.
Variable regexec : regex_t -> list Z -> bool.
Variables FL_MAX_def SIZE_MAX : Z.
Variable file_type_arr : list Z.
Variable file_ext : option regex_t.
Variable flags : Z.

Local Abbreviation FL_MAX := (FL_MAX_LIST_SIZE FL_MAX_def SIZE_MAX).
Local Abbreviation list_add := (file_list_add FL_MAX_def SIZE_MAX).
Local Abbreviation add_name :=
  (add_file_name regex_t regexec FL_MAX_def SIZE_MAX file_type_arr file_ext flags).
Local Abbreviation body :=
  (loop_body regex_t regexec FL_MAX_def SIZE_MAX file_type_arr file_ext flags).
Local Abbreviation parse :=
  (parse_file_tree regex_t regexec FL_MAX_def SIZE_MAX file_type_arr file_ext flags).
Local Abbreviation readdir :=
  (readdir_loop regex_t regexec FL_MAX_def SIZE_MAX file_type_arr file_ext flags).

Lemma file_list_add_inv s p r s' :
  list_add s p = (r, s') ->
  (r = 0 /\ file_list s' = file_list s ++ [p])
  \/ (r = -1 /\ file_list s' = file_list s
      /\ ((errno s' = E2BIG /\ n_file_list s = FL_MAX) \/ errno s' = ENOMEM)).
Proof.
  unfold file_list_add. intros H.
  destruct (n_file_list s =? n_file_list_max s) eqn:E1.
  - destruct (n_file_list s =? FL_MAX) eqn:E2.
    + inv H. right. apply Z.eqb_eq in E2. cbn. auto.
    + match type of H with
      | match alloc ?t with _ => _ end = _ => destruct (alloc t) as [[|] s1] eqn:A
      end; inv H;
        pose proof (alloc_list _ _ _ A) as L; pose proof (alloc_errno _ _ _ A) as Er;
        cbn in L, Er.
      * left. split; [reflexivity|]. cbn. rewrite L.
        destruct (_ >? _); reflexivity.
      * right. split; [reflexivity|]. split; [|right; exact Er].
        rewrite L. destruct (_ >? _); reflexivity.
  - inv H. left. auto.
Qed.

Lemma get_file_type_inv s dir name d_type st lst c s' :
  get_file_type flags s dir name d_type st lst = Some (c, s') ->
  file_list s' = file_list s
  /\ match c with
     | Return r => r = -1 /\ errno s' = ENOMEM
     | Continue => True
     | Go (cp, sb, ct) =>
         (cp = None /\ sb = None /\ ct = d_type /\ s' = s /\ d_type <> 4)
         \/ (cp = Some (path_of dir name) /\ dir <> [] /\ exists b, sb = Some b)
     end.
Proof.
  unfold get_file_type. intros H.
  destruct (_ || _) eqn:T.
  - destruct (CREATE_CURRENT_PATH s None dir name) as [[p s1]|] eqn:C; [|discriminate].
    apply CREATE_CURRENT_PATH_inv in C as [L P].
    destruct p as [r| |q]; [inv H; auto|contradiction|].
    destruct P as [[? _]|(_ & N & -> & _)]; [discriminate|].
    destruct (if has flags FL_FOLLOW_LINKS then st else lst); inv H; cbn.
    + auto.
    + split; [assumption|]. right. eauto.
  - inv H. split; [reflexivity|]. left. repeat split.
    intros ->. discriminate T.
Qed.

Lemma stat_stack_push_list s sb b s' :
  stat_stack_push s sb = (b, s') ->
  file_list s' = file_list s
  /\ (if b then errno s' = errno s else errno s' = ENOMEM).
Proof.
  unfold stat_stack_push. intros H.
  destruct (_ =? _).
  - destruct (alloc s) as [[|] s1] eqn:A; inv H;
      pose proof (alloc_list _ _ _ A); pose proof (alloc_errno _ _ _ A);
      cbn in *; auto.
  - inv H. auto.
Qed.

Lemma traverse_next_directory_grows Q descend s depth cp sb ct c s' :
  (forall p d s r s', p <> [] -> descend p d s = Some (r, s') -> grows Q s s') ->
  (forall q, cp = Some q -> q <> []) ->
  traverse_next_directory flags descend s depth cp sb ct = Some (c, s') ->
  grows Q s s'.
Proof.
  unfold traverse_next_directory. intros D N H.
  destruct (_ && _); [|inv H; apply grows_refl; reflexivity].
  destruct sb as [b|]; [|discriminate]. destruct cp as [q|]; [|discriminate].
  destruct (is_directory_loop _ _) as [[|]|]; try discriminate;
    [inv H; apply grows_refl; reflexivity|].
  match type of H with
  | context [match ?x with Some _ => _ | None => None end] => destruct x as [[|]|]
  end; try discriminate; [inv H; apply grows_refl; reflexivity|].
  destruct (stat_stack_push s b) as [[|] s1] eqn:P;
    apply stat_stack_push_list in P as [L _];
    [|inv H; apply grows_refl; exact L].
  destruct (descend q _ s1) as [[r s2]|] eqn:E; [|discriminate].
  apply D in E; [|auto].
  assert (G : grows Q s s2).
  { destruct E as (a & E & F). exists a. rewrite E, L. auto. }
  destruct (negb _); inv H; destruct G as (a & E' & F); exists a; auto.
Qed.

Lemma add_file_name_grows s dir name cp ct c s' :
  cp = None \/ cp = Some (path_of dir name) ->
  add_name s dir name cp ct = Some (c, s') ->
  grows (fun p => p = path_of dir name \/ p = path_of dir name ++ [DIR_SEPARATOR])
        s s'.
Proof.
  unfold add_file_name. intros Hcp H.
  destruct (nth_error _ _) as [enabled|]; [|discriminate].
  destruct (enabled =? 1);
    [|inv H; apply grows_refl; destruct cp; reflexivity].
  destruct (match file_ext with Some _ => _ | None => _ end);
    [inv H; apply grows_refl; destruct cp; reflexivity|].
  destruct (CREATE_CURRENT_PATH s cp dir name) as [[p s1]|] eqn:C; [|discriminate].
  apply CREATE_CURRENT_PATH_inv in C as [L P].
  destruct p as [r| |q]; [inv H; apply grows_refl; exact L|contradiction|].
  assert (Eq : q = path_of dir name).
  { destruct P as [[-> _]|(_ & _ & -> & _)]; [|reflexivity].
    destruct Hcp as [?|[= ->]]; [discriminate|reflexivity]. }
  subst q. clear P Hcp.
  destruct (_ && _).
  - destruct (alloc s1) as [[|] s2] eqn:A; pose proof (alloc_list _ _ _ A) as L2.
    + destruct (list_add s2 _) as [r s3] eqn:F.
      apply file_list_add_inv in F as [[-> F]|(-> & F & _)]; inv H.
      * eexists [_]. rewrite F, L2, L. split; [reflexivity|].
        constructor; [right; reflexivity|constructor].
      * apply grows_refl. cbn. congruence.
    + inv H. apply grows_refl. cbn. congruence.
  - destruct (list_add s1 _) as [r s3] eqn:F.
    apply file_list_add_inv in F as [[-> F]|(-> & F & _)]; inv H.
    + eexists [_]. rewrite F, L. split; [reflexivity|].
      constructor; [left; reflexivity|constructor].
    + apply grows_refl. cbn. congruence.
Qed.

Lemma loop_body_grows Q descend name d_type st lst dir depth s c s' :
  (forall p d s r s', p <> [] -> descend p d s = Some (r, s') -> grows Q s s') ->
  body descend name d_type st lst dir depth s = Some (c, s') ->
  grows (fun p => Q p \/ (dir <> [] /\ (p = path_of dir name
                          \/ p = path_of dir name ++ [DIR_SEPARATOR])))
        s s'.
Proof.
  intros D H.
  unfold loop_body in H.
  destruct (current_or_parent name); [inv H; apply grows_refl; reflexivity|].
  rename H into B.
  destruct (get_file_type flags s dir name d_type st lst) as [[c1 s1]|] eqn:G;
    [|discriminate].
  apply get_file_type_inv in G as [L1 P1].
  destruct c1 as [r| |[[cp sb] ct]];
    [inv B; apply grows_refl; exact L1|inv B; apply grows_refl; exact L1|].
  destruct (traverse_next_directory flags descend s1 depth cp sb ct)
    as [[c2 s2]|] eqn:T; [|discriminate].
  assert (G1 : grows Q s s2).
  { apply traverse_next_directory_grows with (Q := Q) in T; auto.
    - destruct T as (a & E & F). exists a. rewrite E, L1. auto.
    - intros q ->. destruct P1 as [[? _]|([= ->] & N & _)]; [discriminate|].
      apply path_of_nonempty; auto. }
  eapply grows_weaken with (Q' := fun p => Q p \/ _) in G1; [|intros p Hp; left; exact Hp].
  destruct c2 as [r| |[]]; [inv B; exact G1|inv B; exact G1|].
  eapply grows_trans; [exact G1|].
  destruct P1 as [(-> & _)|(-> & N & _)].
  - destruct (add_name s2 dir name None ct) as [[c3 s3]|] eqn:A; [|discriminate].
    inv B.
    assert (A' := A). apply add_file_name_grows in A'; auto.
    (* the path was created here, so dir is not empty, unless nothing was added *)
    unfold add_file_name in A.
    destruct dir as [|x dir].
    + apply grows_refl.
      destruct (nth_error _ _) as [enabled|]; [|discriminate].
      destruct (enabled =? 1); [|inv A; reflexivity].
      destruct (match file_ext with Some _ => _ | None => _ end); [inv A; reflexivity|].
      cbn in A. discriminate.
    + eapply grows_weaken; [|exact A']. intros p Hp. right. split; [congruence|exact Hp].
  - apply add_file_name_grows in B; auto.
    eapply grows_weaken; [|exact B]. intros p Hp. right. split; assumption.
Qed.

Lemma parse_file_tree_fails e directory depth s :
  parse (opendir_fails e) directory depth s =
  if negb (errno (DEBUG_PRINTF (set_errno e s)) =? EACCES)
  then Some (-1, DEBUG_PRINTF (set_errno e s))
  else Some (0, DEBUG_PRINTF (set_errno e s)).
Proof. reflexivity. Qed.

Lemma parse_file_tree_fails_quiet e directory depth s :
  stderr s = [] ->
  parse (opendir_fails e) directory depth s =
  if negb (e =? EACCES) then Some (-1, set_errno e s) else Some (0, set_errno e s).
Proof.
  intros Q. rewrite parse_file_tree_fails, DEBUG_PRINTF_quiet by exact Q.
  reflexivity.
Qed.

Lemma parse_file_tree_ok entries directory depth s :
  parse (opendir_ok entries) directory depth s = readdir entries directory depth s.
Proof. reflexivity. Qed.

Lemma readdir_loop_end directory depth s :
  readdir end_of_dir directory depth s = Some (0, s).
Proof. reflexivity. Qed.

Lemma readdir_loop_dirent name d_type st lst sub rest directory depth s :
  readdir (dirent name d_type st lst sub rest) directory depth s =
  match body (parse sub) name d_type st lst directory depth s with
  | None => None
  | Some (Return r, s) => Some (r, s)
  | Some (_, s) => readdir rest directory depth s
  end.
Proof. reflexivity. Qed.

Lemma parse_file_tree_grows :
  (forall dir directory depth s r s',
     directory <> [] -> parse dir directory depth s = Some (r, s') ->
     grows (In DIR_SEPARATOR) s s')
  /\ (forall entries directory depth s r s',
     directory <> [] -> readdir entries directory depth s = Some (r, s') ->
     grows (In DIR_SEPARATOR) s s').
Proof.
  apply (DIR_dirents_mut
    (fun dir => forall directory depth s r s',
       directory <> [] -> parse dir directory depth s = Some (r, s') ->
       grows (In DIR_SEPARATOR) s s')
    (fun entries => forall directory depth s r s',
       directory <> [] -> readdir entries directory depth s = Some (r, s') ->
       grows (In DIR_SEPARATOR) s s')).
  - intros e directory depth s r s' N H. rewrite parse_file_tree_fails in H.
    destruct (negb (_ =? EACCES)); inv H; apply grows_refl; reflexivity.
  - intros entries IH directory depth s r s' N H. rewrite parse_file_tree_ok in H. eauto.
  - intros directory depth s r s' N H. inv H. apply grows_refl; reflexivity.
  - intros name d_type st lst sub IHsub rest IHrest directory depth s r s' N H.
    rewrite readdir_loop_dirent in H.
    destruct (body (parse sub) name d_type st lst directory depth s)
      as [[c s1]|] eqn:B; [|discriminate].
    apply loop_body_grows with (Q := In DIR_SEPARATOR) in B;
      [|intros p d s0 r0 s0' Np E; eapply IHsub; eauto].
    assert (G : grows (In DIR_SEPARATOR) s s1).
    { eapply grows_weaken; [|exact B]. intros p [Hp|[Nd [-> | ->]]]; auto.
      - apply path_of_separator; auto.
      - apply in_or_app. left. apply path_of_separator; auto. }
    destruct c as [r0| |[]].
    + inv H. exact G.
    + eapply grows_trans; [exact G|]. eapply IHrest; eauto.
    + eapply grows_trans; [exact G|]. eapply IHrest; eauto.
Qed.

(** ** The debug stream during the traversal *)

Lemma later_refl w : later w w.
Proof. exists 0%nat. reflexivity. Qed.

Lemma later_tl w : later w (tl w).
Proof. exists 1%nat. destruct w; reflexivity. Qed.

Lemma later_trans w1 w2 w3 : later w1 w2 -> later w2 w3 -> later w1 w3.
Proof.
  intros [k1 ->] [k2 ->]. exists (k2 + k1)%nat. apply skipn_skipn.
Qed.

Lemma later_eq w w' : w' = w -> later w w'.
Proof. intros ->. apply later_refl. Qed.

Lemma later_Forall (P : option Z -> Prop) w w' :
  later w w' -> Forall P w -> Forall P w'.
Proof.
  intros [k ->] F. revert w F.
  induction k as [|k IH]; intros w F; [exact F|].
  destruct w as [|a w]; [exact F|]. apply IH. inversion F; assumption.
Qed.

Lemma later_nil w w' : later w w' -> w = [] -> w' = [].
Proof. intros [k ->] ->. apply skipn_nil. Qed.

Lemma stat_stack_push_stderr s sb b s' :
  stat_stack_push s sb = (b, s') -> stderr s' = stderr s.
Proof.
  unfold stat_stack_push. intros H. destruct (_ =? _).
  - destruct (alloc s) as [[|] s1] eqn:A; inv H;
      apply alloc_stderr in A; cbn; exact A.
  - inv H. reflexivity.
Qed.

Lemma CREATE_CURRENT_PATH_stderr s cp dir file c s' :
  CREATE_CURRENT_PATH s cp dir file = Some (c, s') -> stderr s' = stderr s.
Proof.
  unfold CREATE_CURRENT_PATH, create_path. intros H. destruct cp as [q|].
  - inv H. reflexivity.
  - destruct dir as [|x dir]; [discriminate|].
    destruct (alloc s) as [[|] s1] eqn:A; inv H; apply alloc_stderr in A;
      exact A.
Qed.

Lemma file_list_add_later s p r s' :
  list_add s p = (r, s') -> later (stderr s) (stderr s').
Proof.
  unfold file_list_add. intros H.
  destruct (n_file_list s =? n_file_list_max s).
  - destruct (n_file_list s =? _); [inv H; apply later_refl|].
    match type of H with
    | match alloc ?t with _ => _ end = _ => destruct (alloc t) as [[|] s1] eqn:A
    end; inv H; apply alloc_stderr in A; cbn; rewrite A;
      destruct (_ >? _); apply later_tl.
  - inv H. apply later_refl.
Qed.

Lemma get_file_type_later s dir name d_type st lst c s' :
  get_file_type flags s dir name d_type st lst = Some (c, s') ->
  later (stderr s) (stderr s')
  /\ match c with
     | Go _ => stderr s' = stderr s
     | _ => True
     end.
Proof.
  unfold get_file_type. intros H.
  destruct (_ || _); [|inv H; split; [apply later_refl|reflexivity]].
  destruct (CREATE_CURRENT_PATH s None dir name) as [[p s1]|] eqn:C; [|discriminate].
  apply CREATE_CURRENT_PATH_stderr in C.
  destruct p as [r| |q]; [inv H; split; [apply later_eq; exact C|exact I]..|].
  destruct (if has flags FL_FOLLOW_LINKS then st else lst); inv H; cbn.
  - split; [|exact I]. rewrite C. apply later_tl.
  - split; [apply later_eq|]; exact C.
Qed.

Lemma traverse_next_directory_later descend s depth cp sb ct c s' :
  (forall p d s r s', descend p d s = Some (r, s') ->
     later (stderr s) (stderr s')) ->
  traverse_next_directory flags descend s depth cp sb ct = Some (c, s') ->
  later (stderr s) (stderr s').
Proof.
  unfold traverse_next_directory. intros D H.
  destruct (_ && _); [|inv H; apply later_refl].
  destruct sb as [b|]; [|discriminate]. destruct cp as [q|]; [|discriminate].
  destruct (is_directory_loop _ _) as [[|]|]; try discriminate;
    [inv H; apply later_tl|].
  match type of H with
  | context [match ?x with Some _ => _ | None => None end] => destruct x as [[|]|]
  end; try discriminate; [inv H; apply later_tl|].
  destruct (stat_stack_push s b) as [[|] s1] eqn:P;
    apply stat_stack_push_stderr in P;
    [|inv H; apply later_eq; exact P].
  destruct (descend q _ s1) as [[r s2]|] eqn:E; [|discriminate].
  apply D in E. rewrite P in E. destruct (negb _); inv H; exact E.
Qed.

Lemma add_file_name_later s dir name cp ct c s' :
  add_name s dir name cp ct = Some (c, s') -> later (stderr s) (stderr s').
Proof.
  unfold add_file_name. intros H.
  destruct (nth_error _ _) as [enabled|]; [|discriminate].
  destruct (enabled =? 1); [|inv H; destruct cp; apply later_refl].
  destruct (match file_ext with Some _ => _ | None => _ end);
    [inv H; destruct cp; apply later_refl|].
  destruct (CREATE_CURRENT_PATH s cp dir name) as [[p s1]|] eqn:C; [|discriminate].
  apply CREATE_CURRENT_PATH_stderr in C.
  destruct p as [r| |q]; [inv H; apply later_eq; exact C..|].
  rewrite <- C. destruct (_ && _).
  - destruct (alloc s1) as [[|] s2] eqn:A; apply alloc_stderr in A.
    + destruct (list_add s2 _) as [r s3] eqn:F.
      apply file_list_add_later in F. rewrite A in F.
      destruct r; inv H; exact F.
    + inv H. apply later_eq. exact A.
  - destruct (list_add s1 _) as [r s3] eqn:F.
    apply file_list_add_later in F. destruct r; inv H; exact F.
Qed.

Lemma loop_body_later descend name d_type st lst dir depth s c s' :
  (forall p d s r s', descend p d s = Some (r, s') ->
     later (stderr s) (stderr s')) ->
  body descend name d_type st lst dir depth s = Some (c, s') ->
  later (stderr s) (stderr s').
Proof.
  intros D H. unfold loop_body in H.
  destruct (current_or_parent name); [inv H; apply later_refl|].
  destruct (get_file_type flags s dir name d_type st lst) as [[c1 s1]|] eqn:G;
    [|discriminate].
  apply get_file_type_later in G as [G _].
  destruct c1 as [r| |[[cp sb] ct]]; [inv H; exact G..|].
  destruct (traverse_next_directory flags descend s1 depth cp sb ct)
    as [[c2 s2]|] eqn:T; [|discriminate].
  apply traverse_next_directory_later in T; [|exact D].
  pose proof (later_trans _ _ _ G T) as G2.
  destruct c2 as [r| |[]]; [inv H; exact G2..|].
  apply add_file_name_later in H. eapply later_trans; eassumption.
Qed.

(** The traversal uses the answers of the stream in order. *)
Lemma parse_file_tree_later :
  (forall dir directory depth s r s',
     parse dir directory depth s = Some (r, s') ->
     later (stderr s) (stderr s'))
  /\ (forall entries directory depth s r s',
     readdir entries directory depth s = Some (r, s') ->
     later (stderr s) (stderr s')).
Proof.
  apply (DIR_dirents_mut
    (fun dir => forall directory depth s r s',
       parse dir directory depth s = Some (r, s') ->
       later (stderr s) (stderr s'))
    (fun entries => forall directory depth s r s',
       readdir entries directory depth s = Some (r, s') ->
       later (stderr s) (stderr s'))).
  - intros e directory depth s r s' H. rewrite parse_file_tree_fails in H.
    destruct (negb (_ =? EACCES)); inv H; apply later_tl.
  - intros entries IH directory depth s r s' H.
    rewrite parse_file_tree_ok in H. eauto.
  - intros directory depth s r s' H. inv H. apply later_refl.
  - intros name d_type st lst sub IHsub rest IHrest directory depth s r s' H.
    rewrite readdir_loop_dirent in H.
    destruct (body (parse sub) name d_type st lst directory depth s)
      as [[c s1]|] eqn:B; [|discriminate].
    apply loop_body_later in B; [|intros p d s0 r0 s0' E; eapply IHsub; eauto].
    destruct c as [r0| |[]]; [inv H; exact B|..];
      (eapply later_trans; [exact B|eapply IHrest; eauto]).
Qed.

(** Without answers listed, there are none afterwards either. *)
Lemma parse_file_tree_quiet dir directory depth s r s' :
  parse dir directory depth s = Some (r, s') -> stderr s = [] -> stderr s' = [].
Proof.
  intros H. apply later_nil. eapply (proj1 parse_file_tree_later). exact H.
Qed.

(** Where the traversal gives up with E2BIG, the list is full. *)
Lemma loop_body_capacity descend name d_type st lst dir depth s r s' :
  (forall p d s r s', never_sets E2BIG (stderr s) ->
     descend p d s = Some (r, s') -> r <> 0 ->
     errno s' = E2BIG -> n_file_list s' = FL_MAX) ->
  never_sets E2BIG (stderr s) ->
  body descend name d_type st lst dir depth s = Some (Return r, s') ->
  r = -1 /\ (errno s' = E2BIG -> n_file_list s' = FL_MAX).
Proof.
  intros D W H. unfold loop_body in H.
  destruct (current_or_parent name); [discriminate|].
  destruct (get_file_type flags s dir name d_type st lst) as [[c1 s1]|] eqn:G;
    [|discriminate].
  pose proof (get_file_type_later _ _ _ _ _ _ _ _ G) as [_ W1].
  apply get_file_type_inv in G as [L1 P1].
  destruct c1 as [r1| |[[cp sb] ct]]; [|discriminate|].
  { inv H. destruct P1 as [-> E]. split; [reflexivity|]. rewrite E. discriminate. }
  destruct (traverse_next_directory flags descend s1 depth cp sb ct)
    as [[c2 s2]|] eqn:T; [|discriminate].
  destruct c2 as [r2| |[]]; [|discriminate|].
  { inv H. unfold traverse_next_directory in T.
    destruct (_ && _); [|discriminate].
    destruct sb as [b|]; [|discriminate]. destruct cp as [q|]; [|discriminate].
    destruct (is_directory_loop _ _) as [[|]|]; try discriminate.
    match type of T with
    | context [match ?x with Some _ => _ | None => None end] => destruct x as [[|]|]
    end; try discriminate.
    destruct (stat_stack_push s1 b) as [[|] s3] eqn:P;
      pose proof (stat_stack_push_stderr _ _ _ _ P) as W3;
      apply stat_stack_push_list in P as [L P].
    - destruct (descend q _ s3) as [[r3 s4]|] eqn:E; [|discriminate].
      destruct (negb (r3 =? 0)) eqn:R; inv T. split; [reflexivity|].
      cbn. intros Er. apply (D _ _ _ _ _ ltac:(rewrite W3, W1; exact W) E); auto.
      intros ->. discriminate R.
    - inv T. split; [reflexivity|]. cbn. rewrite P. discriminate. }
  unfold add_file_name in H.
  destruct (nth_error _ _) as [enabled|]; [|discriminate].
  destruct (enabled =? 1); [|discriminate].
  destruct (match file_ext with Some _ => _ | None => _ end); [discriminate|].
  destruct (CREATE_CURRENT_PATH s2 cp dir name) as [[p s3]|] eqn:C; [|discriminate].
  apply CREATE_CURRENT_PATH_inv in C as [L P].
  destruct p as [r3| |q]; [|contradiction|].
  { inv H. destruct P as [-> E]. split; [reflexivity|]. rewrite E. discriminate. }
  destruct (_ && _).
  - destruct (alloc s3) as [[|] s4] eqn:A;
      pose proof (alloc_list _ _ _ A) as L2; pose proof (alloc_errno _ _ _ A) as E2;
      cbn in E2.
    + destruct (list_add s4 _) as [r5 s5] eqn:F.
      apply file_list_add_inv in F as [[-> F]|(-> & F & [[E5 F5]|E5])]; inv H.
      * split; [reflexivity|]. intros _. unfold n_file_list in *. cbn. congruence.
      * split; [reflexivity|]. cbn. rewrite E5. discriminate.
    + inv H. split; [reflexivity|]. cbn. rewrite E2. discriminate.
  - destruct (list_add s3 _) as [r5 s5] eqn:F.
    apply file_list_add_inv in F as [[-> F]|(-> & F & [[E5 F5]|E5])]; inv H.
    + split; [reflexivity|]. intros _. unfold n_file_list in *. cbn. congruence.
    + split; [reflexivity|]. cbn. rewrite E5. discriminate.
Qed.

Lemma parse_file_tree_capacity :
  (forall dir directory depth s r s',
     opendir_not_E2BIG dir -> never_sets E2BIG (stderr s) ->
     parse dir directory depth s = Some (r, s') -> r <> 0 ->
     errno s' = E2BIG -> n_file_list s' = FL_MAX)
  /\ (forall entries directory depth s r s',
     entries_not_E2BIG entries -> never_sets E2BIG (stderr s) ->
     readdir entries directory depth s = Some (r, s') -> r <> 0 ->
     errno s' = E2BIG -> n_file_list s' = FL_MAX).
Proof.
  apply (DIR_dirents_mut
    (fun dir => forall directory depth s r s',
       opendir_not_E2BIG dir -> never_sets E2BIG (stderr s) ->
       parse dir directory depth s = Some (r, s') -> r <> 0 ->
       errno s' = E2BIG -> n_file_list s' = FL_MAX)
    (fun entries => forall directory depth s r s',
       entries_not_E2BIG entries -> never_sets E2BIG (stderr s) ->
       readdir entries directory depth s = Some (r, s') -> r <> 0 ->
       errno s' = E2BIG -> n_file_list s' = FL_MAX)).
  - intros e directory depth s r s' W Q H R E.
    rewrite parse_file_tree_fails in H. cbn in W.
    assert (E' : errno s' = errno (DEBUG_PRINTF (set_errno e s)))
      by (destruct (negb (_ =? EACCES)); inv H; reflexivity).
    rewrite E in E'. cbn in E'. unfold never_sets in Q.
    destruct (stderr s) as [|[x|] w]; try congruence.
    inversion Q; congruence.
  - intros entries IH directory depth s r s' W Q H.
    rewrite parse_file_tree_ok in H. cbn in W. eauto.
  - intros directory depth s r s' _ _ H R. inv H. congruence.
  - intros name d_type st lst sub IHsub rest IHrest directory depth s r s'
           [W1 W2] Q H R E.
    rewrite readdir_loop_dirent in H.
    destruct (body (parse sub) name d_type st lst directory depth s)
      as [[c s1]|] eqn:B; [|discriminate].
    assert (Q1 : never_sets E2BIG (stderr s1)).
    { eapply later_Forall; [|exact Q].
      eapply loop_body_later; [|exact B].
      intros p d s0 r0 s0' E0. eapply (proj1 parse_file_tree_later); eauto. }
    destruct c as [r0| |[]].
    + inv H. apply loop_body_capacity in B as [_ B]; auto.
      intros p d s0 r0 s0' Q0 E0. eapply IHsub; eauto.
    + eapply IHrest; eauto.
    + eapply IHrest; eauto.
Qed.

(** ** Depth *)

Lemma traverse_next_directory_ext descend descend' s depth cp sb ct :
  (depth <> 0 -> forall p s, descend p (next_depth depth) s
                             = descend' p (next_depth depth) s) ->
  traverse_next_directory flags descend s depth cp sb ct
  = traverse_next_directory flags descend' s depth cp sb ct.
Proof.
  intros E. unfold traverse_next_directory.
  destruct (depth =? 0) eqn:D; [reflexivity|]. apply Z.eqb_neq in D.
  destruct (negb false && (ct =? 4)); [|reflexivity].
  destruct sb as [b|]; [|reflexivity]. destruct cp as [q|]; [|reflexivity].
  destruct (is_directory_loop _ _) as [[|]|]; try reflexivity.
  match goal with
  | |- context [match ?x with Some _ => _ | None => None end] => destruct x as [[|]|]
  end; try reflexivity.
  destruct (stat_stack_push s b) as [[|] s1]; [|reflexivity].
  rewrite (E D). reflexivity.
Qed.

Lemma loop_body_ext descend descend' name d_type st lst dir depth s :
  (depth <> 0 -> forall p s, descend p (next_depth depth) s
                             = descend' p (next_depth depth) s) ->
  body descend name d_type st lst dir depth s
  = body descend' name d_type st lst dir depth s.
Proof.
  intros E. unfold loop_body.
  destruct (current_or_parent name); [reflexivity|].
  destruct (get_file_type _ _ _ _ _ _ _) as [[[r| |[[cp sb] ct]] s1]|];
    try reflexivity.
  rewrite (traverse_next_directory_ext descend descend' s1 depth cp sb ct E).
  reflexivity.
Qed.

Lemma next_depth_succ k : next_depth (Z.of_nat (S k)) = Z.of_nat k.
Proof. unfold next_depth. destruct (Z.gtb_spec (Z.of_nat (S k)) 0); lia. Qed.

Lemma parse_file_tree_same_to_level :
  (forall dir dir' levels directory s,
     same_to_level levels dir dir' ->
     parse dir directory (Z.of_nat levels) s
     = parse dir' directory (Z.of_nat levels) s)
  /\ (forall entries entries' levels directory s,
     same_entries_to_level levels entries entries' ->
     readdir entries directory (Z.of_nat levels) s
     = readdir entries' directory (Z.of_nat levels) s).
Proof.
  apply (DIR_dirents_mut
    (fun dir => forall dir' levels directory s,
       same_to_level levels dir dir' ->
       parse dir directory (Z.of_nat levels) s
       = parse dir' directory (Z.of_nat levels) s)
    (fun entries => forall entries' levels directory s,
       same_entries_to_level levels entries entries' ->
       readdir entries directory (Z.of_nat levels) s
       = readdir entries' directory (Z.of_nat levels) s)).
  - intros e [e'|?] levels directory s H; cbn in H; [subst; reflexivity|tauto].
  - intros entries IH [?|entries'] levels directory s H; cbn in H; [tauto|].
    rewrite !parse_file_tree_ok. auto.
  - intros [|] levels directory s H; cbn in H; [reflexivity|tauto].
  - intros name d_type st lst sub IHsub rest IHrest
           [|name' d_type' st' lst' sub' rest'] levels directory s H;
      cbn in H; [tauto|].
    destruct H as (<- & <- & <- & <- & Hsub & Hrest).
    rewrite !readdir_loop_dirent.
    rewrite (loop_body_ext (parse sub) (parse sub')).
    + destruct (body _ _ _ _ _ _ _ _) as [[[r| |[]] s1]|]; auto.
    + intros N p s0. destruct levels as [|k]; [lia|].
      rewrite next_depth_succ. apply IHsub. exact Hsub.
Qed.

(** With depth 0 the list receives paths of entries of the directory only. *)
Lemma readdir_loop_depth_0 entries : forall directory s r s',
  readdir entries directory 0 s = Some (r, s') ->
  grows (fun p => exists d_name, In d_name (entry_names entries)
                  /\ (p = path_of directory d_name
                      \/ p = path_of directory d_name ++ [DIR_SEPARATOR]))
        s s'.
Proof.
  induction entries as [|name d_type st lst sub rest IH]; intros directory s r s' H.
  - inv H. apply grows_refl. reflexivity.
  - rewrite readdir_loop_dirent in H.
    rewrite (loop_body_ext (parse sub) (fun _ _ _ => None)) in H
      by (intros N; contradiction N; reflexivity).
    destruct (body _ _ _ _ _ _ _ _) as [[c s1]|] eqn:B; [|discriminate].
    eapply loop_body_grows with (Q := fun _ => False) in B;
      [|intros; discriminate].
    assert (G : grows (fun p => exists d_name,
                  In d_name (entry_names (dirent name d_type st lst sub rest))
                  /\ (p = path_of directory d_name
                      \/ p = path_of directory d_name ++ [DIR_SEPARATOR])) s s1).
    { eapply grows_weaken; [|exact B]. intros p [[]|[_ Hp]].
      exists name. split; [left; reflexivity|exact Hp]. }
    assert (W : forall s2, grows (fun p => exists d_name,
                  In d_name (entry_names rest)
                  /\ (p = path_of directory d_name
                      \/ p = path_of directory d_name ++ [DIR_SEPARATOR])) s1 s2 ->
                grows (fun p => exists d_name,
                  In d_name (entry_names (dirent name d_type st lst sub rest))
                  /\ (p = path_of directory d_name
                      \/ p = path_of directory d_name ++ [DIR_SEPARATOR])) s s2).
    { intros s2 G2. eapply grows_trans; [exact G|].
      eapply grows_weaken; [|exact G2]. intros p (n & I & Hp).
      exists n. split; [right; exact I|exact Hp]. }
    destruct c as [r0| |[]]; [inv H; exact G| |]; apply W; eapply IH; eauto.
Qed.

(** ** Rounds of the loop without failure *)

Lemma create_path_ok s dir file :
  dir <> [] -> heap s = [] ->
  create_path s dir file = Some (Some (path_of dir file), s).
Proof.
  intros N H. unfold create_path. destruct dir; [congruence|].
  rewrite alloc_no_failure by assumption. reflexivity.
Qed.

Lemma stat_stack_push_ok s sb :
  heap s = [] ->
  exists sz, stat_stack_push s sb
             = (true, set_stack (mk_stack sz (array (stack s) ++ [sb])) s).
Proof.
  intros H. unfold stat_stack_push. destruct (_ =? _).
  - rewrite alloc_no_failure by assumption. eauto.
  - eauto.
Qed.

(** An addition with room and without refusal: the state afterwards is that
    before but for the list, its allocated size, and what a debug write at a
    resize did to [errno] and the stream. *)
Lemma file_list_add_ok s p :
  heap s = [] -> n_file_list s <> FL_MAX ->
  exists m e w,
    list_add s p
    = (0, mk_state (file_list s ++ [p]) m (stack s) e [] (freed s) w)
    /\ later (stderr s) w /\ (stderr s = [] -> e = errno s /\ w = []).
Proof.
  intros H N. unfold file_list_add.
  destruct (n_file_list s =? n_file_list_max s).
  - replace (n_file_list s =? FL_MAX) with false
      by (symmetry; apply Z.eqb_neq; exact N).
    destruct (_ >? _); rewrite alloc_no_failure by (cbn; assumption);
      unfold set_list, DEBUG_PRINTF, set_max; cbn; rewrite H;
      eexists _, _, _; (split; [reflexivity|]);
      (split; [apply later_tl|intros ->; auto]).
  - exists (n_file_list_max s), (errno s), (stderr s).
    split; [destruct s; cbn in *; subst; reflexivity|].
    split; [apply later_refl|auto].
Qed.

Lemma get_file_type_hint s dir name d_type st lst :
  (d_type =? DT_DIR) || (d_type =? DT_UNKNOWN)
  || ((d_type =? DT_LNK) && has flags FL_FOLLOW_LINKS) = false ->
  get_file_type flags s dir name d_type st lst
  = Some (Go (None, None, d_type), s).
Proof. intros E. unfold get_file_type. rewrite E. reflexivity. Qed.

Lemma get_file_type_stat s dir name d_type st lst sb :
  (d_type =? DT_DIR) || (d_type =? DT_UNKNOWN)
  || ((d_type =? DT_LNK) && has flags FL_FOLLOW_LINKS) = true ->
  dir <> [] -> heap s = [] ->
  (if has flags FL_FOLLOW_LINKS then st else lst) = stat_ok sb ->
  get_file_type flags s dir name d_type st lst
  = Some (Go (Some (path_of dir name), Some sb,
              Z.land (Z.shiftr (st_mode sb) 12) 15), s).
Proof.
  intros E N H S. unfold get_file_type, CREATE_CURRENT_PATH.
  rewrite E, create_path_ok, S by assumption. reflexivity.
Qed.

Lemma traverse_next_directory_stays descend s depth cp sb ct :
  depth = 0 \/ ct <> 4 ->
  traverse_next_directory flags descend s depth cp sb ct = Some (Go tt, s).
Proof.
  intros H. unfold traverse_next_directory.
  replace (negb (depth =? 0) && (ct =? 4)) with false; [reflexivity|].
  symmetry. destruct H as [->|H]; [reflexivity|].
  replace (ct =? 4) with false by (symmetry; apply Z.eqb_neq; exact H).
  apply andb_false_r.
Qed.

Lemma traverse_next_directory_loop descend s depth cp sb :
  depth <> 0 -> is_directory_loop (stack s) sb = Some true ->
  traverse_next_directory flags descend s depth (Some cp) (Some sb) 4
  = Some (Continue, free cp (DEBUG_PRINTF s)).
Proof.
  intros D L. unfold traverse_next_directory.
  replace (depth =? 0) with false by (symmetry; apply Z.eqb_neq; exact D).
  cbn [negb andb Z.eqb Pos.eqb]. rewrite L. reflexivity.
Qed.

Lemma traverse_next_directory_other_device descend s depth cp sb bottom :
  depth <> 0 -> is_directory_loop (stack s) sb = Some false ->
  has flags FL_XDEV = true -> hd_error (array (stack s)) = Some bottom ->
  st_dev bottom <> st_dev sb ->
  traverse_next_directory flags descend s depth (Some cp) (Some sb) 4
  = Some (Go tt, DEBUG_PRINTF s).
Proof.
  intros D L X B N. unfold traverse_next_directory.
  replace (depth =? 0) with false by (symmetry; apply Z.eqb_neq; exact D).
  cbn [negb andb Z.eqb Pos.eqb]. rewrite L, X, B.
  replace (st_dev bottom =? st_dev sb) with false
    by (symmetry; apply Z.eqb_neq; exact N).
  reflexivity.
Qed.

Lemma traverse_next_directory_descends descend s depth cp sb :
  depth <> 0 -> is_directory_loop (stack s) sb = Some false ->
  has flags FL_XDEV = false -> heap s = [] ->
  exists sz,
    traverse_next_directory flags descend s depth (Some cp) (Some sb) 4
    = ' (r, s) <- descend cp (next_depth depth)
                    (set_stack (mk_stack sz (array (stack s) ++ [sb])) s) ;;
      if negb (r =? 0) then Some (Return (-1), free cp s)
      else Some (Go tt, stat_stack_pop s).
Proof.
  intros D L X H. unfold traverse_next_directory.
  replace (depth =? 0) with false by (symmetry; apply Z.eqb_neq; exact D).
  cbn [negb andb Z.eqb Pos.eqb]. rewrite L, X.
  destruct (stat_stack_push_ok s sb H) as [sz ->]. exists sz. reflexivity.
Qed.

Lemma add_file_name_disabled s dir name cp ct v :
  nth_error file_type_arr (Z.to_nat ct) = Some v -> v <> 1 ->
  add_name s dir name cp ct = Some (Go tt, free_if cp s).
Proof.
  intros E N. unfold add_file_name. rewrite E.
  replace (v =? 1) with false by (symmetry; apply Z.eqb_neq; exact N).
  reflexivity.
Qed.

Lemma add_file_name_appends s dir name cp ct :
  nth_error file_type_arr (Z.to_nat ct) = Some 1 ->
  match file_ext with
  | Some regex => matches_regex regex_t regexec name regex = true
  | None => True
  end ->
  cp = None \/ cp = Some (path_of dir name) ->
  dir <> [] -> heap s = [] -> n_file_list s <> FL_MAX ->
  exists m e w,
    add_name s dir name cp ct
    = Some (Go tt,
            mk_state (file_list s
                      ++ [if (ct =? 4) && has flags FL_DIR_SEP
                          then path_of dir name ++ [DIR_SEPARATOR]
                          else path_of dir name])
                     m (stack s) e [] (freed s) w)
    /\ later (stderr s) w /\ (stderr s = [] -> e = errno s /\ w = []).
Proof.
  intros E M C N H F. unfold add_file_name. rewrite E. cbn [Z.eqb Pos.eqb].
  replace (match file_ext with
           | Some regex => negb (matches_regex regex_t regexec name regex)
           | None => false
           end) with false
    by (destruct file_ext; [rewrite M|]; reflexivity).
  assert (CP : CREATE_CURRENT_PATH s cp dir name = Some (Go (path_of dir name), s)).
  { unfold CREATE_CURRENT_PATH. destruct C as [-> | ->]; [|reflexivity].
    rewrite create_path_ok by assumption. reflexivity. }
  rewrite CP. destruct (_ && _).
  - rewrite alloc_no_failure by assumption.
    destruct (file_list_add_ok s (path_of dir name ++ [DIR_SEPARATOR]) H F)
      as (m & e & w & -> & W). eauto 6.
  - destruct (file_list_add_ok s (path_of dir name) H F) as (m & e & w & -> & W).
    eauto 6.
Qed.

Lemma add_file_name_full s dir name cp ct :
  nth_error file_type_arr (Z.to_nat ct) = Some 1 ->
  match file_ext with
  | Some regex => matches_regex regex_t regexec name regex = true
  | None => True
  end ->
  cp = None \/ cp = Some (path_of dir name) ->
  dir <> [] -> heap s = [] -> ct <> 4 ->
  n_file_list s = n_file_list_max s -> n_file_list s = FL_MAX ->
  add_name s dir name cp ct
  = Some (Return (-1), free (path_of dir name) (set_errno E2BIG s)).
Proof.
  intros E M C N H T F1 F2. unfold add_file_name. rewrite E. cbn [Z.eqb Pos.eqb].
  replace (match file_ext with
           | Some regex => negb (matches_regex regex_t regexec name regex)
           | None => false
           end) with false
    by (destruct file_ext; [rewrite M|]; reflexivity).
  assert (CP : CREATE_CURRENT_PATH s cp dir name = Some (Go (path_of dir name), s)).
  { unfold CREATE_CURRENT_PATH. destruct C as [-> | ->]; [|reflexivity].
    rewrite create_path_ok by assumption. reflexivity. }
  rewrite CP.
  replace (ct =? 4) with false by (symmetry; apply Z.eqb_neq; exact T).
  cbn [andb]. unfold file_list_add.
  rewrite <- F1 at 1. rewrite Z.eqb_refl.
  replace (n_file_list s =? FL_MAX) with true by (symmetry; apply Z.eqb_eq; exact F2).
  reflexivity.
Qed.

Lemma loop_body_parts descend name d_type st lst dir depth s cp sb ct s1 :
  current_or_parent name = false ->
  get_file_type flags s dir name d_type st lst = Some (Go (cp, sb, ct), s1) ->
  body descend name d_type st lst dir depth s
  = ' (c, s) <- traverse_next_directory flags descend s1 depth cp sb ct ;;
    match c with
    | Return r => Some (Return r, s)
    | Continue => Some (Continue, s)
    | Go _ => add_name s dir name cp ct
    end.
Proof. intros C G. unfold loop_body. rewrite C, G. reflexivity. Qed.

(** ** Capacity *)

Lemma FL_MAX_LIST_SIZE_le : FL_MAX <= SIZE_MAX - 1.
Proof. unfold FL_MAX_LIST_SIZE. destruct (Z.gtb_spec FL_MAX_def (SIZE_MAX - 1)); lia. Qed.

Lemma file_list_add_room s p :
  heap s = [] -> list_bounds FL_MAX s -> n_file_list s < FL_MAX ->
  exists s', list_add s p = (0, s')
             /\ file_list s' = file_list s ++ [p] /\ heap s' = []
             /\ (stderr s = [] -> errno s' = errno s) /\ freed s' = freed s
             /\ list_bounds FL_MAX s'.
Proof.
  intros H (B0 & B1 & B2) R. pose proof FL_MAX_LIST_SIZE_le as LE.
  unfold file_list_add.
  assert (G : forall s1 m,
            file_list s1 = file_list s ++ [p] -> n_file_list_max s1 = m ->
            n_file_list s < m <= FL_MAX -> list_bounds FL_MAX s1).
  { intros s1 m L M Hm. unfold list_bounds, n_file_list in *. rewrite L, M.
    rewrite length_app. cbn [length]. lia. }
  destruct (Z.eqb_spec (n_file_list s) (n_file_list_max s)) as [E|E].
  - replace (n_file_list s =? FL_MAX) with false by (symmetry; apply Z.eqb_neq; lia).
    set (new_size := (n_file_list_max s * 2) mod (SIZE_MAX + 1)).
    assert (N : (if new_size <? n_file_list s then SIZE_MAX else new_size)
                = if n_file_list_max s * 2 <? SIZE_MAX + 1
                  then n_file_list_max s * 2 else SIZE_MAX).
    { subst new_size. destruct (Z.ltb_spec (n_file_list_max s * 2) (SIZE_MAX + 1)).
      - rewrite Z.mod_small by lia.
        destruct (Z.ltb_spec (n_file_list_max s * 2) (n_file_list s)); lia.
      - rewrite <- (Zmod_unique (n_file_list_max s * 2) (SIZE_MAX + 1) 1
                      (n_file_list_max s * 2 - (SIZE_MAX + 1))) by lia.
        destruct (Z.ltb_spec (n_file_list_max s * 2 - (SIZE_MAX + 1))
                    (n_file_list s)); lia. }
    rewrite N.
    set (m := if n_file_list_max s * 2 <? SIZE_MAX + 1
              then n_file_list_max s * 2 else SIZE_MAX).
    assert (Hm : n_file_list s < m).
    { subst m. destruct (Z.ltb_spec (n_file_list_max s * 2) (SIZE_MAX + 1)); lia. }
    destruct (Z.gtb_spec m FL_MAX);
      rewrite alloc_no_failure by (cbn; assumption);
      eexists; (split; [reflexivity|]);
      cbn [file_list heap errno freed set_list set_max DEBUG_PRINTF];
      (split; [reflexivity|]); (split; [assumption|]);
      (split; [intros Q; cbn; rewrite Q; reflexivity|]); (split; [reflexivity|]);
      (eapply G; [reflexivity|reflexivity|cbn; lia]).
  - eexists. split; [reflexivity|].
    cbn [file_list heap errno freed set_list set_max].
    (split; [reflexivity|]); (split; [assumption|]);
    (split; [reflexivity|]); (split; [reflexivity|]).
    eapply G; [reflexivity|reflexivity|cbn; lia].
Qed.

Lemma file_list_add_exact s p :
  heap s = [] -> list_bounds FL_MAX s -> n_file_list s < FL_MAX ->
  list_add s p
  = (0, if n_file_list s =? n_file_list_max s
        then set_list (file_list s ++ [p])
               (DEBUG_PRINTF
                  (set_max (Z.min (2 * n_file_list_max s) FL_MAX) s))
        else set_list (file_list s ++ [p]) s).
Proof.
  intros H (B0 & B1 & B2) R. pose proof FL_MAX_LIST_SIZE_le as LE.
  unfold file_list_add.
  destruct (Z.eqb_spec (n_file_list s) (n_file_list_max s)) as [E|E];
    [|reflexivity].
  replace (n_file_list s =? FL_MAX) with false by (symmetry; apply Z.eqb_neq; lia).
  cbv zeta.
  set (new_size := (n_file_list_max s * 2) mod (SIZE_MAX + 1)).
  assert (N : (if (if new_size <? n_file_list s then SIZE_MAX else new_size)
                   >? FL_MAX
               then set_max FL_MAX s
               else set_max (if new_size <? n_file_list s
                             then SIZE_MAX else new_size) s)
              = set_max (Z.min (2 * n_file_list_max s) FL_MAX) s).
  { subst new_size.
    destruct (Z.ltb_spec (n_file_list_max s * 2) (SIZE_MAX + 1)).
    - rewrite Z.mod_small by lia.
      destruct (Z.ltb_spec (n_file_list_max s * 2) (n_file_list s)); [lia|].
      destruct (Z.gtb_spec (n_file_list_max s * 2) FL_MAX); f_equal; lia.
    - rewrite <- (Zmod_unique (n_file_list_max s * 2) (SIZE_MAX + 1) 1
                    (n_file_list_max s * 2 - (SIZE_MAX + 1))) by lia.
      destruct (Z.ltb_spec (n_file_list_max s * 2 - (SIZE_MAX + 1))
                  (n_file_list s)); [|lia].
      destruct (Z.gtb_spec SIZE_MAX FL_MAX); f_equal; lia. }
  rewrite N. rewrite alloc_no_failure by (cbn; exact H). reflexivity.
Qed.

Lemma readdir_regular_files names : forall dir depth s,
  nth_error file_type_arr (Z.to_nat 8) = Some 1 ->
  Forall (fun d_name =>
            current_or_parent d_name = false
            /\ match file_ext with
               | Some regex => matches_regex regex_t regexec d_name regex = true
               | None => True
               end) names ->
  dir <> [] -> heap s = [] -> list_bounds FL_MAX s ->
  exists s',
    readdir (regular_files names) dir depth s
    = Some ((if Z.of_nat (length names) <=? FL_MAX - n_file_list s then 0 else -1), s')
    /\ file_list s'
       = file_list s
         ++ map (path_of dir)
                (firstn (Z.to_nat (FL_MAX - n_file_list s)) names)
    /\ heap s' = []
    /\ (FL_MAX - n_file_list s < Z.of_nat (length names) -> errno s' = E2BIG).
Proof.
  induction names as [|name rest IH]; intros dir depth s T A N H B.
  - cbn [regular_files]. rewrite readdir_loop_end. exists s.
    replace (Z.of_nat (@length (list Z) []) <=? FL_MAX - n_file_list s) with true
      by (symmetry; apply Z.leb_le; unfold list_bounds in *; cbn [length]; lia).
    rewrite firstn_nil, app_nil_r. repeat split; auto.
    unfold list_bounds in B. cbn [length]. lia.
  - inversion A as [|? ? [C M] A']; subst.
    cbn [regular_files]. rewrite readdir_loop_dirent.
    rewrite loop_body_parts with (cp := None) (sb := None) (ct := 8) (s1 := s)
      by (try assumption; apply get_file_type_hint; reflexivity).
    rewrite traverse_next_directory_stays by (right; lia).
    destruct (Z.eq_dec (n_file_list s) FL_MAX) as [F|F].
    + rewrite add_file_name_full; auto; try lia;
        [|unfold list_bounds in B; lia].
      eexists. split; [|split; [|split]].
      * replace (Z.of_nat (length (name :: rest)) <=? FL_MAX - n_file_list s) with false
          by (symmetry; apply Z.leb_gt; cbn [length]; lia).
        reflexivity.
      * cbn [file_list free set_errno]. replace (FL_MAX - n_file_list s) with 0 by lia.
        cbn. rewrite app_nil_r. reflexivity.
      * exact H.
      * reflexivity.
    + assert (R : n_file_list s < FL_MAX) by (unfold list_bounds in B; lia).
      unfold add_file_name. rewrite T. cbn [Z.eqb Pos.eqb].
      replace (match file_ext with
               | Some regex => negb (matches_regex regex_t regexec name regex)
               | None => false
               end) with false
        by (destruct file_ext; [rewrite M|]; reflexivity).
      unfold CREATE_CURRENT_PATH. rewrite create_path_ok by assumption.
      cbn [Z.eqb andb].
      destruct (file_list_add_room s (path_of dir name) H B R)
        as (s1 & -> & L1 & H1 & E1 & _ & B1).
      destruct (IH dir depth s1 T A' N H1 B1) as (s' & -> & L' & H' & E').
      assert (S1 : n_file_list s1 = n_file_list s + 1).
      { unfold n_file_list. rewrite L1, length_app. cbn [length]. lia. }
      exists s'.
      replace (Z.of_nat (length rest) <=? FL_MAX - n_file_list s1)
        with (Z.of_nat (length (name :: rest)) <=? FL_MAX - n_file_list s) in *
        by (cbn [length];
            destruct (Z.leb_spec (Z.of_nat (S (length rest))) (FL_MAX - n_file_list s)),
              (Z.leb_spec (Z.of_nat (length rest)) (FL_MAX - n_file_list s1)); lia).
      split; [reflexivity|].
      split; [|split; [assumption|intros G; apply E'; cbn [length] in G; lia]].
      rewrite L', L1, <- app_assoc. f_equal.
      replace (Z.to_nat (FL_MAX - n_file_list s))
        with (S (Z.to_nat (FL_MAX - n_file_list s1))) by lia.
      reflexivity.
Qed.

End TraversalFacts.

(** ** One traversal under two maxima *)

Section TwoMaxima.

Variable regex_t : Type.
Variable regexec : regex_t -> list Z -> bool.
Variables FL_MAX_def FL_MAX_def' SIZE_MAX : Z.
Variable file_type_arr : list Z.
Variable file_ext : option regex_t.
Variable flags : Z.

Local Abbreviation FL_MAX := (FL_MAX_LIST_SIZE FL_MAX_def SIZE_MAX).
Local Abbreviation FL_MAX' := (FL_MAX_LIST_SIZE FL_MAX_def' SIZE_MAX).
Local Abbreviation same := (same_but_max FL_MAX FL_MAX').
Local Abbreviation list_add := (file_list_add FL_MAX_def SIZE_MAX).
Local Abbreviation list_add' := (file_list_add FL_MAX_def' SIZE_MAX).
Local Abbreviation add_name :=
  (add_file_name regex_t regexec FL_MAX_def SIZE_MAX file_type_arr file_ext flags).
Local Abbreviation add_name' :=
  (add_file_name regex_t regexec FL_MAX_def' SIZE_MAX file_type_arr file_ext flags).
Local Abbreviation body :=
  (loop_body regex_t regexec FL_MAX_def SIZE_MAX file_type_arr file_ext flags).
Local Abbreviation body' :=
  (loop_body regex_t regexec FL_MAX_def' SIZE_MAX file_type_arr file_ext flags).
Local Abbreviation parse :=
  (parse_file_tree regex_t regexec FL_MAX_def SIZE_MAX file_type_arr file_ext flags).
Local Abbreviation parse' :=
  (parse_file_tree regex_t regexec FL_MAX_def' SIZE_MAX file_type_arr file_ext flags).
Local Abbreviation readdir :=
  (readdir_loop regex_t regexec FL_MAX_def SIZE_MAX file_type_arr file_ext flags).
Local Abbreviation readdir' :=
  (readdir_loop regex_t regexec FL_MAX_def' SIZE_MAX file_type_arr file_ext flags).

Lemma list_bounds_same M s s' :
  file_list s' = file_list s -> n_file_list_max s' = n_file_list_max s ->
  list_bounds M s -> list_bounds M s'.
Proof. unfold list_bounds, n_file_list. intros -> ->. auto. Qed.

(** The relation goes over to two states reached by steps that leave the
    list and its allocated size alone. *)
Lemma same_but_max_frame s s' t t' :
  same s s' ->
  file_list t = file_list s -> n_file_list_max t = n_file_list_max s ->
  file_list t' = file_list s' -> n_file_list_max t' = n_file_list_max s' ->
  stack t = stack t' -> errno t = errno t' -> freed t = freed t' ->
  heap t = [] -> heap t' = [] ->
  stderr t = stderr t' -> later (stderr s) (stderr t) ->
  same t t'.
Proof.
  intros (L & K & E & F & H & H' & Q & J) Lt Mt Lt' Mt' Kt Et Ft Ht Ht' Qt W.
  unfold same_but_max.
  split; [congruence|]. do 6 (split; [assumption|]).
  destruct J as [J|(J1 & J2 & J3)]; [left; eapply later_nil; eassumption|].
  right. split; [exact J1|]. rewrite Lt, Mt, Mt'. auto.
Qed.

Ltac same_frame R :=
  let L := fresh "L" in
  let K := fresh "K" in
  let E := fresh "E" in
  let F := fresh "F" in
  let H := fresh "H" in
  let H' := fresh "H'" in
  let Q := fresh "Q" in
  pose proof R as (L & K & E & F & H & H' & Q & _);
  eapply (same_but_max_frame _ _ _ _ R); cbn;
  rewrite ?L, ?K, ?E, ?F, ?Q; try reflexivity; try assumption;
  try apply later_refl; try apply later_tl.

Lemma file_list_add_cut s s' p s1 :
  same s s' -> list_bounds FL_MAX' s' ->
  list_add s p = (0, s1) ->
  (exists s1', list_add' s' p = (0, s1')
               /\ same s1 s1' /\ list_bounds FL_MAX' s1')
  \/ (list_add' s' p = (-1, set_errno E2BIG s')
      /\ n_file_list s' = FL_MAX' /\ file_list s1 = file_list s' ++ [p]).
Proof.
  intros (L & K & E & F & H & H' & Q & J) B A.
  assert (L1 : file_list s1 = file_list s ++ [p]).
  { unfold file_list_add in A.
    destruct (n_file_list s =? n_file_list_max s); [|inv A; reflexivity].
    destruct (n_file_list s =? _); [discriminate|].
    destruct (_ >? _); rewrite alloc_no_failure in A by (cbn; assumption);
      inv A; reflexivity. }
  destruct (Z.eq_dec (n_file_list s') FL_MAX') as [Full|Room].
  - right. split; [|split; [exact Full|rewrite L1, L; reflexivity]].
    unfold file_list_add.
    replace (n_file_list_max s') with (n_file_list s')
      by (unfold list_bounds in B; lia).
    rewrite Z.eqb_refl.
    replace (n_file_list s' =? FL_MAX') with true
      by (symmetry; apply Z.eqb_eq; exact Full).
    reflexivity.
  - left.
    destruct (file_list_add_room FL_MAX_def' SIZE_MAX s' p H' B)
      as (s1' & A1 & L1' & H1' & _ & _ & B1);
      [unfold list_bounds in B; lia|].
    exists s1'. split; [exact A1|]. split; [|exact B1].
    clear B1.
    destruct J as [J|(J1 & (J2 & J3 & J4) & J5)].
    + (* no debug write changes errno *)
      assert (J' : stderr s' = []) by congruence.
      assert (S1 : exists m, s1 = set_list (file_list s ++ [p]) (set_max m s)).
      { unfold file_list_add in A.
        destruct (n_file_list s =? n_file_list_max s).
        - destruct (n_file_list s =? _); [discriminate|].
          destruct (_ >? _);
            rewrite DEBUG_PRINTF_quiet, alloc_no_failure in A by assumption;
            inv A; eauto.
        - inv A. exists (n_file_list_max s). destruct s; reflexivity. }
      destruct S1 as [m ->].
      destruct (file_list_add_ok FL_MAX_def' SIZE_MAX s' p H' Room)
        as (m' & e' & w' & A' & _ & W').
      destruct (W' J') as [-> ->].
      rewrite A' in A1. inv A1.
      unfold same_but_max. cbn. rewrite L. auto 12.
    + (* the two lists are resized together *)
      assert (N : n_file_list s = n_file_list s')
        by (unfold n_file_list; rewrite L; reflexivity).
      assert (R' : n_file_list s' < FL_MAX') by (unfold list_bounds in B; lia).
      assert (S1 : s1 = snd (list_add s p)) by (rewrite A; reflexivity).
      assert (S1' : s1' = snd (list_add' s' p)) by (rewrite A1; reflexivity).
      rewrite (file_list_add_exact FL_MAX_def SIZE_MAX s p H) in S1;
        [|unfold list_bounds, n_file_list; auto|lia].
      rewrite (file_list_add_exact FL_MAX_def' SIZE_MAX s' p H' B R') in S1'.
      unfold snd in S1, S1'. clear A A1 L1 L1' H1'.
      destruct B as (B0 & B1' & B2).
      destruct (Z.eqb_spec (n_file_list s) (n_file_list_max s)) as [Eq|Ne].
      * replace (n_file_list s' =? n_file_list_max s') with true in S1'
          by (symmetry; apply Z.eqb_eq; lia).
        subst s1 s1'.
        unfold same_but_max. cbn -[Z.mul Z.min].
        rewrite L, K, E, F, Q.
        do 7 (split; [reflexivity || assumption|]).
        right. split; [exact J1|]. rewrite length_app. cbn [length].
        unfold n_file_list in *. rewrite <- L in *. lia.
      * replace (n_file_list s' =? n_file_list_max s') with false in S1'
          by (symmetry; apply Z.eqb_neq; unfold n_file_list in *; lia).
        subst s1 s1'.
        unfold same_but_max. cbn -[Z.mul Z.min].
        rewrite L, K, E, F, Q.
        do 7 (split; [reflexivity || assumption|]).
        right. split; [exact J1|]. rewrite length_app. cbn [length].
        unfold n_file_list in *. rewrite <- L in *. lia.
Qed.

Lemma CREATE_CURRENT_PATH_same s s' cp dir name c s1 :
  same s s' ->
  CREATE_CURRENT_PATH s cp dir name = Some (c, s1) ->
  s1 = s /\ CREATE_CURRENT_PATH s' cp dir name = Some (c, s')
  /\ exists p, c = Go p.
Proof.
  intros (L & K & E & F & H & H' & Q & J) C. unfold CREATE_CURRENT_PATH in *.
  destruct cp as [p|]; [inv C; eauto|].
  unfold create_path in *. destruct dir; [discriminate|].
  rewrite alloc_no_failure in * by assumption. inv C. eauto.
Qed.

Lemma get_file_type_same s s' dir name d_type st lst c s1 :
  same s s' ->
  get_file_type flags s dir name d_type st lst = Some (c, s1) ->
  exists s1', get_file_type flags s' dir name d_type st lst = Some (c, s1')
              /\ same s1 s1'
              /\ n_file_list_max s1' = n_file_list_max s'.
Proof.
  intros R G. unfold get_file_type in *.
  destruct (_ || _); [|inv G; eauto].
  destruct (CREATE_CURRENT_PATH s None dir name) as [[c1 s2]|] eqn:C;
    [|discriminate].
  destruct (CREATE_CURRENT_PATH_same _ _ _ _ _ _ _ R C) as (-> & -> & p & ->).
  destruct (if has flags FL_FOLLOW_LINKS then st else lst); inv G;
    eexists; (split; [reflexivity|]); (split; [|reflexivity]);
    [same_frame R|exact R].
Qed.

Lemma stat_stack_push_same s s' sb b s1 :
  same s s' ->
  stat_stack_push s sb = (b, s1) ->
  b = true
  /\ exists s1', stat_stack_push s' sb = (true, s1')
                 /\ same s1 s1'
                 /\ file_list s1' = file_list s'
                 /\ n_file_list_max s1' = n_file_list_max s'.
Proof.
  intros R P. pose proof R as (L & K & E & F & H & H' & Q & J).
  unfold stat_stack_push in *.
  rewrite <- K. destruct (_ =? _).
  - rewrite alloc_no_failure in * by assumption. inv P.
    split; [reflexivity|]. eexists. split; [reflexivity|].
    split; [same_frame R|split; reflexivity].
  - inv P. split; [reflexivity|]. eexists. split; [reflexivity|].
    split; [same_frame R|split; reflexivity].
Qed.

Lemma traverse_next_directory_cut descend descend' s s' depth cp sb ct c s1 :
  (forall p d s s' s1,
     p <> [] -> same s s' -> list_bounds FL_MAX' s' ->
     descend p d s = Some (0, s1) ->
     (exists s1', descend' p d s' = Some (0, s1')
                  /\ same s1 s1' /\ list_bounds FL_MAX' s1')
     \/ (exists s1', descend' p d s' = Some (-1, s1')
                     /\ stopped_full FL_MAX' s1 s1')) ->
  (forall q, cp = Some q -> q <> []) ->
  same s s' -> list_bounds FL_MAX' s' ->
  traverse_next_directory flags descend s depth cp sb ct = Some (c, s1) ->
  (forall r, c <> Return r) ->
  (exists s1', traverse_next_directory flags descend' s' depth cp sb ct
               = Some (c, s1')
               /\ same s1 s1' /\ list_bounds FL_MAX' s1')
  \/ (exists s1', traverse_next_directory flags descend' s' depth cp sb ct
                  = Some (Return (-1), s1')
                  /\ stopped_full FL_MAX' s1 s1').
Proof.
  intros D N R B T NR. unfold traverse_next_directory in *.
  destruct (_ && _); [|inv T; left; eauto].
  destruct sb as [b|]; [|discriminate]. destruct cp as [q|]; [|discriminate].
  assert (K : stack s = stack s') by apply R. rewrite <- K.
  destruct (is_directory_loop _ _) as [[|]|]; try discriminate.
  { inv T. left. eexists. split; [reflexivity|].
    split; [same_frame R|eapply list_bounds_same; [| |exact B]; reflexivity]. }
  match type of T with
  | context [match ?x with Some _ => _ | None => None end] => destruct x as [[|]|]
  end; try discriminate.
  { inv T. left. eexists. split; [reflexivity|].
    split; [same_frame R|eapply list_bounds_same; [| |exact B]; reflexivity]. }
  destruct (stat_stack_push s b) as [pushed s2] eqn:P.
  destruct (stat_stack_push_same _ _ _ _ _ R P) as (-> & s2' & -> & R2 & L2 & M2).
  destruct (descend q _ s2) as [[r s3]|] eqn:E; [|discriminate].
  destruct (Z.eqb_spec r 0) as [->|R0]; cbn [negb] in T;
    [|inv T; exfalso; eapply NR; reflexivity].
  inv T.
  destruct (D q _ s2 s2' s3 (N q eq_refl) R2
              (list_bounds_same _ _ _ L2 M2 B) E)
    as [(s3' & -> & R3 & B3)|(s3' & -> & E3 & F3 & H3 & more & L3)].
  - left. cbn [Z.eqb negb]. eexists. split; [reflexivity|].
    split; [|eapply list_bounds_same; [| |exact B3]; reflexivity].
    unfold stat_stack_pop. same_frame R3.
  - right. cbn [Z.eqb negb]. eexists. split; [reflexivity|].
    split; [exact E3|]. split; [exact F3|]. split; [exact H3|].
    exists more. exact L3.
Qed.

Lemma add_file_name_cut s s' dir name cp ct c s1 :
  same s s' -> list_bounds FL_MAX' s' ->
  add_name s dir name cp ct = Some (c, s1) ->
  (forall r, c <> Return r) ->
  (exists s1', add_name' s' dir name cp ct = Some (c, s1')
               /\ same s1 s1' /\ list_bounds FL_MAX' s1')
  \/ (exists s1', add_name' s' dir name cp ct = Some (Return (-1), s1')
                  /\ stopped_full FL_MAX' s1 s1').
Proof.
  intros R B A NR. unfold add_file_name in *.
  assert (FREE : forall q, same (free_if q s) (free_if q s')
                           /\ list_bounds FL_MAX' (free_if q s')).
  { intros q. destruct q; cbn; [|auto].
    split; [same_frame R|].
    eapply list_bounds_same; [| |exact B]; reflexivity. }
  destruct (nth_error _ _) as [enabled|]; [|discriminate].
  destruct (enabled =? 1); [|inv A; left; eexists; split; [reflexivity|apply FREE]].
  destruct (match file_ext with Some _ => _ | None => _ end);
    [inv A; left; eexists; split; [reflexivity|apply FREE]|].
  destruct (CREATE_CURRENT_PATH s cp dir name) as [[c1 s2]|] eqn:C;
    [|discriminate].
  destruct (CREATE_CURRENT_PATH_same _ _ _ _ _ _ _ R C) as (-> & -> & p & ->).
  assert (H : heap s = []) by apply R. assert (H' : heap s' = []) by apply R.
  assert (ADD : forall path,
            match list_add s path with
            | (0, s) => Some (Go tt, s)
            | (_, s) => Some (Return (-1), free path s)
            end = Some (c, s1) ->
            (exists s1',
               match list_add' s' path with
               | (0, s) => Some (Go tt, s)
               | (_, s) => Some (Return (-1), free path s)
               end = Some (c, s1')
               /\ same s1 s1' /\ list_bounds FL_MAX' s1')
            \/ (exists s1',
                  match list_add' s' path with
                  | (0, s) => Some (Go tt, s)
                  | (_, s) => Some (Return (-1), free path s)
                  end = Some (Return (-1), s1')
                  /\ stopped_full FL_MAX' s1 s1')).
  { intros path A0. destruct (list_add s path) as [r s3] eqn:A1.
    destruct (Z.eq_dec r 0) as [->|R0];
      [|destruct r; [congruence| |]; inv A0; exfalso; eapply NR; reflexivity].
    inv A0.
    destruct (file_list_add_cut _ _ _ _ R B A1)
      as [(s3' & -> & R3 & B3)|(-> & F3 & L3)].
    - left. eauto.
    - right. eexists. split; [reflexivity|]. split; [reflexivity|].
      split; [exact F3|]. split; [exact H'|]. exists [path]. exact L3. }
  destruct (_ && _).
  - rewrite alloc_no_failure in * by assumption. apply ADD. exact A.
  - apply ADD. exact A.
Qed.

Lemma loop_body_cut descend descend' name d_type st lst dir depth s s' c s1 :
  (forall p d s s' s1,
     p <> [] -> same s s' -> list_bounds FL_MAX' s' ->
     descend p d s = Some (0, s1) ->
     (exists s1', descend' p d s' = Some (0, s1')
                  /\ same s1 s1' /\ list_bounds FL_MAX' s1')
     \/ (exists s1', descend' p d s' = Some (-1, s1')
                     /\ stopped_full FL_MAX' s1 s1')) ->
  same s s' -> list_bounds FL_MAX' s' ->
  body descend name d_type st lst dir depth s = Some (c, s1) ->
  (forall r, c <> Return r) ->
  (exists s1', body' descend' name d_type st lst dir depth s' = Some (c, s1')
               /\ same s1 s1' /\ list_bounds FL_MAX' s1')
  \/ (exists s1', body' descend' name d_type st lst dir depth s'
                  = Some (Return (-1), s1')
                  /\ stopped_full FL_MAX' s1 s1').
Proof.
  intros D R B H NR. unfold loop_body in *.
  destruct (current_or_parent name); [inv H; left; eauto|].
  destruct (get_file_type flags s dir name d_type st lst) as [[c1 s2]|] eqn:G;
    [|discriminate].
  destruct (get_file_type_same _ _ _ _ _ _ _ _ _ R G) as (s2' & -> & R2 & M2).
  assert (B2 : list_bounds FL_MAX' s2').
  { eapply list_bounds_same; [|exact M2|exact B].
    apply get_file_type_inv in G as [L _].
    destruct R as (L0 & _), R2 as (L2 & _). congruence. }
  apply get_file_type_inv in G as [_ P].
  destruct c1 as [r| |[[cp sb] ct]];
    [inv H; exfalso; eapply NR; reflexivity|inv H; left; eauto|].
  destruct (traverse_next_directory flags descend s2 depth cp sb ct)
    as [[c2 s3]|] eqn:T; [|discriminate].
  assert (CP : cp = None \/ cp = Some (path_of dir name))
    by (destruct P as [(-> & _)|(-> & _)]; auto).
  assert (N : forall q, cp = Some q -> q <> []).
  { intros q ->. destruct P as [[? _]|([= ->] & N & _)]; [discriminate|].
    apply path_of_nonempty; auto. }
  assert (NR2 : forall r, c2 <> Return r).
  { intros r ->. inv H. eapply NR; reflexivity. }
  destruct (traverse_next_directory_cut descend descend' _ _ _ _ _ _ _ _
              D N R2 B2 T NR2)
    as [(s3' & -> & R3 & B3)|(s3' & -> & E3 & F3 & H3 & more & L3)].
  - destruct c2 as [r| |[]]; [exfalso; eapply NR2; reflexivity|inv H; left; eauto|].
    apply add_file_name_cut with (s := s3); assumption.
  - right. eexists. split; [reflexivity|]. split; [exact E3|]. split; [exact F3|].
    split; [exact H3|].
    destruct c2 as [r| |[]];
      [exfalso; eapply NR2; reflexivity|inv H; exists more; exact L3|].
    apply add_file_name_grows in H as (added & L4 & _); [|exact CP].
    exists (more ++ added). rewrite L4, L3, app_assoc. reflexivity.
Qed.

Lemma loop_body_return descend name d_type st lst dir depth s r s' :
  body descend name d_type st lst dir depth s = Some (Return r, s') -> r = -1.
Proof.
  unfold loop_body, get_file_type, traverse_next_directory, add_file_name,
    CREATE_CURRENT_PATH.
  intros H. break_all; reflexivity.
Qed.

(** A traversal that completes under one maximum either completes in the same
    way under another, or stops there with a full list that is the beginning
    of the list of the first. *)
Lemma parse_file_tree_cut :
  (forall dir directory depth s s' s1,
     directory <> [] -> same s s' -> list_bounds FL_MAX' s' ->
     parse dir directory depth s = Some (0, s1) ->
     (exists s1', parse' dir directory depth s' = Some (0, s1')
                  /\ same s1 s1' /\ list_bounds FL_MAX' s1')
     \/ (exists s1', parse' dir directory depth s' = Some (-1, s1')
                     /\ stopped_full FL_MAX' s1 s1'))
  /\ (forall entries directory depth s s' s1,
     directory <> [] -> same s s' -> list_bounds FL_MAX' s' ->
     readdir entries directory depth s = Some (0, s1) ->
     (exists s1', readdir' entries directory depth s' = Some (0, s1')
                  /\ same s1 s1' /\ list_bounds FL_MAX' s1')
     \/ (exists s1', readdir' entries directory depth s' = Some (-1, s1')
                     /\ stopped_full FL_MAX' s1 s1')).
Proof.
  apply (DIR_dirents_mut
    (fun dir => forall directory depth s s' s1,
       directory <> [] -> same s s' -> list_bounds FL_MAX' s' ->
       parse dir directory depth s = Some (0, s1) ->
       (exists s1', parse' dir directory depth s' = Some (0, s1')
                    /\ same s1 s1' /\ list_bounds FL_MAX' s1')
       \/ (exists s1', parse' dir directory depth s' = Some (-1, s1')
                       /\ stopped_full FL_MAX' s1 s1'))
    (fun entries => forall directory depth s s' s1,
       directory <> [] -> same s s' -> list_bounds FL_MAX' s' ->
       readdir entries directory depth s = Some (0, s1) ->
       (exists s1', readdir' entries directory depth s' = Some (0, s1')
                    /\ same s1 s1' /\ list_bounds FL_MAX' s1')
       \/ (exists s1', readdir' entries directory depth s' = Some (-1, s1')
                       /\ stopped_full FL_MAX' s1 s1'))).
  - intros e directory depth s s' s1 N R B H.
    rewrite parse_file_tree_fails in *.
    assert (Q : stderr s = stderr s') by apply R.
    replace (errno (DEBUG_PRINTF (set_errno e s')))
      with (errno (DEBUG_PRINTF (set_errno e s)))
      by (cbn; rewrite Q; reflexivity).
    destruct (negb (_ =? EACCES)); inv H. left. eexists. split; [reflexivity|].
    split; [|eapply list_bounds_same; [| |exact B]; reflexivity].
    same_frame R.
  - intros entries IH directory depth s s' s1 N R B H.
    rewrite parse_file_tree_ok in *. eauto.
  - intros directory depth s s' s1 N R B H. rewrite readdir_loop_end in *.
    inv H. left. eauto.
  - intros name d_type st lst sub IHsub rest IHrest directory depth s s' s1 N R B H.
    rewrite readdir_loop_dirent in *.
    destruct (body (parse sub) name d_type st lst directory depth s)
      as [[c s2]|] eqn:Body; [|discriminate].
    assert (REST : readdir rest directory depth s2 = Some (0, s1)
                   /\ forall r, c <> Return r).
    { destruct c as [r| |[]]; [|split; [exact H|discriminate]..].
      inv H. apply loop_body_return in Body. discriminate Body. }
    destruct REST as [Rest NR].
    destruct (loop_body_cut (parse sub) (parse' sub) _ _ _ _ _ _ _ _ _ _
                (fun p d s s' s1 Np => IHsub p d s s' s1 Np) R B Body NR)
      as [(s2' & -> & R2 & B2)|(s2' & -> & E2 & F2 & H2 & more & L2)].
    + destruct (IHrest directory depth s2 s2' s1 N R2 B2 Rest)
        as [(s1' & E1 & R1 & B1)|(s1' & E1 & S1)];
        [left|right]; exists s1'; (split; [|auto]);
        destruct c as [r| |[]]; try exact E1; exfalso; eapply NR; reflexivity.
    + right. eexists. split; [reflexivity|]. split; [exact E2|].
      split; [exact F2|]. split; [exact H2|].
      apply (proj2 (parse_file_tree_grows regex_t regexec FL_MAX_def SIZE_MAX
                      file_type_arr file_ext flags)) in Rest
        as (added & L1 & _); [|exact N].
      exists (more ++ added). rewrite L1, L2, app_assoc. reflexivity.
Qed.

End TwoMaxima.

(** ** A chain of directories *)

Section Chain.

Variable regex_t : Type.
Variable regexec : regex_t -> list Z -> bool.
Variables FL_MAX_def SIZE_MAX : Z.

Local Abbreviation FL_MAX := (FL_MAX_LIST_SIZE FL_MAX_def SIZE_MAX).
Local Abbreviation parse_reg :=
  (parse_file_tree regex_t regexec FL_MAX_def SIZE_MAX
     (make_file_type_arr FL_REG) None 0).
Local Abbreviation body_reg :=
  (loop_body regex_t regexec FL_MAX_def SIZE_MAX
     (make_file_type_arr FL_REG) None 0).

Lemma is_directory_loop_false k sb :
  array k <> [] ->
  (forall e, In e (array k) -> st_ino e <> st_ino sb) ->
  is_directory_loop k sb = Some false.
Proof.
  intros N H. unfold is_directory_loop.
  assert (E : existsb (fun e => (st_ino e =? st_ino sb)
                                && (st_dev e =? st_dev sb)) (array k) = false).
  { clear N. induction (array k) as [|e l IH]; [reflexivity|]. cbn [existsb].
    replace (st_ino e =? st_ino sb) with false
      by (symmetry; apply Z.eqb_neq; apply H; left; reflexivity).
    cbn [andb orb]. apply IH. intros e' I. apply H. right. exact I. }
  destruct (array k); [congruence|]. rewrite E. reflexivity.
Qed.

Lemma chain_listed n : forall depth dir s,
  dir <> [] -> heap s = [] -> n_file_list s <> FL_MAX ->
  array (stack s) <> [] ->
  (forall e, In e (array (stack s)) -> st_ino e <= 0 \/ Z.of_nat n < st_ino e) ->
  exists s', parse_reg (chain n) dir depth s = Some (0, s')
             /\ file_list s' = file_list s
                  ++ (if (depth <? 0) || (Z.of_nat n <=? depth)
                      then [chain_path dir n] else [])
             /\ heap s' = [] /\ array (stack s') = array (stack s).
Proof.
  induction n as [|k IH]; intros depth dir s N H F NE K.
  - cbn [chain]. rewrite parse_file_tree_ok, readdir_loop_dirent.
    rewrite (loop_body_parts _ _ _ _ _ _ _ _ _ _ _ _ _ _ _ None None 8 s)
      by reflexivity.
    rewrite traverse_next_directory_stays by (right; lia).
    destruct (add_file_name_appends regex_t regexec FL_MAX_def SIZE_MAX
                (make_file_type_arr FL_REG) None 0 s dir (str "f") None 8)
      as (m & e & w & -> & _); auto.
    rewrite readdir_loop_end. eexists. split; [reflexivity|].
    cbn [file_list set_list set_max heap stack chain_path Z.of_nat].
    replace ((8 =? 4) && has 0 FL_DIR_SEP) with false by reflexivity.
    repeat split; auto.
    destruct (Z.ltb_spec depth 0), (Z.leb_spec 0 depth); try reflexivity; lia.
  - set (cp := path_of dir (str "d")).
    set (sb := mk_stat 0 (Z.of_nat (S k)) 16384).
    assert (Ncp : cp <> []) by (apply path_of_nonempty; assumption).
    cbn [chain]. rewrite parse_file_tree_ok, readdir_loop_dirent.
    rewrite (loop_body_parts _ _ _ _ _ _ _ _ _ _ _ _ _ _ _ (Some cp) (Some sb) 4 s);
      [|reflexivity|apply get_file_type_stat; auto].
    assert (ADD : forall s1,
              add_file_name regex_t regexec FL_MAX_def SIZE_MAX
                (make_file_type_arr FL_REG) None 0 s1 dir (str "d") (Some cp) 4
              = Some (Go tt, free cp s1)).
    { intros s1. apply add_file_name_disabled with (v := 0); [reflexivity|lia]. }
    destruct (Z.eq_dec depth 0) as [->|D0].
    + rewrite traverse_next_directory_stays by (left; reflexivity).
      rewrite ADD, readdir_loop_end. eexists. split; [reflexivity|].
      cbn [file_list free heap stack Z.ltb orb].
      replace (Z.of_nat (S k) <=? 0) with false by (symmetry; apply Z.leb_gt; lia).
      rewrite app_nil_r. auto.
    + destruct (traverse_next_directory_descends 0 (parse_reg (chain k)) s depth cp sb)
        as [sz ->]; auto.
      { apply is_directory_loop_false; [exact NE|].
        intros e I. destruct (K e I); cbn; lia. }
      set (s1 := set_stack _ s).
      destruct (IH (next_depth depth) cp s1) as (s2 & -> & L2 & H2 & K2); auto.
      { cbn. destruct (array (stack s)); discriminate. }
      { intros e I. cbn in I. apply in_app_or in I as [I|[<-|[]]].
        - destruct (K e I); lia.
        - cbn. lia. }
      cbn [Z.eqb negb]. rewrite ADD, readdir_loop_end.
      eexists. split; [reflexivity|].
      cbn [file_list free stat_stack_pop set_stack heap stack array].
      rewrite L2, K2. cbn [file_list s1 set_stack stack array chain_path].
      fold cp. rewrite removelast_last. repeat split; auto.
      f_equal. unfold next_depth.
      destruct (Z.gtb_spec depth 0), (Z.ltb_spec depth 0),
        (Z.leb_spec (Z.of_nat (S k)) depth); cbn [orb];
        try (destruct (Z.ltb_spec (depth - 1) 0));
        try (destruct (Z.leb_spec (Z.of_nat k) (depth - 1)));
        try (destruct (Z.leb_spec (Z.of_nat k) depth));
        cbn [orb]; try reflexivity; lia.
Qed.

End Chain.

(** ** [qsort] and [file_list_create] *)

Lemma qsort_insert_perm compar x l : forall l',
  qsort_insert compar x l = Some l' -> Permutation (x :: l) l'.
Proof.
  induction l as [|y l IH]; intros l' H; cbn [qsort_insert] in H.
  - inv H. apply Permutation_refl.
  - destruct (compar x y) as [r|]; [|discriminate].
    destruct (r <=? 0); [inv H; apply Permutation_refl|].
    destruct (qsort_insert compar x l) as [l''|]; [|discriminate]. inv H.
    eapply Permutation_trans; [apply perm_swap|].
    apply perm_skip. apply IH. reflexivity.
Qed.

Lemma qsort_perm compar l : forall l', qsort compar l = Some l' -> Permutation l l'.
Proof.
  induction l as [|x l IH]; intros l' H; cbn [qsort] in H.
  - inv H. apply Permutation_refl.
  - destruct (qsort compar l) as [s|]; [|discriminate].
    eapply Permutation_trans; [apply perm_skip, IH; reflexivity|].
    apply (qsort_insert_perm compar). exact H.
Qed.

Lemma allocs_succeed_alloc n s h :
  allocs_succeed (S n) (heap s) = Some h ->
  exists s', alloc s = (true, s') /\ allocs_succeed n (heap s') = Some h
             /\ file_list s' = file_list s /\ n_file_list_max s' = n_file_list_max s
             /\ stack s' = stack s /\ errno s' = errno s /\ freed s' = freed s
             /\ stderr s' = stderr s.
Proof.
  unfold alloc. cbn [allocs_succeed]. destruct (heap s) as [|[|] h'] eqn:E.
  - intros [= <-]. exists s. rewrite E. repeat split. destruct n; reflexivity.
  - intros H. eexists. split; [reflexivity|]. cbn. auto 10.
  - discriminate.
Qed.

Lemma clean_dir_nonempty d : d <> [] -> clean_dir d <> [].
Proof.
  intros N. unfold clean_dir.
  assert (O : omit_superfluous false d <> []).
  { destruct d as [|x d]; [congruence|]. cbn.
    destruct (x =? DIR_SEPARATOR); discriminate. }
  assert (R : forall l, l <> [] -> remove_trailing l <> []).
  { induction l as [|x l IH]; [congruence|]. intros _. cbn.
    destruct l as [|y l]; [discriminate|].
    destruct (x =? DIR_SEPARATOR); [apply IH|]; discriminate. }
  intros E. apply (f_equal (@rev Z)) in E. rewrite rev_involutive in E.
  cbn in E. apply R in E; [exact E|].
  intros E'. apply (f_equal (@rev Z)) in E'. rewrite rev_involutive in E'.
  cbn in E'. contradiction.
Qed.

Section Create.

Variable regex_t : Type.
Variable regcomp : list Z -> Z -> option regex_t.
Variable regexec : regex_t -> list Z -> bool.
Variable strcoll : list Z -> list Z -> option Z.
Variables FL_INITIAL FL_MAX_def SIZE_MAX : Z.

Local Abbreviation FL_MAX := (FL_MAX_LIST_SIZE FL_MAX_def SIZE_MAX).
Local Abbreviation parse :=
  (parse_file_tree regex_t regexec FL_MAX_def SIZE_MAX).
Local Abbreviation create :=
  (file_list_create regex_t regcomp regexec strcoll FL_INITIAL FL_MAX_def SIZE_MAX).

(** [file_list_create] from the traversal on, when the set-up succeeds. *)
Lemma file_list_create_populated file_type regex_pattern d depth flags
    sort_method sb root errno0 heap0 stderr0 regex h :
  compile_regex regex_t regcomp regex_pattern flags = Some regex ->
  d <> [] -> allocs_succeed 3 heap0 = Some h ->
  create file_type regex_pattern (Some d) depth flags sort_method (stat_ok sb)
         root errno0 heap0 stderr0
  = ' (ret, s) <-
      parse (make_file_type_arr file_type) regex flags root (clean_dir d) depth
            (traversal_start FL_INITIAL sb errno0 h stderr0) ;;
    let s := free (clean_dir d) s in
    if negb (ret =? 0) && negb (errno s =? E2BIG) then
      Some (mk_created (-1) null_ptr (errno s) (freed s ++ file_list s))
    else
      match alloc s with
      | (false, s) =>
          Some (mk_created (-1) (unterminated (file_list s)) (errno s) (freed s))
      | (true, s) =>
          sorted <-
            match get_compar_fn strcoll sort_method with
            | Some compar_fn => qsort compar_fn (file_list s)
            | None => Some (file_list s)
            end ;;
          Some (mk_created (n_file_list s) (terminated sorted) (errno s)
                           (freed s))
      end.
Proof.
  intros C N A. unfold file_list_create. rewrite C.
  set (s0 := mk_state [] FL_INITIAL (mk_stack 0 []) errno0 heap0 [] stderr0).
  destruct (allocs_succeed_alloc 2 s0 h A)
    as (s1 & -> & A1 & L1 & M1 & K1 & E1 & F1 & W1).
  unfold create_clean_dir. destruct d as [|x d]; [congruence|].
  destruct (allocs_succeed_alloc 1 s1 h A1)
    as (s2 & -> & A2 & L2 & M2 & K2 & E2 & F2 & W2).
  destruct (allocs_succeed_alloc 0 s2 h A2)
    as (s3 & -> & A3 & L3 & M3 & K3 & E3 & F3 & W3).
  cbn [allocs_succeed] in A3. injection A3 as A3.
  fold (clean_dir (x :: d)).
  replace (snd (stat_stack_push (set_stack (mk_stack STAT_STACK_INITIAL_SIZE []) s3) sb))
    with (traversal_start FL_INITIAL sb errno0 h stderr0); [reflexivity|].
  unfold stat_stack_push, traversal_start. cbn. subst s0. cbn in *.
  unfold set_stack. cbn. f_equal; congruence.
Qed.

(** A failure inside the traversal, other than E2BIG, frees every collected
    path and resets the caller's pointer. *)
Lemma file_list_create_traversal_failure file_type regex_pattern d depth flags
    sort_method sb root errno0 heap0 stderr0 regex h ret s :
  compile_regex regex_t regcomp regex_pattern flags = Some regex ->
  d <> [] -> allocs_succeed 3 heap0 = Some h ->
  parse (make_file_type_arr file_type) regex flags root (clean_dir d) depth
        (traversal_start FL_INITIAL sb errno0 h stderr0) = Some (ret, s) ->
  ret <> 0 -> errno s <> E2BIG ->
  create file_type regex_pattern (Some d) depth flags sort_method (stat_ok sb)
         root errno0 heap0 stderr0
  = Some (mk_created (-1) null_ptr (errno s)
                     (freed s ++ [clean_dir d] ++ file_list s)).
Proof.
  intros C N A P R E.
  rewrite (file_list_create_populated _ _ _ _ _ _ _ _ _ _ _ regex h C N A), P.
  cbv zeta. cbn [errno free file_list freed].
  replace (ret =? 0) with false by (symmetry; apply Z.eqb_neq; exact R).
  replace (errno s =? E2BIG) with false by (symmetry; apply Z.eqb_neq; exact E).
  cbn [negb andb]. rewrite <- app_assoc. reflexivity.
Qed.

End Create.

(** ** The comparators: C5 to C7 *)

Lemma strcmp_reads_strings : reads_strings strcmp.
Proof. intros s1 s2 r1 r2 H1 H2. unfold cstr. rewrite !strcmp_order; auto. Qed.

Lemma strcmp_default_local s1 s2 r1 r2 :
  is_str s1 -> is_str s2 -> s1 <> [] \/ s2 <> [] ->
  strcmp_default (s1 ++ 0 :: r1) (s2 ++ 0 :: r2)
  = strcmp_default (cstr s1) (cstr s2).
Proof.
  intros H1 H2 N.
  destruct s1 as [|x s1], s2 as [|y s2].
  - destruct N; congruence.
  - destruct (strcmp_default_empty [] (y :: s2) r1 r2 H1 H2) as (r & _ & -> & ->);
      [left; split; congruence|reflexivity].
  - destruct (strcmp_default_empty (x :: s1) [] r1 r2 H1 H2) as (r & _ & -> & ->);
      [right; split; congruence|reflexivity].
  - unfold cstr. rewrite !strcmp_default_order; auto; congruence.
Qed.

Lemma strcmp_natural_local s1 s2 r1 r2 :
  is_str s1 -> is_str s2 -> s1 <> [] \/ s2 <> [] ->
  strcmp_natural (s1 ++ 0 :: r1) (s2 ++ 0 :: r2)
  = strcmp_natural (cstr s1) (cstr s2).
Proof.
  intros H1 H2 N.
  destruct s1 as [|x s1], s2 as [|y s2].
  - destruct N; congruence.
  - destruct (strcmp_natural_empty [] (y :: s2) r1 r2 H1 H2) as (r & _ & -> & ->);
      [left; split; congruence|reflexivity].
  - destruct (strcmp_natural_empty (x :: s1) [] r1 r2 H1 H2) as (r & _ & -> & ->);
      [right; split; congruence|reflexivity].
  - unfold cstr. rewrite !strcmp_natural_order; auto; congruence.
Qed.

Lemma strcmp_default_differ s1 s2 :
  is_str s1 -> is_str s2 -> s1 <> s2 ->
  exists r, r <> 0 /\ strcmp_default (cstr s1) (cstr s2) = Some r.
Proof.
  intros H1 H2 N. destruct s1 as [|x s1], s2 as [|y s2].
  - congruence.
  - destruct (strcmp_default_empty [] (y :: s2) [] [] H1 H2) as (r & R & _ & E);
      [left; split; congruence|eauto].
  - destruct (strcmp_default_empty (x :: s1) [] [] [] H1 H2) as (r & R & _ & E);
      [right; split; congruence|eauto].
  - unfold cstr. rewrite strcmp_default_order by (auto; congruence).
    eexists. split; [|reflexivity]. intros E.
    apply default_order_zero in E as [_ E]; auto.
Qed.

Lemma strcmp_natural_differ s1 s2 :
  is_str s1 -> is_str s2 -> s1 <> s2 ->
  exists r, r <> 0 /\ strcmp_natural (cstr s1) (cstr s2) = Some r.
Proof.
  intros H1 H2 N. destruct s1 as [|x s1], s2 as [|y s2].
  - congruence.
  - destruct (strcmp_natural_empty [] (y :: s2) [] [] H1 H2) as (r & R & _ & E);
      [left; split; congruence|eauto].
  - destruct (strcmp_natural_empty (x :: s1) [] [] [] H1 H2) as (r & R & _ & E);
      [right; split; congruence|eauto].
  - unfold cstr. rewrite strcmp_natural_order by (auto; congruence).
    eexists. split; [|reflexivity]. intros E.
    apply natural_order_zero in E as [_ E]; auto.
Qed.

Lemma strcmp_differ s1 s2 :
  is_str s1 -> is_str s2 -> s1 <> s2 ->
  exists r, r <> 0 /\ strcmp (cstr s1) (cstr s2) = Some r.
Proof.
  intros H1 H2 N. unfold cstr. rewrite strcmp_order by auto.
  eexists. split; [|reflexivity]. intros E.
  apply ascii_order_zero in E; auto.
Qed.

Lemma default_order_refl s : forall t, default_order t s s = t.
Proof.
  induction s as [|x s IH]; intros t; [reflexivity|].
  rewrite default_order_cons, Z.eqb_refl. apply IH.
Qed.

Lemma natural_order_refl s : forall t, natural_order t s s = t.
Proof.
  induction s as [|x s IH]; intros t; [reflexivity|].
  rewrite natural_order_cons, Z.eqb_refl, run_order_refl. cbn [Z.eqb].
  destruct (isdigit x && isdigit x); apply IH.
Qed.

Lemma ascii_order_refl s : ascii_order s s = 0.
Proof.
  induction s as [|x s IH]; [reflexivity|]. cbn. rewrite Z.eqb_refl. exact IH.
Qed.

(** With both directory parts empty, [strcmp_default] and [strcmp_natural]
    run on from the two terminators into the base names. *)
Lemma strcmp_default_past_terminator b1 b2 :
  is_str b1 -> is_str b2 -> b1 <> [] -> b2 <> [] ->
  strcmp_default (0 :: cstr b1) (0 :: cstr b2) = strcmp_default (cstr b1) (cstr b2).
Proof.
  intros H1 H2 N1 N2. destruct b1 as [|x b1], b2 as [|y b2]; try congruence.
  apply is_str_inv in H1 as [Hx _]. apply is_str_inv in H2 as [Hy _].
  unfold strcmp_default. rewrite strcmp_default_loop_eq. cbn [Z.eqb negb].
  unfold cstr. cbn [app default_next].
  replace (x =? 0) with false by (symmetry; apply Z.eqb_neq; lia).
  replace (y =? 0) with false by (symmetry; apply Z.eqb_neq; lia).
  reflexivity.
Qed.

Lemma strcmp_natural_past_terminator b1 b2 :
  is_str b1 -> is_str b2 -> b1 <> [] -> b2 <> [] ->
  strcmp_natural (0 :: cstr b1) (0 :: cstr b2) = strcmp_natural (cstr b1) (cstr b2).
Proof.
  intros H1 H2 N1 N2. destruct b1 as [|x b1], b2 as [|y b2]; try congruence.
  apply is_str_inv in H1 as [Hx _]. apply is_str_inv in H2 as [Hy _].
  unfold strcmp_natural. cbn [length]. rewrite strcmp_natural_loop_eq. cbv zeta.
  replace (isdigit 0) with false by reflexivity. cbn [andb Z.eqb negb].
  unfold natural_next, cstr. cbn [tl app].
  replace (x =? 0) with false by (symmetry; apply Z.eqb_neq; lia).
  replace (y =? 0) with false by (symmetry; apply Z.eqb_neq; lia).
  reflexivity.
Qed.

Lemma same_directory_base_names base d b1 b2 :
  base = strcmp_default \/ base = strcmp_natural \/ base = strcmp ->
  is_str d -> is_str b1 -> is_str b2 -> b1 <> [] -> b2 <> [] ->
  (result <- base (d ++ 0 :: cstr b1) (d ++ 0 :: cstr b2) ;;
   if result =? 0 then base (cstr b1) (cstr b2) else Some result)
  = base (cstr b1) (cstr b2).
Proof.
  intros B Hd H1 H2 N1 N2.
  assert (SAME : forall r : option Z,
            match r with
            | Some result => if result =? 0 then r else Some result
            | None => None
            end = r).
  { intros [result|]; [destruct (result =? 0)|]; reflexivity. }
  destruct d as [|x d].
  - cbn [app]. destruct B as [->|[->| ->]].
    + rewrite strcmp_default_past_terminator by assumption.
      destruct (strcmp_default (cstr b1) (cstr b2)) as [r|] eqn:E; [|reflexivity].
      destruct (r =? 0) eqn:Z0; [reflexivity|reflexivity].
    + rewrite strcmp_natural_past_terminator by assumption.
      destruct (strcmp_natural (cstr b1) (cstr b2)) as [r|] eqn:E; [|reflexivity].
      destruct (r =? 0) eqn:Z0; [reflexivity|reflexivity].
    + reflexivity.
  - destruct B as [->|[->| ->]].
    + rewrite strcmp_default_order, default_order_refl by (auto; discriminate).
      reflexivity.
    + rewrite strcmp_natural_order, natural_order_refl by (auto; discriminate).
      reflexivity.
    + rewrite strcmp_order, ascii_order_refl by auto. reflexivity.
Qed.

(** C5. Each path-aware ordering function ([get_compar_fn] of a sort method)
    is [qsort_compar] over the base comparator of the method. On two paths
    [d1/b1] and [d2/b2], split at their last separators, it compares the
    directory parts in place, returns that result when it is not 0, and
    compares the base names only on 0. The comparison in place is the
    comparison of the two directory parts as strings, unless both are
    empty. Hence a non-zero order of the directory parts is the order of the
    paths whatever the base names are, and for the default, natural and ASCII
    methods directory parts that differ always have a non-zero order, and
    paths with one directory part and non-empty base names are ordered as
    their base names. The locale-collated method is taken over a [strcoll]
    that reads its two strings only. *)
Theorem qsort_compar_directory_first :
  forall (strcoll : list Z -> list Z -> option Z) sort_method base
         (d1 b1 d2 b2 : list Z),
  reads_strings strcoll ->
  base_comparator strcoll sort_method = Some base ->
  is_str d1 -> is_str b1 -> is_str d2 -> is_str b2 ->
  ~ In DIR_SEPARATOR b1 -> ~ In DIR_SEPARATOR b2 ->
  let path1 := d1 ++ DIR_SEPARATOR :: b1 in
  let path2 := d2 ++ DIR_SEPARATOR :: b2 in
  get_compar_fn strcoll sort_method = Some (qsort_compar base)
  /\ qsort_compar base path1 path2
     = (result <- base (d1 ++ 0 :: cstr b1) (d2 ++ 0 :: cstr b2) ;;
        if result =? 0 then base (cstr b1) (cstr b2) else Some result)
  /\ (d1 <> [] \/ d2 <> [] ->
      base (d1 ++ 0 :: cstr b1) (d2 ++ 0 :: cstr b2)
      = base (cstr d1) (cstr d2))
  /\ (forall r, base (cstr d1) (cstr d2) = Some r -> r <> 0 ->
      qsort_compar base path1 path2 = Some r)
  /\ (sort_method <> FL_SORT_COLLATE -> d1 <> d2 ->
      exists r, r <> 0 /\ base (cstr d1) (cstr d2) = Some r)
  /\ (sort_method <> FL_SORT_COLLATE -> d1 = d2 -> b1 <> [] -> b2 <> [] ->
      qsort_compar base path1 path2 = base (cstr b1) (cstr b2)).
Proof.
  intros strcoll sort_method base d1 b1 d2 b2 RS B H1 Hb1 H2 Hb2 N1 N2 path1 path2.
  assert (LOCAL : forall c1 c2, d1 <> [] \/ d2 <> [] ->
            base (d1 ++ 0 :: c1) (d2 ++ 0 :: c2) = base (cstr d1) (cstr d2)).
  { intros c1 c2 N. destruct sort_method; inv B.
    - apply strcmp_default_local; auto.
    - apply strcmp_natural_local; auto.
    - apply RS; auto.
    - apply strcmp_reads_strings; auto. }
  assert (SPLIT := qsort_compar_split base d1 b1 d2 b2 N1 N2).
  split; [destruct sort_method; inv B; reflexivity|].
  split; [exact SPLIT|]. split; [apply LOCAL|]. split; [|split].
  - intros r E R. subst path1 path2. rewrite SPLIT.
    assert (P : base (d1 ++ 0 :: cstr b1) (d2 ++ 0 :: cstr b2) = Some r).
    { destruct d1 as [|x d1]; [destruct d2 as [|y d2]|].
      - destruct sort_method; inv B.
        + discriminate E.
        + discriminate E.
        + rewrite <- E. apply (RS [] []); constructor.
        + cbn in E. congruence.
      - rewrite LOCAL by (right; congruence). exact E.
      - rewrite LOCAL by (left; congruence). exact E. }
    rewrite P.
    replace (r =? 0) with false by (symmetry; apply Z.eqb_neq; exact R).
    reflexivity.
  - intros NC ND. destruct sort_method; inv B.
    + apply strcmp_default_differ; auto.
    + apply strcmp_natural_differ; auto.
    + congruence.
    + apply strcmp_differ; auto.
  - intros NC <- M1 M2. subst path1 path2. rewrite SPLIT.
    apply same_directory_base_names; auto.
    destruct sort_method; inv B; auto. congruence.
Qed.

Lemma bytes_compare_eq s1 : forall s2, bytes_compare s1 s2 = Eq -> s1 = s2.
Proof.
  induction s1 as [|x s1 IH]; intros [|y s2]; cbn; try discriminate; auto.
  destruct (x ?= y) eqn:C; try discriminate.
  apply Z.compare_eq in C. intros H. f_equal; auto.
Qed.

(** C5, instance: "a/x" against "b/y" under the natural method, with [strcmp]
    standing for [strcoll]. *)
Lemma qsort_compar_directory_first_witness :
  qsort_compar strcmp_natural (str "a/x") (str "b/y") = Some (-1)
  /\ get_compar_fn strcmp FL_SORT_NATURAL = Some (qsort_compar strcmp_natural).
Proof.
  destruct (qsort_compar_directory_first strcmp FL_SORT_NATURAL strcmp_natural
              (str "a") (str "x") (str "b") (str "y"))
    as (G & _ & _ & D & _ & _).
  - exact strcmp_reads_strings.
  - reflexivity.
  - repeat constructor; lia.
  - repeat constructor; lia.
  - repeat constructor; lia.
  - repeat constructor; lia.
  - vm_compute. intuition discriminate.
  - vm_compute. intuition discriminate.
  - split; [|exact G]. apply D; [reflexivity|lia].
Defined.

(** C6. On two non-empty strings, [strcmp_default] orders case-insensitively:
    when the case-folded strings differ, the sign of the result is their
    byte-wise lexicographic order. When they are equal under case folding
    and [a], [b] are the characters at the first position where the strings
    differ, the string holding the lowercase variant there sorts first. A
    string sorts before every string it is a strict prefix of. Sorting
    "FILE", "file" gives "file", "FILE", both as base strings and as the
    paths "d/FILE", "d/file" under the default method. *)
Theorem strcmp_default_orders :
  forall s1 s2 : list Z,
  is_str s1 -> is_str s2 -> s1 <> [] -> s2 <> [] ->
  exists r,
    strcmp_default (cstr s1) (cstr s2) = Some r
    /\ (map tolower s1 <> map tolower s2 ->
        (r ?= 0) = bytes_compare (map tolower s1) (map tolower s2))
    /\ (forall p a q1 b q2,
          s1 = p ++ a :: q1 -> s2 = p ++ b :: q2 -> a <> b ->
          map tolower (a :: q1) = map tolower (b :: q2) ->
          (tolower a = a -> r < 0) /\ (tolower b = b -> 0 < r))
    /\ (forall c q, s2 = s1 ++ c :: q -> r < 0)
    /\ (forall c q, s1 = s2 ++ c :: q -> 0 < r)
    /\ qsort (fun a b => strcmp_default (cstr a) (cstr b))
             [str "FILE"; str "file"]
       = Some [str "file"; str "FILE"]
    /\ qsort qsort_compar_default [str "d/FILE"; str "d/file"]
       = Some [str "d/file"; str "d/FILE"].
Proof.
  intros s1 s2 H1 H2 N1 N2. exists (default_order 0 s1 s2).
  split; [apply strcmp_default_order; assumption|].
  split; [|split; [|split; [|split; [|split; vm_compute; reflexivity]]]].
  - intros D. apply default_order_fold; auto.
    intros E. apply D. apply bytes_compare_eq. exact E.
  - intros p a q1 b q2 -> -> D E.
    rewrite default_order_case by assumption.
    injection E as E _.
    destruct (tolower_variants a b D E) as [L U]. split; intros T.
    + rewrite L by exact T. lia.
    + rewrite U by exact T. lia.
  - intros c q ->. rewrite <- (app_nil_r s1) at 1.
    rewrite default_order_prefix. cbn.
    apply Forall_app in H2 as [_ H2]. apply is_str_inv in H2 as [Hc _]. lia.
  - intros c q ->. rewrite <- (app_nil_r s2) at 2.
    rewrite default_order_prefix. cbn.
    apply Forall_app in H1 as [_ H1]. apply is_str_inv in H1 as [Hc _]. lia.
Qed.

(** C6, instance: "File" against "file". *)
Lemma strcmp_default_orders_witness :
  exists r, strcmp_default (cstr (str "File")) (cstr (str "file")) = Some r
            /\ 0 < r.
Proof.
  destruct (strcmp_default_orders (str "File") (str "file"))
    as (r & E & _ & C & _).
  - repeat constructor; lia.
  - repeat constructor; lia.
  - discriminate.
  - discriminate.
  - exists r. split; [exact E|].
    apply (C [] 70 (str "ile") 102 (str "ile")); try reflexivity. lia.
Defined.

Lemma opp_eqb_0 d : (- d =? 0) = (d =? 0).
Proof. destruct (Z.eqb_spec d 0), (Z.eqb_spec (- d) 0); lia || reflexivity. Qed.

Lemma natural_order_antisym s1 : forall s2 t,
  natural_order (- t) s2 s1 = - natural_order t s1 s2.
Proof.
  induction s1 as [|x s1 IH]; intros [|y s2] t; [reflexivity|cbn; lia|cbn; lia|].
  rewrite !natural_order_cons. cbv zeta.
  rewrite (andb_comm (isdigit y)), (Z.eqb_sym y x),
    (Z.eqb_sym (tolower y) (tolower x)),
    (run_order_antisym (digit_run (x :: s1)) (digit_run (y :: s2))), opp_eqb_0.
  destruct (isdigit x && isdigit y).
  - destruct (_ =? 0); [apply IH|reflexivity].
  - destruct (x =? y); [apply IH|].
    destruct (tolower x =? tolower y); [|lia].
    rewrite <- IH. f_equal.
    destruct (Z.eqb_spec t 0) as [->|N]; [cbn [Z.opp Z.eqb]; lia|].
    replace (- t =? 0) with false by (symmetry; apply Z.eqb_neq; lia).
    reflexivity.
Qed.

(** *** Positions outside the digit runs *)

Lemma digit_run_aligned pre1 : forall pre2 T1 T2,
  map tolower pre1 = map tolower pre2 ->
  (forall h T', T1 = h :: T' -> isdigit h = false) ->
  (forall h T', T2 = h :: T' -> isdigit h = false) ->
  digit_run (pre1 ++ T1) = digit_run (pre2 ++ T2).
Proof.
  induction pre1 as [|x pre1 IH]; intros [|y pre2] T1 T2 E H1 H2;
    try discriminate.
  - cbn [app]. destruct T1 as [|h1 T1], T2 as [|h2 T2]; cbn [digit_run];
      try rewrite (H1 h1 T1 eq_refl); try rewrite (H2 h2 T2 eq_refl);
      reflexivity.
  - injection E as Exy E. destruct (isdigit_fold x y Exy) as [D Dx].
    cbn [app digit_run]. rewrite <- D.
    destruct (isdigit x) eqn:Hx; [|reflexivity].
    rewrite <- (Dx eq_refl). f_equal. apply IH; assumption.
Qed.

Lemma natural_order_aligned pre1 : forall pre2 t T1 T2,
  map tolower pre1 = map tolower pre2 ->
  no_trailing_digit pre1
  \/ ((forall h T', T1 = h :: T' -> isdigit h = false)
      /\ (forall h T', T2 = h :: T' -> isdigit h = false)) ->
  natural_order t (pre1 ++ T1) (pre2 ++ T2)
  = natural_order (if t =? 0 then tie_break pre1 pre2 else t) T1 T2.
Proof.
  induction pre1 as [|x pre1 IH]; intros [|y pre2] t T1 T2 E B;
    try discriminate.
  - cbn [app tie_break]. destruct (Z.eqb_spec t 0) as [->|]; reflexivity.
  - assert (B' : no_trailing_digit pre1
                 \/ ((forall h T', T1 = h :: T' -> isdigit h = false)
                     /\ (forall h T', T2 = h :: T' -> isdigit h = false))).
    { destruct B as [NT|B]; [left|right; exact B].
      intros p d Ep. apply (NT (x :: p) d). rewrite Ep. reflexivity. }
    assert (E' := E). injection E' as Exy E'.
    destruct (isdigit_fold x y Exy) as [D Dx].
    rewrite <- !app_comm_cons, natural_order_cons. rewrite <- D.
    cbn [tie_break].
    destruct (isdigit x) eqn:Hx; cbn [andb].
    + cbv zeta. rewrite !app_comm_cons.
      replace (digit_run ((y :: pre2) ++ T2))
        with (digit_run ((x :: pre1) ++ T1)).
      2:{ destruct B as [NT|[H1 H2]].
          - apply digit_run_prefix; [exact E|discriminate|exact NT].
          - apply digit_run_aligned; assumption. }
      rewrite run_order_refl. cbn [Z.eqb].
      rewrite <- (Dx eq_refl), Z.eqb_refl. apply IH; assumption.
    + rewrite Exy, Z.eqb_refl.
      destruct (Z.eqb_spec x y) as [->|N]; [apply IH; assumption|].
      rewrite IH by assumption. f_equal.
      destruct (Z.eqb_spec t 0) as [->|T]; [|
        replace (t =? 0) with false by (symmetry; apply Z.eqb_neq; exact T);
        reflexivity].
      replace (y - x =? 0) with false by (symmetry; apply Z.eqb_neq; lia).
      reflexivity.
Qed.

Lemma default_order_aligned pre1 : forall pre2 t T1 T2,
  map tolower pre1 = map tolower pre2 ->
  default_order t (pre1 ++ T1) (pre2 ++ T2)
  = default_order (if t =? 0 then tie_break pre1 pre2 else t) T1 T2.
Proof.
  induction pre1 as [|x pre1 IH]; intros [|y pre2] t T1 T2 E; try discriminate.
  - cbn [app tie_break]. destruct (Z.eqb_spec t 0) as [->|]; reflexivity.
  - injection E as Exy E.
    rewrite <- !app_comm_cons, default_order_cons. cbn [tie_break].
    rewrite Exy, Z.eqb_refl.
    destruct (Z.eqb_spec x y) as [->|N]; [apply IH; assumption|].
    rewrite IH by assumption. f_equal.
    destruct (Z.eqb_spec t 0) as [->|T]; [|
      replace (t =? 0) with false by (symmetry; apply Z.eqb_neq; exact T);
      reflexivity].
    replace (y - x =? 0) with false by (symmetry; apply Z.eqb_neq; lia).
    reflexivity.
Qed.

Lemma tie_break_case p a q1 b q2 :
  a <> b -> tie_break (p ++ a :: q1) (p ++ b :: q2) = b - a.
Proof.
  intros N. induction p as [|x p IH]; cbn [app tie_break].
  - replace (a =? b) with false by (symmetry; apply Z.eqb_neq; exact N).
    reflexivity.
  - rewrite Z.eqb_refl. exact IH.
Qed.

(** Where the strings first differ under case folding, outside the digit
    runs. *)
Lemma natural_order_fold_difference pre1 pre2 a T1 b T2 :
  map tolower pre1 = map tolower pre2 ->
  (isdigit a = false /\ isdigit b = false)
  \/ (no_trailing_digit pre1 /\ (isdigit a = false \/ isdigit b = false)) ->
  tolower a <> tolower b ->
  natural_order 0 (pre1 ++ a :: T1) (pre2 ++ b :: T2) = tolower a - tolower b
  /\ default_order 0 (pre1 ++ a :: T1) (pre2 ++ b :: T2)
     = tolower a - tolower b.
Proof.
  intros E B N.
  assert (Nab : a <> b) by congruence.
  split.
  - rewrite natural_order_aligned.
    + rewrite natural_order_cons.
      replace (isdigit a && isdigit b) with false
        by (destruct B as [[-> _]|[_ [->| ->]]];
            [reflexivity|reflexivity|rewrite andb_false_r; reflexivity]).
      replace (a =? b) with false by (symmetry; apply Z.eqb_neq; exact Nab).
      replace (tolower a =? tolower b) with false
        by (symmetry; apply Z.eqb_neq; exact N).
      reflexivity.
    + exact E.
    + destruct B as [[Da Db]|[NT _]]; [right|left; exact NT].
      split; intros h T' [= <- _]; assumption.
  - rewrite default_order_aligned by exact E. rewrite default_order_cons.
    replace (a =? b) with false by (symmetry; apply Z.eqb_neq; exact Nab).
    replace (tolower a =? tolower b) with false
      by (symmetry; apply Z.eqb_neq; exact N).
    reflexivity.
Qed.

(** Strings that are equal under case folding. *)
Lemma natural_order_case p a q1 b q2 :
  a <> b -> map tolower (a :: q1) = map tolower (b :: q2) ->
  natural_order 0 (p ++ a :: q1) (p ++ b :: q2) = b - a.
Proof.
  intros N E.
  rewrite <- (app_nil_r (p ++ a :: q1)), <- (app_nil_r (p ++ b :: q2)).
  rewrite natural_order_aligned.
  - cbn [Z.eqb natural_order]. apply tie_break_case. exact N.
  - rewrite !map_app. f_equal. exact E.
  - right. split; intros h T' D; discriminate D.
Qed.

(** A string against a longer one that goes on after it. *)
Lemma natural_order_shorter pre1 pre2 c q :
  map tolower pre1 = map tolower pre2 ->
  isdigit c = false \/ no_trailing_digit pre1 ->
  natural_order 0 pre1 (pre2 ++ c :: q) = 0 - c
  /\ natural_order 0 (pre2 ++ c :: q) pre1 = c - 0
  /\ default_order 0 pre1 (pre2 ++ c :: q) = 0 - c
  /\ default_order 0 (pre2 ++ c :: q) pre1 = c - 0.
Proof.
  intros E B.
  assert (N : natural_order 0 pre1 (pre2 ++ c :: q) = 0 - c).
  { rewrite <- (app_nil_r pre1) at 1. rewrite natural_order_aligned.
    - reflexivity.
    - exact E.
    - destruct B as [D|NT]; [right|left; exact NT].
      split; [intros h T' H; discriminate H|intros h T' [= <- _]; exact D]. }
  split; [exact N|]. split.
  - pose proof (natural_order_antisym pre1 (pre2 ++ c :: q) 0) as A.
    change (- 0) with 0 in A. rewrite A, N. lia.
  - split.
    + rewrite <- (app_nil_r pre1) at 1.
      rewrite default_order_aligned by exact E. reflexivity.
    + rewrite <- (app_nil_r pre1) at 1.
      rewrite default_order_aligned by (symmetry; exact E). reflexivity.
Qed.

(** C7. Where two non-empty strings have decimal digit runs [R1] and [R2]
    at the same place (after prefixes that are equal under case folding and
    do not end inside a digit run, each run followed by a non-digit or by the
    end of its string), [strcmp_natural] returns the order of the two runs
    unless they are equal: leading zeroes are stripped, a shorter stripped
    run is smaller, stripped runs of one length are compared digit by digit,
    and on a tie the run with more leading zeroes sorts first ([run_order]).
    This is the order of the runs as unsigned integers, then of their
    lengths. Where the first string holds no digit, the result is that of
    [strcmp_default]. Sorting file2, file07, file7, file10 under the natural
    method gives file2, file07, file7, file10, and each of them sorts
    strictly before the ones after it. Outside the digit runs the result is
    that of [strcmp_default], whatever digits the strings hold elsewhere:
    (a) where the strings first differ under case folding, at a position
    that is not inside a digit run of both, the difference of the two folded
    characters is returned; (b) strings that are equal under case folding
    are ordered by the first position at which they differ, the lowercase
    variant first, the result being the difference of the two characters
    there; (c) a string sorts before the strings that go on after it, unless
    the longer one goes on inside a digit run, where the rule for the runs
    decides. *)
Theorem strcmp_natural_orders :
  forall pre1 pre2 R1 T1 R2 T2 : list Z,
  is_str pre1 -> is_str pre2 ->
  is_str R1 -> is_str T1 -> is_str R2 -> is_str T2 ->
  map tolower pre1 = map tolower pre2 ->
  no_trailing_digit pre1 ->
  all_digits R1 -> all_digits R2 -> R1 <> [] -> R2 <> [] ->
  (forall h T', T1 = h :: T' -> isdigit h = false) ->
  (forall h T', T2 = h :: T' -> isdigit h = false) ->
  (exists r,
     strcmp_natural (cstr (pre1 ++ R1 ++ T1)) (cstr (pre2 ++ R2 ++ T2)) = Some r
     /\ (R1 <> R2 -> r = run_order R1 R2)
     /\ (digits_value R1 < digits_value R2 -> r < 0)
     /\ (digits_value R2 < digits_value R1 -> 0 < r)
     /\ (digits_value R1 = digits_value R2 -> len R2 < len R1 -> r < 0)
     /\ (digits_value R1 = digits_value R2 -> len R1 < len R2 -> 0 < r))
  /\ (forall s1 s2, is_str s1 -> is_str s2 -> s1 <> [] -> s2 <> [] ->
        Forall (fun c => isdigit c = false) s1 ->
        strcmp_natural (cstr s1) (cstr s2) = strcmp_default (cstr s1) (cstr s2))
  /\ qsort qsort_compar_natural
           [str "d/file2"; str "d/file07"; str "d/file7"; str "d/file10"]
     = Some [str "d/file2"; str "d/file07"; str "d/file7"; str "d/file10"]
  /\ qsort qsort_compar_natural
           [str "d/file10"; str "d/file7"; str "d/file07"; str "d/file2"]
     = Some [str "d/file2"; str "d/file07"; str "d/file7"; str "d/file10"]
  /\ Forall (fun pair => exists r,
               strcmp_natural (cstr (fst pair)) (cstr (snd pair)) = Some r
               /\ r < 0)
            [(str "file2", str "file07"); (str "file2", str "file7");
             (str "file2", str "file10"); (str "file07", str "file7");
             (str "file07", str "file10"); (str "file7", str "file10")]
  /\ (forall p1 p2 a q1 b q2,
        is_str (p1 ++ a :: q1) -> is_str (p2 ++ b :: q2) ->
        map tolower p1 = map tolower p2 ->
        (isdigit a = false /\ isdigit b = false)
        \/ (no_trailing_digit p1 /\ (isdigit a = false \/ isdigit b = false)) ->
        tolower a <> tolower b ->
        strcmp_natural (cstr (p1 ++ a :: q1)) (cstr (p2 ++ b :: q2))
        = Some (tolower a - tolower b)
        /\ strcmp_default (cstr (p1 ++ a :: q1)) (cstr (p2 ++ b :: q2))
           = Some (tolower a - tolower b))
  /\ (forall p a q1 b q2,
        is_str (p ++ a :: q1) -> is_str (p ++ b :: q2) -> a <> b ->
        map tolower (a :: q1) = map tolower (b :: q2) ->
        strcmp_natural (cstr (p ++ a :: q1)) (cstr (p ++ b :: q2))
        = Some (b - a)
        /\ strcmp_default (cstr (p ++ a :: q1)) (cstr (p ++ b :: q2))
           = Some (b - a)
        /\ (tolower a = a -> b - a < 0) /\ (tolower b = b -> 0 < b - a))
  /\ (forall s1 s2 c q,
        is_str s1 -> is_str (s2 ++ c :: q) -> s1 <> [] ->
        map tolower s1 = map tolower s2 ->
        isdigit c = false \/ no_trailing_digit s1 ->
        strcmp_natural (cstr s1) (cstr (s2 ++ c :: q)) = Some (0 - c)
        /\ strcmp_natural (cstr (s2 ++ c :: q)) (cstr s1) = Some (c - 0)
        /\ strcmp_default (cstr s1) (cstr (s2 ++ c :: q)) = Some (0 - c)
        /\ strcmp_default (cstr (s2 ++ c :: q)) (cstr s1) = Some (c - 0)
        /\ 0 < c).
Proof.
  intros pre1 pre2 R1 T1 R2 T2 Hp1 Hp2 HR1 HT1 HR2 HT2 FOLD NT A1 A2 N1 N2 D1 D2.
  split; [|split; [|split; [vm_compute; reflexivity|split;
    [vm_compute; reflexivity|split; [|split; [|split]]]]]].
  - assert (S1 : is_str (pre1 ++ R1 ++ T1))
      by (apply Forall_app; split; [|apply Forall_app; split]; assumption).
    assert (S2 : is_str (pre2 ++ R2 ++ T2))
      by (apply Forall_app; split; [|apply Forall_app; split]; assumption).
    exists (natural_order 0 (pre1 ++ R1 ++ T1) (pre2 ++ R2 ++ T2)).
    split.
    { apply strcmp_natural_order; auto.
      - destruct pre1; [destruct R1; [congruence|]|]; discriminate.
      - destruct pre2; [destruct R2; [congruence|]|]; discriminate. }
    assert (RUN : R1 <> R2 ->
              natural_order 0 (pre1 ++ R1 ++ T1) (pre2 ++ R2 ++ T2)
              = run_order R1 R2)
      by (intros NE; apply natural_order_runs; auto).
    destruct (run_order_value R1 R2 A1 A2 N1 N2) as [V1 V2].
    destruct (run_order_value R2 R1 A2 A1 N2 N1) as [V3 V4].
    pose proof (run_order_antisym R1 R2) as AS.
    split; [exact RUN|].
    split; [intros V; rewrite RUN; [auto|intros ->; lia]|].
    split; [intros V; rewrite RUN; [specialize (V3 V); lia|intros ->; lia]|].
    split; [intros V L; rewrite RUN; [auto|intros ->; lia]|].
    intros V L. rewrite RUN; [|intros ->; lia].
    assert (run_order R2 R1 < 0) by (apply V4; [lia|assumption]). lia.
  - intros s1 s2 H1 H2 M1 M2 ND. unfold cstr.
    rewrite strcmp_natural_order, strcmp_default_order by assumption.
    f_equal. apply natural_order_no_digit. exact ND.
  - repeat constructor; eexists; (split; [vm_compute; reflexivity|lia]).
  - intros p1 p2 a q1 b q2 S1 S2 E B N. unfold cstr.
    rewrite strcmp_natural_order, strcmp_default_order
      by (auto; intros F; apply app_eq_nil in F as [_ F]; discriminate F).
    destruct (natural_order_fold_difference p1 p2 a q1 b q2 E B N) as [-> ->].
    split; reflexivity.
  - intros p a q1 b q2 S1 S2 N E. unfold cstr.
    rewrite strcmp_natural_order, strcmp_default_order
      by (auto; intros F; apply app_eq_nil in F as [_ F]; discriminate F).
    rewrite natural_order_case, default_order_case by assumption.
    split; [reflexivity|]. split; [reflexivity|].
    injection E as E _. destruct (tolower_variants a b N E) as [L U].
    split; intros T; [rewrite L|rewrite U]; auto; lia.
  - intros s1 s2 c q S1 S2 M E B.
    assert (C : 0 < c).
    { apply Forall_app in S2 as [_ S2]. apply is_str_inv in S2 as [C _]. lia. }
    destruct (natural_order_shorter s1 s2 c q E B) as (X1 & X2 & X3 & X4).
    unfold cstr.
    rewrite !strcmp_natural_order, !strcmp_default_order
      by (auto; intros F; apply app_eq_nil in F as [_ F]; discriminate F).
    rewrite X1, X2, X3, X4. auto.
Qed.

(** C7, instance: "x007y" against "X7z"; "A1" against "a1", which differ in
    case alone; "a1b" against "a1c", which differ after a digit run. *)
Lemma strcmp_natural_orders_witness :
  (exists r, strcmp_natural (cstr (str "x007y")) (cstr (str "X7z")) = Some r
             /\ r < 0)
  /\ strcmp_natural (cstr (str "A1")) (cstr (str "a1")) = Some 32
  /\ strcmp_natural (cstr (str "a1b")) (cstr (str "a1c")) = Some (-1).
Proof.
  destruct (strcmp_natural_orders (str "x") (str "X") (str "007") (str "y")
              (str "7") (str "z"))
    as ((r & E & _ & _ & _ & L & _) & _ & _ & _ & _ & FOLD & CASE & _).
  - repeat constructor; lia.
  - repeat constructor; lia.
  - repeat constructor; lia.
  - repeat constructor; lia.
  - repeat constructor; lia.
  - repeat constructor; lia.
  - reflexivity.
  - intros p d E. destruct p as [|? [|? ?]]; inv E. reflexivity.
  - repeat constructor.
  - repeat constructor.
  - discriminate.
  - discriminate.
  - intros h T' E. inv E. reflexivity.
  - intros h T' E. inv E. reflexivity.
  - split; [|split].
    + exists r. split; [exact E|].
      apply L; [reflexivity|vm_compute; reflexivity].
    + apply (CASE [] 65 (str "1") 97 (str "1")).
      * repeat constructor; lia.
      * repeat constructor; lia.
      * discriminate.
      * reflexivity.
    + apply (FOLD (str "a1") (str "a1") 98 [] 99 []).
      * repeat constructor; lia.
      * repeat constructor; lia.
      * reflexivity.
      * left. split; reflexivity.
      * discriminate.
Defined.

(** ** The public functions and the traversal: C1 to C4, C8 to C10 *)

(** C1. [file_list_merge] does not sort with the comparator of the sort
    method: whatever method other than none is given, the combined list is
    sorted as under the default method. Merging ["./B"] and ["./a"] with
    FL_SORT_ASCII returns ["./a"; "./B"], while the ASCII comparator orders
    "./B" before "./a". *)
Theorem file_list_merge_sorts_with_default :
  forall (strcoll : list Z -> list Z -> option Z)
         (SIZE_MAX sizeof_char_ptr : Z)
         (destination source : list (list Z)) (n_dest n_source errno0 : Z)
         (realloc_succeeds : bool),
  (file_list_merge strcoll SIZE_MAX sizeof_char_ptr destination n_dest source n_source
     FL_SORT_NATURAL errno0 realloc_succeeds
   = file_list_merge strcoll SIZE_MAX sizeof_char_ptr destination n_dest source n_source
       FL_SORT_DEFAULT errno0 realloc_succeeds)
  /\ (file_list_merge strcoll SIZE_MAX sizeof_char_ptr destination n_dest source n_source
        FL_SORT_COLLATE errno0 realloc_succeeds
      = file_list_merge strcoll SIZE_MAX sizeof_char_ptr destination n_dest source n_source
          FL_SORT_DEFAULT errno0 realloc_succeeds)
  /\ (file_list_merge strcoll SIZE_MAX sizeof_char_ptr destination n_dest source n_source
        FL_SORT_ASCII errno0 realloc_succeeds
      = file_list_merge strcoll SIZE_MAX sizeof_char_ptr destination n_dest source n_source
          FL_SORT_DEFAULT errno0 realloc_succeeds)
  /\ file_list_merge strcoll (2 ^ 64 - 1) 8 [str "./B"] 0 [str "./a"] 0
       FL_SORT_ASCII errno0 true
     = Some (mk_merged 2 [str "./a"; str "./B"] None errno0)
  /\ qsort qsort_compar_ascii [str "./B"; str "./a"]
     = Some [str "./B"; str "./a"]
  /\ qsort_compar_ascii (str "./a") (str "./B") = Some 31.
Proof.
  intros. repeat split; try reflexivity.
Qed.

(** C3. With no flag bit set, [file_list_create] hands [regcomp] REG_NOSUB
    alone: neither REG_ICASE nor REG_EXTENDED, so the pattern is compiled
    case-sensitively and in the basic dialect. With any other flag set and
    the two regex flag bits unset, both are there. A name that matches only
    case-insensitively is listed with flags FL_FOLLOW_LINKS and is not listed
    with flags 0. *)
Theorem make_regex_flags_without_flags :
  make_regex_flags 0 = REG_NOSUB
  /\ has (make_regex_flags 0) REG_ICASE = false
  /\ has (make_regex_flags 0) REG_EXTENDED = false
  /\ has (make_regex_flags FL_FOLLOW_LINKS) REG_ICASE = true
  /\ has (make_regex_flags FL_FOLLOW_LINKS) REG_EXTENDED = true
  /\ (forall pattern,
        compile_regex Z regcomp_flags (Some pattern) 0 = Some (Some REG_NOSUB))
  /\ file_list_create Z regcomp_flags regexec_icase strcmp 512 1048576
       (2 ^ 64 - 1) 0 (Some (str "^A$")) (Some (str "top")) 0 0
       FL_SORT_DEFAULT (stat_ok top_stat)
       (opendir_ok (regular_file "a" end_of_dir)) 0 [] []
     = Some (mk_created 0 (terminated []) 0 [str "top"])
  /\ file_list_create Z regcomp_flags regexec_icase strcmp 512 1048576
       (2 ^ 64 - 1) 0 (Some (str "^A$")) (Some (str "top")) 0 FL_FOLLOW_LINKS
       FL_SORT_DEFAULT (stat_ok top_stat)
       (opendir_ok (regular_file "a" end_of_dir)) 0 [] []
     = Some (mk_created 1 (terminated [str "top/a"]) 0 [str "top"]).
Proof. repeat split; vm_compute; reflexivity. Qed.

(** For every set of flags other than 0, the two regex flag bits decide. *)
Lemma make_regex_flags_with_flags flags :
  flags <> 0 ->
  has (make_regex_flags flags) REG_ICASE = negb (has flags FL_REGEX_CASE)
  /\ has (make_regex_flags flags) REG_EXTENDED = negb (has flags FL_REGEX_BASIC).
Proof.
  intros N. unfold make_regex_flags.
  replace (flags =? 0) with false by (symmetry; apply Z.eqb_neq; exact N).
  cbn [negb].
  destruct (has flags FL_REGEX_BASIC), (has flags FL_REGEX_CASE); split; reflexivity.
Qed.

(** C2. A failure of [regcomp] makes [file_list_create] return -1 with the
    list storage freed but the caller's pointer left as it was, not reset to
    null; the same holds when the start directory cannot be statted. When the
    last [realloc] fails, -1 is returned with the list still allocated, its
    one collected path not freed. A failure inside the traversal does free
    the paths and reset the pointer. *)
Theorem file_list_create_failure_leaves_pointer :
  forall (regexec : unit -> list Z -> bool)
         (strcoll : list Z -> list Z -> option Z)
         (FL_INITIAL_LIST_SIZE FL_MAX_LIST_SIZE_defined SIZE_MAX : Z)
         (file_type : Z) (pattern : list Z) (dir : option (list Z))
         (depth flags : Z) (sort_method : FL_SORT_METHOD)
         (dir_stat : stat_result) (root : DIR) (errno0 : Z)
         (stderr0 : list (option Z)),
  file_list_create unit regcomp_rejects regexec strcoll FL_INITIAL_LIST_SIZE
    FL_MAX_LIST_SIZE_defined SIZE_MAX file_type (Some pattern) dir depth flags
    sort_method dir_stat root errno0 [] stderr0
  = Some (mk_created (-1) dangling errno0 [])
  /\ file_list_create unit regcomp_any regexec strcoll FL_INITIAL_LIST_SIZE
       FL_MAX_LIST_SIZE_defined SIZE_MAX file_type None (Some (str "top"))
       depth flags sort_method (stat_fails 2) root errno0 [] stderr0
     = Some (mk_created (-1) dangling 2 [str "top"])
  /\ file_list_create unit regcomp_any regexec_any strcmp 512 1048576
       (2 ^ 64 - 1) 0 None (Some (str "top")) 0 0 FL_SORT_DEFAULT
       (stat_ok top_stat) (opendir_ok (regular_file "a" end_of_dir)) errno0
       [true; true; true; true; false] stderr0
     = Some (mk_created (-1) (unterminated [str "top/a"]) ENOMEM [str "top"])
  /\ file_list_create unit regcomp_any regexec_any strcmp 512 1048576
       (2 ^ 64 - 1) 0 None (Some (str "top")) 0 0 FL_SORT_DEFAULT
       (stat_ok top_stat)
       (opendir_ok (regular_file "a" (regular_file "b" end_of_dir))) errno0
       [true; true; true; true; false] stderr0
     = Some (mk_created (-1) null_ptr ENOMEM [str "top"; str "top/a"]).
Proof. intros. repeat split; reflexivity. Qed.

Lemma create_clean_dir_inv s dir r s' :
  create_clean_dir s dir = (r, s') ->
  file_list s' = file_list s
  /\ forall start, r = Some start ->
       exists d, dir = Some d /\ d <> [] /\ start = clean_dir d.
Proof.
  unfold create_clean_dir. intros H.
  destruct dir as [[|x d]|]; try (inv H; split; [reflexivity|discriminate]).
  destruct (alloc s) as [[|] s1] eqn:A; inv H;
    (split; [eapply alloc_list; eauto|]); [|discriminate].
  intros start [= <-]. exists (x :: d). repeat split. discriminate.
Qed.

(** C10. Every path that [file_list_create] leaves in its list contains a
    directory separator, so [strrchr] finds one where [qsort_compar] looks
    for it. The list that a sort method sorts is the list built without
    sorting: the call with a sort method is the call with FL_SORT_NONE
    followed by [qsort] on its list. *)
Theorem created_paths_have_separator :
  forall (regex_t : Type) (regcomp : list Z -> Z -> option regex_t)
         (regexec : regex_t -> list Z -> bool)
         (strcoll : list Z -> list Z -> option Z)
         (FL_INITIAL_LIST_SIZE FL_MAX_LIST_SIZE_defined SIZE_MAX : Z)
         (file_type : Z) (regex_pattern dir : option (list Z))
         (depth flags : Z) (sort_method : FL_SORT_METHOD)
         (dir_stat : stat_result) (root : DIR) (errno0 : Z)
         (heap0 : list bool) (stderr0 : list (option Z))
         (c : created) (l : list (list Z)),
  file_list_create regex_t regcomp regexec strcoll FL_INITIAL_LIST_SIZE
    FL_MAX_LIST_SIZE_defined SIZE_MAX file_type regex_pattern dir depth flags
    sort_method dir_stat root errno0 heap0 stderr0 = Some c ->
  list_out c = terminated l \/ list_out c = unterminated l ->
  Forall (fun path => In DIR_SEPARATOR path
                      /\ exists sep, strrchr path DIR_SEPARATOR = Some sep) l
  /\ file_list_create regex_t regcomp regexec strcoll FL_INITIAL_LIST_SIZE
       FL_MAX_LIST_SIZE_defined SIZE_MAX file_type regex_pattern dir depth
       flags sort_method dir_stat root errno0 heap0 stderr0
     = (unsorted <-
          file_list_create regex_t regcomp regexec strcoll
            FL_INITIAL_LIST_SIZE FL_MAX_LIST_SIZE_defined SIZE_MAX file_type
            regex_pattern dir depth flags FL_SORT_NONE dir_stat root errno0
            heap0 stderr0 ;;
        match list_out unsorted, get_compar_fn strcoll sort_method with
        | terminated built, Some compar_fn =>
            sorted <- qsort compar_fn built ;;
            Some (mk_created (returned unsorted) (terminated sorted)
                             (errno_out unsorted) (freed_out unsorted))
        | _, _ => Some unsorted
        end).
Proof.
  intros regex_t regcomp regexec strcoll FL_INITIAL FL_MAX_def SIZE_MAX
         file_type regex_pattern dir depth flags sort_method dir_stat root
         errno0 heap0 stderr0 c l H L.
  split.
  - assert (SEP : forall p, In DIR_SEPARATOR p ->
              In DIR_SEPARATOR p /\ exists sep, strrchr p DIR_SEPARATOR = Some sep)
      by (intros p I; split; [exact I|apply strrchr_some; exact I]).
    unfold file_list_create in H.
    destruct (alloc _) as [[|] s1] eqn:A1; [|inv H; destruct L; discriminate].
    destruct (compile_regex _ _ _ _) as [regex|]; [|inv H; destruct L; discriminate].
    destruct (create_clean_dir s1 dir) as [[start|] s2] eqn:CD;
      [|inv H; destruct L; discriminate].
    destruct (alloc s2) as [[|] s3] eqn:A3; [|inv H; destruct L; discriminate].
    destruct dir_stat as [e|sb]; [inv H; destruct L; discriminate|].
    set (s4 := snd _) in H.
    destruct (parse_file_tree _ _ _ _ _ _ _ _ _ _ s4) as [[ret s5]|] eqn:P;
      [|discriminate].
    apply create_clean_dir_inv in CD as [L2 CD].
    destruct (CD start eq_refl) as (d & -> & Nd & ->).
    assert (N : clean_dir d <> []) by (apply clean_dir_nonempty; exact Nd).
    assert (E4 : file_list s4 = []).
    { subst s4.
      destruct (stat_stack_push _ sb) as [b s4] eqn:P4.
      apply stat_stack_push_list in P4 as [L4 _]. cbn [snd].
      rewrite L4. cbn [file_list set_stack].
      rewrite (alloc_list _ _ _ A3), L2, (alloc_list _ _ _ A1). reflexivity. }
    apply (proj1 (parse_file_tree_grows regex_t regexec FL_MAX_def SIZE_MAX
                    _ _ _)) in P; [|exact N].
    destruct P as (added & E5 & F5). rewrite E4 in E5. cbn [app] in E5.
    assert (F : Forall (fun path => In DIR_SEPARATOR path
                 /\ exists sep, strrchr path DIR_SEPARATOR = Some sep)
                (file_list s5)).
    { rewrite E5. eapply Forall_impl; [|exact F5]. exact SEP. }
    cbn [file_list free errno] in H.
    destruct (_ && _); [inv H; destruct L; discriminate|].
    destruct (alloc (free (clean_dir d) s5)) as [[|] s6] eqn:A6;
      pose proof (alloc_list _ _ _ A6) as L6; cbn in L6.
    + destruct (get_compar_fn strcoll sort_method) as [compar_fn|].
      * destruct (qsort compar_fn (file_list s6)) as [sorted|] eqn:Q; [|discriminate].
        inv H. destruct L as [L|L]; inv L.
        apply qsort_perm in Q. rewrite L6 in Q.
        eapply Permutation_Forall; eauto.
      * inv H. destruct L as [L|L]; inv L. rewrite L6. exact F.
    + inv H. destruct L as [L|L]; inv L. rewrite L6. exact F.
  - clear H L c l. unfold file_list_create.
    destruct (alloc _) as [[|] s1]; [|reflexivity].
    destruct (compile_regex _ _ _ _) as [regex|]; [|reflexivity].
    destruct (create_clean_dir s1 dir) as [[start|] s2]; [|reflexivity].
    destruct (alloc s2) as [[|] s3]; [|reflexivity].
    destruct dir_stat as [e|sb]; [reflexivity|].
    destruct (parse_file_tree _ _ _ _ _ _ _ _ _ _ _) as [[ret s5]|]; [|reflexivity].
    cbv zeta. destruct (_ && _); [reflexivity|].
    destruct (alloc _) as [[|] s6]; [|reflexivity].
    cbn [get_compar_fn list_out returned errno_out freed_out].
    destruct (get_compar_fn strcoll sort_method) as [compar_fn|]; reflexivity.
Qed.

(** C10, instance: the sample tree, fully traversed and sorted. *)
Lemma created_paths_have_separator_witness :
  Forall (fun path => In DIR_SEPARATOR path
                      /\ exists sep, strrchr path DIR_SEPARATOR = Some sep)
         [str "top/a"; str "top/b"; str "top/sub"; str "top/sub/A";
          str "top/sub/x"].
Proof.
  refine (proj1 (created_paths_have_separator unit regcomp_any regexec_any
            strcmp 512 1048576 (2 ^ 64 - 1) 0 None (Some (str "top//")) (-1) 0
            FL_SORT_ASCII (stat_ok top_stat) small_tree 0 [] []
            (mk_created 5 (terminated [str "top/a"; str "top/b"; str "top/sub";
                                       str "top/sub/A"; str "top/sub/x"])
                        0 [str "top"])
            _ _ _)).
  - vm_compute. reflexivity.
  - left. reflexivity.
Defined.

(** C9, counterexample. With depth 0 no loop check is made: top/self, a
    symbolic link to top itself that is followed, has the device and inode of
    the start directory, which is on the stat stack, and is appended to the
    list all the same. With a depth other than 0 it is skipped. *)
Lemma loop_directory_listed_at_depth_0 :
  is_directory_loop (mk_stack STAT_STACK_INITIAL_SIZE [top_stat])
                    (mk_stat 1 1 16384) = Some true
  /\ file_list_create unit regcomp_any regexec_any strcmp 512 1048576
       (2 ^ 64 - 1) 0 None (Some (str "top")) 0 FL_FOLLOW_LINKS
       FL_SORT_DEFAULT (stat_ok top_stat) tree_with_self_link 0 [] []
     = Some (mk_created 1 (terminated [str "top/self"]) 0 [str "top"])
  /\ file_list_create unit regcomp_any regexec_any strcmp 512 1048576
       (2 ^ 64 - 1) 0 None (Some (str "top")) 1 FL_FOLLOW_LINKS
       FL_SORT_DEFAULT (stat_ok top_stat) tree_with_self_link 0 [] []
     = Some (mk_created 0 (terminated []) 0 [str "top/self"; str "top"]).
Proof. repeat split; vm_compute; reflexivity. Qed.

(** C9, amended. While the remaining depth is not 0, an entry that [stat]
    shows to be a directory and whose device and inode are on the stat stack
    ends its round of the loop at once: whatever the recursive call
    [descend] would do, the list is left as it was and the path is freed,
    after the debug write that reports the loop. A
    directory that is not on the stack but on another device than the start
    directory, under FL_XDEV, is not descended into either, and goes on to
    the "Add file name" part like any entry: with the directory type
    enabled, no pattern, memory and room in the list, its path is appended. *)
Theorem loop_guard_skips_directory :
  forall (regex_t : Type) (regexec : regex_t -> list Z -> bool)
         (FL_MAX_LIST_SIZE_defined SIZE_MAX : Z) (file_type_arr : list Z)
         (file_ext : option regex_t) (flags : Z)
         (descend : list Z -> Z -> state -> option (Z * state))
         (d_name : list Z) (d_type : Z) (st lst : stat_result)
         (directory : list Z) (directory_depth : Z) (s s1 : state)
         (current_path : list Z) (sb : struct_stat),
  current_or_parent d_name = false ->
  get_file_type flags s directory d_name d_type st lst
  = Some (Go (Some current_path, Some sb, 4), s1) ->
  directory_depth <> 0 ->
  (is_directory_loop (stack s1) sb = Some true ->
   loop_body regex_t regexec FL_MAX_LIST_SIZE_defined SIZE_MAX file_type_arr
     file_ext flags descend d_name d_type st lst directory directory_depth s
   = Some (Continue, free current_path (DEBUG_PRINTF s1))
   /\ file_list (free current_path (DEBUG_PRINTF s1)) = file_list s)
  /\ (is_directory_loop (stack s1) sb = Some false ->
      has flags FL_XDEV = true ->
      forall bottom, hd_error (array (stack s1)) = Some bottom ->
      st_dev bottom <> st_dev sb ->
      loop_body regex_t regexec FL_MAX_LIST_SIZE_defined SIZE_MAX
        file_type_arr file_ext flags descend d_name d_type st lst directory
        directory_depth s
      = add_file_name regex_t regexec FL_MAX_LIST_SIZE_defined SIZE_MAX
          file_type_arr file_ext flags (DEBUG_PRINTF s1) directory d_name
          (Some current_path) 4
      /\ (nth_error file_type_arr 4 = Some 1 -> file_ext = None ->
          heap s1 = [] ->
          n_file_list s1 <> FL_MAX_LIST_SIZE FL_MAX_LIST_SIZE_defined SIZE_MAX ->
          exists s',
            loop_body regex_t regexec FL_MAX_LIST_SIZE_defined SIZE_MAX
              file_type_arr file_ext flags descend d_name d_type st lst
              directory directory_depth s
            = Some (Go tt, s')
            /\ file_list s'
               = file_list s
                 ++ [if has flags FL_DIR_SEP
                     then current_path ++ [DIR_SEPARATOR]
                     else current_path])).
Proof.
  intros regex_t regexec FL_MAX_def SIZE_MAX file_type_arr file_ext flags
         descend d_name d_type st lst directory depth s s1 cp sb C G D.
  pose proof (loop_body_parts regex_t regexec FL_MAX_def SIZE_MAX file_type_arr
                file_ext flags descend d_name d_type st lst directory depth s
                (Some cp) (Some sb) 4 s1 C G) as B.
  apply get_file_type_inv in G as [L [(E & _)|(E & N & _)]]; [discriminate|].
  injection E as ->.
  split.
  - intros LOOP. rewrite B, traverse_next_directory_loop by assumption.
    split; [reflexivity|exact L].
  - intros LOOP X bottom HB DEV.
    rewrite B, (traverse_next_directory_other_device _ _ _ _ _ _ bottom)
      by assumption.
    split; [reflexivity|].
    intros T -> H F.
    destruct (add_file_name_appends regex_t regexec FL_MAX_def SIZE_MAX
                file_type_arr None flags (DEBUG_PRINTF s1) directory d_name
                (Some (path_of directory d_name)) 4)
      as (m & e & w & -> & _); auto.
    eexists. split; [reflexivity|].
    cbn [file_list DEBUG_PRINTF Z.eqb Pos.eqb andb]. rewrite L. reflexivity.
Qed.

(** C9, instance: top/self at depth 1, and top/other on device 2 under
    FL_XDEV. *)
Lemma loop_guard_skips_directory_witness :
  loop_body unit regexec_any 1048576 (2 ^ 64 - 1) (make_file_type_arr 0) None
    (FL_FOLLOW_LINKS + FL_XDEV) (fun _ _ _ => None) (str "self") DT_LNK
    (directory_stat 1 1) (stat_fails 0) (str "top") 1
    (traversal_start 512 top_stat 0 [] [])
  = Some (Continue, free (str "top/self") (traversal_start 512 top_stat 0 [] []))
  /\ exists s',
       loop_body unit regexec_any 1048576 (2 ^ 64 - 1) (make_file_type_arr 0)
         None (FL_FOLLOW_LINKS + FL_XDEV) (fun _ _ _ => None) (str "other")
         DT_DIR (directory_stat 2 7) (stat_fails 0) (str "top") 1
         (traversal_start 512 top_stat 0 [] [])
       = Some (Go tt, s')
       /\ file_list s' = [str "top/other"].
Proof.
  split.
  - refine (proj1 (proj1 (loop_guard_skips_directory unit regexec_any 1048576
             (2 ^ 64 - 1) (make_file_type_arr 0) None
             (FL_FOLLOW_LINKS + FL_XDEV) (fun _ _ _ => None) (str "self")
             DT_LNK (directory_stat 1 1) (stat_fails 0) (str "top") 1
             (traversal_start 512 top_stat 0 [] [])
             (traversal_start 512 top_stat 0 [] []) (str "top/self")
             (mk_stat 1 1 16384) _ _ _) _)).
    + reflexivity.
    + reflexivity.
    + lia.
    + reflexivity.
  - refine (proj2 (proj2 (loop_guard_skips_directory unit regexec_any 1048576
             (2 ^ 64 - 1) (make_file_type_arr 0) None
             (FL_FOLLOW_LINKS + FL_XDEV) (fun _ _ _ => None) (str "other")
             DT_DIR (directory_stat 2 7) (stat_fails 0) (str "top") 1
             (traversal_start 512 top_stat 0 [] [])
             (traversal_start 512 top_stat 0 [] []) (str "top/other")
             (mk_stat 2 7 16384) _ _ _) _ _ top_stat _ _) _ _ _ _).
    + reflexivity.
    + reflexivity.
    + lia.
    + reflexivity.
    + reflexivity.
    + reflexivity.
    + cbn. lia.
    + reflexivity.
    + reflexivity.
    + reflexivity.
    + vm_compute. discriminate.
Defined.

(** C4, counterexample. (1) Initial and maximum size 2, three regular files:
    the traversal stops at the third with E2BIG and two paths in the list;
    the [realloc] that terminates the list is refused, and the call returns
    -1 with the list neither terminated nor sorted. (2) Maximum 2 under the
    initial size 512 of the source, seven regular files: the list never
    reaches its allocated size, and the call returns all seven without
    E2BIG. *)
Lemma capacity_stop_then_realloc_failure :
  ((exists s,
      parse_file_tree unit regexec_any 2 (2 ^ 64 - 1) (make_file_type_arr 0)
        None 0
        (opendir_ok (regular_file "b" (regular_file "a"
                       (regular_file "c" end_of_dir))))
        (str "top") 0
        (traversal_start 2 top_stat 0 [true; true; true; false] [])
      = Some (-1, s)
      /\ errno s = E2BIG /\ n_file_list s = 2)
   /\ file_list_create unit regcomp_any regexec_any strcmp 2 2 (2 ^ 64 - 1) 0
        None (Some (str "top")) 0 0 FL_SORT_DEFAULT (stat_ok top_stat)
        (opendir_ok (regular_file "b" (regular_file "a"
                       (regular_file "c" end_of_dir))))
        0 [true; true; true; true; true; true; false] []
      = Some (mk_created (-1) (unterminated [str "top/b"; str "top/a"]) ENOMEM
                         [str "top/c"; str "top"]))
  /\ file_list_create unit regcomp_any regexec_any strcmp 512 2 (2 ^ 64 - 1) 0
       None (Some (str "top")) 0 0 FL_SORT_DEFAULT (stat_ok top_stat)
       (opendir_ok
          (regular_files (map str ["a"; "b"; "c"; "d"; "e"; "f"; "g"]%string)))
       0 [] []
     = Some (mk_created 7
               (terminated (map str ["top/a"; "top/b"; "top/c"; "top/d";
                                     "top/e"; "top/f"; "top/g"]%string))
               0 [str "top"]).
Proof.
  split; [split|].
  - eexists. split; [vm_compute; reflexivity|split; reflexivity].
  - vm_compute. reflexivity.
  - vm_compute. reflexivity.
Qed.

(** C4, amended. Let the set-up of [file_list_create] succeed. (1) If the
    traversal returns non-zero with [errno] E2BIG and the [realloc] that
    follows it succeeds, the call does not fail: it returns the number of
    paths gathered, with [errno] E2BIG, and the list terminated and sorted by
    the sort method as on success, which permutes it; if no [opendir] of
    the tree fails with E2BIG and no debug write sets [errno] to E2BIG, that
    number is FL_MAX_LIST_SIZE. (2) A start
    directory of FL_MAX_LIST_SIZE + 5 regular files whose type is enabled
    and whose names match, with initial size at most the maximum and no
    refused allocation, yields the first FL_MAX_LIST_SIZE of them. (3) More
    generally, with initial size at most the maximum and no refused
    allocation, a tree whose traversal under a larger maximum completes with
    more than FL_MAX_LIST_SIZE paths yields the first FL_MAX_LIST_SIZE of
    these, sorted, with [errno] E2BIG; the other maximum need not be larger
    if no debug write changes [errno]. *)
Theorem capacity_exhaustion_keeps_list :
  forall (regex_t : Type) (regcomp : list Z -> Z -> option regex_t)
         (regexec : regex_t -> list Z -> bool)
         (strcoll : list Z -> list Z -> option Z)
         (FL_INITIAL_LIST_SIZE FL_MAX_LIST_SIZE_defined SIZE_MAX : Z)
         (file_type : Z) (regex_pattern : option (list Z)) (dir : list Z)
         (depth flags : Z) (sort_method : FL_SORT_METHOD) (sb : struct_stat)
         (root : DIR) (errno0 : Z) (heap0 heap1 : list bool)
         (stderr0 : list (option Z))
         (regex : option regex_t),
  compile_regex regex_t regcomp regex_pattern flags = Some regex ->
  dir <> [] ->
  allocs_succeed 3 heap0 = Some heap1 ->
  let FL_MAX := FL_MAX_LIST_SIZE FL_MAX_LIST_SIZE_defined SIZE_MAX in
  let create :=
    file_list_create regex_t regcomp regexec strcoll FL_INITIAL_LIST_SIZE
      FL_MAX_LIST_SIZE_defined SIZE_MAX file_type regex_pattern (Some dir)
      depth flags sort_method (stat_ok sb) root errno0 heap0 stderr0 in
  let sort (l : list (list Z)) :=
    match get_compar_fn strcoll sort_method with
    | Some compar_fn => qsort compar_fn l
    | None => Some l
    end in
  (forall ret s s',
     parse_file_tree regex_t regexec FL_MAX_LIST_SIZE_defined SIZE_MAX
       (make_file_type_arr file_type) regex flags root (clean_dir dir) depth
       (traversal_start FL_INITIAL_LIST_SIZE sb errno0 heap1 stderr0)
     = Some (ret, s) ->
     ret <> 0 -> errno s = E2BIG ->
     alloc (free (clean_dir dir) s) = (true, s') ->
     create
     = (sorted <- sort (file_list s) ;;
        Some (mk_created (n_file_list s) (terminated sorted) E2BIG
                         (freed s ++ [clean_dir dir])))
     /\ (forall sorted, sort (file_list s) = Some sorted ->
           Permutation (file_list s) sorted
           /\ Z.of_nat (length sorted) = n_file_list s)
     /\ (opendir_not_E2BIG root -> never_sets E2BIG stderr0 ->
         n_file_list s = FL_MAX))
  /\ (forall names,
        root = opendir_ok (regular_files names) ->
        Z.of_nat (length names) = FL_MAX + 5 ->
        0 < FL_INITIAL_LIST_SIZE <= FL_MAX ->
        nth_error (make_file_type_arr file_type) 8 = Some 1 ->
        Forall (fun d_name =>
                  current_or_parent d_name = false
                  /\ match regex with
                     | Some regex =>
                         matches_regex regex_t regexec d_name regex = true
                     | None => True
                     end) names ->
        heap1 = [] ->
        exists freed,
          create
          = (sorted <-
               sort (map (path_of (clean_dir dir))
                         (firstn (Z.to_nat FL_MAX) names)) ;;
             Some (mk_created FL_MAX (terminated sorted) E2BIG freed)))
  /\ (forall (FL_MAX_LIST_SIZE_defined' : Z) (s_all : state),
        parse_file_tree regex_t regexec FL_MAX_LIST_SIZE_defined' SIZE_MAX
          (make_file_type_arr file_type) regex flags root (clean_dir dir) depth
          (traversal_start FL_INITIAL_LIST_SIZE sb errno0 heap1 stderr0)
        = Some (0, s_all) ->
        FL_MAX < n_file_list s_all ->
        0 < FL_INITIAL_LIST_SIZE <= FL_MAX ->
        heap1 = [] ->
        FL_MAX <= FL_MAX_LIST_SIZE FL_MAX_LIST_SIZE_defined' SIZE_MAX
        \/ stderr0 = [] ->
        exists freed,
          create
          = (sorted <- sort (firstn (Z.to_nat FL_MAX) (file_list s_all)) ;;
             Some (mk_created FL_MAX (terminated sorted) E2BIG freed))).
Proof.
  intros regex_t regcomp regexec strcoll FL_INITIAL FL_MAX_def SIZE_MAX
         file_type regex_pattern dir depth flags sort_method sb root errno0
         heap0 heap1 stderr0 regex C N A FL_MAX create sort.
  assert (P := file_list_create_populated regex_t regcomp regexec strcoll
                 FL_INITIAL FL_MAX_def SIZE_MAX file_type regex_pattern dir
                 depth flags sort_method sb root errno0 heap0 stderr0 regex heap1 C N A).
  fold create in P. split; [|split].
  - intros ret s s' T R E AL.
    split; [|split].
    + rewrite P, T. cbv zeta. cbn [errno free].
      rewrite E. cbn [Z.eqb Pos.eqb E2BIG negb]. rewrite andb_false_r.
      rewrite AL.
      pose proof (alloc_errno _ _ _ AL) as E'. cbn in E'.
      pose proof (alloc_list _ _ _ AL) as L'. cbn in L'.
      assert (F' : freed s' = freed s ++ [clean_dir dir]).
      { unfold alloc in AL. cbn in AL. destruct (heap s) as [|[|] h]; inv AL;
          reflexivity. }
      unfold n_file_list. rewrite L', E', F', E. reflexivity.
    + intros sorted Q. subst sort. cbv beta in Q.
      assert (Pm : Permutation (file_list s) sorted).
      { destruct (get_compar_fn strcoll sort_method).
        - eapply qsort_perm; eauto.
        - inv Q. apply Permutation_refl. }
      split; [exact Pm|]. unfold n_file_list.
      rewrite (Permutation_length Pm). reflexivity.
    + intros W Q.
      eapply (proj1 (parse_file_tree_capacity regex_t regexec FL_MAX_def SIZE_MAX
                       _ _ _) _ _ _ _ _ _ W); [|exact T|exact R|exact E].
      exact Q.
  - intros names -> LEN INIT T8 OK ->.
    destruct (readdir_regular_files regex_t regexec FL_MAX_def SIZE_MAX
                (make_file_type_arr file_type) regex flags names (clean_dir dir)
                depth (traversal_start FL_INITIAL sb errno0 [] stderr0))
      as (s & RD & L & H & E); auto.
    { apply clean_dir_nonempty; exact N. }
    { unfold list_bounds. cbn. fold FL_MAX. lia. }
    cbn [traversal_start n_file_list file_list length Z.of_nat] in RD, L, E.
    fold FL_MAX in RD, L, E.
    replace (Z.of_nat (length names) <=? FL_MAX - 0) with false in *
      by (symmetry; apply Z.leb_gt; lia).
    replace (FL_MAX - 0) with FL_MAX in * by lia.
    specialize (E ltac:(lia)).
    rewrite P, parse_file_tree_ok, RD. cbv zeta. cbn [errno free].
    rewrite E. cbn [Z.eqb Pos.eqb E2BIG negb]. rewrite andb_false_r.
    rewrite alloc_no_failure by exact H.
    assert (NL : n_file_list (free (clean_dir dir) s) = FL_MAX).
    { unfold n_file_list. cbn [file_list free]. rewrite L. cbn [app].
      rewrite length_map, firstn_length_le by lia. lia. }
    rewrite NL. cbn [file_list errno freed free]. rewrite L, E. cbn [app].
    eexists. reflexivity.
  - intros FL_MAX_def' s_all ALL MORE INIT -> W.
    set (start := traversal_start FL_INITIAL sb errno0 [] stderr0) in *.
    assert (R : same_but_max (FL_MAX_LIST_SIZE FL_MAX_def' SIZE_MAX) FL_MAX
                  start start).
    { unfold same_but_max. do 7 (split; [reflexivity|]).
      destruct W as [W|W]; [right|left; exact W].
      split; [exact W|]. cbn. lia. }
    assert (B : list_bounds FL_MAX start) by (unfold list_bounds; cbn; lia).
    destruct (proj1 (parse_file_tree_cut regex_t regexec FL_MAX_def' FL_MAX_def
                       SIZE_MAX (make_file_type_arr file_type) regex flags)
                root (clean_dir dir) depth start start s_all
                (clean_dir_nonempty dir N) R B ALL)
      as [(s & _ & (L & _) & (_ & B1 & B2))|(s & T & E & F & H & more & L)].
    { unfold n_file_list in *. rewrite L in MORE. unfold FL_MAX in MORE. lia. }
    rewrite P, T. cbv zeta. cbn [errno free].
    rewrite E. cbn [Z.eqb Pos.eqb E2BIG negb]. rewrite andb_false_r.
    rewrite alloc_no_failure by exact H.
    assert (NL : n_file_list (free (clean_dir dir) s) = FL_MAX) by exact F.
    rewrite NL. cbn [file_list errno freed free]. rewrite E.
    replace (firstn (Z.to_nat FL_MAX) (file_list s_all)) with (file_list s).
    + eexists. reflexivity.
    + rewrite L. unfold n_file_list in F. unfold FL_MAX.
      rewrite <- F, Nat2Z.id, firstn_app.
      rewrite firstn_all, Nat.sub_diag, firstn_O, app_nil_r. reflexivity.
Qed.

(** C4, instance: maximum 4 and initial size 2, nine regular files; and the
    sample tree, which holds five paths, under maximum 2 and initial size 1,
    the first debug write failing with EBADF (9). *)
Lemma capacity_exhaustion_keeps_list_witness :
  (exists freed,
     file_list_create unit regcomp_any regexec_any strcmp 2 4 (2 ^ 64 - 1) 0
       None (Some (str "top")) 0 0 FL_SORT_DEFAULT (stat_ok top_stat)
       (opendir_ok
          (regular_files (map str ["i"; "h"; "g"; "f"; "e"; "d"; "c"; "b"; "a"]%string)))
       0 [] []
     = Some (mk_created 4
               (terminated [str "top/f"; str "top/g"; str "top/h"; str "top/i"])
               E2BIG freed))
  /\ (exists freed,
        file_list_create unit regcomp_any regexec_any strcmp 1 2 (2 ^ 64 - 1) 0
          None (Some (str "top")) (-1) 0 FL_SORT_DEFAULT (stat_ok top_stat)
          small_tree 0 [] [Some 9]
        = Some (mk_created 2 (terminated [str "top/b"; str "top/sub/x"])
                           E2BIG freed)).
Proof.
  split.
  - destruct (capacity_exhaustion_keeps_list unit regcomp_any regexec_any strcmp
                2 4 (2 ^ 64 - 1) 0 None (str "top") 0 0 FL_SORT_DEFAULT top_stat
                (opendir_ok
                   (regular_files
                      (map str ["i"; "h"; "g"; "f"; "e"; "d"; "c"; "b"; "a"]%string)))
                0 [] [] [] None) as (_ & FLAT & _).
    + reflexivity.
    + discriminate.
    + reflexivity.
    + destruct (FLAT (map str ["i"; "h"; "g"; "f"; "e"; "d"; "c"; "b"; "a"]%string))
        as [freed E].
      * reflexivity.
      * reflexivity.
      * vm_compute. split; [reflexivity|discriminate].
      * reflexivity.
      * repeat constructor.
      * reflexivity.
      * exists freed. exact E.
  - destruct (capacity_exhaustion_keeps_list unit regcomp_any regexec_any strcmp
                1 2 (2 ^ 64 - 1) 0 None (str "top") (-1) 0 FL_SORT_DEFAULT
                top_stat small_tree 0 [] [] [Some 9] None) as (_ & _ & TREE).
    + reflexivity.
    + discriminate.
    + reflexivity.
    + destruct (TREE 1048576
                  (mk_state (map str ["top/b"; "top/sub/x"; "top/sub/A";
                                      "top/sub"; "top/a"]%string)
                            8 (mk_stack 512 [top_stat]) 9 [] [] []))
        as [freed E].
      * vm_compute. reflexivity.
      * vm_compute. reflexivity.
      * vm_compute. split; [reflexivity|discriminate].
      * reflexivity.
      * left. vm_compute. discriminate.
      * exists freed. exact E.
Defined.

(** ** A tree read to a given depth *)

Lemma within_depth_below depth entry :
  within_depth depth (below entry)
  = negb (depth =? 0) && within_depth (next_depth depth) entry.
Proof.
  unfold within_depth, next_depth, below. cbn [fst]. rewrite Nat2Z.inj_succ.
  destruct (Z.eqb_spec depth 0) as [->|N]; cbn [negb andb].
  - cbn [Z.ltb Z.compare orb]. apply Z.leb_gt. lia.
  - destruct (Z.gtb_spec depth 0).
    + replace (depth <? 0) with false by (symmetry; apply Z.ltb_ge; lia).
      replace (depth - 1 <? 0) with false by (symmetry; apply Z.ltb_ge; lia).
      cbn [orb].
      destruct (Z.leb_spec (Z.succ (Z.of_nat (fst entry))) depth);
        symmetry; [apply Z.leb_le|apply Z.leb_gt]; lia.
    + replace (depth <? 0) with true by (symmetry; apply Z.ltb_lt; lia).
      reflexivity.
Qed.

Lemma within_depth_start depth path : within_depth depth (O, path) = true.
Proof.
  unfold within_depth. cbn [fst Z.of_nat].
  destruct (Z.ltb_spec depth 0); [reflexivity|]. apply Z.leb_le. assumption.
Qed.

Lemma within_depth_negative depth entry :
  depth < 0 -> within_depth depth entry = true.
Proof.
  intros N. unfold within_depth.
  replace (depth <? 0) with true by (symmetry; apply Z.ltb_lt; exact N).
  reflexivity.
Qed.

Lemma to_depth_app depth l1 l2 :
  to_depth depth (l1 ++ l2) = to_depth depth l1 ++ to_depth depth l2.
Proof. unfold to_depth. rewrite filter_app, map_app. reflexivity. Qed.

Lemma to_depth_below depth l :
  to_depth depth (map below l)
  = if depth =? 0 then [] else to_depth (next_depth depth) l.
Proof.
  unfold to_depth. induction l as [|entry l IH]; cbn [map filter].
  - destruct (depth =? 0); reflexivity.
  - rewrite within_depth_below.
    destruct (depth =? 0); cbn [negb andb]; [exact IH|].
    destruct (within_depth (next_depth depth) entry); cbn [map]; rewrite IH;
      reflexivity.
Qed.

Lemma to_depth_start depth (c : bool) path :
  to_depth depth (if c then [(O, path)] else []) = if c then [path] else [].
Proof.
  destruct c; [|reflexivity]. unfold to_depth. cbn [filter].
  rewrite within_depth_start. reflexivity.
Qed.

Lemma to_depth_negative depth l : depth < 0 -> to_depth depth l = map snd l.
Proof.
  intros N. unfold to_depth. f_equal.
  induction l as [|entry l IH]; cbn [filter]; [reflexivity|].
  rewrite within_depth_negative, IH by exact N. reflexivity.
Qed.

Section FullTraversal.

Variable regex_t : Type.
Variable regexec : regex_t -> list Z -> bool.
Variables FL_MAX_def SIZE_MAX : Z.
Variable file_type_arr : list Z.
Variable file_ext : option regex_t.
Variable flags : Z.
Variable unreadable : bool.

Local Abbreviation FL_MAX := (FL_MAX_LIST_SIZE FL_MAX_def SIZE_MAX).
Local Abbreviation add_name :=
  (add_file_name regex_t regexec FL_MAX_def SIZE_MAX file_type_arr file_ext flags).
Local Abbreviation body :=
  (loop_body regex_t regexec FL_MAX_def SIZE_MAX file_type_arr file_ext flags).
Local Abbreviation parse :=
  (parse_file_tree regex_t regexec FL_MAX_def SIZE_MAX file_type_arr file_ext flags).
Local Abbreviation readdir :=
  (readdir_loop regex_t regexec FL_MAX_def SIZE_MAX file_type_arr file_ext flags).
Local Abbreviation chosen :=
  (selected regex_t regexec file_type_arr file_ext).
Local Abbreviation levels :=
  (selected_levels regex_t regexec file_type_arr file_ext flags).
Local Abbreviation entries_levels :=
  (selected_entries_levels regex_t regexec file_type_arr file_ext flags).

Lemma selected_levels_paths :
  (forall dir directory,
     map snd (levels dir directory)
     = selected_paths regex_t regexec file_type_arr file_ext flags dir directory)
  /\ (forall entries directory,
     map snd (entries_levels entries directory)
     = selected_entries regex_t regexec file_type_arr file_ext flags entries
         directory).
Proof.
  apply (DIR_dirents_mut
    (fun dir => forall directory,
       map snd (levels dir directory)
       = selected_paths regex_t regexec file_type_arr file_ext flags dir
           directory)
    (fun entries => forall directory,
       map snd (entries_levels entries directory)
       = selected_entries regex_t regexec file_type_arr file_ext flags entries
           directory)).
  - reflexivity.
  - intros entries IH directory. apply IH.
  - reflexivity.
  - intros name d_type st lst sub IHsub rest IHrest directory.
    cbn [selected_entries_levels selected_entries].
    rewrite map_app, IHrest. f_equal.
    destruct (current_or_parent name); [reflexivity|].
    destruct (entry_type flags d_type st lst) as [ct|]; [|reflexivity].
    rewrite map_app. f_equal.
    + destruct (ct =? 4); [|reflexivity].
      rewrite map_map. cbn [below snd]. apply IHsub.
    + destruct (chosen name ct); reflexivity.
Qed.

Lemma get_file_type_plain s dir name d_type st lst :
  heap s = [] -> dir <> [] ->
  match entry_type flags d_type st lst with
  | None =>
      exists s',
        get_file_type flags s dir name d_type st lst = Some (Continue, s')
        /\ file_list s' = file_list s /\ heap s' = []
        /\ stack s' = stack s
  | Some ct =>
      exists cp sb,
        get_file_type flags s dir name d_type st lst = Some (Go (cp, sb, ct), s)
        /\ (cp = None \/ cp = Some (path_of dir name))
        /\ (ct = 4 ->
            cp = Some (path_of dir name)
            /\ exists b, sb = Some b
                 /\ (if has flags FL_FOLLOW_LINKS then st else lst) = stat_ok b)
  end.
Proof.
  intros H N. unfold entry_type, get_file_type, CREATE_CURRENT_PATH.
  destruct (_ || _) eqn:T.
  - rewrite create_path_ok by assumption.
    destruct (if has flags FL_FOLLOW_LINKS then st else lst) as [e|b].
    + eexists. split; [reflexivity|]. cbn. auto.
    + eexists _, _. split; [reflexivity|]. split; [auto|]. eauto.
  - eexists _, _. split; [reflexivity|]. split; [auto|].
    intros ->. discriminate T.
Qed.

Lemma traverse_next_directory_plain descend s depth path b :
  depth <> 0 -> heap s = [] ->
  is_directory_loop (stack s) b = Some false ->
  (has flags FL_XDEV = true ->
   option_map st_dev (hd_error (array (stack s))) = Some (st_dev b)) ->
  exists sz,
    traverse_next_directory flags descend s depth (Some path) (Some b) 4
    = ' (r, s') <- descend path (next_depth depth)
                     (set_stack (mk_stack sz (array (stack s) ++ [b])) s) ;;
      if negb (r =? 0) then Some (Return (-1), free path s')
      else Some (Go tt, stat_stack_pop s').
Proof.
  intros D H L X. unfold traverse_next_directory.
  replace (depth =? 0) with false by (symmetry; apply Z.eqb_neq; exact D).
  cbn [negb andb Z.eqb Pos.eqb]. rewrite L.
  assert (O : (if has flags FL_XDEV
               then bottom <- hd_error (array (stack s)) ;;
                    Some (negb (st_dev bottom =? st_dev b))
               else Some false) = Some false).
  { destruct (has flags FL_XDEV); [|reflexivity]. specialize (X eq_refl).
    destruct (hd_error (array (stack s))) as [bottom|]; [|discriminate].
    injection X as ->. rewrite Z.eqb_refl. reflexivity. }
  rewrite O. destruct (stat_stack_push_ok s b H) as [sz ->]. exists sz.
  reflexivity.
Qed.

Lemma add_file_name_plain s dir name cp ct :
  heap s = [] -> dir <> [] ->
  cp = None \/ cp = Some (path_of dir name) ->
  nth_error file_type_arr (Z.to_nat ct) <> None ->
  (chosen name ct = true -> n_file_list s <> FL_MAX) ->
  exists c s',
    add_name s dir name cp ct = Some (c, s')
    /\ (forall r, c <> Return r)
    /\ file_list s'
       = file_list s
         ++ (if chosen name ct then [listed_path flags ct (path_of dir name)]
             else [])
    /\ heap s' = [] /\ stack s' = stack s.
Proof.
  intros H N CP T F.
  assert (FREE : file_list (free_if cp s) = file_list s ++ []
                 /\ heap (free_if cp s) = [] /\ stack (free_if cp s) = stack s).
  { rewrite app_nil_r. destruct cp; cbn; auto. }
  destruct (chosen name ct) eqn:C.
  - unfold selected in C.
    destruct (nth_error file_type_arr (Z.to_nat ct)) as [enabled|] eqn:E;
      [|discriminate].
    apply andb_prop in C as [V M]. apply Z.eqb_eq in V. subst enabled.
    destruct (add_file_name_appends regex_t regexec FL_MAX_def SIZE_MAX
                file_type_arr file_ext flags s dir name cp ct E)
      as (m & e & w & -> & _); auto.
    { destruct file_ext; [exact M|exact I]. }
    eexists _, _. split; [reflexivity|]. split; [discriminate|]. cbn. auto.
  - unfold selected in C. unfold add_file_name.
    destruct (nth_error file_type_arr (Z.to_nat ct)) as [enabled|];
      [|congruence].
    destruct (enabled =? 1); cbn [andb] in C;
      [|eexists _, _; split; [reflexivity|split; [discriminate|exact FREE]]].
    destruct file_ext as [regex|]; [|discriminate]. rewrite C.
    eexists _, _. split; [reflexivity|split; [discriminate|exact FREE]].
Qed.

Lemma is_directory_loop_array k b :
  is_directory_loop k b = is_directory_loop (mk_stack 0 (array k)) b.
Proof. reflexivity. Qed.

(** A traversal of any depth over a plain tree, no allocation being refused
    and the list having room, appends the selected paths of the levels that
    the depth lets in, in their order. Where the tree holds directories that
    cannot be opened, the debug writes are taken to leave [errno] alone. *)
Lemma parse_file_tree_plain :
  (forall dir directory depth s,
     directory <> [] -> heap s = [] ->
     (unreadable = true -> stderr s = []) ->
     plain_tree file_type_arr flags unreadable (array (stack s)) dir ->
     n_file_list s + Z.of_nat (length (to_depth depth (levels dir directory)))
     <= FL_MAX ->
     exists s',
       parse dir directory depth s = Some (0, s')
       /\ file_list s' = file_list s ++ to_depth depth (levels dir directory)
       /\ heap s' = [] /\ array (stack s') = array (stack s))
  /\ (forall entries directory depth s,
     directory <> [] -> heap s = [] ->
     (unreadable = true -> stderr s = []) ->
     plain_entries file_type_arr flags unreadable (array (stack s)) entries ->
     n_file_list s
     + Z.of_nat (length (to_depth depth (entries_levels entries directory)))
     <= FL_MAX ->
     exists s',
       readdir entries directory depth s = Some (0, s')
       /\ file_list s'
          = file_list s ++ to_depth depth (entries_levels entries directory)
       /\ heap s' = [] /\ array (stack s') = array (stack s)).
Proof.
  apply (DIR_dirents_mut
    (fun dir => forall directory depth s,
       directory <> [] -> heap s = [] ->
       (unreadable = true -> stderr s = []) ->
       plain_tree file_type_arr flags unreadable (array (stack s)) dir ->
       n_file_list s + Z.of_nat (length (to_depth depth (levels dir directory)))
       <= FL_MAX ->
       exists s',
         parse dir directory depth s = Some (0, s')
         /\ file_list s' = file_list s ++ to_depth depth (levels dir directory)
         /\ heap s' = [] /\ array (stack s') = array (stack s))
    (fun entries => forall directory depth s,
       directory <> [] -> heap s = [] ->
       (unreadable = true -> stderr s = []) ->
       plain_entries file_type_arr flags unreadable (array (stack s)) entries ->
       n_file_list s
       + Z.of_nat (length (to_depth depth (entries_levels entries directory)))
       <= FL_MAX ->
       exists s',
         readdir entries directory depth s = Some (0, s')
         /\ file_list s'
            = file_list s ++ to_depth depth (entries_levels entries directory)
         /\ heap s' = [] /\ array (stack s') = array (stack s))).
  - intros e directory depth s N H Q P R. cbn in P. destruct P as [-> U].
    rewrite parse_file_tree_fails_quiet by auto. cbn. eexists.
    split; [reflexivity|]. cbn. rewrite app_nil_r. auto.
  - intros entries IH directory depth s N H Q P R.
    rewrite parse_file_tree_ok. apply IH; assumption.
  - intros directory depth s N H Q P R. rewrite readdir_loop_end.
    exists s. cbn. rewrite app_nil_r. auto.
  - intros name d_type st lst sub IHsub rest IHrest directory depth s N H Q
           [P Prest] R.
    rewrite readdir_loop_dirent. cbn [selected_entries_levels] in *.
    rewrite to_depth_app in *.
    (* one round of the loop *)
    assert (ROUND : exists c s1,
              body (parse sub) name d_type st lst directory depth s = Some (c, s1)
              /\ (forall r, c <> Return r)
              /\ file_list s1
                 = file_list s
                   ++ to_depth depth
                        (if current_or_parent name then []
                         else
                           match entry_type flags d_type st lst with
                           | None => []
                           | Some ct =>
                               (if ct =? 4
                                then map below
                                       (levels sub (path_of directory name))
                                else [])
                               ++ (if chosen name ct
                                   then [(O, listed_path flags ct
                                               (path_of directory name))]
                                   else [])
                           end)
              /\ heap s1 = [] /\ array (stack s1) = array (stack s)).
    { destruct (current_or_parent name) eqn:DOT.
      { exists Continue, s. unfold loop_body. rewrite DOT.
        split; [reflexivity|]. split; [discriminate|]. cbn.
        rewrite app_nil_r. auto. }
      specialize (P eq_refl).
      pose proof (get_file_type_plain s directory name d_type st lst H N) as G.
      destruct (entry_type flags d_type st lst) as [ct|].
      2:{ destruct G as (s1 & G & L1 & H1 & K1). exists Continue, s1.
          unfold loop_body. rewrite DOT, G. split; [reflexivity|].
          split; [discriminate|]. cbn. rewrite app_nil_r, K1. auto. }
      destruct G as (cp & sb & G & CP & DIRECTORY).
      destruct (P ct eq_refl) as [T P']. clear P.
      rewrite (loop_body_parts regex_t regexec FL_MAX_def SIZE_MAX file_type_arr
                 file_ext flags (parse sub) name d_type st lst directory depth s
                 cp sb ct s DOT G).
      rewrite to_depth_app, to_depth_start in R |- *.
      destruct (Z.eqb_spec ct 4) as [->|N4].
      - (* a directory *)
        destruct (DIRECTORY eq_refl) as (-> & b & -> & S).
        rewrite to_depth_below in R |- *.
        destruct (Z.eqb_spec depth 0) as [->|D].
        + (* not entered *)
          rewrite traverse_next_directory_stays by (left; reflexivity).
          cbn [app] in R |- *.
          destruct (add_file_name_plain s directory name
                      (Some (path_of directory name)) 4)
            as (c & s3 & -> & NR & L3 & H3 & K3); auto.
          { intros C. rewrite C in R. unfold n_file_list in *.
            rewrite !length_app in *. cbn [length] in R. lia. }
          exists c, s3. split; [reflexivity|]. split; [exact NR|].
          split; [exact L3|]. split; [exact H3|]. rewrite K3. reflexivity.
        + (* entered *)
          destruct (P' eq_refl b S) as (LOOP & DEV & PS).
          destruct (traverse_next_directory_plain (parse sub) s depth
                      (path_of directory name) b D H LOOP DEV) as [sz ->].
          destruct (IHsub (path_of directory name) (next_depth depth)
                      (set_stack (mk_stack sz (array (stack s) ++ [b])) s)
                      (path_of_nonempty directory name N) H Q PS)
            as (s2 & -> & L2 & H2 & K2).
          { unfold n_file_list in *. cbn [file_list set_stack].
            rewrite !length_app in R. lia. }
          cbn [Z.eqb negb]. cbn [stack array set_stack] in K2.
          destruct (add_file_name_plain (stat_stack_pop s2) directory name
                      (Some (path_of directory name)) 4)
            as (c & s3 & -> & NR & L3 & H3 & K3); auto.
          { intros C. rewrite C in R. unfold n_file_list in *.
            cbn [file_list stat_stack_pop set_stack]. rewrite L2.
            cbn [file_list set_stack]. rewrite !length_app in *.
            cbn [length] in R. lia. }
          exists c, s3. split; [reflexivity|]. split; [exact NR|].
          split; [|split; [exact H3|]].
          * rewrite L3. cbn [file_list stat_stack_pop set_stack]. rewrite L2.
            cbn [file_list set_stack]. rewrite <- !app_assoc. reflexivity.
          * rewrite K3. cbn [stack array stat_stack_pop set_stack]. rewrite K2.
            apply removelast_last.
      - (* anything else *)
        rewrite traverse_next_directory_stays by (right; exact N4).
        replace (ct =? 4) with false in *
          by (symmetry; apply Z.eqb_neq; exact N4).
        cbn [app to_depth filter map] in R |- *.
        destruct (add_file_name_plain s directory name cp ct)
          as (c & s3 & -> & NR & L3 & H3 & K3); auto.
        { intros C. rewrite C in R. unfold n_file_list in *.
          rewrite !length_app in *. cbn [length] in R. lia. }
        exists c, s3. split; [reflexivity|]. split; [exact NR|].
        split; [exact L3|]. split; [exact H3|]. rewrite K3. reflexivity. }
    destruct ROUND as (c & s1 & B & NR & L1 & H1 & K1). rewrite B.
    assert (Q1 : unreadable = true -> stderr s1 = []).
    { intros U. eapply later_nil; [|exact (Q U)].
      eapply (loop_body_later regex_t regexec FL_MAX_def SIZE_MAX file_type_arr
                file_ext flags); [|exact B].
      intros p d s0 r0 s0'.
      apply (proj1 (parse_file_tree_later regex_t regexec FL_MAX_def SIZE_MAX
                      file_type_arr file_ext flags)). }
    rewrite <- K1 in Prest.
    destruct (IHrest directory depth s1 N H1 Q1 Prest) as (s' & E & L' & H' & K').
    { unfold n_file_list in *. rewrite L1, !length_app in *. lia. }
    exists s'. split; [|split; [|split; [exact H'|congruence]]].
    + destruct c as [r| |[]]; [exfalso; eapply NR; reflexivity|exact E|exact E].
    + rewrite L', L1, <- app_assoc. reflexivity.
Qed.

End FullTraversal.

(** C8. (1) With a depth of [levels] >= 0, what lies more than [levels]
    levels below the start directory has no influence on the call: at depth
    0 no subdirectory is opened. (2) At depth 0 every path appended is the
    path of an entry of the start directory itself, with or without the
    trailing separator. (3) A subdirectory whose type is enabled is still
    appended at depth 0. (4) In a chain of n nested directories with one
    regular file at the bottom, listing regular files only, the file is
    listed exactly when the depth is negative (as the unlimited depth -1
    is) or at least n. (5) The depth handed down is the depth minus one when
    positive, and the depth itself otherwise. (6) On every plain tree,
    however it branches, the traversal of depth d appends the selected
    paths of the entries at most d levels below the start directory, those
    of the start directory being at level 0, and with a negative d all of
    them: in the order of the traversal, none left out and none added,
    provided no allocation is refused and the list has room. *)
Theorem depth_limits_recursion :
  forall (regex_t : Type) (regexec : regex_t -> list Z -> bool)
         (FL_MAX_LIST_SIZE_defined SIZE_MAX : Z),
  (forall file_type_arr file_ext flags levels dir dir' directory s,
     same_to_level levels dir dir' ->
     parse_file_tree regex_t regexec FL_MAX_LIST_SIZE_defined SIZE_MAX
       file_type_arr file_ext flags dir directory (Z.of_nat levels) s
     = parse_file_tree regex_t regexec FL_MAX_LIST_SIZE_defined SIZE_MAX
         file_type_arr file_ext flags dir' directory (Z.of_nat levels) s)
  /\ (forall file_type_arr file_ext flags entries directory s r s',
        parse_file_tree regex_t regexec FL_MAX_LIST_SIZE_defined SIZE_MAX
          file_type_arr file_ext flags (opendir_ok entries) directory 0 s
        = Some (r, s') ->
        grows (fun path =>
                 exists d_name, In d_name (entry_names entries)
                   /\ (path = path_of directory d_name
                       \/ path = path_of directory d_name ++ [DIR_SEPARATOR]))
              s s')
  /\ (forall file_type_arr flags descend d_name st lst sb directory s,
        current_or_parent d_name = false ->
        (if has flags FL_FOLLOW_LINKS then st else lst) = stat_ok sb ->
        Z.land (Z.shiftr (st_mode sb) 12) 15 = 4 ->
        nth_error file_type_arr 4 = Some 1 ->
        directory <> [] -> heap s = [] ->
        n_file_list s <> FL_MAX_LIST_SIZE FL_MAX_LIST_SIZE_defined SIZE_MAX ->
        exists s',
          loop_body regex_t regexec FL_MAX_LIST_SIZE_defined SIZE_MAX
            file_type_arr None flags descend d_name DT_DIR st lst directory 0 s
          = Some (Go tt, s')
          /\ file_list s'
             = file_list s
               ++ [if has flags FL_DIR_SEP
                   then path_of directory d_name ++ [DIR_SEPARATOR]
                   else path_of directory d_name])
  /\ (forall n depth directory s,
        directory <> [] -> heap s = [] ->
        n_file_list s <> FL_MAX_LIST_SIZE FL_MAX_LIST_SIZE_defined SIZE_MAX ->
        array (stack s) <> [] ->
        (forall e, In e (array (stack s)) ->
           st_ino e <= 0 \/ Z.of_nat n < st_ino e) ->
        exists s',
          parse_file_tree regex_t regexec FL_MAX_LIST_SIZE_defined SIZE_MAX
            (make_file_type_arr FL_REG) None 0 (chain n) directory depth s
          = Some (0, s')
          /\ file_list s'
             = file_list s
               ++ (if (depth <? 0) || (Z.of_nat n <=? depth)
                   then [chain_path directory n] else []))
  /\ next_depth (-1) = -1
  /\ next_depth 0 = 0
  /\ (forall depth, 0 < depth -> next_depth depth = depth - 1)
  /\ (forall file_type_arr file_ext flags unreadable dir directory depth s,
        directory <> [] -> heap s = [] ->
        (unreadable = true -> stderr s = []) ->
        plain_tree file_type_arr flags unreadable (array (stack s)) dir ->
        n_file_list s
        + Z.of_nat (length (to_depth depth
                              (selected_levels regex_t regexec file_type_arr
                                 file_ext flags dir directory)))
        <= FL_MAX_LIST_SIZE FL_MAX_LIST_SIZE_defined SIZE_MAX ->
        exists s',
          parse_file_tree regex_t regexec FL_MAX_LIST_SIZE_defined SIZE_MAX
            file_type_arr file_ext flags dir directory depth s
          = Some (0, s')
          /\ file_list s'
             = file_list s
               ++ to_depth depth
                    (selected_levels regex_t regexec file_type_arr file_ext
                       flags dir directory)).
Proof.
  intros regex_t regexec FL_MAX_def SIZE_MAX.
  split; [|split; [|split; [|split; [|split; [|split; [|split]]]]]].
  - intros file_type_arr file_ext flags levels dir dir'.
    apply (proj1 (parse_file_tree_same_to_level regex_t regexec FL_MAX_def
                    SIZE_MAX file_type_arr file_ext flags)).
  - intros file_type_arr file_ext flags entries directory s r s' H.
    rewrite parse_file_tree_ok in H. eapply readdir_loop_depth_0; eauto.
  - intros file_type_arr flags descend d_name st lst sb directory s C S M T N H F.
    rewrite (loop_body_parts _ _ _ _ _ _ _ _ _ _ _ _ _ _ _
               (Some (path_of directory d_name)) (Some sb) 4 s); auto.
    + rewrite traverse_next_directory_stays by (left; reflexivity).
      destruct (add_file_name_appends regex_t regexec FL_MAX_def SIZE_MAX
                  file_type_arr None flags s directory d_name
                  (Some (path_of directory d_name)) 4)
        as (m & e & w & -> & _); auto.
      eexists. split; reflexivity.
    + rewrite <- M. apply get_file_type_stat; auto.
  - intros n depth directory s N H F NE K.
    destruct (chain_listed regex_t regexec FL_MAX_def SIZE_MAX n depth directory s
                N H F NE K) as (s' & E & L & _).
    eauto.
  - reflexivity.
  - reflexivity.
  - intros depth P. unfold next_depth. destruct (Z.gtb_spec depth 0); lia.
  - intros file_type_arr file_ext flags unreadable dir directory depth s N H Q
           P R.
    destruct (proj1 (parse_file_tree_plain regex_t regexec FL_MAX_def SIZE_MAX
                       file_type_arr file_ext flags unreadable)
                dir directory depth s N H Q P R) as (s' & E & L & _).
    eauto.
Qed.

(** The conditions on a sample tree, by evaluation. *)
Ltac plain_sample :=
  repeat match goal with
         | |- True => exact I
         | |- _ /\ _ => split
         | |- _ <> _ => vm_compute; discriminate
         | |- _ = _ => reflexivity
         | |- _ = _ => discriminate
         | H : Some _ = Some _ |- _ => injection H as <-
         | H : _ = stat_ok _ |- _ => injection H as <-
         | H : _ = _ |- _ => discriminate H
         | |- forall _, _ => intro
         end.

(** C8, instance: in the sample tree at depth 0 the directory sub is listed,
    its files are not; the file of a chain of 3 directories is reached with
    depth -1 and depth 3, not with depth 2; in the tree with the two
    directories p and r, depth 1 lists what is in both of them and leaves
    out what is in q and t, and depth -1 lists everything. *)
Lemma depth_limits_recursion_witness :
  parse_file_tree unit regexec_any 1048576 (2 ^ 64 - 1) (make_file_type_arr 0)
    None 0 small_tree (str "top") 0 (traversal_start 512 top_stat 0 [] [])
  = parse_file_tree unit regexec_any 1048576 (2 ^ 64 - 1)
      (make_file_type_arr 0) None 0
      (opendir_ok
         (regular_file "b"
            (directory "sub" 4 1 2 (opendir_fails 5)
               (regular_file "a" end_of_dir))))
      (str "top") 0 (traversal_start 512 top_stat 0 [] [])
  /\ (exists s',
        parse_file_tree unit regexec_any 1048576 (2 ^ 64 - 1)
          (make_file_type_arr FL_REG) None 0 (chain 3) (str "top") (-1)
          (traversal_start 512 (mk_stat 0 0 16384) 0 [] [])
        = Some (0, s')
        /\ file_list s' = [str "top/d/d/d/f"])
  /\ (exists s',
        parse_file_tree unit regexec_any 1048576 (2 ^ 64 - 1)
          (make_file_type_arr FL_REG) None 0 (chain 3) (str "top") 2
          (traversal_start 512 (mk_stat 0 0 16384) 0 [] [])
        = Some (0, s')
        /\ file_list s' = [])
  /\ (exists s',
        parse_file_tree unit regexec_any 1048576 (2 ^ 64 - 1)
          (make_file_type_arr 0) None 0 forked_tree (str "top") 1
          (traversal_start 512 top_stat 0 [] [Some 9])
        = Some (0, s')
        /\ file_list s'
           = map str ["top/x"; "top/p/p1"; "top/p/q"; "top/p"; "top/r/r1";
                      "top/r/t"; "top/r"]%string)
  /\ (exists s',
        parse_file_tree unit regexec_any 1048576 (2 ^ 64 - 1)
          (make_file_type_arr 0) None 0 forked_tree (str "top") (-1)
          (traversal_start 512 top_stat 0 [] [Some 9])
        = Some (0, s')
        /\ file_list s'
           = map str ["top/x"; "top/p/p1"; "top/p/q/q1"; "top/p/q"; "top/p";
                      "top/r/r1"; "top/r/t/t1"; "top/r/t"; "top/r"]%string).
Proof.
  destruct (depth_limits_recursion unit regexec_any 1048576 (2 ^ 64 - 1))
    as (LEVEL & _ & _ & CHAIN & _ & _ & _ & PLAIN).
  split; [|split; [|split; [|split]]].
  - apply (LEVEL (make_file_type_arr 0) None 0 0%nat). cbn. tauto.
  - apply (CHAIN 3%nat (-1) (str "top")
             (traversal_start 512 (mk_stat 0 0 16384) 0 [] [])).
    + discriminate.
    + reflexivity.
    + vm_compute. discriminate.
    + discriminate.
    + intros e [<-|[]]. cbn. lia.
  - apply (CHAIN 3%nat 2 (str "top")
             (traversal_start 512 (mk_stat 0 0 16384) 0 [] [])).
    + discriminate.
    + reflexivity.
    + vm_compute. discriminate.
    + discriminate.
    + intros e [<-|[]]. cbn. lia.
  - apply (PLAIN (make_file_type_arr 0) None 0 false forked_tree (str "top") 1
             (traversal_start 512 top_stat 0 [] [Some 9])).
    + discriminate.
    + reflexivity.
    + discriminate.
    + cbn. plain_sample.
    + vm_compute. discriminate.
  - apply (PLAIN (make_file_type_arr 0) None 0 false forked_tree (str "top")
             (-1) (traversal_start 512 top_stat 0 [] [Some 9])).
    + discriminate.
    + reflexivity.
    + discriminate.
    + cbn. plain_sample.
    + vm_compute. discriminate.
Defined.

(** * Further properties *)

(** ** [create_clean_dir] and [create_path] *)

Lemma omit_superfluous_separators d : forall prev,
  (forall p q, omit_superfluous prev d
               <> p ++ DIR_SEPARATOR :: DIR_SEPARATOR :: q)
  /\ (prev = true -> forall q, omit_superfluous prev d <> DIR_SEPARATOR :: q).
Proof.
  induction d as [|x d IH]; intros prev; cbn [omit_superfluous].
  - split; [intros [|? ?] q|intros _ q]; discriminate.
  - destruct (Z.eqb_spec x DIR_SEPARATOR) as [->|N].
    + destruct prev.
      * apply IH.
      * destruct (IH true) as [IH1 IH2]. split; [|discriminate].
        intros [|y p] q E; injection E as E.
        { eapply IH2; eauto. }
        { subst. eapply IH1; eauto. }
    + destruct (IH false) as [IH1 _]. split.
      * intros [|y p] q E; injection E as E; [contradiction|].
        eapply IH1; eauto.
      * intros _ q E. injection E as E. contradiction.
Qed.

Lemma omit_superfluous_length d : forall prev,
  (length (omit_superfluous prev d) <= length d)%nat.
Proof.
  induction d as [|x d IH]; intros prev; cbn [omit_superfluous length]; [lia|].
  destruct (x =? DIR_SEPARATOR); [destruct prev|]; cbn [length];
    try (pose proof (IH true)); try (pose proof (IH false)); lia.
Qed.

Lemma omit_superfluous_head x d :
  exists rest, omit_superfluous false (x :: d) = x :: rest.
Proof. cbn. destruct (x =? DIR_SEPARATOR); eauto. Qed.

Lemma omit_superfluous_clean d : forall prev,
  (forall p q, d <> p ++ DIR_SEPARATOR :: DIR_SEPARATOR :: q) ->
  (prev = true -> forall q, d <> DIR_SEPARATOR :: q) ->
  omit_superfluous prev d = d.
Proof.
  induction d as [|x d IH]; intros prev D S; [reflexivity|].
  cbn [omit_superfluous].
  assert (D' : forall p q, d <> p ++ DIR_SEPARATOR :: DIR_SEPARATOR :: q).
  { intros p q E. apply (D (x :: p) q). rewrite E. reflexivity. }
  destruct (Z.eqb_spec x DIR_SEPARATOR) as [->|N].
  - destruct prev; [exfalso; eapply S; reflexivity|].
    f_equal. apply IH; [exact D'|]. intros _ q E. apply (D [] q).
    rewrite E. reflexivity.
  - f_equal. apply IH; [exact D'|discriminate].
Qed.

Lemma omit_superfluous_components d : forall prev current,
  (prev = true -> current = []) ->
  components_from current (omit_superfluous prev d) = components_from current d.
Proof.
  induction d as [|x d IH]; intros prev current P; [reflexivity|].
  cbn [omit_superfluous].
  destruct (x =? DIR_SEPARATOR) eqn:E.
  - destruct prev.
    + rewrite (P eq_refl). cbn [components_from]. rewrite E. apply IH. auto.
    + cbn [components_from]. rewrite E.
      rewrite (IH true []) by reflexivity. reflexivity.
  - cbn [components_from]. rewrite E. apply IH. discriminate.
Qed.

(** [remove_trailing] takes separators off the front of the reversed string,
    never the last character, and stops at the first other character. *)
Lemma remove_trailing_spec l :
  exists k, l = repeat DIR_SEPARATOR k ++ remove_trailing l
            /\ (l <> [] -> remove_trailing l <> [])
            /\ (forall x y rest, remove_trailing l = x :: y :: rest ->
                  x <> DIR_SEPARATOR).
Proof.
  induction l as [|x l IH].
  - exists 0%nat. split; [reflexivity|]. split; [congruence|discriminate].
  - cbn [remove_trailing]. destruct l as [|y l].
    + exists 0%nat. split; [reflexivity|]. split; [congruence|discriminate].
    + destruct (Z.eqb_spec x DIR_SEPARATOR) as [->|N].
      * destruct IH as (k & E & NE & H). exists (S k). cbn [repeat app].
        split; [f_equal; exact E|]. split; [|exact H].
        intros _. apply NE. discriminate.
      * exists 0%nat. split; [reflexivity|]. split; [congruence|].
        intros x' y' rest [= <- _ _]. exact N.
Qed.

Lemma clean_dir_spec d :
  d <> [] ->
  exists k, omit_superfluous false d = clean_dir d ++ repeat DIR_SEPARATOR k
            /\ clean_dir d <> []
            /\ (forall p, clean_dir d = p ++ [DIR_SEPARATOR] -> p = []).
Proof.
  intros N. unfold clean_dir.
  destruct (remove_trailing_spec (rev (omit_superfluous false d)))
    as (k & E & NE & H).
  exists k. split; [|split].
  - apply (f_equal (@rev Z)) in E. rewrite rev_involutive, rev_app_distr in E.
    etransitivity; [exact E|]. f_equal. clear.
    induction k as [|k IH]; [reflexivity|].
    cbn [repeat rev]. rewrite IH. clear.
    induction k as [|k IH]; [reflexivity|]. cbn [repeat app]. rewrite IH.
    reflexivity.
  - intros R. apply (f_equal (@rev Z)) in R. rewrite rev_involutive in R.
    cbn [rev] in R. apply NE in R; [exact R|].
    destruct d as [|x d]; [congruence|].
    destruct (omit_superfluous_head x d) as [rest ->]. intros R'.
    apply (f_equal (@rev Z)) in R'. rewrite rev_involutive in R'.
    discriminate R'.
  - intros p R. apply (f_equal (@rev Z)) in R.
    rewrite rev_involutive, rev_app_distr in R. cbn [rev app] in R.
    destruct (rev p) as [|y rest] eqn:P.
    + apply (f_equal (@rev Z)) in P. rewrite rev_involutive in P. exact P.
    + exfalso. eapply H; [exact R|reflexivity].
Qed.

Lemma components_from_trailing l : forall current k,
  components_from current (l ++ repeat DIR_SEPARATOR k)
  = components_from current l.
Proof.
  induction l as [|x l IH]; intros current k.
  - cbn [app]. revert current. induction k as [|k IHk]; intros current;
      [reflexivity|].
    cbn [repeat components_from Z.eqb Pos.eqb DIR_SEPARATOR].
    rewrite (IHk []). destruct current; reflexivity.
  - cbn [app components_from]. destruct (x =? DIR_SEPARATOR);
      [destruct current|]; rewrite IH; reflexivity.
Qed.

(** X1. The string that [create_clean_dir] returns is not empty, is no longer
    than the directory it was given (so it fits the buffer allocated for
    it), begins with the same character, holds no two directory separators
    in a row, and ends in a separator only if it is the separator alone. *)
Theorem create_clean_dir_normal_form :
  forall (s s' : state) (directory : option (list Z)) (c : list Z),
  create_clean_dir s directory = (Some c, s') ->
  exists d, directory = Some d
    /\ c <> []
    /\ (length c <= length d)%nat
    /\ hd_error c = hd_error d
    /\ (forall p q, c <> p ++ DIR_SEPARATOR :: DIR_SEPARATOR :: q)
    /\ (forall p, c = p ++ [DIR_SEPARATOR] -> p = []).
Proof.
  intros s s' directory c H.
  apply create_clean_dir_inv in H as [_ H].
  destruct (H c eq_refl) as (d & -> & N & ->).
  exists d. split; [reflexivity|].
  destruct (clean_dir_spec d N) as (k & E & NE & T).
  split; [exact NE|]. split; [|split; [|split; [|exact T]]].
  - pose proof (omit_superfluous_length d false) as L.
    rewrite E, length_app in L. lia.
  - destruct d as [|x d]; [congruence|].
    destruct (omit_superfluous_head x d) as [rest R]. rewrite R in E.
    destruct (clean_dir (x :: d)) as [|y c]; [congruence|].
    injection E as -> _. reflexivity.
  - intros p q C.
    apply (proj1 (omit_superfluous_separators d false) p
             (q ++ repeat DIR_SEPARATOR k)).
    rewrite E, C, <- app_assoc. reflexivity.
Qed.

(** X2. [create_clean_dir] keeps the components of the directory, the
    non-empty names between its separators, and their order: only
    separators are dropped. *)
Theorem create_clean_dir_components :
  forall (s s' : state) (directory : option (list Z)) (c : list Z),
  create_clean_dir s directory = (Some c, s') ->
  exists d, directory = Some d /\ components c = components d.
Proof.
  intros s s' directory c H.
  apply create_clean_dir_inv in H as [_ H].
  destruct (H c eq_refl) as (d & -> & N & ->).
  exists d. split; [reflexivity|].
  destruct (clean_dir_spec d N) as (k & E & _).
  unfold components.
  rewrite <- (omit_superfluous_components d false []) by discriminate.
  rewrite E. symmetry. apply components_from_trailing.
Qed.

(** X2, instance: "//usr///lib//" and its cleaned form "/usr/lib". *)
Lemma create_clean_dir_components_witness :
  exists d, Some (str "//usr///lib//") = Some d
            /\ components (str "/usr/lib") = components d.
Proof.
  apply (create_clean_dir_components
           (mk_state [] 0 (mk_stack 0 []) 0 [] [] [])
           (mk_state [] 0 (mk_stack 0 []) 0 [] [] [])).
  reflexivity.
Defined.

Lemma clean_dir_fixed d :
  d <> [] ->
  (forall p q, d <> p ++ DIR_SEPARATOR :: DIR_SEPARATOR :: q) ->
  (forall p, d = p ++ [DIR_SEPARATOR] -> p = []) ->
  clean_dir d = d.
Proof.
  intros N D T. unfold clean_dir.
  rewrite omit_superfluous_clean by (auto; discriminate).
  destruct (exists_last N) as (p & x & ->).
  rewrite rev_app_distr. cbn [rev app remove_trailing].
  destruct (rev p) as [|y rest] eqn:P.
  - cbn. apply (f_equal (@rev Z)) in P. rewrite rev_involutive in P.
    subst p. reflexivity.
  - destruct (Z.eqb_spec x DIR_SEPARATOR) as [->|NE].
    + rewrite (T p eq_refl) in P. discriminate P.
    + rewrite <- P. cbn [rev]. rewrite rev_involutive. reflexivity.
Qed.

(** X3. [create_clean_dir] is idempotent: on a string that it returned, it
    returns the same string. *)
Theorem create_clean_dir_idempotent :
  forall (s s' t t' : state) (directory : option (list Z)) (c c' : list Z),
  create_clean_dir s directory = (Some c, s') ->
  create_clean_dir t (Some c) = (Some c', t') ->
  c' = c.
Proof.
  intros s s' t t' directory c c' H H'.
  apply create_clean_dir_inv in H' as [_ H'].
  destruct (H' c' eq_refl) as (d' & [= <-] & _ & ->).
  apply create_clean_dir_inv in H as [_ H].
  destruct (H c eq_refl) as (d & -> & N & ->).
  destruct (clean_dir_spec d N) as (k & E & NE & T).
  apply clean_dir_fixed; [exact NE| |exact T].
  intros p q C.
  apply (proj1 (omit_superfluous_separators d false) p
           (q ++ repeat DIR_SEPARATOR k)).
  rewrite E, C, <- app_assoc. reflexivity.
Qed.

(** X3, instance: "a//b/" is cleaned to "a/b", which is cleaned to itself. *)
Lemma create_clean_dir_idempotent_witness :
  clean_dir (str "a/b") = str "a/b".
Proof.
  apply (create_clean_dir_idempotent
           (mk_state [] 0 (mk_stack 0 []) 0 [] [] [])
           (mk_state [] 0 (mk_stack 0 []) 0 [] [] [])
           (mk_state [] 0 (mk_stack 0 []) 0 [] [] [])
           (mk_state [] 0 (mk_stack 0 []) 0 [] [] [])
           (Some (str "a//b/")) (str "a/b") (clean_dir (str "a/b")));
    reflexivity.
Defined.

(** X1, instance: "//usr///lib//" is cleaned to "/usr/lib". *)
Lemma create_clean_dir_normal_form_witness :
  exists d, Some (str "//usr///lib//") = Some d
    /\ str "/usr/lib" <> []
    /\ (length (str "/usr/lib") <= length d)%nat
    /\ hd_error (str "/usr/lib") = hd_error d
    /\ (forall p q, str "/usr/lib" <> p ++ DIR_SEPARATOR :: DIR_SEPARATOR :: q)
    /\ (forall p, str "/usr/lib" = p ++ [DIR_SEPARATOR] -> p = []).
Proof.
  apply (create_clean_dir_normal_form
           (mk_state [] 0 (mk_stack 0 []) 0 [] [] [])
           (mk_state [] 0 (mk_stack 0 []) 0 [] [] [])).
  reflexivity.
Defined.

Lemma digit_run_before_other d : forall x r,
  isdigit x = false -> digit_run (d ++ x :: r) = digit_run d.
Proof.
  induction d as [|y d IH]; intros x r X; cbn [app digit_run].
  - rewrite X. reflexivity.
  - destruct (isdigit y); [rewrite IH by exact X|]; reflexivity.
Qed.

Lemma default_order_longer d x r t : default_order t d (d ++ x :: r) = 0 - x.
Proof.
  rewrite <- (app_nil_r d) at 1. rewrite default_order_prefix. reflexivity.
Qed.

Lemma natural_order_longer d : forall x r t,
  isdigit x = false -> natural_order t d (d ++ x :: r) = 0 - x.
Proof.
  induction d as [|y d IH]; intros x r t X; [reflexivity|].
  cbn [app]. rewrite natural_order_cons. cbv zeta.
  rewrite (app_comm_cons d (x :: r) y), digit_run_before_other by exact X.
  rewrite run_order_refl, !Z.eqb_refl.
  destruct (isdigit y && isdigit y); apply IH; exact X.
Qed.

Lemma ascii_order_longer d : forall x r, ascii_order d (d ++ x :: r) = 0 - x.
Proof.
  induction d as [|y d IH]; intros x r; [reflexivity|].
  cbn [app ascii_order]. rewrite Z.eqb_refl. apply IH.
Qed.

Lemma split_at_length (d : list Z) x b :
  skipn (S (length d)) (d ++ x :: b) = b /\ firstn (length d) (d ++ x :: b) = d.
Proof.
  induction d as [|y d [IH1 IH2]]; [split; reflexivity|].
  cbn [length app]. split; [exact IH1|]. cbn [firstn]. f_equal. exact IH2.
Qed.

(** X4. A path that [create_path] builds from a directory and a name without
    separator is split by [strrchr], as [qsort_compar] splits it, into that
    name, after the separator found, and the directory, before it, less the
    separator that the directory may end in. *)
Theorem create_path_split :
  forall (s s' : state) (dir file path : list Z),
  create_path s dir file = Some (Some path, s') ->
  ~ In DIR_SEPARATOR file ->
  exists sep,
    strrchr path DIR_SEPARATOR = Some sep
    /\ skipn (S sep) path = file
    /\ firstn sep path
       = (if last dir 0 =? DIR_SEPARATOR then removelast dir else dir).
Proof.
  intros s s' dir file path C N.
  apply create_path_inv in C as (D & _ & -> & _).
  unfold path_of. destruct (Z.eqb_spec (last dir 0) DIR_SEPARATOR) as [E|E].
  - destruct (exists_last D) as (d & x & ->). rewrite last_last in E. subst x.
    rewrite removelast_last, <- app_assoc. cbn [app].
    exists (length d). rewrite strrchr_split by exact N.
    split; [reflexivity|]. apply split_at_length.
  - exists (length dir). rewrite strrchr_split by exact N.
    split; [reflexivity|]. apply split_at_length.
Qed.

(** X4, instance: "usr/lib" and "libc.so". *)
Lemma create_path_split_witness :
  exists sep,
    strrchr (str "usr/lib/libc.so") DIR_SEPARATOR = Some sep
    /\ skipn (S sep) (str "usr/lib/libc.so") = str "libc.so"
    /\ firstn sep (str "usr/lib/libc.so") = str "usr/lib".
Proof.
  apply (create_path_split (mk_state [] 0 (mk_stack 0 []) 0 [] [] [])
           (mk_state [] 0 (mk_stack 0 []) 0 [] [] [])
           (str "usr/lib") (str "libc.so") (str "usr/lib/libc.so")).
  - reflexivity.
  - vm_compute. intuition discriminate.
Defined.

(** X5. Under the default, natural and ASCII sort methods, a path that lies
    directly in a directory [d] is ordered before every path that lies in a
    directory below [d]: the entries of a directory come before the contents
    of its subdirectories. *)
Theorem qsort_compar_parent_first :
  forall (strcoll : list Z -> list Z -> option Z) sort_method compar_fn
         (d f below g : list Z),
  get_compar_fn strcoll sort_method = Some compar_fn ->
  sort_method <> FL_SORT_COLLATE ->
  is_str d -> is_str f -> is_str below -> is_str g ->
  ~ In DIR_SEPARATOR f -> ~ In DIR_SEPARATOR g ->
  exists r,
    compar_fn (d ++ DIR_SEPARATOR :: f)
              (d ++ DIR_SEPARATOR :: below ++ DIR_SEPARATOR :: g)
    = Some r
    /\ r < 0.
Proof.
  intros strcoll sort_method compar_fn d f below g G NC Hd Hf Hb Hg Nf Ng.
  exists (- DIR_SEPARATOR). split; [|reflexivity].
  assert (Hs : is_str (d ++ DIR_SEPARATOR :: below)).
  { apply Forall_app. split; [exact Hd|]. constructor; [unfold DIR_SEPARATOR; lia|].
    exact Hb. }
  assert (E : forall base,
            compar_fn = qsort_compar base ->
            base (d ++ 0 :: cstr f)
                 ((d ++ DIR_SEPARATOR :: below) ++ 0 :: cstr g)
            = Some (- DIR_SEPARATOR) ->
            compar_fn (d ++ DIR_SEPARATOR :: f)
                      (d ++ DIR_SEPARATOR :: below ++ DIR_SEPARATOR :: g)
            = Some (- DIR_SEPARATOR)).
  { intros base -> B.
    replace (d ++ DIR_SEPARATOR :: below ++ DIR_SEPARATOR :: g)
      with ((d ++ DIR_SEPARATOR :: below) ++ DIR_SEPARATOR :: g)
      by (rewrite <- app_assoc; reflexivity).
    rewrite qsort_compar_split, B by assumption. reflexivity. }
  destruct sort_method; inv G; try congruence.
  - apply (E strcmp_default); [reflexivity|]. destruct d as [|x d].
    + reflexivity.
    + rewrite strcmp_default_order by (auto; discriminate).
      rewrite default_order_longer. reflexivity.
  - apply (E strcmp_natural); [reflexivity|]. destruct d as [|x d].
    + reflexivity.
    + rewrite strcmp_natural_order by (auto; discriminate).
      rewrite natural_order_longer by reflexivity. reflexivity.
  - apply (E strcmp); [reflexivity|].
    rewrite strcmp_order, ascii_order_longer by auto. reflexivity.
Qed.

(** X5, instance: "top/z" against "top/a/b/c" under the natural method. *)
Lemma qsort_compar_parent_first_witness :
  exists r,
    qsort_compar strcmp_natural (str "top/z") (str "top/a/b/c") = Some r
    /\ r < 0.
Proof.
  apply (qsort_compar_parent_first strcmp FL_SORT_NATURAL
           (qsort_compar strcmp_natural) (str "top") (str "z") (str "a/b")
           (str "c")).
  - reflexivity.
  - discriminate.
  - repeat constructor; lia.
  - repeat constructor; lia.
  - repeat constructor; lia.
  - repeat constructor; lia.
  - vm_compute. intuition discriminate.
  - vm_compute. intuition discriminate.
Defined.

(** ** The stat stack and the bounds of the list *)




Section Invariants.

Variable regex_t : Type.
Variable regexec : regex_t -> list Z -> bool.
Variables FL_MAX_def SIZE_MAX : Z.
Variable file_type_arr : list Z.
Variable file_ext : option regex_t.
Variable flags : Z.

Local Abbreviation FL_MAX := (FL_MAX_LIST_SIZE FL_MAX_def SIZE_MAX).
Local Abbreviation list_add := (file_list_add FL_MAX_def SIZE_MAX).
Local Abbreviation add_name :=
  (add_file_name regex_t regexec FL_MAX_def SIZE_MAX file_type_arr file_ext flags).
Local Abbreviation body :=
  (loop_body regex_t regexec FL_MAX_def SIZE_MAX file_type_arr file_ext flags).
Local Abbreviation parse :=
  (parse_file_tree regex_t regexec FL_MAX_def SIZE_MAX file_type_arr file_ext flags).
Local Abbreviation readdir :=
  (readdir_loop regex_t regexec FL_MAX_def SIZE_MAX file_type_arr file_ext flags).

(** What the parts of the traversal other than [file_list_add] and the
    pushes and pops leave alone. *)
Lemma alloc_frame s b s' :
  alloc s = (b, s') ->
  file_list s' = file_list s /\ n_file_list_max s' = n_file_list_max s
  /\ stack s' = stack s.
Proof. unfold alloc. intros H. break_all; auto. Qed.

Lemma file_list_add_frame s p r s' :
  list_add s p = (r, s') ->
  list_bounds FL_MAX s ->
  list_bounds FL_MAX s' /\ stack s' = stack s
  /\ n_file_list_max s <= n_file_list_max s'
  /\ (r = 0 \/ r = -1).
Proof.
  intros A (B0 & B1 & B2). pose proof (FL_MAX_LIST_SIZE_le FL_MAX_def SIZE_MAX) as LE.
  unfold file_list_add in A.
  destruct (Z.eqb_spec (n_file_list s) (n_file_list_max s)) as [E|E].
  - destruct (Z.eqb_spec (n_file_list s) FL_MAX) as [F|F].
    + inv A. unfold list_bounds, n_file_list in *. cbn. repeat split; auto; lia.
    + set (new_size := (n_file_list_max s * 2) mod (SIZE_MAX + 1)) in A.
      assert (N : (if new_size <? n_file_list s then SIZE_MAX else new_size)
                  = if n_file_list_max s * 2 <? SIZE_MAX + 1
                    then n_file_list_max s * 2 else SIZE_MAX).
      { subst new_size.
        destruct (Z.ltb_spec (n_file_list_max s * 2) (SIZE_MAX + 1)).
        - rewrite Z.mod_small by lia.
          destruct (Z.ltb_spec (n_file_list_max s * 2) (n_file_list s)); lia.
        - rewrite <- (Zmod_unique (n_file_list_max s * 2) (SIZE_MAX + 1) 1
                        (n_file_list_max s * 2 - (SIZE_MAX + 1))) by lia.
          destruct (Z.ltb_spec (n_file_list_max s * 2 - (SIZE_MAX + 1))
                      (n_file_list s)); lia. }
      rewrite N in A. clear N new_size.
      set (m := if n_file_list_max s * 2 <? SIZE_MAX + 1
                then n_file_list_max s * 2 else SIZE_MAX) in A.
      assert (Hm : n_file_list s < m).
      { subst m. destruct (Z.ltb_spec (n_file_list_max s * 2) (SIZE_MAX + 1)); lia. }
      destruct (Z.gtb_spec m FL_MAX);
        unfold alloc in A; cbn [heap set_max DEBUG_PRINTF] in A;
        destruct (heap s) as [|[|] h]; inv A;
        unfold list_bounds, n_file_list in *; cbn;
        rewrite ?length_app; cbn [length]; repeat split; auto; lia.
  - inv A. unfold list_bounds, n_file_list in *. cbn.
    rewrite length_app. cbn [length]. repeat split; auto; lia.
Qed.

Lemma loop_body_return_value descend name d_type st lst dir depth s c s' :
  body descend name d_type st lst dir depth s = Some (c, s') ->
  forall r, c = Return r -> r = -1.
Proof. intros H r ->. eapply loop_body_return; eauto. Qed.

Lemma free_if_frame q s :
  file_list (free_if q s) = file_list s
  /\ n_file_list_max (free_if q s) = n_file_list_max s
  /\ stack (free_if q s) = stack s.
Proof. destruct q; cbn; auto. Qed.

Lemma CREATE_CURRENT_PATH_frame s cp dir name c s' :
  CREATE_CURRENT_PATH s cp dir name = Some (c, s') ->
  file_list s' = file_list s /\ n_file_list_max s' = n_file_list_max s
  /\ stack s' = stack s.
Proof.
  unfold CREATE_CURRENT_PATH, create_path. intros H.
  destruct cp; [inv H; auto|]. destruct dir; [discriminate|].
  destruct (alloc s) as [[|] s1] eqn:A; inv H; eapply alloc_frame; eauto.
Qed.

Lemma get_file_type_frame s dir name d_type st lst c s' :
  get_file_type flags s dir name d_type st lst = Some (c, s') ->
  file_list s' = file_list s /\ n_file_list_max s' = n_file_list_max s
  /\ stack s' = stack s.
Proof.
  unfold get_file_type. intros H. destruct (_ || _); [|inv H; auto].
  destruct (CREATE_CURRENT_PATH s None dir name) as [[c1 s1]|] eqn:C;
    [|discriminate].
  apply CREATE_CURRENT_PATH_frame in C.
  destruct c1 as [r| |p]; [inv H; exact C|inv H; exact C|].
  destruct (if has flags FL_FOLLOW_LINKS then st else lst); inv H; exact C.
Qed.

Lemma list_bounds_frame s s' :
  file_list s' = file_list s -> n_file_list_max s' = n_file_list_max s ->
  list_bounds FL_MAX s -> list_bounds FL_MAX s'.
Proof. unfold list_bounds, n_file_list. intros -> ->. auto. Qed.

Lemma file_list_add_stack s p r s' :
  list_add s p = (r, s') -> stack s' = stack s.
Proof.
  unfold file_list_add. intros A.
  destruct (_ =? _); [|inv A; reflexivity].
  destruct (_ =? _); [inv A; reflexivity|].
  destruct (_ >? _);
    match type of A with
    | match alloc ?t with _ => _ end = _ =>
        destruct (alloc t) as [[|] s1] eqn:E
    end; inv A; apply alloc_frame in E as (_ & _ & K); exact K.
Qed.

Lemma traverse_next_directory_frame descend s depth cp sb ct c s' :
  (forall p d s r s',
     descend p d s = Some (r, s') ->
     (list_bounds FL_MAX s -> list_bounds FL_MAX s')
     /\ (r = 0 -> array (stack s') = array (stack s))) ->
  traverse_next_directory flags descend s depth cp sb ct = Some (c, s') ->
  (list_bounds FL_MAX s -> list_bounds FL_MAX s')
  /\ ((forall r, c <> Return r) -> array (stack s') = array (stack s)).
Proof.
  intros D H. unfold traverse_next_directory in H.
  destruct (_ && _); [|inv H; auto].
  destruct sb as [b|]; [|discriminate]. destruct cp as [q|]; [|discriminate].
  destruct (is_directory_loop _ _) as [[|]|]; try discriminate; [inv H; auto|].
  match type of H with
  | context [match ?x with Some _ => _ | None => None end] => destruct x as [[|]|]
  end; try discriminate; [inv H; auto|].
  destruct (stat_stack_push s b) as [pushed s1] eqn:P.
  assert (F1 : file_list s1 = file_list s /\ n_file_list_max s1 = n_file_list_max s
               /\ (pushed = true -> array (stack s1) = array (stack s) ++ [b])).
  { unfold stat_stack_push in P. destruct (_ =? _).
    - destruct (alloc s) as [[|] s2] eqn:A; inv P;
        apply alloc_frame in A as (L & M & K); cbn; rewrite ?K; auto.
      repeat split; auto. discriminate.
    - inv P. auto. }
  destruct F1 as (L1 & M1 & K1).
  assert (B1 : list_bounds FL_MAX s -> list_bounds FL_MAX s1)
    by (apply list_bounds_frame; assumption).
  destruct pushed;
    [|inv H; split; [exact B1|intros N; exfalso; eapply N; reflexivity]].
  destruct (descend q _ s1) as [[r s2]|] eqn:E; [|discriminate].
  apply D in E as [B2 K2].
  destruct (Z.eqb_spec r 0) as [->|R]; cbn [negb] in H; inv H.
  - split; [auto|]. intros _. cbn. rewrite K2, K1 by reflexivity.
    apply removelast_last.
  - split; [auto|]. intros N. exfalso. eapply N; reflexivity.
Qed.

Lemma add_file_name_frame s dir name cp ct c s' :
  add_name s dir name cp ct = Some (c, s') ->
  (list_bounds FL_MAX s -> list_bounds FL_MAX s') /\ stack s' = stack s.
Proof.
  intros H. unfold add_file_name in H.
  destruct (nth_error _ _) as [enabled|]; [|discriminate].
  destruct (enabled =? 1);
    [|inv H; destruct (free_if_frame cp s) as (L & M & K);
      split; [apply list_bounds_frame; assumption|exact K]].
  destruct (match file_ext with Some _ => _ | None => _ end);
    [inv H; destruct (free_if_frame cp s) as (L & M & K);
     split; [apply list_bounds_frame; assumption|exact K]|].
  destruct (CREATE_CURRENT_PATH s cp dir name) as [[c1 s1]|] eqn:C;
    [|discriminate].
  apply CREATE_CURRENT_PATH_frame in C as (L1 & M1 & K1).
  assert (B1 : list_bounds FL_MAX s -> list_bounds FL_MAX s1)
    by (apply list_bounds_frame; assumption).
  destruct c1 as [r| |p]; [inv H; auto|inv H; auto|].
  assert (ADD : forall s2 path,
            (list_bounds FL_MAX s -> list_bounds FL_MAX s2) ->
            stack s2 = stack s ->
            match list_add s2 path with
            | (0, s) => Some (Go tt, s)
            | (_, s) => Some (Return (-1), free path s)
            end = Some (c, s') ->
            (list_bounds FL_MAX s -> list_bounds FL_MAX s')
            /\ stack s' = stack s).
  { intros s2 path B2 K2 A. destruct (list_add s2 path) as [r s3] eqn:F.
    pose proof (file_list_add_stack _ _ _ _ F) as K3.
    assert (B3 : list_bounds FL_MAX s -> list_bounds FL_MAX s3).
    { intros B. apply file_list_add_frame in F as (B3 & _); auto. }
    destruct r; inv A; [split; [exact B3|congruence]| |];
      (split; [|cbn; congruence]); intros B;
      apply (list_bounds_frame s3); try reflexivity; auto. }
  destruct (_ && _).
  - destruct (alloc s1) as [[|] s2] eqn:A; apply alloc_frame in A as (L & M & K).
    + apply (ADD s2 (p ++ [DIR_SEPARATOR])); [| |exact H].
      * intros B. eapply list_bounds_frame; eauto.
      * congruence.
    + inv H. cbn. split; [|congruence]. intros B.
      eapply list_bounds_frame; [| |exact (B1 B)]; cbn; assumption.
  - apply (ADD s1 p); auto.
Qed.

Lemma loop_body_frame descend name d_type st lst dir depth s c s' :
  (forall p d s r s',
     descend p d s = Some (r, s') ->
     (list_bounds FL_MAX s -> list_bounds FL_MAX s')
     /\ (r = 0 -> array (stack s') = array (stack s))) ->
  body descend name d_type st lst dir depth s = Some (c, s') ->
  (list_bounds FL_MAX s -> list_bounds FL_MAX s')
  /\ ((forall r, c <> Return r) -> array (stack s') = array (stack s)).
Proof.
  intros D H. unfold loop_body in H.
  destruct (current_or_parent name); [inv H; auto|].
  destruct (get_file_type flags s dir name d_type st lst) as [[c1 s1]|] eqn:G;
    [|discriminate].
  apply get_file_type_frame in G as (L1 & M1 & K1).
  assert (B1 : list_bounds FL_MAX s -> list_bounds FL_MAX s1)
    by (apply list_bounds_frame; assumption).
  destruct c1 as [r| |[[cp sb] ct]];
    [inv H; split; [exact B1|congruence]|inv H; split; [exact B1|congruence]|].
  destruct (traverse_next_directory flags descend s1 depth cp sb ct)
    as [[c2 s2]|] eqn:T; [|discriminate].
  apply traverse_next_directory_frame in T as [B2 K2]; [|exact D].
  destruct c2 as [r| |[]].
  - inv H. split; [auto|]. intros N. exfalso. eapply N; reflexivity.
  - inv H. split; [auto|]. intros _. rewrite K2 by discriminate. congruence.
  - apply add_file_name_frame in H as [B3 K3].
    split; [auto|]. intros _. rewrite K3, K2 by discriminate. congruence.
Qed.

Lemma parse_file_tree_frame :
  (forall dir directory depth s r s',
     parse dir directory depth s = Some (r, s') ->
     (list_bounds FL_MAX s -> list_bounds FL_MAX s')
     /\ (r = 0 -> array (stack s') = array (stack s)))
  /\ (forall entries directory depth s r s',
     readdir entries directory depth s = Some (r, s') ->
     (list_bounds FL_MAX s -> list_bounds FL_MAX s')
     /\ (r = 0 -> array (stack s') = array (stack s))).
Proof.
  apply (DIR_dirents_mut
    (fun dir => forall directory depth s r s',
       parse dir directory depth s = Some (r, s') ->
       (list_bounds FL_MAX s -> list_bounds FL_MAX s')
       /\ (r = 0 -> array (stack s') = array (stack s)))
    (fun entries => forall directory depth s r s',
       readdir entries directory depth s = Some (r, s') ->
       (list_bounds FL_MAX s -> list_bounds FL_MAX s')
       /\ (r = 0 -> array (stack s') = array (stack s)))).
  - intros e directory depth s r s' H. rewrite parse_file_tree_fails in H.
    destruct (negb (_ =? EACCES)); inv H; auto.
  - intros entries IH directory depth s r s' H.
    rewrite parse_file_tree_ok in H. eauto.
  - intros directory depth s r s' H. inv H. auto.
  - intros name d_type st lst sub IHsub rest IHrest directory depth s r s' H.
    rewrite readdir_loop_dirent in H.
    destruct (body (parse sub) name d_type st lst directory depth s)
      as [[c s1]|] eqn:Body; [|discriminate].
    pose proof (loop_body_return_value _ _ _ _ _ _ _ _ _ _ Body) as R.
    apply loop_body_frame in Body as [B1 K1]; [|exact IHsub].
    destruct c as [r0| |[]].
    + inv H. split; [exact B1|]. intros ->. discriminate (R 0 eq_refl).
    + apply IHrest in H as [B2 K2]. split; [auto|].
      intros Z0. rewrite K2, K1 by (auto; discriminate). reflexivity.
    + apply IHrest in H as [B2 K2]. split; [auto|].
      intros Z0. rewrite K2, K1 by (auto; discriminate). reflexivity.
Qed.

End Invariants.

(** X7. A traversal that returns 0 leaves the stat stack holding the
    entries it held at the start, whatever the tree and the flags are: every
    directory pushed on the way down has been popped on the way back. *)
Theorem parse_file_tree_restores_stack :
  forall (regex_t : Type) (regexec : regex_t -> list Z -> bool)
         (FL_MAX_LIST_SIZE_defined SIZE_MAX : Z) (file_type_arr : list Z)
         (file_ext : option regex_t) (flags : Z)
         (dir : DIR) (directory : list Z) (directory_depth : Z) (s s' : state),
  parse_file_tree regex_t regexec FL_MAX_LIST_SIZE_defined SIZE_MAX
    file_type_arr file_ext flags dir directory directory_depth s
  = Some (0, s') ->
  array (stack s') = array (stack s).
Proof.
  intros regex_t regexec FL_MAX_def SIZE_MAX file_type_arr file_ext flags
         dir directory depth s s' H.
  apply (proj1 (parse_file_tree_frame regex_t regexec FL_MAX_def SIZE_MAX
                  file_type_arr file_ext flags)) in H as [_ K].
  auto.
Qed.

(** X8. The traversal keeps the number of collected paths within the
    allocated size of the list, and that size within FL_MAX_LIST_SIZE,
    however it ends and whatever the allocator does: [file_list_add] never
    writes outside the array, and the list never holds more than
    FL_MAX_LIST_SIZE paths. *)
Theorem parse_file_tree_keeps_bounds :
  forall (regex_t : Type) (regexec : regex_t -> list Z -> bool)
         (FL_MAX_LIST_SIZE_defined SIZE_MAX : Z) (file_type_arr : list Z)
         (file_ext : option regex_t) (flags : Z)
         (dir : DIR) (directory : list Z) (directory_depth r : Z)
         (s s' : state),
  parse_file_tree regex_t regexec FL_MAX_LIST_SIZE_defined SIZE_MAX
    file_type_arr file_ext flags dir directory directory_depth s
  = Some (r, s') ->
  0 < n_file_list_max s ->
  n_file_list s <= n_file_list_max s
  <= FL_MAX_LIST_SIZE FL_MAX_LIST_SIZE_defined SIZE_MAX ->
  0 < n_file_list_max s'
  /\ n_file_list s' <= n_file_list_max s'
     <= FL_MAX_LIST_SIZE FL_MAX_LIST_SIZE_defined SIZE_MAX.
Proof.
  intros regex_t regexec FL_MAX_def SIZE_MAX file_type_arr file_ext flags
         dir directory depth r s s' H B0 B1.
  apply (proj1 (parse_file_tree_frame regex_t regexec FL_MAX_def SIZE_MAX
                  file_type_arr file_ext flags)) in H as [B _].
  apply B. split; assumption.
Qed.

(** X7, instance: the sample tree, traversed in full. *)
Lemma parse_file_tree_restores_stack_witness :
  exists s',
    parse_file_tree unit regexec_any 1048576 (2 ^ 64 - 1) (make_file_type_arr 0)
      None 0 small_tree (str "top") (-1) (traversal_start 512 top_stat 0 [] [])
    = Some (0, s')
    /\ array (stack s') = [top_stat].
Proof.
  eexists. split; [vm_compute; reflexivity|].
  apply (parse_file_tree_restores_stack unit regexec_any 1048576 (2 ^ 64 - 1)
           (make_file_type_arr 0) None 0 small_tree (str "top") (-1)
           (traversal_start 512 top_stat 0 [] [])).
  vm_compute. reflexivity.
Defined.

(** X8, instance: the sample tree under a maximum of 2 paths, where the
    traversal stops with E2BIG. *)
Lemma parse_file_tree_keeps_bounds_witness :
  exists s',
    parse_file_tree unit regexec_any 2 (2 ^ 64 - 1) (make_file_type_arr 0)
      None 0 small_tree (str "top") (-1) (traversal_start 1 top_stat 0 [] [])
    = Some (-1, s')
    /\ list_bounds 2 s'.
Proof.
  eexists. split; [vm_compute; reflexivity|].
  apply (parse_file_tree_keeps_bounds unit regexec_any 2 (2 ^ 64 - 1)
           (make_file_type_arr 0) None 0 small_tree (str "top") (-1) (-1)
           (traversal_start 1 top_stat 0 [] [])).
  - vm_compute. reflexivity.
  - reflexivity.
  - vm_compute. split; discriminate.
Defined.

(** ** What is listed *)

Section Listing.

Variable regex_t : Type.
Variable regexec : regex_t -> list Z -> bool.
Variables FL_MAX_def SIZE_MAX : Z.
Variable file_type_arr : list Z.
Variable file_ext : option regex_t.
Variable flags : Z.

Local Abbreviation list_add := (file_list_add FL_MAX_def SIZE_MAX).
Local Abbreviation add_name :=
  (add_file_name regex_t regexec FL_MAX_def SIZE_MAX file_type_arr file_ext flags).
Local Abbreviation body :=
  (loop_body regex_t regexec FL_MAX_def SIZE_MAX file_type_arr file_ext flags).
Local Abbreviation parse :=
  (parse_file_tree regex_t regexec FL_MAX_def SIZE_MAX file_type_arr file_ext flags).
Local Abbreviation readdir :=
  (readdir_loop regex_t regexec FL_MAX_def SIZE_MAX file_type_arr file_ext flags).

Lemma traverse_next_directory_listed Q descend s depth cp sb ct c s' :
  (forall q d s r s', cp = Some q -> ct = 4 ->
     descend q d s = Some (r, s') -> grows Q s s') ->
  traverse_next_directory flags descend s depth cp sb ct = Some (c, s') ->
  grows Q s s'.
Proof.
  unfold traverse_next_directory. intros D H.
  destruct (_ && _) eqn:A; [|inv H; apply grows_refl; reflexivity].
  apply andb_prop in A as [_ A]. apply Z.eqb_eq in A.
  destruct sb as [b|]; [|discriminate]. destruct cp as [q|]; [|discriminate].
  destruct (is_directory_loop _ _) as [[|]|]; try discriminate;
    [inv H; apply grows_refl; reflexivity|].
  match type of H with
  | context [match ?x with Some _ => _ | None => None end] => destruct x as [[|]|]
  end; try discriminate; [inv H; apply grows_refl; reflexivity|].
  destruct (stat_stack_push s b) as [[|] s1] eqn:P;
    apply stat_stack_push_list in P as [L _];
    [|inv H; apply grows_refl; exact L].
  destruct (descend q _ s1) as [[r s2]|] eqn:E; [|discriminate].
  apply (D q _ _ _ _ eq_refl A) in E.
  assert (G : grows Q s s2).
  { destruct E as (a & E & F). exists a. rewrite E, L. auto. }
  destruct (negb _); inv H; destruct G as (a & E' & F); exists a; auto.
Qed.

Lemma get_file_type_type s dir name d_type st lst c s' :
  get_file_type flags s dir name d_type st lst = Some (c, s') ->
  file_list s' = file_list s
  /\ match c with
     | Go (cp, sb, ct) =>
         entry_type flags d_type st lst = Some ct
         /\ (cp = None \/ cp = Some (path_of dir name))
     | Continue => entry_type flags d_type st lst = None
     | Return _ => True
     end.
Proof.
  unfold get_file_type, entry_type. intros H.
  destruct (_ || _); [|inv H; auto].
  destruct (CREATE_CURRENT_PATH s None dir name) as [[p s1]|] eqn:C; [|discriminate].
  apply CREATE_CURRENT_PATH_inv in C as [L P].
  destruct p as [r| |q]; [inv H; auto|contradiction|].
  destruct P as [[? _]|(_ & N & -> & _)]; [discriminate|].
  destruct (if has flags FL_FOLLOW_LINKS then st else lst); inv H; cbn; auto.
Qed.

Lemma add_file_name_listed s dir name cp ct c s' :
  cp = None \/ cp = Some (path_of dir name) ->
  add_name s dir name cp ct = Some (c, s') ->
  grows (fun p => selected regex_t regexec file_type_arr file_ext name ct = true
                  /\ p = listed_path flags ct (path_of dir name))
        s s'.
Proof.
  unfold add_file_name, selected, listed_path. intros Hcp H.
  destruct (nth_error _ _) as [enabled|]; [|discriminate].
  destruct (enabled =? 1);
    [|inv H; apply grows_refl; destruct cp; reflexivity].
  assert (M : match file_ext with
              | Some regex => negb (matches_regex regex_t regexec name regex)
              | None => false
              end
              = negb match file_ext with
                     | Some regex => matches_regex regex_t regexec name regex
                     | None => true
                     end) by (destruct file_ext; reflexivity).
  rewrite M in H. clear M.
  destruct (match file_ext with Some _ => _ | None => true end);
    cbn [negb andb] in *;
    [|inv H; apply grows_refl; destruct cp; reflexivity].
  destruct (CREATE_CURRENT_PATH s cp dir name) as [[p s1]|] eqn:C; [|discriminate].
  apply CREATE_CURRENT_PATH_inv in C as [L P].
  destruct p as [r| |q]; [inv H; apply grows_refl; exact L|contradiction|].
  assert (Eq : q = path_of dir name).
  { destruct P as [[-> _]|(_ & _ & -> & _)]; [|reflexivity].
    destruct Hcp as [?|[= ->]]; [discriminate|reflexivity]. }
  subst q. clear P Hcp.
  destruct ((ct =? 4) && has flags FL_DIR_SEP).
  - destruct (alloc s1) as [[|] s2] eqn:A; pose proof (alloc_list _ _ _ A) as L2.
    + destruct (list_add s2 _) as [r s3] eqn:F.
      apply file_list_add_inv in F as [[-> F]|(-> & F & _)]; inv H.
      * eexists [_]. rewrite F, L2, L. split; [reflexivity|].
        constructor; [split; reflexivity|constructor].
      * apply grows_refl. cbn. congruence.
    + inv H. apply grows_refl. cbn. congruence.
  - destruct (list_add s1 _) as [r s3] eqn:F.
    apply file_list_add_inv in F as [[-> F]|(-> & F & _)]; inv H.
    + eexists [_]. rewrite F, L. split; [reflexivity|].
      constructor; [split; reflexivity|constructor].
    + apply grows_refl. cbn. congruence.
Qed.

Lemma loop_body_listed Q descend name d_type st lst dir depth s c s' :
  (forall d s r s',
     descend (path_of dir name) d s = Some (r, s') -> grows Q s s') ->
  body descend name d_type st lst dir depth s = Some (c, s') ->
  if current_or_parent name then file_list s' = file_list s
  else
    match entry_type flags d_type st lst with
    | None => file_list s' = file_list s
    | Some ct =>
        grows (fun p =>
                 (ct = 4 /\ Q p)
                 \/ (selected regex_t regexec file_type_arr file_ext name ct
                     = true
                     /\ p = listed_path flags ct (path_of dir name)))
              s s'
    end.
Proof.
  intros D H. unfold loop_body in H.
  destruct (current_or_parent name); [inv H; reflexivity|].
  rename H into B.
  destruct (get_file_type flags s dir name d_type st lst) as [[c1 s1]|] eqn:G;
    [|discriminate].
  apply get_file_type_type in G as [L1 P1].
  destruct c1 as [r| |[[cp sb] ct]].
  - inv B. destruct (entry_type _ _ _ _); [apply grows_refl|]; exact L1.
  - inv B. rewrite P1. exact L1.
  - destruct P1 as [-> CP].
    destruct (traverse_next_directory flags descend s1 depth cp sb ct)
      as [[c2 s2]|] eqn:T; [|discriminate].
    assert (G1 : grows (fun p => ct = 4 /\ Q p) s s2).
    { apply traverse_next_directory_listed
        with (Q := fun p => ct = 4 /\ Q p) in T.
      - destruct T as (a & E & F). exists a. rewrite E, L1. auto.
      - intros q d s0 r s0' -> C4 E.
        destruct CP as [?|[= ->]]; [discriminate|]. apply D in E.
        eapply grows_weaken; [|exact E]. intros p Hp. split; assumption. }
    eapply grows_weaken with (Q' := fun p => (ct = 4 /\ Q p) \/ _) in G1;
      [|intros p Hp; left; exact Hp].
    destruct c2 as [r| |[]]; [inv B; exact G1|inv B; exact G1|].
    eapply grows_trans; [exact G1|].
    apply add_file_name_listed in B; [|exact CP].
    eapply grows_weaken; [|exact B]. intros p Hp. right. exact Hp.
Qed.

(** What the traversal adds to the list are paths of selected entries of
    the tree. *)
Lemma parse_file_tree_listed :
  (forall dir directory depth s r s',
     parse dir directory depth s = Some (r, s') ->
     grows (fun p => In p (selected_paths regex_t regexec file_type_arr
                             file_ext flags dir directory)) s s')
  /\ (forall entries directory depth s r s',
     readdir entries directory depth s = Some (r, s') ->
     grows (fun p => In p (selected_entries regex_t regexec file_type_arr
                             file_ext flags entries directory)) s s').
Proof.
  apply (DIR_dirents_mut
    (fun dir => forall directory depth s r s',
       parse dir directory depth s = Some (r, s') ->
       grows (fun p => In p (selected_paths regex_t regexec file_type_arr
                               file_ext flags dir directory)) s s')
    (fun entries => forall directory depth s r s',
       readdir entries directory depth s = Some (r, s') ->
       grows (fun p => In p (selected_entries regex_t regexec file_type_arr
                               file_ext flags entries directory)) s s')).
  - intros e directory depth s r s' H. rewrite parse_file_tree_fails in H.
    destruct (negb (_ =? EACCES)); inv H; apply grows_refl; reflexivity.
  - intros entries IH directory depth s r s' H.
    rewrite parse_file_tree_ok in H. cbn [selected_paths]. eauto.
  - intros directory depth s r s' H. inv H. apply grows_refl; reflexivity.
  - intros name d_type st lst sub IHsub rest IHrest directory depth s r s' H.
    rewrite readdir_loop_dirent in H.
    destruct (body (parse sub) name d_type st lst directory depth s)
      as [[c s1]|] eqn:B; [|discriminate].
    apply loop_body_listed
      with (Q := fun p => In p (selected_paths regex_t regexec file_type_arr
                                  file_ext flags sub (path_of directory name)))
      in B; [|intros d s0 r0 s0' E; eapply IHsub; eauto].
    cbn [selected_entries].
    assert (G : grows (fun p => In p
                (if current_or_parent name then []
                 else
                   match entry_type flags d_type st lst with
                   | None => []
                   | Some ct =>
                       (if ct =? 4
                        then selected_paths regex_t regexec file_type_arr
                               file_ext flags sub (path_of directory name)
                        else [])
                       ++ (if selected regex_t regexec file_type_arr file_ext
                                name ct
                           then [listed_path flags ct (path_of directory name)]
                           else [])
                   end)) s s1).
    { destruct (current_or_parent name); [apply grows_refl; exact B|].
      destruct (entry_type flags d_type st lst) as [ct|];
        [|apply grows_refl; exact B].
      eapply grows_weaken; [|exact B].
      intros p [[-> Hp]|[S ->]]; apply in_or_app; [left; exact Hp|right].
      rewrite S. left. reflexivity. }
    eapply grows_weaken with (Q' := fun p => In p (_ ++ _)) in G;
      [|intros p Hp; apply in_or_app; left; exact Hp].
    destruct c as [r0| |[]].
    + inv H. exact G.
    + eapply grows_trans; [exact G|]. apply IHrest in H.
      eapply grows_weaken; [|exact H]. intros p Hp. apply in_or_app. right.
      exact Hp.
    + eapply grows_trans; [exact G|]. apply IHrest in H.
      eapply grows_weaken; [|exact H]. intros p Hp. apply in_or_app. right.
      exact Hp.
Qed.

End Listing.

Lemma path_of_prefix dir name : exists rest, path_of dir name = dir ++ rest.
Proof.
  unfold path_of. destruct (_ =? _); eauto.
Qed.

Lemma listed_path_prefix flags ct dir name :
  exists rest, listed_path flags ct (path_of dir name) = dir ++ rest.
Proof.
  destruct (path_of_prefix dir name) as [rest E]. unfold listed_path.
  destruct (_ && _); rewrite E; [|eauto].
  exists (rest ++ [DIR_SEPARATOR]). rewrite app_assoc. reflexivity.
Qed.

Lemma selected_paths_prefix regex_t regexec file_type_arr file_ext flags :
  (forall dir directory p,
     In p (selected_paths regex_t regexec file_type_arr file_ext flags dir
             directory) ->
     exists rest, p = directory ++ rest)
  /\ (forall entries directory p,
     In p (selected_entries regex_t regexec file_type_arr file_ext flags
             entries directory) ->
     exists rest, p = directory ++ rest).
Proof.
  apply (DIR_dirents_mut
    (fun dir => forall directory p,
       In p (selected_paths regex_t regexec file_type_arr file_ext flags dir
               directory) ->
       exists rest, p = directory ++ rest)
    (fun entries => forall directory p,
       In p (selected_entries regex_t regexec file_type_arr file_ext flags
               entries directory) ->
       exists rest, p = directory ++ rest)).
  - intros e directory p [].
  - intros entries IH directory p I. apply IH. exact I.
  - intros directory p [].
  - intros name d_type st lst sub IHsub rest IHrest directory p I.
    cbn [selected_entries] in I. apply in_app_or in I as [I|I]; [|auto].
    destruct (current_or_parent name); [destruct I|].
    destruct (entry_type flags d_type st lst) as [ct|]; [|destruct I].
    apply in_app_or in I as [I|I].
    + destruct (ct =? 4); [|destruct I]. apply IHsub in I as [more ->].
      destruct (path_of_prefix directory name) as [rest' ->].
      exists (rest' ++ more). rewrite app_assoc. reflexivity.
    + destruct (selected _ _ _ _ _ _); [|destruct I].
      destruct I as [<-|[]]. apply listed_path_prefix.
Qed.

(** ** Results of [file_list_create] *)

Section CreateResults.

Variable regex_t : Type.
Variable regcomp : list Z -> Z -> option regex_t.
Variable regexec : regex_t -> list Z -> bool.
Variable strcoll : list Z -> list Z -> option Z.
Variables FL_INITIAL FL_MAX_def SIZE_MAX : Z.

Local Abbreviation FL_MAX := (FL_MAX_LIST_SIZE FL_MAX_def SIZE_MAX).
Local Abbreviation parse :=
  (parse_file_tree regex_t regexec FL_MAX_def SIZE_MAX).
Local Abbreviation create :=
  (file_list_create regex_t regcomp regexec strcoll FL_INITIAL FL_MAX_def SIZE_MAX).

(** A call of [file_list_create] that leaves a terminated list has passed
    the set-up and run the traversal from an empty list. *)
Lemma file_list_create_inv file_type regex_pattern dir depth flags sort_method
    dir_stat root errno0 heap0 stderr0 c :
  create file_type regex_pattern dir depth flags sort_method dir_stat root
         errno0 heap0 stderr0 = Some c ->
  (returned c = -1 /\ forall l, list_out c <> terminated l)
  \/ exists d regex sb s0 ret s sorted,
       dir = Some d /\ d <> []
       /\ compile_regex regex_t regcomp regex_pattern flags = Some regex
       /\ dir_stat = stat_ok sb
       /\ file_list s0 = [] /\ n_file_list_max s0 = FL_INITIAL
       /\ array (stack s0) = [sb]
       /\ parse (make_file_type_arr file_type) regex flags root (clean_dir d)
                depth s0 = Some (ret, s)
       /\ (ret = 0 \/ errno s = E2BIG)
       /\ match get_compar_fn strcoll sort_method with
          | Some compar_fn => qsort compar_fn (file_list s)
          | None => Some (file_list s)
          end = Some sorted
       /\ list_out c = terminated sorted
       /\ returned c = n_file_list s
       /\ errno_out c = errno s.
Proof.
  unfold file_list_create. intros H.
  set (s0 := mk_state [] FL_INITIAL (mk_stack 0 []) errno0 heap0 [] stderr0) in H.
  destruct (alloc s0) as [[|] s1] eqn:A1;
    [|inv H; left; split; [reflexivity|discriminate]].
  apply alloc_frame in A1 as (L1 & M1 & _).
  destruct (compile_regex regex_t regcomp regex_pattern flags) as [regex|] eqn:C;
    [|inv H; left; split; [reflexivity|discriminate]].
  destruct (create_clean_dir s1 dir) as [[start_dir|] s2] eqn:CD;
    [|inv H; left; split; [reflexivity|discriminate]].
  assert (M2 : n_file_list_max s2 = n_file_list_max s1).
  { unfold create_clean_dir in CD. destruct dir as [[|x d]|]; try discriminate.
    destruct (alloc s1) as [[|] s'] eqn:A; inv CD.
    apply alloc_frame in A as (_ & M & _). exact M. }
  apply create_clean_dir_inv in CD as [L2 CD].
  destruct (CD start_dir eq_refl) as (d & -> & N & ->). clear CD.
  destruct (alloc s2) as [[|] s3] eqn:A3;
    [|inv H; left; split; [reflexivity|discriminate]].
  apply alloc_frame in A3 as (L3 & M3 & _).
  destruct dir_stat as [e|sb];
    [inv H; left; split; [reflexivity|discriminate]|].
  match type of H with
  | context [parse ?a ?r ?f ?t ?p ?k ?st] =>
      set (start := st) in H;
      destruct (parse a r f t p k start) as [[ret s]|] eqn:P
  end; [|discriminate].
  cbv zeta in H.
  destruct (negb (ret =? 0) && negb (errno (free (clean_dir d) s) =? E2BIG))
    eqn:F; [inv H; left; split; [reflexivity|discriminate]|].
  destruct (alloc (free (clean_dir d) s)) as [[|] s4] eqn:A4;
    [|inv H; left; split; [reflexivity|discriminate]].
  pose proof (alloc_errno _ _ _ A4) as E4. cbn in E4.
  apply alloc_frame in A4 as (L4 & _ & _). cbn in L4.
  match type of H with
  | context [match ?q with Some _ => _ | None => None end] =>
      destruct q as [sorted|] eqn:Q
  end; [|discriminate].
  inv H. right. exists d, regex, sb, start, ret, s, sorted.
  cbn [list_out returned errno_out].
  split; [reflexivity|]. split; [exact N|]. split; [reflexivity|].
  split; [reflexivity|].
  assert (ST : file_list start = [] /\ n_file_list_max start = FL_INITIAL
               /\ array (stack start) = [sb]).
  { subst start. unfold stat_stack_push. cbn.
    rewrite L3, L2, L1, M3, M2, M1. subst s0. auto. }
  destruct ST as (LS & MS & KS).
  split; [exact LS|]. split; [exact MS|]. split; [exact KS|].
  split; [exact P|]. split.
  { cbn [errno free] in F. destruct (Z.eqb_spec ret 0); [auto|].
    destruct (Z.eqb_spec (errno s) E2BIG); [auto|discriminate]. }
  rewrite <- L4. split; [exact Q|]. split; [reflexivity|].
  split; [unfold n_file_list; rewrite L4; reflexivity|exact E4].
Qed.

End CreateResults.

(** X9. Whenever [file_list_create] returns a count and not -1, the caller's
    list is terminated and holds exactly that many paths, and that number is
    at most FL_MAX_LIST_SIZE; whenever it returns -1, the list is not a
    terminated list. The initial list size is taken to be positive and at
    most the maximum, as it is defined. *)
Theorem file_list_create_count :
  forall (regex_t : Type) (regcomp : list Z -> Z -> option regex_t)
         (regexec : regex_t -> list Z -> bool)
         (strcoll : list Z -> list Z -> option Z)
         (FL_INITIAL_LIST_SIZE FL_MAX_LIST_SIZE_defined SIZE_MAX : Z)
         file_type regex_pattern dir depth flags sort_method dir_stat root
         errno0 heap0 stderr0 c,
  0 < FL_INITIAL_LIST_SIZE
  <= FL_MAX_LIST_SIZE FL_MAX_LIST_SIZE_defined SIZE_MAX ->
  file_list_create regex_t regcomp regexec strcoll FL_INITIAL_LIST_SIZE
    FL_MAX_LIST_SIZE_defined SIZE_MAX file_type regex_pattern dir depth flags
    sort_method dir_stat root errno0 heap0 stderr0 = Some c ->
  (returned c = -1 /\ forall l, list_out c <> terminated l)
  \/ (exists l, list_out c = terminated l
                /\ returned c = Z.of_nat (length l)
                /\ 0 <= returned c
                   <= FL_MAX_LIST_SIZE FL_MAX_LIST_SIZE_defined SIZE_MAX).
Proof.
  intros regex_t regcomp regexec strcoll FL_INITIAL FL_MAX_def SIZE_MAX
         file_type regex_pattern dir depth flags sort_method dir_stat root
         errno0 heap0 stderr0 c INIT H.
  apply file_list_create_inv in H
    as [H|(d & regex & sb & s0 & ret & s & sorted & _ & _ & _ & _ & L0 & M0 & _
          & P & _ & Q & LO & R & _)]; [left; exact H|].
  right. exists sorted. split; [exact LO|].
  assert (PERM : Permutation (file_list s) sorted).
  { destruct (get_compar_fn strcoll sort_method).
    - eapply qsort_perm; eauto.
    - inv Q. apply Permutation_refl. }
  apply (proj1 (parse_file_tree_frame regex_t regexec FL_MAX_def SIZE_MAX _ _ _))
    in P as [B _].
  assert (B0 : list_bounds (FL_MAX_LIST_SIZE FL_MAX_def SIZE_MAX) s0).
  { unfold list_bounds, n_file_list. rewrite L0, M0. cbn. lia. }
  destruct (B B0) as (_ & B1 & B2).
  rewrite R. unfold n_file_list in *. rewrite (Permutation_length PERM) in *.
  split; [reflexivity|]. lia.
Qed.

(** X10. Every path of the list that [file_list_create] returns is the path
    of an entry of the tree below the start directory that the filters
    select: an entry other than . and .. whose type, as [d_type] or [stat]
    gives it, is enabled and whose name matches the expression, if there is
    one. The path is built by [create_path] from the cleaned start directory
    downwards, so it begins with that directory, and it is followed by a
    separator exactly when the entry is a directory and FL_DIR_SEP is
    set. *)
Theorem file_list_create_lists_entries :
  forall (regex_t : Type) (regcomp : list Z -> Z -> option regex_t)
         (regexec : regex_t -> list Z -> bool)
         (strcoll : list Z -> list Z -> option Z)
         (FL_INITIAL_LIST_SIZE FL_MAX_LIST_SIZE_defined SIZE_MAX : Z)
         file_type regex_pattern dir depth flags sort_method dir_stat root
         errno0 heap0 stderr0 c l,
  file_list_create regex_t regcomp regexec strcoll FL_INITIAL_LIST_SIZE
    FL_MAX_LIST_SIZE_defined SIZE_MAX file_type regex_pattern dir depth flags
    sort_method dir_stat root errno0 heap0 stderr0 = Some c ->
  list_out c = terminated l ->
  exists d regex,
    dir = Some d
    /\ compile_regex regex_t regcomp regex_pattern flags = Some regex
    /\ Forall (fun path =>
                In path (selected_paths regex_t regexec
                           (make_file_type_arr file_type) regex flags root
                           (clean_dir d))) l
    /\ Forall (fun path => exists rest, path = clean_dir d ++ rest) l.
Proof.
  intros regex_t regcomp regexec strcoll FL_INITIAL FL_MAX_def SIZE_MAX
         file_type regex_pattern dir depth flags sort_method dir_stat root
         errno0 heap0 stderr0 c l H LO.
  apply file_list_create_inv in H
    as [[_ H]|(d & regex & sb & s0 & ret & s & sorted & -> & _ & C & _ & L0 & _ & _
              & P & _ & Q & LO' & _)]; [destruct (H l LO)|].
  rewrite LO in LO'. injection LO' as <-.
  exists d, regex. split; [reflexivity|]. split; [exact C|].
  assert (PERM : Permutation (file_list s) l).
  { destruct (get_compar_fn strcoll sort_method).
    - eapply qsort_perm; eauto.
    - inv Q. apply Permutation_refl. }
  apply (proj1 (parse_file_tree_listed regex_t regexec FL_MAX_def SIZE_MAX _ _ _))
    in P as (added & E & F).
  rewrite L0 in E. cbn [app] in E. rewrite <- E in F.
  assert (F' : Forall (fun path =>
                         In path (selected_paths regex_t regexec
                                    (make_file_type_arr file_type) regex flags
                                    root (clean_dir d))) l)
    by (eapply Permutation_Forall; eauto).
  split; [exact F'|].
  eapply Forall_impl; [|exact F']. intros p I.
  exact (proj1 (selected_paths_prefix regex_t regexec _ regex flags) root
           (clean_dir d) p I).
Qed.

(** X11. If [opendir] fails on the start directory, what
    [file_list_create] does is decided by [errno] as the debug write that
    reports the failure leaves it, [e'] below. With EACCES there (or E2BIG)
    the call does not fail: once the set-up and the last [realloc] succeed
    it returns 0 and an empty terminated list. With any other value it
    returns -1, the list deallocated and the pointer reset. So a start
    directory that cannot be read for lack of permission gives the empty
    list if the write leaves [errno] alone, and a failure if the write
    itself fails. *)
Theorem file_list_create_unreadable_start :
  forall (regex_t : Type) (regcomp : list Z -> Z -> option regex_t)
         (regexec : regex_t -> list Z -> bool)
         (strcoll : list Z -> list Z -> option Z)
         (FL_INITIAL_LIST_SIZE FL_MAX_LIST_SIZE_defined SIZE_MAX : Z)
         file_type regex_pattern d depth flags sort_method sb e errno0 heap0
         stderr0 regex h,
  compile_regex regex_t regcomp regex_pattern flags = Some regex ->
  d <> [] ->
  allocs_succeed 4 heap0 = Some h ->
  let e' := match stderr0 with Some written :: _ => written | _ => e end in
  file_list_create regex_t regcomp regexec strcoll FL_INITIAL_LIST_SIZE
    FL_MAX_LIST_SIZE_defined SIZE_MAX file_type regex_pattern (Some d) depth
    flags sort_method (stat_ok sb) (opendir_fails e) errno0 heap0 stderr0
  = if (e' =? EACCES) || (e' =? E2BIG)
    then Some (mk_created 0 (terminated []) e' [clean_dir d])
    else Some (mk_created (-1) null_ptr e' [clean_dir d]).
Proof.
  intros regex_t regcomp regexec strcoll FL_INITIAL FL_MAX_def SIZE_MAX
         file_type regex_pattern d depth flags sort_method sb e errno0 heap0
         stderr0 regex h C N A e'.
  assert (A3 : exists h3, allocs_succeed 3 heap0 = Some h3
                          /\ allocs_succeed 1 h3 = Some h).
  { clear - A. destruct heap0 as [|[|] [|[|] [|[|] h3]]]; cbn in *;
      try discriminate; eauto. }
  destruct A3 as (h3 & A3 & A1).
  rewrite (file_list_create_populated _ _ _ _ _ _ _ _ _ _ _ _ _ _ _ _ _ _ regex h3
             C N A3).
  rewrite parse_file_tree_fails.
  set (s1 := DEBUG_PRINTF
               (set_errno e (traversal_start FL_INITIAL sb errno0 h3 stderr0))).
  assert (E1 : errno s1 = e') by reflexivity.
  assert (H1 : heap s1 = h3) by reflexivity.
  assert (L1 : file_list s1 = []) by reflexivity.
  assert (F1 : freed s1 = []) by reflexivity.
  clearbody s1. rewrite E1.
  assert (AL : exists s',
            alloc (free (clean_dir d) s1) = (true, s')
            /\ file_list s' = [] /\ errno s' = e'
            /\ freed s' = [clean_dir d]).
  { unfold alloc. cbn [heap free]. rewrite H1.
    destruct h3 as [|[|] h3']; cbn in A1; try discriminate;
      eexists; (split; [reflexivity|]); cbn; rewrite ?L1, ?E1, ?F1; auto. }
  destruct AL as (s' & AL & L & E & F).
  assert (KEPT : (' (ret, s) <- Some (0, s1) ;;
                  let s := free (clean_dir d) s in
                  if negb (ret =? 0) && negb (errno s =? E2BIG) then
                    Some (mk_created (-1) null_ptr (errno s)
                                     (freed s ++ file_list s))
                  else
                    match alloc s with
                    | (false, s) =>
                        Some (mk_created (-1) (unterminated (file_list s))
                                         (errno s) (freed s))
                    | (true, s) =>
                        sorted <-
                          match get_compar_fn strcoll sort_method with
                          | Some compar_fn => qsort compar_fn (file_list s)
                          | None => Some (file_list s)
                          end ;;
                        Some (mk_created (n_file_list s) (terminated sorted)
                                         (errno s) (freed s))
                    end)
                 = Some (mk_created 0 (terminated []) e' [clean_dir d])).
  { cbv zeta. cbn [Z.eqb negb andb]. rewrite AL. unfold n_file_list.
    rewrite L, E, F. destruct (get_compar_fn strcoll sort_method); reflexivity. }
  destruct (Z.eqb_spec e' EACCES) as [EA|NE]; cbn [negb orb].
  - exact KEPT.
  - cbv zeta. cbn [Z.eqb negb andb errno free]. rewrite !E1.
    destruct (Z.eqb_spec e' E2BIG) as [EB|NB]; cbn [negb].
    + rewrite AL. unfold n_file_list.
      rewrite L, E, F. cbn. destruct (get_compar_fn strcoll sort_method); reflexivity.
    + cbn [freed free file_list]. rewrite L1, F1. reflexivity.
Qed.

(** X9, instance: the sample tree listed in full. *)
Lemma file_list_create_count_witness :
  (exists l,
     terminated (map str ["top/a"; "top/b"; "top/sub"; "top/sub/A";
                          "top/sub/x"]%string) = terminated l
     /\ 5 = Z.of_nat (length l) /\ 0 <= 5 <= 1048576).
Proof.
  destruct (file_list_create_count unit regcomp_any regexec_any strcmp 512
              1048576 (2 ^ 64 - 1) 0 None (Some (str "top")) (-1) 0
              FL_SORT_DEFAULT (stat_ok top_stat) small_tree 0 [] []
              (mk_created 5
                 (terminated (map str ["top/a"; "top/b"; "top/sub";
                                       "top/sub/A"; "top/sub/x"]%string))
                 0 [str "top"]))
    as [[R _]|H].
  - vm_compute. split; [reflexivity|discriminate].
  - vm_compute. reflexivity.
  - discriminate R.
  - exact H.
Defined.

(** X10, instance: the sample tree, directories only, with FL_DIR_SEP. *)
Lemma file_list_create_lists_entries_witness :
  exists d regex,
    Some (str "top//") = Some d
    /\ compile_regex unit regcomp_any None FL_DIR_SEP = Some regex
    /\ Forall (fun path =>
                In path (selected_paths unit regexec_any
                           (make_file_type_arr FL_DIR) regex FL_DIR_SEP
                           small_tree (clean_dir d)))
         [str "top/sub/"]
    /\ Forall (fun path => exists rest, path = clean_dir d ++ rest)
         [str "top/sub/"].
Proof.
  apply (file_list_create_lists_entries unit regcomp_any regexec_any strcmp 512
           1048576 (2 ^ 64 - 1) FL_DIR None (Some (str "top//")) (-1) FL_DIR_SEP
           FL_SORT_DEFAULT (stat_ok top_stat) small_tree 0 [] []
           (mk_created 1 (terminated [str "top/sub/"]) 0 [str "top"])).
  - vm_compute. reflexivity.
  - reflexivity.
Defined.

(** X11, instance: a start directory that [opendir] refuses with EACCES,
    the debug write failing with EBADF (9), as it does on a closed stream. *)
Lemma file_list_create_unreadable_start_witness :
  file_list_create unit regcomp_any regexec_any strcmp 512 1048576 (2 ^ 64 - 1)
    0 None (Some (str "top")) (-1) 0 FL_SORT_DEFAULT (stat_ok top_stat)
    (opendir_fails EACCES) 0 [] [Some 9]
  = Some (mk_created (-1) null_ptr 9 [str "top"]).
Proof.
  apply (file_list_create_unreadable_start unit regcomp_any regexec_any strcmp
           512 1048576 (2 ^ 64 - 1) 0 None (str "top") (-1) 0 FL_SORT_DEFAULT
           top_stat EACCES 0 [] [Some 9] None []).
  - reflexivity.
  - discriminate.
  - reflexivity.
Defined.

(** ** [file_list_merge] and [file_list_destroy] *)

(** X12. The overflow check of [file_list_merge] is exact: the call fails
    with ERANGE exactly when the two sizes and the terminator do not fit
    [size_t], that is when their sum [n] is at least SIZE_MAX; then it
    returns -1 and leaves the destination and the source as they were. So it
    does when [realloc], asked for a number of bytes other than 0, fails.
    Where the number of bytes, [n + 1] times the size of a pointer, wraps to
    0, the call has no defined result: what [realloc] does then is left to
    the implementation, which may free the destination. *)
Theorem file_list_merge_errors :
  forall (strcoll : list Z -> list Z -> option Z)
         (SIZE_MAX sizeof_char_ptr : Z)
         destination n_dest source n_source sort_method errno0
         realloc_succeeds,
  0 < SIZE_MAX ->
  0 <= merge_size n_dest destination <= SIZE_MAX ->
  0 <= merge_size n_source source <= SIZE_MAX ->
  let n := merge_size n_dest destination + merge_size n_source source in
  (SIZE_MAX <= n ->
   file_list_merge strcoll SIZE_MAX sizeof_char_ptr destination n_dest source
     n_source sort_method errno0 realloc_succeeds
   = Some (mk_merged (-1) destination (Some source) ERANGE))
  /\ (n < SIZE_MAX ->
      ((n + 1) * sizeof_char_ptr) mod (SIZE_MAX + 1) <> 0 ->
      realloc_succeeds = false ->
      file_list_merge strcoll SIZE_MAX sizeof_char_ptr destination n_dest
        source n_source sort_method errno0 realloc_succeeds
      = Some (mk_merged (-1) destination (Some source) ENOMEM))
  /\ (n < SIZE_MAX ->
      ((n + 1) * sizeof_char_ptr) mod (SIZE_MAX + 1) = 0 ->
      file_list_merge strcoll SIZE_MAX sizeof_char_ptr destination n_dest
        source n_source sort_method errno0 realloc_succeeds
      = None)
  /\ (forall m,
        file_list_merge strcoll SIZE_MAX sizeof_char_ptr destination n_dest
          source n_source sort_method errno0 realloc_succeeds = Some m ->
        merge_errno m = ERANGE ->
        errno0 <> ERANGE ->
        SIZE_MAX <= n).
Proof.
  intros strcoll SIZE_MAX sizeof_char_ptr destination n_dest source n_source
         sort_method errno0 ok S D R n.
  subst n. unfold merge_size in *. unfold file_list_merge.
  set (nd := if n_dest =? 0 then file_list_getsize destination else n_dest) in *.
  set (ns := if n_source =? 0 then file_list_getsize source else n_source) in *.
  assert (CHECK : ((nd + ns) mod (SIZE_MAX + 1) <? ns)
                  || (((nd + ns) mod (SIZE_MAX + 1) + 1) mod (SIZE_MAX + 1) =? 0)
                  = (SIZE_MAX <=? nd + ns)).
  { destruct (Z.leb_spec SIZE_MAX (nd + ns)) as [G|G].
    - destruct (Z.eq_dec (nd + ns) SIZE_MAX) as [E|E].
      + rewrite E, Z.mod_small by lia.
        replace (SIZE_MAX + 1) with (1 * (SIZE_MAX + 1)) at 1 by lia.
        rewrite Z.mod_mul by lia. apply orb_true_r.
      + rewrite <- (Zmod_unique (nd + ns) (SIZE_MAX + 1) 1
                      (nd + ns - (SIZE_MAX + 1))) by lia.
        replace (nd + ns - (SIZE_MAX + 1) <? ns) with true
          by (symmetry; apply Z.ltb_lt; lia).
        reflexivity.
    - rewrite (Z.mod_small (nd + ns)) by lia.
      rewrite Z.mod_small by lia.
      replace (nd + ns <? ns) with false by (symmetry; apply Z.ltb_ge; lia).
      replace (nd + ns + 1 =? 0) with false by (symmetry; apply Z.eqb_neq; lia).
      reflexivity. }
  rewrite CHECK. cbv zeta.
  split; [|split; [|split]].
  - intros G. replace (SIZE_MAX <=? nd + ns) with true
      by (symmetry; apply Z.leb_le; exact G).
    reflexivity.
  - intros G B ->. replace (SIZE_MAX <=? nd + ns) with false
      by (symmetry; apply Z.leb_gt; exact G).
    rewrite (Z.mod_small (nd + ns)) by lia.
    replace (_ =? 0) with false by (symmetry; apply Z.eqb_neq; exact B).
    reflexivity.
  - intros G B. replace (SIZE_MAX <=? nd + ns) with false
      by (symmetry; apply Z.leb_gt; exact G).
    rewrite (Z.mod_small (nd + ns)) by lia. rewrite B. reflexivity.
  - intros m H E NE. destruct (Z.leb_spec SIZE_MAX (nd + ns)) as [G|G];
      [exact G|exfalso].
    rewrite (Z.mod_small (nd + ns)) in H by lia.
    destruct (((nd + ns + 1) * sizeof_char_ptr) mod (SIZE_MAX + 1) =? 0);
      [discriminate|].
    destruct ok; cbn [negb] in H.
    + destruct (_ && _); [|discriminate].
      match type of H with
      | context [match ?q with Some _ => _ | None => None end] =>
          destruct q as [sorted|]
      end; [|discriminate].
      inv H. cbn in E. contradiction.
    + inv H. discriminate E.
Qed.

(** X13. A [file_list_merge] that succeeds returns the sum of the two
    sizes, leaves [errno] alone, sets the source pointer to null and leaves
    as destination a permutation of the first [n_dest] paths of the
    destination followed by the first [n_source] paths of the source; with
    both sizes given as 0, a permutation of all paths of both lists. *)
Theorem file_list_merge_appends :
  forall (strcoll : list Z -> list Z -> option Z)
         (SIZE_MAX sizeof_char_ptr : Z)
         destination n_dest source n_source sort_method errno0
         realloc_succeeds m,
  0 < SIZE_MAX ->
  0 <= merge_size n_dest destination ->
  0 <= merge_size n_source source ->
  merge_size n_dest destination + merge_size n_source source < SIZE_MAX ->
  file_list_merge strcoll SIZE_MAX sizeof_char_ptr destination n_dest source
    n_source sort_method errno0 realloc_succeeds
  = Some m ->
  merge_returned m <> -1 ->
  merge_returned m = merge_size n_dest destination + merge_size n_source source
  /\ merge_errno m = errno0
  /\ source_out m = None
  /\ Permutation
       (firstn (Z.to_nat (merge_size n_dest destination)) destination
        ++ firstn (Z.to_nat (merge_size n_source source)) source)
       (destination_out m)
  /\ (n_dest = 0 -> n_source = 0 ->
      Permutation (destination ++ source) (destination_out m)).
Proof.
  intros strcoll SIZE_MAX sizeof_char_ptr destination n_dest source n_source
         sort_method errno0 ok m S D R G H NE.
  unfold merge_size in *. unfold file_list_merge in H.
  set (nd := if n_dest =? 0 then file_list_getsize destination else n_dest) in *.
  set (ns := if n_source =? 0 then file_list_getsize source else n_source) in *.
  rewrite (Z.mod_small (nd + ns)) in H by lia.
  rewrite (Z.mod_small (nd + ns + 1)) in H by lia.
  replace (nd + ns <? ns) with false in H by (symmetry; apply Z.ltb_ge; lia).
  replace (nd + ns + 1 =? 0) with false in H by (symmetry; apply Z.eqb_neq; lia).
  cbn [orb] in H. cbv zeta in H.
  destruct (((nd + ns + 1) * sizeof_char_ptr) mod (SIZE_MAX + 1) =? 0);
    [discriminate|].
  destruct ok; cbn [negb] in H; [|inv H; cbn in NE; congruence].
  destruct (_ && _); [|discriminate].
  match type of H with
  | context [match ?q with Some _ => _ | None => None end] =>
      destruct q as [sorted|] eqn:Q
  end; [|discriminate].
  inv H. cbn [merge_returned merge_errno source_out destination_out].
  assert (PERM : Permutation (firstn (Z.to_nat nd) destination
                              ++ firstn (Z.to_nat ns) source) sorted).
  { destruct (get_compar_fn strcoll sort_method).
    - eapply qsort_perm; eauto.
    - inv Q. apply Permutation_refl. }
  repeat split; auto.
  intros -> ->. subst nd ns. cbn [Z.eqb] in PERM.
  unfold file_list_getsize in PERM. rewrite !Nat2Z.id, !firstn_all in PERM.
  exact PERM.
Qed.

(** X12, instance: two lists of one path, sizes left to be counted, and a
    [realloc] that fails. *)
Lemma file_list_merge_errors_witness :
  file_list_merge strcmp (2 ^ 64 - 1) 8 [str "./a"] 0 [str "./b"] 0
    FL_SORT_DEFAULT 0 false
  = Some (mk_merged (-1) [str "./a"] (Some [str "./b"]) ENOMEM).
Proof.
  apply (file_list_merge_errors strcmp (2 ^ 64 - 1) 8 [str "./a"] 0
           [str "./b"] 0 FL_SORT_DEFAULT 0 false);
    vm_compute; intuition discriminate.
Defined.

(** X13, instance: "./b" and "./a" merged with sizes left to be counted. *)
Lemma file_list_merge_appends_witness :
  Permutation ([str "./b"] ++ [str "./a"]) [str "./a"; str "./b"].
Proof.
  apply (file_list_merge_appends strcmp (2 ^ 64 - 1) 8 [str "./b"] 0 [str "./a"] 0
           FL_SORT_DEFAULT 0 true
           (mk_merged 2 [str "./a"; str "./b"] None 0));
    try (vm_compute; intuition discriminate); reflexivity.
Defined.

(** X14. After a call of [file_list_create] that returned a count,
    [file_list_destroy] frees exactly the paths of the list, as many as the
    count, and sets the pointer to null; called again on that pointer it
    frees nothing. *)
Theorem file_list_destroy_after_create :
  forall (regex_t : Type) (regcomp : list Z -> Z -> option regex_t)
         (regexec : regex_t -> list Z -> bool)
         (strcoll : list Z -> list Z -> option Z)
         (FL_INITIAL_LIST_SIZE FL_MAX_LIST_SIZE_defined SIZE_MAX : Z)
         file_type regex_pattern dir depth flags sort_method dir_stat root
         errno0 heap0 stderr0 c,
  file_list_create regex_t regcomp regexec strcoll FL_INITIAL_LIST_SIZE
    FL_MAX_LIST_SIZE_defined SIZE_MAX file_type regex_pattern dir depth flags
    sort_method dir_stat root errno0 heap0 stderr0 = Some c ->
  returned c <> -1 ->
  exists l,
    list_out c = terminated l
    /\ file_list_destroy (list_out c) = Some (null_ptr, l)
    /\ Z.of_nat (length l) = returned c
    /\ file_list_destroy null_ptr = Some (null_ptr, []).
Proof.
  intros regex_t regcomp regexec strcoll FL_INITIAL FL_MAX_def SIZE_MAX
         file_type regex_pattern dir depth flags sort_method dir_stat root
         errno0 heap0 stderr0 c H NE.
  apply file_list_create_inv in H
    as [[R _]|(d & regex & sb & s0 & ret & s & sorted & _ & _ & _ & _ & _ & _ & _
              & _ & _ & Q & LO & R & _)]; [contradiction|].
  exists sorted. rewrite LO. split; [reflexivity|]. split; [reflexivity|].
  split; [|reflexivity].
  assert (PERM : Permutation (file_list s) sorted).
  { destruct (get_compar_fn strcoll sort_method).
    - eapply qsort_perm; eauto.
    - inv Q. apply Permutation_refl. }
  rewrite R. unfold n_file_list. rewrite (Permutation_length PERM). reflexivity.
Qed.

(** X14, instance: the sample tree listed without recursion. *)
Lemma file_list_destroy_after_create_witness :
  exists l,
    terminated (map str ["top/a"; "top/b"; "top/sub"]%string) = terminated l
    /\ file_list_destroy
         (terminated (map str ["top/a"; "top/b"; "top/sub"]%string))
       = Some (null_ptr, l)
    /\ Z.of_nat (length l) = 3
    /\ file_list_destroy null_ptr = Some (null_ptr, []).
Proof.
  apply (file_list_destroy_after_create unit regcomp_any regexec_any strcmp 512
           1048576 (2 ^ 64 - 1) 0 None (Some (str "top")) 0 0 FL_SORT_DEFAULT
           (stat_ok top_stat) small_tree 0 [] []
           (mk_created 3 (terminated (map str ["top/a"; "top/b"; "top/sub"]%string))
                       0 [str "top"])).
  - vm_compute. reflexivity.
  - discriminate.
Defined.

(** ** The comparators as orders *)

Lemma default_order_antisym s1 : forall s2 t,
  default_order (- t) s2 s1 = - default_order t s1 s2.
Proof.
  induction s1 as [|x s1 IH]; intros [|y s2] t; cbn [default_order]; try lia.
  rewrite (Z.eqb_sym y x), (Z.eqb_sym (tolower y) (tolower x)).
  destruct (x =? y); [apply IH|].
  destruct (tolower x =? tolower y); [|lia].
  rewrite <- IH. f_equal.
  destruct (Z.eqb_spec t 0) as [->|N]; [cbn [Z.opp Z.eqb]; lia|].
  replace (- t =? 0) with false by (symmetry; apply Z.eqb_neq; lia).
  reflexivity.
Qed.

(** X15. [strcmp_default] and [strcmp_natural] are antisymmetric: on two
    non-empty strings, exchanging the arguments negates the result. *)
Theorem comparators_antisymmetric :
  forall s1 s2 : list Z,
  is_str s1 -> is_str s2 -> s1 <> [] -> s2 <> [] ->
  (exists r, strcmp_default (cstr s1) (cstr s2) = Some r
             /\ strcmp_default (cstr s2) (cstr s1) = Some (- r))
  /\ (exists r, strcmp_natural (cstr s1) (cstr s2) = Some r
                /\ strcmp_natural (cstr s2) (cstr s1) = Some (- r)).
Proof.
  intros s1 s2 H1 H2 N1 N2. unfold cstr. split.
  - rewrite !strcmp_default_order by assumption.
    eexists. split; [reflexivity|]. f_equal.
    apply (default_order_antisym s1 s2 0).
  - rewrite !strcmp_natural_order by assumption.
    eexists. split; [reflexivity|]. f_equal.
    apply (natural_order_antisym s1 s2 0).
Qed.

(** X15, instance: "File10" and "file9". *)
Lemma comparators_antisymmetric_witness :
  (exists r, strcmp_default (cstr (str "File10")) (cstr (str "file9")) = Some r
             /\ strcmp_default (cstr (str "file9")) (cstr (str "File10"))
                = Some (- r))
  /\ (exists r, strcmp_natural (cstr (str "File10")) (cstr (str "file9")) = Some r
                /\ strcmp_natural (cstr (str "file9")) (cstr (str "File10"))
                   = Some (- r)).
Proof.
  apply (comparators_antisymmetric (str "File10") (str "file9"));
    try (repeat constructor; lia); discriminate.
Defined.

Lemma default_order_parts s1 : forall s2 t,
  is_str s1 -> is_str s2 ->
  default_order t s1 s2
  = if default_primary s1 s2 =? 0
    then (if t =? 0 then tie_break s1 s2 else t)
    else default_primary s1 s2.
Proof.
  induction s1 as [|x s1 IH]; intros [|y s2] t H1 H2;
    try (apply is_str_inv in H1 as [Hx H1]);
    try (apply is_str_inv in H2 as [Hy H2]).
  - cbn. destruct (t =? 0) eqn:E; [apply Z.eqb_eq in E; exact E|reflexivity].
  - cbn [default_order default_primary]. destruct (Z.eqb_spec (0 - y) 0); [lia|].
    reflexivity.
  - cbn [default_order default_primary]. destruct (Z.eqb_spec (x - 0) 0); [lia|].
    reflexivity.
  - rewrite default_order_cons. cbn [default_primary tie_break].
    destruct (Z.eqb_spec x y) as [->|N].
    + rewrite Z.eqb_refl. apply IH; assumption.
    + destruct (Z.eqb_spec (tolower x) (tolower y)) as [E|E].
      * rewrite IH by assumption. destruct (default_primary s1 s2 =? 0); [|reflexivity].
        destruct (Z.eqb_spec t 0) as [->|T].
        -- replace (y - x =? 0) with false by (symmetry; apply Z.eqb_neq; lia).
           reflexivity.
        -- replace (t =? 0) with false by (symmetry; apply Z.eqb_neq; exact T).
           reflexivity.
      * replace (tolower x - tolower y =? 0) with false
          by (symmetry; apply Z.eqb_neq; lia).
        reflexivity.
Qed.

Lemma natural_order_parts s1 : forall s2 t,
  is_str s1 -> is_str s2 ->
  natural_order t s1 s2
  = if natural_primary s1 s2 =? 0
    then (if t =? 0 then tie_break s1 s2 else t)
    else natural_primary s1 s2.
Proof.
  induction s1 as [|x s1 IH]; intros [|y s2] t H1 H2;
    try (apply is_str_inv in H1 as [Hx H1]);
    try (apply is_str_inv in H2 as [Hy H2]).
  - cbn. destruct (t =? 0) eqn:E; [apply Z.eqb_eq in E; exact E|reflexivity].
  - cbn [natural_order natural_primary]. destruct (Z.eqb_spec (0 - y) 0); [lia|].
    reflexivity.
  - cbn [natural_order natural_primary]. destruct (Z.eqb_spec (x - 0) 0); [lia|].
    reflexivity.
  - rewrite natural_order_cons. cbn [natural_primary tie_break]. cbv zeta.
    destruct (isdigit x && isdigit y) eqn:D.
    + destruct (Z.eqb_spec (run_order (digit_run (x :: s1)) (digit_run (y :: s2))) 0)
        as [R|R].
      * apply run_order_zero in R. cbn [digit_run] in R.
        apply andb_prop in D as [Dx Dy]. rewrite Dx, Dy in R.
        injection R as -> _. rewrite Z.eqb_refl. apply IH; assumption.
      * replace (run_order (digit_run (x :: s1)) (digit_run (y :: s2)) =? 0)
          with false by (symmetry; apply Z.eqb_neq; exact R).
        reflexivity.
    + destruct (Z.eqb_spec x y) as [->|N].
      * rewrite Z.eqb_refl. apply IH; assumption.
      * destruct (Z.eqb_spec (tolower x) (tolower y)) as [E|E].
        -- rewrite IH by assumption. destruct (natural_primary s1 s2 =? 0); [|reflexivity].
           destruct (Z.eqb_spec t 0) as [->|T].
           ++ replace (y - x =? 0) with false by (symmetry; apply Z.eqb_neq; lia).
              reflexivity.
           ++ replace (t =? 0) with false by (symmetry; apply Z.eqb_neq; exact T).
              reflexivity.
        -- replace (tolower x - tolower y =? 0) with false
             by (symmetry; apply Z.eqb_neq; lia).
           reflexivity.
Qed.

Lemma tie_break_trans s1 : forall s2 s3,
  length s1 = length s2 -> length s2 = length s3 ->
  tie_break s1 s2 < 0 -> tie_break s2 s3 < 0 -> tie_break s1 s3 < 0.
Proof.
  induction s1 as [|x s1 IH]; intros [|y s2] [|z s3] L1 L2; try discriminate;
    cbn [tie_break]; try lia.
  injection L1 as L1. injection L2 as L2.
  destruct (Z.eqb_spec x y), (Z.eqb_spec y z), (Z.eqb_spec x z); subst;
    try lia; try (apply IH; assumption); intros; lia.
Qed.

Lemma default_primary_length s1 : forall s2,
  is_str s1 -> is_str s2 -> default_primary s1 s2 = 0 -> length s1 = length s2.
Proof.
  induction s1 as [|x s1 IH]; intros [|y s2] H1 H2; cbn [default_primary length];
    try reflexivity.
  - apply is_str_inv in H2 as [? _]. lia.
  - apply is_str_inv in H1 as [? _]. lia.
  - apply is_str_inv in H1 as [? H1]. apply is_str_inv in H2 as [? H2].
    destruct (Z.eqb_spec (tolower x) (tolower y)); [|lia].
    intros E. f_equal. apply IH; assumption.
Qed.

Lemma default_primary_trans s1 : forall s2 s3,
  is_str s1 -> is_str s2 -> is_str s3 ->
  (default_primary s1 s2 < 0 -> default_primary s2 s3 <= 0 ->
   default_primary s1 s3 < 0)
  /\ (default_primary s1 s2 <= 0 -> default_primary s2 s3 < 0 ->
      default_primary s1 s3 < 0)
  /\ (default_primary s1 s2 = 0 -> default_primary s2 s3 = 0 ->
      default_primary s1 s3 = 0).
Proof.
  induction s1 as [|x s1 IH]; intros [|y s2] [|z s3] H1 H2 H3;
    cbn [default_primary];
    try (apply is_str_inv in H1 as [Hx H1]; pose proof (tolower_pos x (proj1 Hx)));
    try (apply is_str_inv in H2 as [Hy H2]; pose proof (tolower_pos y (proj1 Hy)));
    try (apply is_str_inv in H3 as [Hz H3]; pose proof (tolower_pos z (proj1 Hz)));
    try lia.
  destruct (Z.eqb_spec (tolower x) (tolower y)),
    (Z.eqb_spec (tolower y) (tolower z)),
    (Z.eqb_spec (tolower x) (tolower z)); try lia.
  apply IH; assumption.
Qed.

(** X16. On non-empty strings [strcmp_default] is transitive: if it orders
    [s1] before [s2] and [s2] before [s3], it orders [s1] before [s3], the
    deferred decision by case included. *)
Theorem strcmp_default_transitive :
  forall (s1 s2 s3 : list Z) (r12 r23 : Z),
  is_str s1 -> is_str s2 -> is_str s3 -> s1 <> [] -> s2 <> [] -> s3 <> [] ->
  strcmp_default (cstr s1) (cstr s2) = Some r12 -> r12 < 0 ->
  strcmp_default (cstr s2) (cstr s3) = Some r23 -> r23 < 0 ->
  exists r13, strcmp_default (cstr s1) (cstr s3) = Some r13 /\ r13 < 0.
Proof.
  intros s1 s2 s3 r12 r23 H1 H2 H3 N1 N2 N3 E12 L12 E23 L23. unfold cstr in *.
  rewrite strcmp_default_order in * by assumption.
  injection E12 as <-. injection E23 as <-.
  eexists. split; [reflexivity|].
  rewrite default_order_parts in * by assumption. cbn [Z.eqb] in *.
  destruct (default_primary_trans s1 s2 s3 H1 H2 H3) as (T1 & T2 & T3).
  destruct (Z.eqb_spec (default_primary s1 s2) 0) as [Z12|Z12],
    (Z.eqb_spec (default_primary s2 s3) 0) as [Z23|Z23].
  - rewrite (T3 Z12 Z23). cbn [Z.eqb].
    apply (tie_break_trans s1 s2 s3); auto using default_primary_length.
  - assert (L : default_primary s1 s3 < 0) by (apply T2; lia).
    destruct (Z.eqb_spec (default_primary s1 s3) 0); lia.
  - assert (L : default_primary s1 s3 < 0) by (apply T1; lia).
    destruct (Z.eqb_spec (default_primary s1 s3) 0); lia.
  - assert (L : default_primary s1 s3 < 0) by (apply T1; lia).
    destruct (Z.eqb_spec (default_primary s1 s3) 0); lia.
Qed.

(** X16, instance: "file" before "FILE" before "filea". *)
Lemma strcmp_default_transitive_witness :
  exists r13,
    strcmp_default (cstr (str "file")) (cstr (str "filea")) = Some r13 /\ r13 < 0.
Proof.
  apply (strcmp_default_transitive (str "file") (str "FILE") (str "filea")
           (-32) (-97));
    try (repeat constructor; lia); try discriminate; reflexivity.
Defined.

Lemma first_difference_trans v1 : forall v2 v3 d12 d23,
  first_difference v1 v2 = Some d12 -> d12 < 0 ->
  first_difference v2 v3 = Some d23 -> d23 < 0 ->
  exists d13, first_difference v1 v3 = Some d13 /\ d13 < 0.
Proof.
  induction v1 as [|x v1 IH]; intros [|y v2] [|z v3] d12 d23;
    cbn [first_difference]; try discriminate.
  destruct (Z.eqb_spec x y), (Z.eqb_spec y z), (Z.eqb_spec x z); subst;
    try lia; intros E12 L12 E23 L23;
    try (injection E12 as <-); try (injection E23 as <-); try lia;
    eauto.
  eexists. split; [reflexivity|]. lia.
Qed.

Lemma run_order_trans r1 r2 r3 :
  run_order r1 r2 < 0 -> run_order r2 r3 < 0 -> run_order r1 r3 < 0.
Proof.
  unfold run_order, len.
  set (v1 := strip_zeroes r1). set (v2 := strip_zeroes r2).
  set (v3 := strip_zeroes r3).
  destruct (Z.eqb_spec (Z.of_nat (length v1)) (Z.of_nat (length v2))) as [E12|E12],
    (Z.eqb_spec (Z.of_nat (length v2)) (Z.of_nat (length v3))) as [E23|E23],
    (Z.eqb_spec (Z.of_nat (length v1)) (Z.of_nat (length v3))) as [E13|E13];
    try lia.
  destruct (first_difference v1 v2) as [d12|] eqn:F12,
    (first_difference v2 v3) as [d23|] eqn:F23.
  - intros L12 L23.
    destruct (first_difference_trans _ _ _ _ _ F12 L12 F23 L23) as (d13 & -> & L).
    exact L.
  - apply first_difference_none in F23; [|lia]. rewrite <- F23, F12. lia.
  - apply first_difference_none in F12; [|lia]. rewrite F12, F23. lia.
  - apply first_difference_none in F12; [|lia].
    apply first_difference_none in F23; [|lia].
    rewrite F12, F23, first_difference_refl. lia.
Qed.

Lemma isdigit_true_fold c : isdigit c = true -> tolower c = c /\ 48 <= c <= 57.
Proof.
  unfold isdigit, tolower. intros D.
  destruct ((65 <=? c) && (c <=? 90)) eqn:U; lia.
Qed.

Lemma isdigit_false_fold c :
  isdigit c = false -> tolower c < 48 \/ 57 < tolower c.
Proof.
  unfold isdigit, tolower. intros D.
  destruct ((65 <=? c) && (c <=? 90)) eqn:U; lia.
Qed.

Lemma natural_primary_length s1 : forall s2,
  is_str s1 -> is_str s2 -> natural_primary s1 s2 = 0 -> length s1 = length s2.
Proof.
  induction s1 as [|x s1 IH]; intros [|y s2] H1 H2;
    cbn [natural_primary length]; try reflexivity.
  - apply is_str_inv in H2 as [? _]. lia.
  - apply is_str_inv in H1 as [? _]. lia.
  - apply is_str_inv in H1 as [? H1]. apply is_str_inv in H2 as [? H2].
    cbv zeta. destruct (isdigit x && isdigit y).
    + destruct (Z.eqb_spec (run_order (digit_run (x :: s1)) (digit_run (y :: s2))) 0);
        [|lia].
      intros E. f_equal. apply IH; assumption.
    + destruct (Z.eqb_spec (tolower x) (tolower y)); [|lia].
      intros E. f_equal. apply IH; assumption.
Qed.

Lemma natural_primary_trans s1 : forall s2 s3,
  is_str s1 -> is_str s2 -> is_str s3 ->
  (natural_primary s1 s2 < 0 -> natural_primary s2 s3 <= 0 ->
   natural_primary s1 s3 < 0)
  /\ (natural_primary s1 s2 <= 0 -> natural_primary s2 s3 < 0 ->
      natural_primary s1 s3 < 0)
  /\ (natural_primary s1 s2 = 0 -> natural_primary s2 s3 = 0 ->
      natural_primary s1 s3 = 0).
Proof.
  induction s1 as [|x s1 IH]; intros [|y s2] [|z s3] H1 H2 H3;
    cbn [natural_primary];
    try (apply is_str_inv in H1 as [Hx H1]; pose proof (tolower_pos x (proj1 Hx)));
    try (apply is_str_inv in H2 as [Hy H2]; pose proof (tolower_pos y (proj1 Hy)));
    try (apply is_str_inv in H3 as [Hz H3]; pose proof (tolower_pos z (proj1 Hz)));
    try lia.
  cbv zeta.
  remember (digit_run (x :: s1)) as R1 eqn:ER1.
  remember (digit_run (y :: s2)) as R2 eqn:ER2.
  remember (digit_run (z :: s3)) as R3 eqn:ER3.
  clear ER1 ER2 ER3.
  specialize (IH s2 s3 H1 H2 H3).
  destruct (isdigit x) eqn:Dx, (isdigit y) eqn:Dy, (isdigit z) eqn:Dz;
    cbn [andb];
    try (apply isdigit_true_fold in Dx as [Fx Rx]);
    try (apply isdigit_true_fold in Dy as [Fy Ry]);
    try (apply isdigit_true_fold in Dz as [Fz Rz]);
    try (apply isdigit_false_fold in Dx);
    try (apply isdigit_false_fold in Dy);
    try (apply isdigit_false_fold in Dz).
  - (* three digits *)
    destruct (Z.eqb_spec (run_order R1 R2) 0) as [E12|E12].
    + apply run_order_zero in E12. subst R2.
      destruct (Z.eqb_spec (run_order R1 R3) 0) as [E13|E13]; [exact IH|lia].
    + destruct (Z.eqb_spec (run_order R2 R3) 0) as [E23|E23].
      * apply run_order_zero in E23. subst R3.
        replace (run_order R1 R2 =? 0) with false
          by (symmetry; apply Z.eqb_neq; exact E12).
        lia.
      * pose proof (run_order_trans R1 R2 R3) as T.
        destruct (Z.eqb_spec (run_order R1 R3) 0) as [E13|E13]; lia.
  - (* digit, digit, other *)
    destruct (Z.eqb_spec (run_order R1 R2) 0) as [E12|E12],
      (Z.eqb_spec (tolower y) (tolower z)), (Z.eqb_spec (tolower x) (tolower z));
      lia.
  - (* digit, other, digit *)
    destruct (Z.eqb_spec (run_order R1 R3) 0) as [E13|E13],
      (Z.eqb_spec (tolower x) (tolower y)), (Z.eqb_spec (tolower y) (tolower z));
      lia.
  - (* digit, other, other *)
    destruct (Z.eqb_spec (tolower x) (tolower y)),
      (Z.eqb_spec (tolower y) (tolower z)), (Z.eqb_spec (tolower x) (tolower z));
      lia.
  - (* other, digit, digit *)
    destruct (Z.eqb_spec (run_order R2 R3) 0) as [E23|E23],
      (Z.eqb_spec (tolower x) (tolower y)), (Z.eqb_spec (tolower x) (tolower z));
      lia.
  - (* other, digit, other *)
    destruct (Z.eqb_spec (tolower x) (tolower y)),
      (Z.eqb_spec (tolower y) (tolower z)), (Z.eqb_spec (tolower x) (tolower z));
      lia.
  - (* other, other, digit *)
    destruct (Z.eqb_spec (tolower x) (tolower y)),
      (Z.eqb_spec (tolower y) (tolower z)), (Z.eqb_spec (tolower x) (tolower z));
      lia.
  - (* no digit *)
    destruct (Z.eqb_spec (tolower x) (tolower y)),
      (Z.eqb_spec (tolower y) (tolower z)), (Z.eqb_spec (tolower x) (tolower z));
      lia.
Qed.

(** X17. On non-empty strings [strcmp_natural] is transitive: if it orders
    [s1] before [s2] and [s2] before [s3], it orders [s1] before [s3],
    digit runs and case differences included. *)
Theorem strcmp_natural_transitive :
  forall (s1 s2 s3 : list Z) (r12 r23 : Z),
  is_str s1 -> is_str s2 -> is_str s3 -> s1 <> [] -> s2 <> [] -> s3 <> [] ->
  strcmp_natural (cstr s1) (cstr s2) = Some r12 -> r12 < 0 ->
  strcmp_natural (cstr s2) (cstr s3) = Some r23 -> r23 < 0 ->
  exists r13, strcmp_natural (cstr s1) (cstr s3) = Some r13 /\ r13 < 0.
Proof.
  intros s1 s2 s3 r12 r23 H1 H2 H3 N1 N2 N3 E12 L12 E23 L23. unfold cstr in *.
  rewrite strcmp_natural_order in * by assumption.
  injection E12 as <-. injection E23 as <-.
  eexists. split; [reflexivity|].
  rewrite natural_order_parts in * by assumption. cbn [Z.eqb] in *.
  destruct (natural_primary_trans s1 s2 s3 H1 H2 H3) as (T1 & T2 & T3).
  destruct (Z.eqb_spec (natural_primary s1 s2) 0) as [Z12|Z12],
    (Z.eqb_spec (natural_primary s2 s3) 0) as [Z23|Z23].
  - rewrite (T3 Z12 Z23). cbn [Z.eqb].
    apply (tie_break_trans s1 s2 s3); auto using natural_primary_length.
  - assert (L : natural_primary s1 s3 < 0) by (apply T2; lia).
    destruct (Z.eqb_spec (natural_primary s1 s3) 0); lia.
  - assert (L : natural_primary s1 s3 < 0) by (apply T1; lia).
    destruct (Z.eqb_spec (natural_primary s1 s3) 0); lia.
  - assert (L : natural_primary s1 s3 < 0) by (apply T1; lia).
    destruct (Z.eqb_spec (natural_primary s1 s3) 0); lia.
Qed.

(** X17, instance: "a9" before "a010" before "A10". *)
Lemma strcmp_natural_transitive_witness :
  exists r13,
    strcmp_natural (cstr (str "a9")) (cstr (str "A10")) = Some r13 /\ r13 < 0.
Proof.
  apply (strcmp_natural_transitive (str "a9") (str "a010") (str "A10") (-1) (-1));
    try (repeat constructor; lia); try discriminate; reflexivity.
Defined.

(** ** More on the traversal *)

Section MoreTraversal.

Variable regex_t : Type.
Variable regexec : regex_t -> list Z -> bool.
Variables FL_MAX_def SIZE_MAX : Z.
Variable file_type_arr : list Z.
Variable file_ext : option regex_t.
Variable flags : Z.

Local Abbreviation FL_MAX := (FL_MAX_LIST_SIZE FL_MAX_def SIZE_MAX).
Local Abbreviation list_add := (file_list_add FL_MAX_def SIZE_MAX).
Local Abbreviation body :=
  (loop_body regex_t regexec FL_MAX_def SIZE_MAX file_type_arr file_ext flags).
Local Abbreviation parse :=
  (parse_file_tree regex_t regexec FL_MAX_def SIZE_MAX file_type_arr file_ext flags).
Local Abbreviation readdir :=
  (readdir_loop regex_t regexec FL_MAX_def SIZE_MAX file_type_arr file_ext flags).

Lemma traverse_next_directory_negative descend descend' s depth cp sb ct :
  depth < 0 ->
  (forall q s, descend q depth s = descend' q (-1) s) ->
  traverse_next_directory flags descend s depth cp sb ct
  = traverse_next_directory flags descend' s (-1) cp sb ct.
Proof.
  intros N E. unfold traverse_next_directory, next_depth.
  replace (depth =? 0) with false by (symmetry; apply Z.eqb_neq; lia).
  replace (depth >? 0) with false
    by (symmetry; destruct (Z.gtb_spec depth 0); [lia|reflexivity]).
  cbn [Z.eqb Z.gtb Z.compare negb andb].
  destruct (ct =? 4); [|reflexivity].
  destruct sb as [b|]; [|reflexivity]. destruct cp as [q|]; [|reflexivity].
  destruct (is_directory_loop _ _) as [[|]|]; try reflexivity.
  match goal with
  | |- context [match ?x with Some _ => _ | None => None end] => destruct x as [[|]|]
  end; try reflexivity.
  destruct (stat_stack_push s b) as [[|] s1]; [|reflexivity].
  rewrite E. reflexivity.
Qed.

Lemma parse_file_tree_negative :
  (forall dir directory depth s, depth < 0 ->
     parse dir directory depth s = parse dir directory (-1) s)
  /\ (forall entries directory depth s, depth < 0 ->
     readdir entries directory depth s = readdir entries directory (-1) s).
Proof.
  apply (DIR_dirents_mut
    (fun dir => forall directory depth s, depth < 0 ->
       parse dir directory depth s = parse dir directory (-1) s)
    (fun entries => forall directory depth s, depth < 0 ->
       readdir entries directory depth s = readdir entries directory (-1) s)).
  - reflexivity.
  - intros entries IH directory depth s N. rewrite !parse_file_tree_ok. auto.
  - reflexivity.
  - intros name d_type st lst sub IHsub rest IHrest directory depth s N.
    rewrite !readdir_loop_dirent.
    assert (B : body (parse sub) name d_type st lst directory depth s
                = body (parse sub) name d_type st lst directory (-1) s).
    { unfold loop_body. destruct (current_or_parent name); [reflexivity|].
      destruct (get_file_type _ _ _ _ _ _ _) as [[[r| |[[cp sb] ct]] s1]|];
        try reflexivity.
      rewrite (traverse_next_directory_negative (parse sub) (parse sub) s1 depth)
        by (auto; intros; apply IHsub; exact N).
      reflexivity. }
    rewrite B.
    destruct (body (parse sub) name d_type st lst directory (-1) s)
      as [[[r| |[]] s1]|]; auto.
Qed.

End MoreTraversal.

(** X18. [file_list_add] on a list within its bounds. It appends the path
    and returns 0 unless the list is full, and leaves [errno] and the debug
    stream alone when the list has room. A full list below the maximum has
    its allocated size doubled, but to no more than FL_MAX_LIST_SIZE, and
    the overflow check never changes that; the resize is announced by one
    debug write before [realloc], so after a resizing add [errno] is what
    that write left: the value it set, or the one before the call when it
    set none. The call returns -1 and leaves the list as it was if that
    [realloc] fails (ENOMEM), or if the list is full at the maximum (E2BIG,
    with no debug write). *)
Theorem file_list_add_doubles :
  forall (FL_MAX_LIST_SIZE_defined SIZE_MAX : Z)
         (s s' : state) (path : list Z) (r : Z),
  let FL_MAX := FL_MAX_LIST_SIZE FL_MAX_LIST_SIZE_defined SIZE_MAX in
  0 < n_file_list_max s ->
  n_file_list s <= n_file_list_max s <= FL_MAX ->
  file_list_add FL_MAX_LIST_SIZE_defined SIZE_MAX s path = (r, s') ->
  (r = 0 /\ file_list s' = file_list s ++ [path]
   /\ errno s'
      = (if n_file_list s =? n_file_list_max s
         then match stderr s with Some written :: _ => written | _ => errno s end
         else errno s)
   /\ stderr s'
      = (if n_file_list s =? n_file_list_max s then tl (stderr s)
         else stderr s)
   /\ n_file_list_max s'
      = (if n_file_list s =? n_file_list_max s
         then Z.min (2 * n_file_list_max s) FL_MAX
         else n_file_list_max s))
  \/ (r = -1 /\ file_list s' = file_list s
      /\ n_file_list s = n_file_list_max s
      /\ ((errno s' = E2BIG /\ n_file_list s = FL_MAX
           /\ stderr s' = stderr s)
          \/ (errno s' = ENOMEM /\ n_file_list s < FL_MAX
              /\ stderr s' = tl (stderr s)))).
Proof.
  intros FL_MAX_def SIZE_MAX s s' path r FL_MAX B0 (B1 & B2) A. subst FL_MAX.
  pose proof (FL_MAX_LIST_SIZE_le FL_MAX_def SIZE_MAX) as LE.
  unfold file_list_add in A.
  destruct (Z.eqb_spec (n_file_list s) (n_file_list_max s)) as [E|E].
  - destruct (Z.eqb_spec (n_file_list s) (FL_MAX_LIST_SIZE FL_MAX_def SIZE_MAX)) as [F|F].
    + inv A. right. cbn. auto 10.
    + cbv zeta in A.
      set (new_size := (n_file_list_max s * 2) mod (SIZE_MAX + 1)) in A.
      assert (N : (if (if new_size <? n_file_list s then SIZE_MAX else new_size)
                       >? (FL_MAX_LIST_SIZE FL_MAX_def SIZE_MAX)
                   then set_max (FL_MAX_LIST_SIZE FL_MAX_def SIZE_MAX) s
                   else set_max (if new_size <? n_file_list s
                                 then SIZE_MAX else new_size) s)
                  = set_max (Z.min (2 * n_file_list_max s) (FL_MAX_LIST_SIZE FL_MAX_def SIZE_MAX)) s).
      { subst new_size.
        destruct (Z.ltb_spec (n_file_list_max s * 2) (SIZE_MAX + 1)).
        - rewrite Z.mod_small by lia.
          destruct (Z.ltb_spec (n_file_list_max s * 2) (n_file_list s)); [lia|].
          destruct (Z.gtb_spec (n_file_list_max s * 2) (FL_MAX_LIST_SIZE FL_MAX_def SIZE_MAX)); f_equal; lia.
        - rewrite <- (Zmod_unique (n_file_list_max s * 2) (SIZE_MAX + 1) 1
                        (n_file_list_max s * 2 - (SIZE_MAX + 1))) by lia.
          destruct (Z.ltb_spec (n_file_list_max s * 2 - (SIZE_MAX + 1))
                      (n_file_list s)); [|lia].
          destruct (Z.gtb_spec SIZE_MAX (FL_MAX_LIST_SIZE FL_MAX_def SIZE_MAX)); f_equal; lia. }
      rewrite N in A. clear N new_size.
      unfold alloc in A. cbn in A.
      destruct (heap s) as [|[|] h]; inv A; cbn; [left|left|right];
        repeat split; auto; right; repeat split; auto; lia.
  - inv A. left. cbn. auto.
Qed.

(** X19. An entry on which [stat] (with FL_FOLLOW_LINKS) or [lstat]
    (without) fails is left out and is no error: the round of the loop ends
    with [continue], nothing appended and the path freed, unless the
    allocation of its path fails. The failure is reported by one debug write
    before the [continue], so [errno] afterwards is what that write left:
    the value it set, or the one of the failed call when it set none. With
    no allocation refused, the loop over the directory goes on with the
    entries that follow, from the state that the debug write and the [free]
    leave. A broken symbolic link is therefore never listed when links are
    followed. *)
Theorem loop_body_skips_on_stat_failure :
  forall (regex_t : Type) (regexec : regex_t -> list Z -> bool)
         (FL_MAX_LIST_SIZE_defined SIZE_MAX : Z) (file_type_arr : list Z)
         (file_ext : option regex_t) (flags : Z)
         descend (d_name : list Z) (d_type : Z) (st lst : stat_result)
         (directory : list Z) (directory_depth e : Z) (s s' : state)
         (c : control unit),
  current_or_parent d_name = false ->
  (d_type =? DT_DIR) || (d_type =? DT_UNKNOWN)
  || ((d_type =? DT_LNK) && has flags FL_FOLLOW_LINKS) = true ->
  (if has flags FL_FOLLOW_LINKS then st else lst) = stat_fails e ->
  loop_body regex_t regexec FL_MAX_LIST_SIZE_defined SIZE_MAX file_type_arr
    file_ext flags descend d_name d_type st lst directory directory_depth s
  = Some (c, s') ->
  file_list s' = file_list s
  /\ ((c = Continue
       /\ errno s' = match stderr s with Some written :: _ => written | _ => e end
       /\ stderr s' = tl (stderr s)
       /\ freed s' = freed s ++ [path_of directory d_name])
      \/ (c = Return (-1) /\ errno s' = ENOMEM /\ stderr s' = stderr s))
  /\ (heap s = [] ->
      forall sub rest,
        readdir_loop regex_t regexec FL_MAX_LIST_SIZE_defined SIZE_MAX
          file_type_arr file_ext flags (dirent d_name d_type st lst sub rest)
          directory directory_depth s
        = readdir_loop regex_t regexec FL_MAX_LIST_SIZE_defined SIZE_MAX
            file_type_arr file_ext flags rest directory directory_depth
            (free (path_of directory d_name) (DEBUG_PRINTF (set_errno e s)))).
Proof.
  intros regex_t regexec FL_MAX_def SIZE_MAX file_type_arr file_ext flags
         descend d_name d_type st lst directory depth e s s' c D T F H.
  assert (N : directory <> []).
  { intros ->.
    unfold loop_body, get_file_type, CREATE_CURRENT_PATH, create_path in H.
    rewrite D, T in H. discriminate H. }
  apply and_assoc. split.
  - unfold loop_body, get_file_type, CREATE_CURRENT_PATH, create_path in H.
    rewrite D, T, F in H. destruct directory as [|x directory]; [discriminate|].
    unfold alloc in H. destruct (heap s) as [|[|] h]; inv H; cbn; auto 10.
  - intros Hp sub rest.
    rewrite (readdir_loop_dirent regex_t regexec FL_MAX_def SIZE_MAX
               file_type_arr file_ext flags).
    unfold loop_body, get_file_type, CREATE_CURRENT_PATH.
    rewrite D, T, create_path_ok by assumption. rewrite F. reflexivity.
Qed.

(** X20. Every negative depth is the unlimited depth: the traversal with a
    depth below 0 is the traversal with depth -1. *)
Theorem negative_depth_is_unlimited :
  forall (regex_t : Type) (regexec : regex_t -> list Z -> bool)
         (FL_MAX_LIST_SIZE_defined SIZE_MAX : Z) (file_type_arr : list Z)
         (file_ext : option regex_t) (flags : Z)
         (dir : DIR) (directory : list Z) (directory_depth : Z) (s : state),
  directory_depth < 0 ->
  parse_file_tree regex_t regexec FL_MAX_LIST_SIZE_defined SIZE_MAX
    file_type_arr file_ext flags dir directory directory_depth s
  = parse_file_tree regex_t regexec FL_MAX_LIST_SIZE_defined SIZE_MAX
      file_type_arr file_ext flags dir directory (-1) s.
Proof.
  intros regex_t regexec FL_MAX_def SIZE_MAX file_type_arr file_ext flags
         dir directory depth s N.
  apply (proj1 (parse_file_tree_negative regex_t regexec FL_MAX_def SIZE_MAX
                  file_type_arr file_ext flags)).
  exact N.
Qed.

(** X18, instance: a full list of two paths, allocated for two, under a
    maximum of three: the allocated size becomes three, not four; the debug
    write fails on a closed stream and leaves EBADF (9) in [errno]. *)
Lemma file_list_add_doubles_witness :
  file_list_add 3 (2 ^ 64 - 1)
    (mk_state [str "top/a"; str "top/b"] 2 (mk_stack 512 [top_stat]) 0 [] []
              [Some 9])
    (str "top/c")
  = (0, mk_state [str "top/a"; str "top/b"; str "top/c"] 3
                 (mk_stack 512 [top_stat]) 9 [] [] [])
  /\ Z.min (2 * 2) (FL_MAX_LIST_SIZE 3 (2 ^ 64 - 1)) = 3.
Proof.
  split; [reflexivity|].
  destruct (file_list_add_doubles 3 (2 ^ 64 - 1)
              (mk_state [str "top/a"; str "top/b"] 2 (mk_stack 512 [top_stat])
                        0 [] [] [Some 9])
              (mk_state [str "top/a"; str "top/b"; str "top/c"] 3
                        (mk_stack 512 [top_stat]) 9 [] [] [])
              (str "top/c") 0) as [(_ & _ & _ & _ & M)|(R & _)].
  - reflexivity.
  - vm_compute. split; discriminate.
  - reflexivity.
  - symmetry. exact M.
  - discriminate R.
Defined.

(** X19, instance: a symbolic link whose target is missing (ENOENT), links
    being followed; the debug write fails on a closed stream and replaces
    ENOENT by EBADF (9). *)
Lemma loop_body_skips_on_stat_failure_witness :
  loop_body unit regexec_any 1048576 (2 ^ 64 - 1) (make_file_type_arr 0) None
    FL_FOLLOW_LINKS (fun _ _ _ => None) (str "gone") DT_LNK (stat_fails 2)
    (stat_ok (mk_stat 1 9 40960)) (str "top") (-1)
    (traversal_start 512 top_stat 0 [] [Some 9])
  = Some (Continue,
          free (str "top/gone") (set_errno 9 (traversal_start 512 top_stat 0 [] [])))
  /\ file_list (free (str "top/gone")
                  (set_errno 9 (traversal_start 512 top_stat 0 [] []))) = [].
Proof.
  split; [reflexivity|].
  apply (loop_body_skips_on_stat_failure unit regexec_any 1048576 (2 ^ 64 - 1)
           (make_file_type_arr 0) None FL_FOLLOW_LINKS (fun _ _ _ => None)
           (str "gone") DT_LNK (stat_fails 2) (stat_ok (mk_stat 1 9 40960))
           (str "top") (-1) 2 (traversal_start 512 top_stat 0 [] [Some 9])
           (free (str "top/gone") (set_errno 9 (traversal_start 512 top_stat 0 [] [])))
           Continue); reflexivity.
Defined.

(** X20, instance: the sample tree at depth -7. *)
Lemma negative_depth_is_unlimited_witness :
  parse_file_tree unit regexec_any 1048576 (2 ^ 64 - 1) (make_file_type_arr 0)
    None 0 small_tree (str "top") (-7) (traversal_start 512 top_stat 0 [] [])
  = parse_file_tree unit regexec_any 1048576 (2 ^ 64 - 1) (make_file_type_arr 0)
      None 0 small_tree (str "top") (-1) (traversal_start 512 top_stat 0 [] []).
Proof.
  apply (negative_depth_is_unlimited unit regexec_any 1048576 (2 ^ 64 - 1)
           (make_file_type_arr 0) None 0 small_tree (str "top") (-7)
           (traversal_start 512 top_stat 0 [] [])).
  reflexivity.
Defined.

(** ** The list of a tree read in full *)

Section CreateAll.

Variable regex_t : Type.
Variable regcomp : list Z -> Z -> option regex_t.
Variable regexec : regex_t -> list Z -> bool.
Variable strcoll : list Z -> list Z -> option Z.
Variables FL_INITIAL FL_MAX_def SIZE_MAX : Z.

Local Abbreviation FL_MAX := (FL_MAX_LIST_SIZE FL_MAX_def SIZE_MAX).
Local Abbreviation create :=
  (file_list_create regex_t regcomp regexec strcoll FL_INITIAL FL_MAX_def SIZE_MAX).

(** [file_list_create] on a plain tree, up to the sort. *)
Lemma file_list_create_plain file_type regex_pattern d depth flags sort_method
    unreadable sb root errno0 stderr0 regex :
  compile_regex regex_t regcomp regex_pattern flags = Some regex ->
  d <> [] ->
  (unreadable = true -> stderr0 = []) ->
  plain_tree (make_file_type_arr file_type) flags unreadable [sb] root ->
  Z.of_nat (length (to_depth depth
                      (selected_levels regex_t regexec
                         (make_file_type_arr file_type) regex flags root
                         (clean_dir d)))) <= FL_MAX ->
  exists e fr,
    create file_type regex_pattern (Some d) depth flags sort_method (stat_ok sb)
           root errno0 [] stderr0
    = sorted <-
        match get_compar_fn strcoll sort_method with
        | Some compar_fn =>
            qsort compar_fn
              (to_depth depth
                 (selected_levels regex_t regexec (make_file_type_arr file_type)
                    regex flags root (clean_dir d)))
        | None =>
            Some (to_depth depth
                    (selected_levels regex_t regexec
                       (make_file_type_arr file_type) regex flags root
                       (clean_dir d)))
        end ;;
      Some (mk_created
              (Z.of_nat (length (to_depth depth
                                   (selected_levels regex_t regexec
                                      (make_file_type_arr file_type) regex
                                      flags root (clean_dir d)))))
              (terminated sorted) e fr).
Proof.
  intros C N Q P R.
  rewrite (file_list_create_populated regex_t regcomp regexec strcoll FL_INITIAL
             FL_MAX_def SIZE_MAX file_type regex_pattern d depth flags
             sort_method sb root errno0 [] stderr0 regex [] C N eq_refl).
  destruct (proj1 (parse_file_tree_plain regex_t regexec FL_MAX_def SIZE_MAX
                     (make_file_type_arr file_type) regex flags unreadable)
              root (clean_dir d) depth
              (traversal_start FL_INITIAL sb errno0 [] stderr0)
              (clean_dir_nonempty d N) eq_refl Q P)
    as (s' & -> & L & H & _).
  { exact R. }
  cbn [traversal_start file_list app] in L.
  cbn [Z.eqb negb andb]. cbv zeta.
  rewrite alloc_no_failure by exact H.
  unfold n_file_list. cbn [free file_list]. rewrite L.
  eexists _, _. reflexivity.
Qed.

End CreateAll.
















(** X21. With FL_SORT_NONE, no allocation refused and room in the list,
    [file_list_create] on a plain tree returns exactly the selected entries
    of the levels that the depth lets in, in the order of the traversal: the
    entries of a directory as [readdir] hands them out, what is below a
    directory before the directory itself. The return value is their
    number; with a negative depth they are all the selected entries of the
    tree. Where the tree holds directories that cannot be opened, the debug
    writes are taken to leave [errno] alone; otherwise they may set it as
    they like. The initial list size is taken to be positive, as it is
    defined. *)
Theorem file_list_create_lists_all :
  forall (regex_t : Type) (regcomp : list Z -> Z -> option regex_t)
         (regexec : regex_t -> list Z -> bool)
         (strcoll : list Z -> list Z -> option Z)
         (FL_INITIAL_LIST_SIZE FL_MAX_LIST_SIZE_defined SIZE_MAX : Z)
         file_type regex_pattern d depth flags unreadable sb root errno0
         stderr0 regex,
  0 < FL_INITIAL_LIST_SIZE ->
  compile_regex regex_t regcomp regex_pattern flags = Some regex ->
  d <> [] ->
  (unreadable = true -> stderr0 = []) ->
  plain_tree (make_file_type_arr file_type) flags unreadable [sb] root ->
  Z.of_nat (length (to_depth depth
                      (selected_levels regex_t regexec
                         (make_file_type_arr file_type) regex flags root
                         (clean_dir d))))
  <= FL_MAX_LIST_SIZE FL_MAX_LIST_SIZE_defined SIZE_MAX ->
  exists c,
    file_list_create regex_t regcomp regexec strcoll FL_INITIAL_LIST_SIZE
      FL_MAX_LIST_SIZE_defined SIZE_MAX file_type regex_pattern (Some d) depth
      flags FL_SORT_NONE (stat_ok sb) root errno0 [] stderr0
    = Some c
    /\ list_out c
       = terminated (to_depth depth
                       (selected_levels regex_t regexec
                          (make_file_type_arr file_type) regex flags root
                          (clean_dir d)))
    /\ returned c
       = Z.of_nat (length (to_depth depth
                             (selected_levels regex_t regexec
                                (make_file_type_arr file_type) regex flags root
                                (clean_dir d))))
    /\ (depth < 0 ->
        list_out c
        = terminated (selected_paths regex_t regexec
                        (make_file_type_arr file_type) regex flags root
                        (clean_dir d))).
Proof.
  intros regex_t regcomp regexec strcoll FL_INITIAL FL_MAX_def SIZE_MAX
         file_type regex_pattern d depth flags unreadable sb root errno0
         stderr0 regex _ C N Q P R.
  destruct (file_list_create_plain regex_t regcomp regexec strcoll FL_INITIAL
              FL_MAX_def SIZE_MAX file_type regex_pattern d depth flags
              FL_SORT_NONE unreadable sb root errno0 stderr0 regex C N Q P R)
    as (e & fr & ->).
  cbn. eexists. split; [reflexivity|]. split; [reflexivity|].
  split; [reflexivity|]. intros D. cbn. f_equal.
  rewrite to_depth_negative by exact D.
  apply (proj1 (selected_levels_paths regex_t regexec
                  (make_file_type_arr file_type) regex flags)).
Qed.


(** X23. On two equal paths that end in a separator, as a directory is
    listed with FL_DIR_SEP, [qsort_compar] with [strcmp_default] or
    [strcmp_natural] has no defined result: the directory parts compare
    equal, and the comparator, called on the two empty base names, reads
    the byte after the terminator. *)
Theorem qsort_compar_same_directory_undefined :
  forall p,
    is_str p ->
    qsort_compar strcmp_default (p ++ [DIR_SEPARATOR]) (p ++ [DIR_SEPARATOR])
    = None
    /\ qsort_compar strcmp_natural (p ++ [DIR_SEPARATOR]) (p ++ [DIR_SEPARATOR])
       = None.
Proof.
  intros p S.
  rewrite !(qsort_compar_split _ p [] p []) by (intros []).
  destruct p as [|x p].
  - split; reflexivity.
  - rewrite strcmp_default_order, strcmp_natural_order by (auto; discriminate).
    rewrite default_order_refl, natural_order_refl. split; reflexivity.
Qed.

(** X21, instance: the sample tree at depth 0, unsorted, over a debug
    stream whose first write would set EBADF (9): the directory sub is
    listed, its files are not. *)
Lemma file_list_create_lists_all_witness :
  exists c,
    file_list_create unit regcomp_any regexec_any strcmp 512 1048576
      (2 ^ 64 - 1) 0 None (Some (str "top")) 0 0 FL_SORT_NONE
      (stat_ok top_stat) small_tree 0 [] [Some 9]
    = Some c
    /\ list_out c = terminated (map str ["top/b"; "top/sub"; "top/a"]%string)
    /\ returned c = 3
    /\ (0 < 0 ->
        list_out c
        = terminated (map str ["top/b"; "top/sub/x"; "top/sub/A"; "top/sub";
                               "top/a"]%string)).
Proof.
  apply (file_list_create_lists_all unit regcomp_any regexec_any strcmp 512
           1048576 (2 ^ 64 - 1) 0 None (str "top") 0 0 false top_stat
           small_tree 0 [Some 9] None).
  - lia.
  - reflexivity.
  - discriminate.
  - discriminate.
  - cbn. plain_sample.
  - vm_compute. discriminate.
Defined.


(** X23, instance: the directory top/sub listed twice with its separator. *)
Lemma qsort_compar_same_directory_undefined_witness :
  qsort_compar strcmp_default (str "top/sub/") (str "top/sub/") = None
  /\ qsort_compar strcmp_natural (str "top/sub/") (str "top/sub/") = None.
Proof.
  apply (qsort_compar_same_directory_undefined (str "top/sub")).
  repeat constructor; lia.
Defined.
